(* ===== verification/_CoqProject ===== *)
-Q . S2P
Prelude.v
Ieee.v
Zend.v
Heap.v
IibinWire.v
IibinSchema.v
IibinEncode.v
IibinDecode.v
IibinRoundtrip.v
IibinMessage.v
IibinDefine.v
IibinSafety.v
IibinProps.v
IibinMemory.v
IibinRegistry.v
Validation.v
Config.v
ConfigModules.v
ConfigProps.v
Ini.v
IniModules.v
IniProps.v
ConfigLayout.v
Lifecycle.v
Cluster.v
ClusterProps.v
ClusterControl.v
ClusterFork.v
ClusterMemory.v
ToolRegistry.v
ToolMemory.v
Pipeline.v
PipelineProps.v
Websocket.v
WebsocketProps.v
WebsocketConn.v
Cors.v
EarlyHints.v
Http1.v
ServerProps.v
Io.v
Interleave.v
Net.v
Sessions.v
SessionProps.v
Polling.v
PollingProps.v
Xdp.v
HttpClient.v
HttpClientProps.v
QuicServer.v
QuicServerProps.v
Http2.v
Http2Props.v
Http2Memory.v
Listeners.v
ListenerProps.v
Mcp.v
McpProps.v
Tickets.v
Resources.v
Objects.v
Cancel.v
ConfigBuild.v
ConfigMemory.v
AdminApi.v
AdminProps.v
AdminRace.v
Signatures.v
IibinLife.v
