(* ===== verification/Prelude.v ===== *)
(** * Verification of the quicpro_async PHP extension

    The program is the C code under [extension/src] and [extension/include]: a PHP
    extension with a binary message format (IIBIN), a configuration system, a process
    supervisor, a pipeline engine, and clients and servers around QUIC, HTTP and TLS.  This
    library translates the parts that carry the extension's own logic into Rocq functions
    and proves what makes them correct.  This file is the root: the outcome type of C code,
    integers at their width, bytes, the shared lemmas, tactics and hint databases.

    ** The parts, their files and their state

    - PHP values: [Zend] has [zval], ordered hash tables, C strings ([cstr], [strncmp_eq]),
      truth and coercions (the engine's own number parsing is the class [ZendConv]);
      [Ieee] has doubles and floats as bit patterns.
    - IIBIN wire format ([include/iibin/iibin_internal.h]): [IibinWire], over a flat memory
      with addresses, in which a load outside the block is [Undefined].
    - IIBIN schemas ([src/iibin/iibin_schema.c]): [IibinSchema].  State: the two registries.
    - IIBIN encoder ([iibin_encoding.c]): [IibinEncode]; decoder ([iibin_decoding.c]):
      [IibinDecode].  Three expressions of the decoder differ from their evident meaning; they
      are the record [decoder], whose instance [as_written] is the source.  [IibinRoundtrip]
      and [IibinMessage] prove the round trip, [IibinDefine] that the define functions keep
      the registries well formed, [IibinSafety] what the decoder does with hostile input;
      [IibinProps] has the properties.
    - The other registry ([src/iibin/iibin_registry.c], which the build leaves out):
      [IibinRegistry].  State: the tables and the lock, for one thread.
    - IIBIN from start to shutdown ([src/iibin/iibin.c], [iibin_api.c]): [IibinLife].  State: the
      engine's classes and the registries, with the names of entries whose request has ended;
      the calls of the two front ends and of a script, and the end of a request, are the
      steps.
    - Memory: [Heap] has allocations as a monad, with triples over the live blocks up to
      permutation.  [IibinMemory], [ToolMemory], [ClusterMemory], [ConfigMemory] and
      [Http2Memory] are the constructors, error paths and destructors of schemas and enums,
      tool handlers, cluster options, configurations and HTTP/2 streams at the level of single
      blocks, over the values of the components' own files; where tables outlive a request and
      their entries do not, the end of the request is part of them.
    - Parameter validators ([src/validation/config_param]): [Validation], one definition per
      C function; [access], the URL parser, [strtod] and two validators without a source are
      the class [ValidationEnv].
    - Configuration ([src/config/<module>/config.c] and [default.c], 22 modules): [Config] has
      the common apply loop, [ConfigModules] a Module per directory with its table of keys and
      its defaults, [ConfigProps] the properties.  State: a module's struct as a map from
      members to values.
    - php.ini and start-up ([src/config/<module>/ini.c] and [index.c], [src/quicpro_init.c]):
      [Ini] has the handlers by kind and the registration, [IniModules] the 22 directive
      tables and the start-up order, [IniProps] the properties.  State: the modules' structs,
      which members point into strings of the engine, and the override flag; the engine's
      parsing of texts is the class [IniEnv].
      [Lifecycle] has the names in the engine's directive table across start-up and shutdown.
    - The modules' structs ([include/config/<module>/base_layer.h]): [ConfigLayout], the
      declared members with their types, against which keys, directives and defaults are
      checked.
    - Configuration objects ([src/config/config.c]): [ConfigBuild].  The twenty modules' own
      functions, declared but defined nowhere, are the class [Modules].
    - Cluster supervisor ([src/cluster/cluster.c]): [Cluster], [ClusterProps].  State: the
      worker pool and the two signal flags; the operating system's answers are inputs, what
      the master does is a list of events.  [ClusterControl] has the PID file and the
      signals sent through it, over the files by path; [ClusterFork] a new worker, from the
      fork to its main function, with signals between any two of its calls.
    - Tool registry and pipeline ([src/pipeline_orchestrator]): [ToolRegistry], [Pipeline],
      [PipelineProps].  State: the handlers by name; per run the step outputs, the last
      condition and (ghost) the tools called.  The MCP call is the class [McpCall].
    - WebSocket frames ([src/server/websocket.c]): [Websocket], [WebsocketProps]; the
      connection as a resource: [WebsocketConn].
    - CORS, early hints, HTTP/1.1 connections ([src/server/cors.c], [early_hints.c],
      [http1.c]): [Cors], [EarlyHints], [Http1], [ServerProps].
    - Programs that call the outside: [Io] has a free monad of calls with their answers,
      runs, and protocols, which say what the environment promises and which calls are
      allowed when.  [Interleave] puts such a program beside another thread that writes what
      it reads, in any order of steps.  [Net] is the signature of sockets, clock and quiche with the protocol
      [ownership]: a handle is used and released only while it is live.
    - Client sessions ([src/client/session.c], [src/connect/connect.c],
      [src/server/session.c], the destructor in [src/php_quicpro.c]): [Sessions], with the
      Modules [Client], [Legacy] and [Object] for the three ways to make one;
      [SessionProps].  State: the members of [quicpro_session_t] that the code uses; its
      declaration is in no file, so the sizes of its arrays are the class [SessionLayout].
    - Event loop (the tick and close of [src/client/session.c], [src/poll/poll.c]):
      [Polling], [PollingProps]; its AF_XDP variant, with libbpf's ring as the class [XskRing]:
      [Xdp].
    - HTTP client ([src/http_client/http_client.c]): [HttpClient], with libcurl as the
      environment and the options as a table, [HttpClientProps].
    - QUIC and HTTP/3 servers ([src/server/index.c], [http3.c]): [QuicServer],
      [QuicServerProps].  State: the sessions by connection id; the destructor of a session,
      which the sources declare and nowhere define, is a call of the environment, and a
      handler is called with the resource registered for it.
    - HTTP/2 server ([src/server/http2.c]): [Http2], [Http2Props].  State: the streams of a
      connection, the connections by address; nghttp2's callbacks are the inputs.
    - Listeners (the listening functions, loops and closing of [http1.c] and [http2.c]):
      [Listeners], [ListenerProps].  One loop over the class [Handler], with an instance per
      server, and the class [HandlerLaws] that its theorems need.  State: the server's
      handles, the connections by address; the protocol [listening] follows what is live,
      which descriptors are registered and what is known of the sockets.
    - MCP client ([src/mcp/mcp.c]): [Mcp], [McpProps].
    - TLS tickets and files ([src/server/tls.c], [src/client/tls.c]): [Tickets].
    - Module and resources ([src/php_quicpro.c]): [Resources].  State: the resource type
      numbers, the engine's resource list, the error text; a script's calls are the steps.
    - Object wrappers ([php_quicpro.h], the creation handler of [src/server/session.c]):
      [Objects].  State: the handler table, the blocks by address; the abstract side is a map
      from objects to sessions.
    - Signatures ([include/php_quicpro_arginfo.h], the blocks of [iibin.c] and [session.c], the
      parameter parsing of the functions, the function tables): [Signatures].
    - Cancellation ([src/server/cancel.c]): [Cancel].  State: a stream's stored callable.
    - Admin API ([src/server/admin_api.c]): [AdminApi], [AdminProps].  The protocol
      [mutual_tls] follows what is live, who owns it and what is known of contexts and
      connections.  [AdminRace] is the thread beside the PHP thread that owns the server
      ([src/server/index.c]).  State: the flag and the request's memory.

    The parts meet in few places: the encoder and the decoder share the registries and the
    wire primitives; the configuration loop calls the validators; the pipeline looks tools
    up in the registry; sessions are made by one component, driven by another, carry the
    tickets of a third and are destroyed by a fourth; the admin API's thread begins with what
    its starter hands over and reads what the PHP thread writes; a worker begins with the
    master's signal handlers; the PID file of a run is what the signal function reads.

    ** What the theorems show

    - IIBIN: what is encoded is decoded, for schemas of scalar and packed fields, also when
      further types are defined or the module is started again in between, until the request
      ends; after that the types are still found and their use is undefined.  On hostile input
      without ten-byte varints, schemas without repeated fields are decoded safely and to
      values of their types; any repeated field leads to the use of a released array on an
      input of a few bytes.  The encoder enforces required fields; schema and enum definitions
      keep the registry invariant; varints, fixed-width integers and zig-zag round trip, with
      exact lengths and bounds.  Two more theorems show that no string decodes and that one
      input of eleven bytes is never finished with.
    - Configuration: each validator accepts exactly the values of the type and specification
      asked for ([check_post]) and stores them unchanged ([stores]);
      every module keeps every member within its check under any sequence of overrides;
      who can change what; complete success and the exact effect of a failure.
    - php.ini: the built-in texts agree with the compiled-in defaults; what php.ini and PHP
      code together can put into a member whose directive is validated, and which overrides
      free a string of the engine; the override flag is what php.ini says.  Two lemmas show that some handlers refuse every value they list
      and that start-up does not get past a handler that calls itself.
    - Configuration objects: in which layers a configuration is built, and when none is.
    - Structs: the modules that agree with their struct are type-safe under any sequence of
      directives and overrides; which do not agree.  Shutdown restores the directive table,
      and one name registered twice loses eleven modules' directives.
    - Memory: whatever the input, definitions and registrations leave exactly the blocks of
      what they stored and, counted exactly, what failed definitions leak; the destructors
      release each block of what is stored once, within the request; destroying a table with
      entries after their request is undefined.  A stream of HTTP/2 gives its blocks back when
      it is closed, and loses them when the connection is.
    - Module: after start-up the session functions refuse every session, and destroying a
      resource never runs the wrong destructor.  Signatures: which declared signatures, read
      as those of the functions their names suggest, accept exactly what these accept.  Objects: the wrappers refine a map, for any
      addresses.
    - Cluster: the restart budget in any window, who is signalled, complete shutdown, the
      order of the privilege drop, that a reload ends all restarts, and that a signal through
      the PID file reaches the running master or nobody; which signals end a new worker, and
      that one sent too early is lost.
    - Pipeline: exactly which tools a run calls and where it stops, and that the value of a
      complete run is a freed table; conditional blocks, stable and exact registration.
    - Server: frame headers and masking round trip; the CORS scan equals its list reading
      and grants nothing to others; early hints stay in bounds; an HTTP/1.1 client gets one
      response and nothing else, and exactly which inputs lead to undefined behaviour.
    - Sessions: in every run, opening gives back all it took or returns a complete session,
      and destroying leaves nothing; where the code leaks, or frees what it borrowed, the
      theorem says exactly what.
    - Event loop: exactly what a tick and each pass of a poll receive, feed, send and answer;
      they go on only while the environment feeds them; the exact condition of a yield; a close
      frame that is never sent; the AF_XDP drain ends and delivers full batches only.
    - HTTP client: the header array, the result of a request in every run (whose body, if there
      is one, has been released), the resources, and that certificate checks are off only on
      request.
    - QUIC servers: creation, the loop and its table against [ownership], with an exact account
      of the sessions made, destroyed and kept; which connection gets a datagram; how the loop
      can end.
    - Listeners: every run of the HTTP/2 listener obeys [listening]: a refusal gives everything
      back, accepted connections own their resources apart from each other, closing releases
      them once and unregisters first (the memory of streams apart); the HTTP/1.1 listener's socket never listens.
    - HTTP/2: streams and connections do not affect each other; which requests are answered;
      response bodies; when the session that does not exist yet is used.
    - MCP, tickets, cancellation: what a request sends, reads and returns, and why it fails;
      imported tickets come
      back until the first poll; the references of a handler balance.
    - Admin API: no byte is exchanged with a client without a verified certificate, and
      everything is released once, by its owner; after the flag is cleared the thread ends
      within fifteen calls, in any order with the PHP thread's steps; a thread that is in its
      loop when the request ends comes to read the flag in released memory.

    ** Fuel

    Encoding recurses on nested messages: the depth of the value is enough
    ([encode_enough_fuel]), a PHP value being a finite tree here; the C recursion has no bound
    for an object that contains itself.  Decoding spends one unit per loop iteration and
    nesting level: one more than the number of input bytes is enough where
    [iibin_decode_safe] applies, and no amount is on the input of [as_written_hangs].  The
    CORS scan uses one more than the length of the policy, and its equivalence theorem
    implies that this is enough.  The supervisor and the HTTP connections run over finite
    histories of inputs.  The loops of [Polling], [Mcp] and [AdminApi] spend one unit per
    round, and their theorems say that they run out only when the environment has kept them
    going that long; the server loops of [QuicServer] end only on an error of [epoll_wait],
    so their theorems hold for any fuel, as do those of [ListenerProps] for any number of
    rounds.  The header parser of [HttpClient] is total; the drain of [Xdp] needs one unit for
    each 64 entries of its ring and one more.

    ** Not modelled

    PHP values that contain themselves; threads in the registry of types;
    [qp_config_security_policy_apply], which the start-up of the security module calls and no
    file declares or defines; texts of exceptions and log output; [quicpro_poll] with its
    AF_XDP branch, which is not built by default (the drain itself is in [Xdp]);
    [quicpro_ini.c], whose directive table names members of types that have none; handing the
    session class to the engine, which no code does; the information page; functions whose
    bodies are placeholders ([resolve_input_source_value], [log_pipeline_event], and those
    that only warn that they are not implemented); structs and prototypes in headers that no
    source file uses ([cluster_opts.h], [cors.h]). *)

From Stdlib Require Import ZArith Lia String Strings.Byte.
From stdpp Require Import base tactics list gmap strings.

Local Open Scope Z_scope.

(* ------------------------------------------------------------------------ *)
(** ** Outcomes of C code

    A C function either finishes, returns [FAILURE] (with a typed error, when
    the source throws one), runs into undefined behaviour (an out-of-bounds
    load, a use of freed storage, a type confusion), or is still running when
    the fuel of the model is used up. *)

Inductive outcome (E A : Type) : Type :=
| Done (a : A)
| Failed (e : E)
| Undefined
| NoFuel.
Arguments Done {E A} a.
Arguments Failed {E A} e.
Arguments Undefined {E A}.
Arguments NoFuel {E A}.

Definition obind {E A B} (m : outcome E A) (k : A -> outcome E B) : outcome E B :=
  match m with
  | Done a => k a
  | Failed e => Failed e
  | Undefined => Undefined
  | NoFuel => NoFuel
  end.

Declare Scope outcome_scope.
Delimit Scope outcome_scope with outcome.
Notation "'let!' x ':=' m 'in' k" := (obind m (fun x => k))
  (at level 10, x name, m at level 100, k at level 200)
  : outcome_scope.
Notation "'let!' ' x ':=' m 'in' k" := (obind m (fun x => k))
  (at level 10, x strict pattern, m at level 100, k at level 200)
  : outcome_scope.
Open Scope outcome_scope.

Lemma obind_Done {E A B} (m : outcome E A) (k : A -> outcome E B) b :
  obind m k = Done b -> exists a, m = Done a /\ k a = Done b.
Proof. destruct m; simpl; intros; simplify_eq; eauto. Qed.

(** [inv_done] splits every hypothesis that says a sequence of steps finished
    into the facts that each step finished. *)
Ltac inv_done :=
  repeat match goal with
  | H : obind _ _ = Done _ |- _ =>
      apply obind_Done in H; let a := fresh "r" in let E := fresh "E" in
      destruct H as (a & E & H); simpl in H
  | H : Done _ = Done _ |- _ => injection H as H; subst
  | H : Failed _ = Done _ |- _ => discriminate H
  | H : Undefined = Done _ |- _ => discriminate H
  | H : NoFuel = Done _ |- _ => discriminate H
  end.

(** [returns Q o]: the computation comes back, without undefined behaviour; when
    it delivers a value, [Q] holds of it. *)
Definition returns {E A} (Q : A -> Prop) (o : outcome E A) : Prop :=
  match o with Done a => Q a | Failed _ => True | Undefined | NoFuel => False end.

Lemma returns_bind {E A B} (P : A -> Prop) (Q : B -> Prop) (o : outcome E A) k :
  returns P o -> (forall a, P a -> returns Q (k a)) -> returns Q (obind o k).
Proof. destruct o; simpl; auto. Qed.

Lemma returns_mono {E A} (P Q : A -> Prop) (o : outcome E A) :
  returns P o -> (forall a, P a -> Q a) -> returns Q o.
Proof. destruct o; simpl; auto. Qed.

Definition terminates {E A} (o : outcome E A) : Prop := o <> NoFuel.

Lemma terminates_bind {E A B} (o : outcome E A) (k : A -> outcome E B) :
  terminates o -> (forall a, terminates (k a)) -> terminates (obind o k).
Proof. unfold terminates. destruct o; simpl; auto. Qed.

(* ------------------------------------------------------------------------ *)
(** ** Machine integers *)

Definition u8 (z : Z) : Z := z mod 2 ^ 8.
Definition u32 (z : Z) : Z := z mod 2 ^ 32.
Definition u64 (z : Z) : Z := z mod 2 ^ 64.
(** The two's complement reading of the low [w] bits. *)
Definition sext (w z : Z) : Z := (z + 2 ^ (w - 1)) mod 2 ^ w - 2 ^ (w - 1).
Definition s32 (z : Z) : Z := sext 32 z.
Definition s64 (z : Z) : Z := sext 64 z.

Lemma u8_range z : 0 <= u8 z < 2 ^ 8.
Proof. apply Z.mod_pos_bound; lia. Qed.
Lemma u32_range z : 0 <= u32 z < 2 ^ 32.
Proof. apply Z.mod_pos_bound; lia. Qed.
Lemma u64_range z : 0 <= u64 z < 2 ^ 64.
Proof. apply Z.mod_pos_bound; lia. Qed.

Lemma u32_small z : 0 <= z < 2 ^ 32 -> u32 z = z.
Proof. intros; apply Z.mod_small; lia. Qed.
Lemma u64_small z : 0 <= z < 2 ^ 64 -> u64 z = z.
Proof. intros; apply Z.mod_small; lia. Qed.

Lemma sext_range w z : 0 < w -> - 2 ^ (w - 1) <= sext w z < 2 ^ (w - 1).
Proof.
  intros Hw. unfold sext.
  assert (H2 : 2 ^ w = 2 * 2 ^ (w - 1)) by (rewrite <- Z.pow_succ_r by lia; f_equal; lia).
  assert (0 < 2 ^ (w - 1)) by (apply Z.pow_pos_nonneg; lia).
  pose proof (Z.mod_pos_bound (z + 2 ^ (w - 1)) (2 ^ w)). lia.
Qed.

Lemma sext_small w z : 0 < w -> - 2 ^ (w - 1) <= z < 2 ^ (w - 1) -> sext w z = z.
Proof.
  intros Hw Hz. unfold sext.
  assert (H2 : 2 ^ w = 2 * 2 ^ (w - 1)) by (rewrite <- Z.pow_succ_r by lia; f_equal; lia).
  rewrite Z.mod_small by lia. lia.
Qed.
Lemma s32_small z : - 2 ^ 31 <= z < 2 ^ 31 -> s32 z = z.
Proof. intros. unfold s32. apply sext_small; simpl; lia. Qed.
Lemma s64_small z : - 2 ^ 63 <= z < 2 ^ 63 -> s64 z = z.
Proof. intros. unfold s64. apply sext_small; simpl; lia. Qed.

(** Sign extension only looks at the low bits. *)
Lemma sext_mod w n z : 0 < w <= n -> sext w (z mod 2 ^ n) = sext w z.
Proof.
  intros Hw. unfold sext. f_equal.
  rewrite <- (Zplus_mod_idemp_l (z mod 2 ^ n)), <- (Zplus_mod_idemp_l z). do 2 f_equal.
  replace (2 ^ n) with (2 ^ w * 2 ^ (n - w)) by (rewrite <- Z.pow_add_r by lia; f_equal; lia).
  rewrite Z.rem_mul_r by (try apply Z.pow_nonzero; try apply Z.pow_pos_nonneg; lia).
  rewrite <- Zplus_mod_idemp_r, Z.mul_comm, Z_mod_mult, Z.add_0_r, Zmod_mod. done.
Qed.

Lemma sext_congr w z : 0 < w -> sext w z mod 2 ^ w = z mod 2 ^ w.
Proof.
  intros Hw. unfold sext.
  rewrite Zminus_mod_idemp_l. f_equal. lia.
Qed.

(* ------------------------------------------------------------------------ *)
(** ** Bits *)

Lemma bits_above r s i : 0 <= r < 2 ^ s -> s <= i -> Z.testbit r i = false.
Proof.
  intros Hr Hi. destruct (Z.eq_dec r 0) as [->|]; [apply Z.bits_0|].
  assert (0 <= s) by (destruct (Z.le_gt_cases 0 s); [done|]; rewrite Z.pow_neg_r in Hr by lia; lia).
  apply Z.bits_above_log2; [lia|].
  apply Z.lt_le_trans with s; [|done]. apply Z.log2_lt_pow2; lia.
Qed.

(** Or-ing in a value above the used bits is an addition. *)
Lemma lor_shiftl_add r x s : 0 <= s -> 0 <= r < 2 ^ s -> 0 <= x ->
  Z.lor r (Z.shiftl x s) = r + x * 2 ^ s.
Proof.
  intros Hs Hr Hx.
  assert (Hd : Z.land r (Z.shiftl x s) = 0).
  { apply Z.bits_inj'; intros i Hi. rewrite Z.land_spec, Z.bits_0.
    destruct (Z.lt_ge_cases i s).
    - rewrite Z.shiftl_spec_low by lia. apply andb_false_r.
    - by rewrite (bits_above r s) by lia. }
  rewrite <- Z.shiftl_mul_pow2, Z.add_nocarry_lxor, Z.lxor_lor by done. done.
Qed.

Lemma land_ones_mod z n : 0 <= n -> Z.land z (2 ^ n - 1) = z mod 2 ^ n.
Proof. intros. rewrite <- Z.land_ones by done. f_equal. rewrite Z.ones_equiv. lia. Qed.

(* ------------------------------------------------------------------------ *)
(** ** Bytes

    [unsigned char] values are [Byte.byte]; [b2z] reads one and [z2b] stores
    the low eight bits of an integer. *)

Abbreviation byte := Byte.byte.

Definition b2z (b : byte) : Z := Z.of_N (Byte.to_N b).
Definition z2b (z : Z) : byte :=
  match Byte.of_N (Z.to_N (u8 z)) with Some b => b | None => Byte.x00 end.

Lemma b2z_range b : 0 <= b2z b < 256.
Proof. unfold b2z. pose proof (Byte.to_N_bounded b). lia. Qed.

Lemma b2z_z2b z : b2z (z2b z) = u8 z.
Proof.
  unfold b2z, z2b. pose proof (u8_range z).
  destruct (Byte.of_N (Z.to_N (u8 z))) as [b|] eqn:E.
  - apply Byte.to_of_N in E. rewrite E. lia.
  - apply Byte.of_N_None_iff in E. lia.
Qed.

Lemma z2b_b2z b : z2b (b2z b) = b.
Proof.
  unfold z2b. pose proof (b2z_range b).
  unfold u8. rewrite Z.mod_small by lia.
  unfold b2z. rewrite N2Z.id, Byte.of_to_N. done.
Qed.

#[export] Instance byte_eq_dec : EqDecision byte.
Proof. intros x y; unfold Decision; destruct (Byte.byte_eq_dec x y); auto. Defined.

Create HintDb quicpro.
Create Rewrite HintDb quicpro.
#[export] Hint Resolve u8_range u32_range u64_range b2z_range : quicpro.
#[export] Hint Rewrite b2z_z2b z2b_b2z : quicpro.

(* ------------------------------------------------------------------------ *)
(** ** Boolean list predicates *)

Lemma forallb_Forall {A} (p : A -> bool) (P : A -> Prop) l :
  (forall x, p x = true <-> P x) -> forallb p l = true <-> Forall P l.
Proof.
  intros Hp. induction l as [|x l IH]; simpl; [by split|].
  rewrite andb_true_iff, Hp, IH, Forall_cons. done.
Qed.

Lemma existsb_elem_of {A} (p : A -> bool) (P : A -> Prop) l :
  (forall x, p x = true <-> P x) -> existsb p l = true <-> exists x, x ∈ l /\ P x.
Proof.
  intros Hp. rewrite existsb_exists. setoid_rewrite <- list_elem_of_In. by setoid_rewrite Hp.
Qed.

(* ------------------------------------------------------------------------ *)
(** ** Strings *)

#[local] Arguments String.append !_ _ / : simpl nomatch.

Lemma str_app_assoc (a b c : string) : ((a ++ b) ++ c = a ++ b ++ c)%string.
Proof. induction a as [|x a IH]; simpl; [done|by rewrite IH]. Qed.

Lemma str_app_nil (a : string) : (a ++ "" = a)%string.
Proof. induction a as [|x a IH]; simpl; [done|by rewrite IH]. Qed.

Lemma length_str_app (a b : string) : String.length (a ++ b)%string = (String.length a + String.length b)%nat.
Proof. induction a as [|x a IH]; simpl; [done|by rewrite IH]. Qed.

(** The pieces of a text joined. *)
Definition concats (l : list string) : string := foldr String.append EmptyString l.

Lemma concats_app a b : concats (a ++ b) = (concats a ++ concats b)%string.
Proof. induction a as [|x a IH]; [done|]. cbn [concats foldr app]. fold (concats (a ++ b)). by rewrite IH, str_app_assoc. Qed.
