(* ===== verification/Ieee.v ===== *)
(** * IEEE-754 conversions on bit patterns

    A PHP [double] is kept as its 64-bit pattern and a C [float] as its 32-bit
    pattern, because the wire format of [extension/src/iibin/] copies the
    patterns.  This file gives the conversions C performs between them: [(double)n]
    for a [zend_long], [(float)d] and [(double)f], round to nearest even, and the
    ordering of doubles.  Rounding is [SpecFloat]'s. *)

From Stdlib Require Import ZArith Lia.
From Corelib Require Import Floats.SpecFloat.
From S2P Require Import Prelude.

Local Open Scope Z_scope.

(** A binary format with [ebits] exponent and [mbits] fraction bits. *)
Record format := { ebits : Z; mbits : Z }.
Definition binary64 : format := {| ebits := 11; mbits := 52 |}.
Definition binary32 : format := {| ebits := 8; mbits := 23 |}.

Definition f_prec (f : format) : Z := mbits f + 1.
Definition f_emax (f : format) : Z := 2 ^ (ebits f - 1).
Definition sign_bit (f : format) : Z := 2 ^ (ebits f + mbits f).
Definition exp_mask (f : format) : Z := 2 ^ ebits f - 1.

Definition bits_sign (f : format) (z : Z) : bool := Z.testbit z (ebits f + mbits f).
Definition bits_exp (f : format) (z : Z) : Z := Z.land (Z.shiftr z (mbits f)) (exp_mask f).
Definition bits_frac (f : format) (z : Z) : Z := Z.land z (2 ^ mbits f - 1).

Definition is_nan (f : format) (z : Z) : bool :=
  (bits_exp f z =? exp_mask f) && negb (bits_frac f z =? 0).

(** The value a bit pattern denotes ([S754_nan] for every NaN). *)
Definition sf_of_bits (f : format) (z : Z) : spec_float :=
  let s := bits_sign f z in
  let e := bits_exp f z in
  let m := bits_frac f z in
  if e =? exp_mask f then (if m =? 0 then S754_infinity s else S754_nan)
  else if e =? 0 then
    match m with
    | Zpos p => S754_finite s p (emin (f_prec f) (f_emax f))
    | _ => S754_zero s
    end
  else
    match m + 2 ^ mbits f with
    | Zpos p => S754_finite s p (e - 1 + emin (f_prec f) (f_emax f))
    | _ => S754_nan
    end.

Definition bits_of_sf (f : format) (x : spec_float) : Z :=
  let sgn (s : bool) := if s then sign_bit f else 0 in
  match x with
  | S754_zero s => sgn s
  | S754_infinity s => sgn s + exp_mask f * 2 ^ mbits f
  | S754_nan => exp_mask f * 2 ^ mbits f + 2 ^ (mbits f - 1)
  | S754_finite s m e =>
      sgn s +
      (if Zpos m <? 2 ^ mbits f then Zpos m
       else (e + 1 - emin (f_prec f) (f_emax f)) * 2 ^ mbits f + (Zpos m - 2 ^ mbits f))
  end.

(** Rounding a value into a format. *)
Definition sf_round (f : format) (x : spec_float) : spec_float :=
  match x with
  | S754_finite s m e =>
      binary_normalize (f_prec f) (f_emax f) (if s then Zneg m else Zpos m) e s
  | y => y
  end.

(** [(double)n] for an integer. *)
Definition double_of_long (n : Z) : Z :=
  bits_of_sf binary64 (binary_normalize (f_prec binary64) (f_emax binary64) n 0 false).

(** [(float)d]; a NaN keeps its sign and the top of its payload and becomes quiet. *)
Definition float_of_double (d : Z) : Z :=
  if is_nan binary64 d then
    (if bits_sign binary64 d then sign_bit binary32 else 0)
    + Z.lor (exp_mask binary32 * 2 ^ 23 + 2 ^ 22) (Z.shiftr (bits_frac binary64 d) 29)
  else bits_of_sf binary32 (sf_round binary32 (sf_of_bits binary64 d)).

(** [(double)f]. *)
Definition double_of_float (x : Z) : Z :=
  if is_nan binary32 x then
    (if bits_sign binary32 x then sign_bit binary64 else 0)
    + Z.lor (exp_mask binary64 * 2 ^ 52 + 2 ^ 51) (Z.shiftl (bits_frac binary32 x) 29)
  else bits_of_sf binary64 (sf_round binary64 (sf_of_bits binary32 x)).

(** [x < y] on doubles: false when either is a NaN. *)
Definition double_ltb (x y : Z) : bool :=
  SFltb (sf_of_bits binary64 x) (sf_of_bits binary64 y).

Example double_of_long_1 : double_of_long 1 = 0x3FF0000000000000.
Proof. reflexivity. Qed.
Example double_of_long_m3 : double_of_long (-3) = 0xC008000000000000.
Proof. reflexivity. Qed.
Example double_of_long_odd : double_of_long (2 ^ 53 + 1) = 0x4340000000000000.
Proof. reflexivity. Qed.
Example float_of_double_tenth : float_of_double 0x3FB999999999999A = 0x3DCCCCCD.
Proof. reflexivity. Qed.
Example double_of_float_tenth : double_of_float 0x3DCCCCCD = 0x3FB99999A0000000.
Proof. reflexivity. Qed.
Example float_overflow : float_of_double 0x47F0000000000000 = 0x7F800000.
Proof. reflexivity. Qed.
Example float_subnormal : double_of_float (float_of_double 0x36A0000000000000) = 0x36A0000000000000.
Proof. reflexivity. Qed.

(** A NaN is not ordered. *)
Lemma sf_of_nan f z : is_nan f z = true -> sf_of_bits f z = S754_nan.
Proof.
  unfold is_nan, sf_of_bits. intros [He Hf]%andb_prop. rewrite He.
  destruct (bits_frac f z =? 0); [discriminate Hf|reflexivity].
Qed.

Lemma double_ltb_nan_l x y : is_nan binary64 x = true -> double_ltb x y = false.
Proof. intros Hn. unfold double_ltb. rewrite (sf_of_nan _ _ Hn). reflexivity. Qed.

Lemma double_ltb_nan_r x y : is_nan binary64 y = true -> double_ltb x y = false.
Proof.
  intros Hn. unfold double_ltb. rewrite (sf_of_nan _ _ Hn).
  destruct (sf_of_bits binary64 x) as [| | |[]]; reflexivity.
Qed.
