(* ===== verification/Zend.v ===== *)
(** * The PHP values the extension works on

    The fragment of the Zend engine API that the C sources use: [zval]s, ordered
    hash tables with integer and string keys, truthiness and the numeric
    coercions.  The engine itself is not part of the repository; what is fixed by
    its documentation and used by the code is defined here, and the coercions of
    strings and of doubles to integers, whose tables live in the engine, are the
    operations of the class [ZendConv]. *)

From Stdlib Require Import ZArith Lia String Ascii.
From stdpp Require Import base tactics list strings.
From S2P Require Import Prelude Ieee.

Local Open Scope Z_scope.
Set Warnings "-register-all,-clear-no-such-hyp".

(** Hash keys: an integer index or a string. *)
Inductive hkey := KInt (n : Z) | KStr (s : string).
#[export] Instance hkey_eq_dec : EqDecision hkey.
Proof. solve_decision. Defined.

(** PHP values as finite trees, references followed.  A PHP object or array that contains itself
    is no such tree: what is said of functions that walk a value is said of values without
    cycles.  [ZFreed] is a slot whose payload has been released while the slot is still
    reachable: any use of it is undefined behaviour. *)
Inductive zval :=
| ZUndef
| ZNull
| ZFalse
| ZTrue
| ZLong (n : Z)
| ZDouble (bits : Z)
| ZString (s : string)
| ZArray (ht : list (hkey * zval))
| ZObject (props : list (hkey * zval))
| ZResource (id : Z)
| ZFreed.

Abbreviation hashtable := (list (hkey * zval)).

Definition zbool (b : bool) : zval := if b then ZTrue else ZFalse.

(** Whether the value has a reference-counted payload. *)
Definition refcounted (v : zval) : bool :=
  match v with
  | ZString _ | ZArray _ | ZObject _ | ZResource _ | ZFreed => true
  | _ => false
  end.

(* ------------------------------------------------------------------------ *)
(** ** Hash tables *)

Fixpoint ht_find (k : hkey) (ht : hashtable) : option zval :=
  match ht with
  | [] => None
  | (k', v) :: ht' => if decide (k = k') then Some v else ht_find k ht'
  end.

Definition ht_exists (k : hkey) (ht : hashtable) : bool :=
  match ht_find k ht with Some _ => true | None => false end.

(** Replace in place, or append at the end. *)
Fixpoint ht_update (k : hkey) (v : zval) (ht : hashtable) : hashtable :=
  match ht with
  | [] => [(k, v)]
  | (k', v') :: ht' =>
      if decide (k = k') then (k', v) :: ht' else (k', v') :: ht_update k v ht'
  end.

(** The next free integer index: one past the largest used one. *)
Fixpoint ht_next (ht : hashtable) : Z :=
  match ht with
  | [] => 0
  | (KInt n, _) :: ht' => Z.max (n + 1) (ht_next ht')
  | (KStr _, _) :: ht' => ht_next ht'
  end.

Definition ht_push (v : zval) (ht : hashtable) : hashtable := ht ++ [(KInt (ht_next ht), v)].

(** The list array [v0, v1, ...] with indices from [n]. *)
Fixpoint enum_from (n : Z) (vs : list zval) : hashtable :=
  match vs with
  | [] => []
  | v :: vs' => (KInt n, v) :: enum_from (n + 1) vs'
  end.

Definition ht_keys (ht : hashtable) : list hkey := map fst ht.
Definition ht_values (ht : hashtable) : list zval := map snd ht.

(** The prefix of a PHP string that C code sees through a [char *]. *)
Fixpoint cstr (s : string) : string :=
  match s with
  | EmptyString => EmptyString
  | String c s' => if decide (c = Ascii.zero) then EmptyString else String c (cstr s')
  end.

(** [strncmp(a, b, n) == 0]. *)
Fixpoint strncmp_eq (a b : string) (n : nat) : bool :=
  match n with
  | O => true
  | S n' =>
      match a, b with
      | EmptyString, EmptyString => true
      | EmptyString, String c _ | String c _, EmptyString => bool_decide (c = Ascii.zero)
      | String c a', String c' b' =>
          if decide (c = c') then
            (if decide (c = Ascii.zero) then true else strncmp_eq a' b' n')
          else false
      end
  end.

(** [s + n]. *)
Fixpoint str_drop (n : nat) (s : string) : string :=
  match n, s with
  | O, _ => s
  | S n', String _ s' => str_drop n' s'
  | S _, EmptyString => EmptyString
  end.

(** Decimal digits of a canonical PHP integer key. *)
Definition digit_of (c : ascii) : option Z :=
  let n := Z.of_nat (nat_of_ascii c) in
  if (48 <=? n) && (n <=? 57) then Some (n - 48) else None.

Fixpoint digits_value (acc : Z) (s : string) : option Z :=
  match s with
  | EmptyString => Some acc
  | String c s' =>
      match digit_of c with Some d => digits_value (acc * 10 + d) s' | None => None end
  end.

(** What [atoi] and [%d] of [scanf] take from a text: white space, and the digits at the
    front. *)
Definition is_space (c : ascii) : bool :=
  let n := nat_of_ascii c in (n =? 32)%nat || ((9 <=? n) && (n <=? 13))%nat.

Fixpoint skip_spaces (s : string) : string :=
  match s with
  | String c s' => if is_space c then skip_spaces s' else s
  | EmptyString => s
  end.

Fixpoint leading_digits (acc : Z) (s : string) : Z :=
  match s with
  | String c s' => match digit_of c with Some d => leading_digits (10 * acc + d) s' | None => acc end
  | EmptyString => acc
  end.

(** [ZEND_HANDLE_NUMERIC_STR]: the key under which [zend_symtable_*] functions
    store a string: a canonical decimal integer becomes an integer key. *)
Definition symtable_key (s : string) : hkey :=
  let num (neg : bool) (t : string) :=
    match t with
    | String c t' =>
        if decide (c = "0"%char) then
          (if decide (t' = EmptyString) then (if neg then None else Some 0) else None)
        else match digits_value 0 t with
             | Some n => let z := if neg then - n else n in
                         if (- 2 ^ 63 <? z) && (z <? 2 ^ 63) then Some z else None
             | None => None
             end
    | EmptyString => None
    end in
  let r := match s with
           | String c t => if decide (c = "-"%char) then num true t else num false s
           | EmptyString => None
           end in
  match r with Some n => KInt n | None => KStr s end.

(* ------------------------------------------------------------------------ *)
(** ** Coercions *)

Definition zend_is_true (v : zval) : bool :=
  match v with
  | ZUndef | ZNull | ZFalse | ZFreed => false
  | ZTrue | ZObject _ => true
  | ZLong n => negb (n =? 0)
  | ZDouble d => negb (Z.land d (2 ^ 63 - 1) =? 0)
  | ZString s => negb (bool_decide (s = EmptyString) || bool_decide (s = "0"%string))
  | ZArray ht => negb (bool_decide (ht = []))
  | ZResource id => negb (id =? 0)
  end.

(** Coercions whose definition is in the engine: [zval_get_long] and
    [zval_get_double] on strings, on doubles and on objects. *)
Class ZendConv := {
  str_to_long : string -> Z;
  str_to_double : string -> Z;
  dval_to_long : Z -> Z;
  obj_to_long : hashtable -> Z;
  obj_to_double : hashtable -> Z;
}.

Section Coercions.
Context `{ZendConv}.

Definition zval_get_long (v : zval) : Z :=
  match v with
  | ZUndef | ZNull | ZFalse | ZFreed => 0
  | ZTrue => 1
  | ZLong n => n
  | ZDouble d => dval_to_long d
  | ZString s => str_to_long s
  | ZArray ht => if decide (ht = []) then 0 else 1
  | ZObject p => obj_to_long p
  | ZResource id => id
  end.

Definition zval_get_double (v : zval) : Z :=
  match v with
  | ZUndef | ZNull | ZFalse | ZFreed => 0
  | ZTrue => double_of_long 1
  | ZLong n => double_of_long n
  | ZDouble d => d
  | ZString s => str_to_double s
  | ZArray ht => if decide (ht = []) then 0 else double_of_long 1
  | ZObject p => obj_to_double p
  | ZResource id => double_of_long id
  end.
End Coercions.

(** A concrete engine for examples: decimal strings without sign or fraction,
    every other string coerces to 0; doubles outside the examples' range to 0. *)
Definition demo_conv : ZendConv := {|
  str_to_long s := match digits_value 0 s with Some n => n | None => 0 end;
  str_to_double s := match digits_value 0 s with Some n => double_of_long n | None => 0 end;
  dval_to_long _ := 0;
  obj_to_long _ := 1;
  obj_to_double _ := double_of_long 1;
|}.

(* ------------------------------------------------------------------------ *)
(** ** Lemmas *)

Lemma ht_find_update_eq k v ht : ht_find k (ht_update k v ht) = Some v.
Proof.
  induction ht as [|[k' v'] ht IH]; simpl.
  - by rewrite decide_True.
  - destruct (decide (k = k')) as [->|]; simpl; [by rewrite decide_True | by rewrite decide_False].
Qed.

Lemma ht_find_update_ne k k' v ht : k <> k' -> ht_find k (ht_update k' v ht) = ht_find k ht.
Proof.
  intros Hne. induction ht as [|[k2 v2] ht IH]; simpl.
  - by rewrite decide_False.
  - destruct (decide (k' = k2)) as [->|]; simpl; destruct (decide (k = k2)); congruence.
Qed.

Lemma ht_update_fresh k v ht : ht_find k ht = None -> ht_update k v ht = ht ++ [(k, v)].
Proof.
  induction ht as [|[k' v'] ht IH]; simpl; [done|].
  destruct (decide (k = k')); [done|]. intros; by rewrite IH.
Qed.

Lemma ht_find_app k ht1 ht2 :
  ht_find k (ht1 ++ ht2) = match ht_find k ht1 with Some v => Some v | None => ht_find k ht2 end.
Proof.
  induction ht1 as [|[k' v'] ht IH]; simpl; [done|].
  destruct (decide (k = k')); [done|]. apply IH.
Qed.

Lemma ht_find_None k ht : ht_find k ht = None <-> k ∉ ht_keys ht.
Proof.
  induction ht as [|[k' v'] ht IH]; simpl.
  - split; [by intros _ ?%elem_of_nil | done].
  - rewrite not_elem_of_cons. destruct (decide (k = k')); naive_solver.
Qed.

Lemma ht_update_snoc k v v' ht :
  ht_find k ht = None -> ht_update k v' (ht ++ [(k, v)]) = ht ++ [(k, v')].
Proof.
  induction ht as [|[k2 v2] ht IH]; simpl.
  - by rewrite decide_True.
  - destruct (decide (k = k2)); [done|]. intros; by rewrite IH.
Qed.

Lemma ht_next_enum n vs : 0 <= n -> ht_next (enum_from n vs) = if decide (vs = []) then 0 else n + Z.of_nat (length vs).
Proof.
  revert n. induction vs as [|v vs IH]; intros n Hn; [done|].
  simpl. rewrite IH by lia.
  destruct (decide (vs = [])) as [->|]; simpl; [lia|]. lia.
Qed.

Lemma enum_from_app n vs ws :
  enum_from n (vs ++ ws) = enum_from n vs ++ enum_from (n + Z.of_nat (length vs)) ws.
Proof.
  revert n. induction vs as [|v vs IH]; intros n; simpl.
  - do 2 f_equal. lia.
  - rewrite IH. do 3 f_equal. lia.
Qed.

(** Appending to a list array extends the list. *)
Lemma ht_push_enum v vs : ht_push v (enum_from 0 vs) = enum_from 0 (vs ++ [v]).
Proof.
  unfold ht_push. rewrite enum_from_app, ht_next_enum by lia. simpl.
  destruct (decide (vs = [])) as [->|]; done.
Qed.

Lemma length_enum_from n vs : length (enum_from n vs) = length vs.
Proof. revert n; induction vs; intros; simpl; auto. Qed.

Lemma ht_values_enum n vs : ht_values (enum_from n vs) = vs.
Proof. revert n; induction vs; intros; simpl; f_equal; auto. Qed.

#[export] Hint Rewrite ht_find_update_eq ht_push_enum length_enum_from ht_values_enum : quicpro.
