(* ===== verification/Heap.v ===== *)
(** * Memory

    Constructors and destructors at the level of single allocations: the live blocks are a
    list, in which order does not matter; a reference taken on a PHP value and the storage
    of an embedded hash table count as blocks too.  Releasing a block that is not live is
    undefined.

    [triple P m phi] says what [m] makes of the blocks [P], whatever else is live: it comes
    back, leaves everything else alone, and [phi] holds of its result and of the blocks that
    [P] has become.  Blocks are lists up to permutation, so that a balance is a permutation
    and needs no argument about which blocks are distinct. *)

From Stdlib Require Import ZArith Lia.
From stdpp Require Import base tactics list.
From S2P Require Import Prelude.

Local Open Scope Z_scope.

(** The next address, and the live blocks. *)
Definition heap : Type := Z * list Z.
Definition mem (A : Type) : Type := heap -> outcome unit (A * heap).

Definition mret {A} (a : A) : mem A := fun h => Done (a, h).
Definition mbind {A B} (m : mem A) (k : A -> mem B) : mem B :=
  fun h => let! '(a, h) := m h in k a h.

Declare Scope mem_scope.
Delimit Scope mem_scope with mem.
Notation "'let$' x ':=' m 'in' k" := (mbind m (fun x => k))
  (at level 10, x name, m at level 100, k at level 200) : mem_scope.
Notation "'let$' ' x ':=' m 'in' k" := (mbind m (fun x => k))
  (at level 10, x strict pattern, m at level 100, k at level 200) : mem_scope.
Open Scope mem_scope.

(** [emalloc], [ecalloc], [estrdup], [zend_hash_init], [ZVAL_COPY]. *)
Definition emalloc : mem Z := fun h => Done (h.1, (h.1 + 1, h.1 :: h.2)).
Fixpoint list_remove (p : Z) (l : list Z) : option (list Z) :=
  match l with
  | [] => None
  | q :: l' => if q =? p then Some l' else match list_remove p l' with Some k => Some (q :: k) | None => None end
  end.

(** [efree], [zend_hash_destroy], [zval_ptr_dtor]. *)
Definition efree (p : Z) : mem unit :=
  fun h => match list_remove p h.2 with Some l => Done (tt, (h.1, l)) | None => Undefined end.

(** [if (p) efree(p);] *)
Definition efree_if (p : option Z) : mem unit := match p with Some p => efree p | None => mret tt end.
Definition emalloc_if (b : bool) : mem (option Z) :=
  if b then let$ p := emalloc in mret (Some p) else mret None.

Fixpoint each {A} (f : A -> mem unit) (l : list A) : mem unit :=
  match l with [] => mret tt | a :: l' => let$ _ := f a in each f l' end.

Definition is_some {A} (o : option A) : bool := match o with Some _ => true | None => false end.
Definition is_done {E A} (o : outcome E A) : bool := match o with Done _ => true | _ => false end.

(** [if (error) return FAILURE], with the struct as it is by then. *)
Definition unless {E A B C} (o : outcome E A) (st : B) (k : A -> mem (outcome E C * B)) : mem (outcome E C * B) :=
  match o with
  | Done a => k a
  | Failed e => mret (Failed e, st)
  | Undefined => mret (Undefined, st)
  | NoFuel => mret (NoFuel, st)
  end.

(** The blocks behind an optional pointer. *)
Definition ptr (p : option Z) : list Z := match p with Some p => [p] | None => [] end.

(* ------------------------------------------------------------------------ *)
(** ** Triples *)

Definition triple {A} (P : list Z) (m : mem A) (phi : A -> list Z -> Prop) : Prop :=
  forall n L F, L ≡ₚ P ++ F -> exists a n' L' S, m (n, L) = Done (a, (n', L')) /\ L' ≡ₚ S ++ F /\ phi a S.

#[export] Instance triple_proper {A} :
  Proper ((≡ₚ) ==> eq ==> eq ==> iff) (@triple A).
Proof.
  intros P P' HP m m' <- phi phi' <-. unfold triple. split; intros H n L F HL; apply H; by rewrite HL, HP.
Qed.

Lemma triple_mono {A} P (m : mem A) (phi psi : A -> list Z -> Prop) :
  triple P m phi -> (forall a S, phi a S -> psi a S) -> triple P m psi.
Proof. intros Hm Hi n L F HL. destruct (Hm n L F HL) as (a & n' & L' & S & E & HS & Hp). exists a, n', L', S. eauto. Qed.

Lemma triple_ret {A} P (a : A) (phi : A -> list Z -> Prop) : phi a P -> triple P (mret a) phi.
Proof. intros Hp n L F HL. by exists a, n, L, P. Qed.

Lemma triple_bind {A B} P (m : mem A) (k : A -> mem B) phi psi :
  triple P m phi -> (forall a S, phi a S -> triple S (k a) psi) -> triple P (mbind m k) psi.
Proof.
  intros Hm Hk n L F HL. destruct (Hm n L F HL) as (a & n' & L' & S & E & HS & Hp).
  destruct (Hk a S Hp n' L' F HS) as (b & n2 & L2 & S2 & E2 & HS2 & Hp2).
  exists b, n2, L2, S2. split; [|done]. unfold mbind. rewrite E. exact E2.
Qed.

(** The rest of the blocks is left alone. *)
Lemma triple_frame {A} P R (m : mem A) phi :
  triple P m phi -> triple (P ++ R) m (fun a S' => exists S, S' ≡ₚ S ++ R /\ phi a S).
Proof.
  intros Hm n L F HL. destruct (Hm n L (R ++ F)) as (a & n' & L' & S & E & HS & Hp).
  { by rewrite HL, app_assoc. }
  exists a, n', L', (S ++ R). split; [done|]. split; [by rewrite HS, app_assoc|eauto].
Qed.

Lemma triple_emalloc P (phi : Z -> list Z -> Prop) : (forall p, phi p (p :: P)) -> triple P emalloc phi.
Proof. intros Hp n L F HL. exists n, (n + 1), (n :: L), (n :: P). split; [done|]. split; [by rewrite HL|apply Hp]. Qed.

Lemma list_remove_in p l : p ∈ l -> exists k, list_remove p l = Some k /\ l ≡ₚ p :: k.
Proof.
  induction l as [|q l IH]; [by intros ?%elem_of_nil|]. intros Hp. cbn [list_remove]. destruct (Z.eqb_spec q p) as [->|Hne]; [eauto|].
  apply elem_of_cons in Hp as [->|Hp]; [done|]. destruct (IH Hp) as (k & -> & Hk). exists (q :: k). split; [done|].
  rewrite Hk. constructor.
Qed.

Lemma list_remove_notin p l : p ∉ l -> list_remove p l = None.
Proof.
  induction l as [|q l IH]; intros Hp; [done|]. apply not_elem_of_cons in Hp as [Hne Hp]. cbn [list_remove].
  by rewrite (proj2 (Z.eqb_neq q p)), IH by done.
Qed.

Lemma triple_efree p P P' (phi : unit -> list Z -> Prop) : P ≡ₚ p :: P' -> phi tt P' -> triple P (efree p) phi.
Proof.
  intros HP Hp n L F HL. assert (HL' : L ≡ₚ p :: (P' ++ F)) by (by rewrite HL, HP).
  destruct (list_remove_in p L) as (k & E & Hk); [rewrite HL'; by left|].
  exists tt, n, k, P'. unfold efree. cbn [fst snd]. rewrite E. split; [done|]. split; [|done].
  apply (Permutation_cons_inv (a := p)). by rewrite <- Hk.
Qed.

(** The steps of a constructor: an allocation, a call that starts from nothing. *)
Lemma triple_alloc {A} P (k : Z -> mem A) phi : (forall p, triple (p :: P) (k p) phi) -> triple P (mbind emalloc k) phi.
Proof. intros Hk. eapply triple_bind; [apply (triple_emalloc P (fun p S => S = p :: P)); done|]. by intros p S ->. Qed.

Lemma triple_alloc_opt {A} P b (k : option Z -> mem A) phi :
  (forall p, is_some p = b -> triple (ptr p ++ P) (k p) phi) -> triple P (mbind (emalloc_if b) k) phi.
Proof.
  intros Hk. eapply (triple_bind _ _ _ (fun p S => S = ptr p ++ P /\ is_some p = b)); [|by intros p S [-> ?]; apply Hk].
  destruct b; [|by apply triple_ret]. apply triple_alloc. intros p. by apply triple_ret.
Qed.

Lemma triple_alloc_if {A} P b (k : option Z -> mem A) phi :
  (forall p, triple (ptr p ++ P) (k p) phi) -> triple P (mbind (emalloc_if b) k) phi.
Proof.
  intros Hk. eapply (triple_bind _ _ _ (fun p S => S = ptr p ++ P)); [|by intros p S ->].
  destruct b; [|by apply triple_ret]. apply triple_alloc. intros p. by apply triple_ret.
Qed.

Lemma triple_call {A B} P (m : mem A) (k : A -> mem B) phi psi :
  triple [] m phi -> (forall a S, phi a S -> triple (S ++ P) (k a) psi) -> triple P (mbind m k) psi.
Proof.
  intros Hm Hk. eapply triple_bind; [apply (triple_frame [] P), Hm|].
  intros a S' (S & HS & Hp). rewrite HS. by apply Hk.
Qed.

(** What a destructor does with the blocks it is given, among others. *)
Definition destroys (m : mem unit) (P : list Z) : Prop := triple P m (fun _ S => S ≡ₚ []).

Lemma destroys_among m P R (phi : unit -> list Z -> Prop) : destroys m P -> (forall S, S ≡ₚ R -> phi tt S) ->
  triple (P ++ R) m phi.
Proof.
  intros Hm Hp. eapply triple_mono; [by apply triple_frame|]. intros [] S (S0 & HS & H0). apply Hp. by rewrite HS, H0.
Qed.

Lemma destroys_efree p : destroys (efree p) [p].
Proof. by eapply triple_efree. Qed.
Lemma destroys_efree_if p : destroys (efree_if p) (ptr p).
Proof. destruct p; [apply destroys_efree|by apply triple_ret]. Qed.
Lemma destroys_ret : destroys (mret tt) [].
Proof. by apply triple_ret. Qed.

Lemma destroys_bind m k P R : destroys m P -> destroys k R -> destroys (mbind m (fun _ => k)) (P ++ R).
Proof.
  intros Hm Hk. eapply triple_bind; [apply (destroys_among m P R (fun _ S => S ≡ₚ R)); done|].
  intros [] S HS. unfold destroys in Hk. by rewrite HS.
Qed.

Lemma destroys_each {A} (f : A -> mem unit) (own : A -> list Z) l :
  (forall a, destroys (f a) (own a)) -> destroys (each f l) (concat (map own l)).
Proof.
  intros Hf. induction l as [|a l IH]; [apply destroys_ret|]. cbn [each map concat]. by apply destroys_bind.
Qed.

(** A release in the middle of a function, and a step that does nothing. *)
Lemma triple_release {A} P Q R m (k : unit -> mem A) phi : destroys m Q -> P ≡ₚ Q ++ R ->
  triple R (k tt) phi -> triple P (mbind m k) phi.
Proof.
  intros Hm -> Hk. eapply triple_bind; [apply (destroys_among m Q R (fun _ S => S ≡ₚ R)); done|].
  intros [] S HS. by rewrite HS.
Qed.
Lemma triple_skip {A} P (k : unit -> mem A) phi : triple P (k tt) phi -> triple P (mbind (mret tt) k) phi.
Proof. intros Hk. by apply (triple_release P [] P); [apply destroys_ret| |]. Qed.

#[export] Instance destroys_proper m : Proper ((≡ₚ) ==> iff) (destroys m).
Proof. intros P P' HP. unfold destroys. by rewrite HP. Qed.

Create HintDb mem.
#[export] Hint Resolve destroys_efree destroys_efree_if destroys_ret destroys_bind : mem.

(** From an empty heap: what a triple says of a run. *)
Lemma triple_run {A} (m : mem A) phi n : triple [] m phi ->
  exists a n' L, m (n, []) = Done (a, (n', L)) /\ exists S, L ≡ₚ S /\ phi a S.
Proof.
  intros Hm. destruct (Hm n [] []) as (a & n' & L' & S & E & HS & Hp); [done|].
  exists a, n', L'. split; [done|]. exists S. by rewrite app_nil_r in HS.
Qed.
