(* ===== verification/IibinWire.v ===== *)
(** * IIBIN wire primitives

    [extension/include/iibin/iibin_internal.h]: varints, little-endian fixed-width integers
    and zig-zag, written to a [smart_str] (a list of appended bytes) and read
    through a pair of C pointers into a flat memory block. *)

From Stdlib Require Import ZArith Lia.
From stdpp Require Import base tactics list.
From S2P Require Import Prelude.

Local Open Scope Z_scope.

(* ------------------------------------------------------------------------ *)
(** ** Flat memory

    A block of readable bytes at an address; pointers are 64-bit addresses and
    pointer arithmetic wraps as the generated code does. *)

Record mem := Mem { m_base : Z; m_bytes : list byte }.

Definition ptr_add (p n : Z) : Z := u64 (p + n).

Definition load (m : mem) (p : Z) : option byte :=
  if p <? m_base m then None else nth_error (m_bytes m) (Z.to_nat (p - m_base m)).

(** [len] bytes from [p], when all of them are readable. *)
Definition load_range (m : mem) (p len : Z) : option (list byte) :=
  if (p <? m_base m) || (m_base m + Z.of_nat (length (m_bytes m)) <? p + len) || (len <? 0)
  then None
  else Some (take (Z.to_nat len) (drop (Z.to_nat (p - m_base m)) (m_bytes m))).

(** User-space blocks: never in the first page's first 256 addresses, never in
    the upper half of the address space. *)
Definition mem_wf (m : mem) : Prop :=
  256 <= m_base m /\ m_base m + Z.of_nat (length (m_bytes m)) < 2 ^ 63.

(* ------------------------------------------------------------------------ *)
(** ** Varints *)

(** [do { ... } while (value > 0 && i < 10)]: [i] counts from 0, so at most ten
    bytes are produced; [n] is [10 - i]. *)
Fixpoint encode_varint_loop (n : nat) (value : Z) : list byte :=
  match n with
  | O => []
  | S n' =>
      let b := Z.land value 0x7F in
      let value' := Z.shiftr value 7 in
      let b' := if value' >? 0 then Z.lor b 0x80 else b in
      z2b b' :: (if value' >? 0 then encode_varint_loop n' value' else [])
  end.

Definition quicpro_iibin_encode_varint (value : Z) : list byte :=
  encode_varint_loop 10 (u64 value).

Fixpoint decode_varint_loop {E} (fail : E) (n : nat) (m : mem) (ptr buf_end result shift : Z)
  : outcome E (Z * Z) :=
  match n with
  | O => Failed fail
  | S n' =>
      if ptr >=? buf_end then Failed fail
      else match load m ptr with
           | None => Undefined
           | Some b =>
               let byte := b2z b in
               let ptr' := ptr_add ptr 1 in
               let result' := Z.lor result (u64 (Z.shiftl (Z.land byte 0x7F) shift)) in
               if Z.land byte 0x80 =? 0 then Done (result', ptr')
               else decode_varint_loop fail n' m ptr' buf_end result' (shift + 7)
           end
  end.

(** Returns the value and the advanced pointer, or [Failed fail] for [return 0]. *)
Definition quicpro_iibin_decode_varint {E} (fail : E) (m : mem) (ptr buf_end : Z)
  : outcome E (Z * Z) :=
  decode_varint_loop fail 10 m ptr buf_end 0 0.

(* ------------------------------------------------------------------------ *)
(** ** Fixed-width integers *)

Definition quicpro_iibin_encode_fixed32 (value : Z) : list byte :=
  let v := u32 value in
  [z2b v; z2b (Z.shiftr v 8); z2b (Z.shiftr v 16); z2b (Z.shiftr v 24)].

Definition quicpro_iibin_encode_fixed64 (value : Z) : list byte :=
  let v := u64 value in
  [z2b v; z2b (Z.shiftr v 8); z2b (Z.shiftr v 16); z2b (Z.shiftr v 24);
   z2b (Z.shiftr v 32); z2b (Z.shiftr v 40); z2b (Z.shiftr v 48); z2b (Z.shiftr v 56)].

(** [ptr[0] | ptr[1] << 8 | ...] *)
Fixpoint le_or (bs : list byte) (shift : Z) : Z :=
  match bs with
  | [] => 0
  | b :: bs' => Z.lor (Z.shiftl (b2z b) shift) (le_or bs' (shift + 8))
  end.

Definition decode_fixed {E} (fail : E) (n : Z) (m : mem) (ptr buf_end : Z) : outcome E (Z * Z) :=
  if ptr_add ptr n >? buf_end then Failed fail
  else match load_range m ptr n with
       | None => Undefined
       | Some bs => Done (le_or bs 0, ptr_add ptr n)
       end.

Definition quicpro_iibin_decode_fixed32 {E} (fail : E) (m : mem) (ptr buf_end : Z) :=
  decode_fixed fail 4 m ptr buf_end.

Definition quicpro_iibin_decode_fixed64 {E} (fail : E) (m : mem) (ptr buf_end : Z) :=
  decode_fixed fail 8 m ptr buf_end.

(* ------------------------------------------------------------------------ *)
(** ** Zig-zag

    [n << 1] and [n >> 31] are the two's complement shifts of the target; the
    result is the unsigned reading. *)

Definition quicpro_iibin_zigzag_encode32 (n : Z) : Z :=
  u32 (Z.lxor (s32 (Z.shiftl n 1)) (Z.shiftr n 31)).

Definition quicpro_iibin_zigzag_decode32 (n : Z) : Z :=
  s32 (Z.lxor (Z.shiftr n 1) (u32 (- Z.land n 1))).

Definition quicpro_iibin_zigzag_encode64 (n : Z) : Z :=
  u64 (Z.lxor (s64 (Z.shiftl n 1)) (Z.shiftr n 63)).

Definition quicpro_iibin_zigzag_decode64 (n : Z) : Z :=
  s64 (Z.lxor (Z.shiftr n 1) (u64 (- Z.land n 1))).

(* ------------------------------------------------------------------------ *)
(** ** Byte sequences in memory *)

(** The bytes [bs] are stored at address [p]. *)
Definition bytes_at (m : mem) (p : Z) (bs : list byte) : Prop :=
  exists pre post, m_bytes m = pre ++ bs ++ post /\ p = m_base m + Z.of_nat (length pre).

Lemma bytes_at_app m p bs cs :
  bytes_at m p (bs ++ cs) <-> bytes_at m p bs /\ bytes_at m (p + Z.of_nat (length bs)) cs.
Proof.
  split.
  - intros (pre & post & Hm & ->). split.
    + exists pre, (cs ++ post). by rewrite Hm, <- app_assoc.
    + exists (pre ++ bs), post. rewrite Hm, length_app, <- !app_assoc. split; [done|lia].
  - intros [(pre & post & Hm & ->) (pre2 & post2 & Hm2 & Hp)].
    exists pre, post2. split; [|done].
    assert (Hpre2 : pre2 = pre ++ bs).
    { rewrite Hm in Hm2.
      transitivity (take (length (pre ++ bs)) (pre ++ bs ++ post)).
      - rewrite Hm2. rewrite take_app_length'; [done|]. rewrite length_app. lia.
      - rewrite app_assoc. by rewrite take_app_length. }
    rewrite Hm2, Hpre2, <- !app_assoc. done.
Qed.

Lemma bytes_at_cons m p b bs :
  bytes_at m p (b :: bs) <-> bytes_at m p [b] /\ bytes_at m (p + 1) bs.
Proof. change (b :: bs) with ([b] ++ bs). rewrite bytes_at_app. done. Qed.

Lemma bytes_at_load m p b bs : bytes_at m p (b :: bs) -> load m p = Some b.
Proof.
  intros (pre & post & Hm & ->). unfold load.
  destruct (Z.ltb_spec (m_base m + Z.of_nat (length pre)) (m_base m)); [lia|].
  replace (Z.to_nat _) with (length pre) by lia.
  rewrite Hm. rewrite nth_error_app2, Nat.sub_diag by lia. done.
Qed.

Lemma bytes_at_load_range m p bs :
  bytes_at m p bs -> load_range m p (Z.of_nat (length bs)) = Some bs.
Proof.
  intros (pre & post & Hm & ->). unfold load_range. rewrite Hm, !length_app.
  destruct (Z.ltb_spec (m_base m + Z.of_nat (length pre)) (m_base m)); [lia|].
  destruct (Z.ltb_spec (m_base m + Z.of_nat (length pre + (length bs + length post)))
              (m_base m + Z.of_nat (length pre) + Z.of_nat (length bs))); [lia|].
  destruct (Z.ltb_spec (Z.of_nat (length bs)) 0); [lia|]. simpl.
  replace (Z.to_nat (m_base m + _ - _)) with (length pre) by lia.
  rewrite drop_app_length, Nat2Z.id, take_app_length. done.
Qed.

Lemma bytes_at_range m p bs : bytes_at m p bs ->
  m_base m <= p /\ p + Z.of_nat (length bs) <= m_base m + Z.of_nat (length (m_bytes m)).
Proof. intros (pre & post & Hm & ->). rewrite Hm, !length_app. lia. Qed.

Lemma ptr_add_small m p n :
  mem_wf m -> m_base m <= p -> 0 <= n -> p + n < 2 ^ 64 -> ptr_add p n = p + n.
Proof. intros [? ?] ???. unfold ptr_add. apply u64_small. lia. Qed.

(* ------------------------------------------------------------------------ *)
(** ** Varint lemmas *)

Lemma byte_flag_clear v : 0 <= v < 128 -> Z.land v 0x80 = 0.
Proof.
  intros. apply Z.bits_inj'; intros i Hi. rewrite Z.land_spec, Z.bits_0.
  change 0x80 with (2 ^ 7). rewrite Z.pow2_bits_eqb by lia.
  destruct (Z.eqb_spec 7 i) as [<-|]; [|apply andb_false_r].
  rewrite (bits_above v 7) by lia. done.
Qed.

Lemma byte_flag_set v : 0 <= v < 128 -> Z.lor v 0x80 = v + 128.
Proof.
  intros. change (Z.lor v (Z.shiftl 1 7) = v + 128). rewrite lor_shiftl_add by lia. lia.
Qed.

Lemma land_7f v : Z.land v 0x7F = v mod 128.
Proof. change 0x7F with (2 ^ 7 - 1). rewrite land_ones_mod by lia. done. Qed.

Lemma flag_of_set v : 0 <= v < 128 -> Z.land (v + 128) 0x80 = 128.
Proof.
  intros. rewrite <- byte_flag_set by done.
  rewrite Z.land_lor_distr_l, byte_flag_clear by done. done.
Qed.

Lemma b2z_z2b_small v : 0 <= v < 256 -> b2z (z2b v) = v.
Proof. intros. rewrite b2z_z2b. unfold u8. apply Z.mod_small. lia. Qed.

Lemma lor_u64_shiftl r v s : 0 <= v -> 0 <= s -> 0 <= r < 2 ^ s -> v * 2 ^ s < 2 ^ 64 ->
  Z.lor r (u64 (Z.shiftl v s)) = r + v * 2 ^ s.
Proof.
  intros. rewrite u64_small by (rewrite Z.shiftl_mul_pow2 by lia; nia).
  by rewrite lor_shiftl_add.
Qed.

(** One loop iteration of the encoder. *)
Lemma encode_varint_loop_step n v : 0 <= v ->
  encode_varint_loop (S n) v =
  if v <? 128 then [z2b v] else z2b (v mod 128 + 128) :: encode_varint_loop n (v / 128).
Proof.
  intros Hv. cbn [encode_varint_loop]. rewrite land_7f, Z.shiftr_div_pow2 by lia.
  change (2 ^ 7) with 128.
  pose proof (Z.mod_pos_bound v 128 ltac:(lia)).
  destruct (Z.ltb_spec v 128).
  - rewrite Z.div_small, Z.mod_small by lia. done.
  - assert (0 < v / 128) by (apply Z.div_str_pos; lia).
    destruct (Z.gtb_spec (v / 128) 0); [|lia]. rewrite byte_flag_set by lia. done.
Qed.

Lemma decode_varint_loop_last {E} (fail : E) n m p e r s v bs :
  bytes_at m p (z2b v :: bs) -> mem_wf m -> p < e -> e <= m_base m + Z.of_nat (length (m_bytes m)) ->
  0 <= v < 128 -> 0 <= s -> 0 <= r < 2 ^ s -> v * 2 ^ s < 2 ^ 64 ->
  decode_varint_loop fail (S n) m p e r s = Done (r + v * 2 ^ s, p + 1).
Proof.
  intros Hat Hwf Hpe He Hv Hs Hr Hvs. cbn [decode_varint_loop].
  pose proof (bytes_at_range _ _ _ Hat) as Hrg. pose proof Hwf as [? ?].
  destruct (Z.geb_spec p e); [lia|].
  rewrite (bytes_at_load _ _ _ _ Hat), b2z_z2b_small by lia.
  rewrite byte_flag_clear, land_7f, Z.mod_small by lia. simpl.
  rewrite (ptr_add_small m) by (done || lia).
  rewrite lor_u64_shiftl by lia. done.
Qed.

Lemma decode_varint_loop_more {E} (fail : E) n m p e r s v bs :
  bytes_at m p (z2b (v + 128) :: bs) -> mem_wf m -> p < e ->
  e <= m_base m + Z.of_nat (length (m_bytes m)) ->
  0 <= v < 128 -> 0 <= s -> 0 <= r < 2 ^ s -> v * 2 ^ s < 2 ^ 64 ->
  decode_varint_loop fail (S n) m p e r s =
  decode_varint_loop fail n m (p + 1) e (r + v * 2 ^ s) (s + 7).
Proof.
  intros Hat Hwf Hpe He Hv Hs Hr Hvs. cbn [decode_varint_loop].
  pose proof (bytes_at_range _ _ _ Hat) as Hrg. pose proof Hwf as [? ?].
  destruct (Z.geb_spec p e); [lia|].
  rewrite (bytes_at_load _ _ _ _ Hat), b2z_z2b_small by lia.
  rewrite flag_of_set, land_7f by lia. simpl.
  rewrite <- (Z.mul_1_l 128) at 1. rewrite Z_mod_plus_full, Z.mod_small by lia.
  rewrite (ptr_add_small m) by (done || lia).
  rewrite lor_u64_shiftl by lia. done.
Qed.

Lemma varint_loop_roundtrip {E} (fail : E) n m p e r v :
  (n <= 9)%nat -> mem_wf m -> e <= m_base m + Z.of_nat (length (m_bytes m)) ->
  0 <= v < 2 ^ (7 * Z.of_nat n + 1) -> 0 <= r < 2 ^ (63 - 7 * Z.of_nat n) ->
  bytes_at m p (encode_varint_loop (S n) v) ->
  p + Z.of_nat (length (encode_varint_loop (S n) v)) <= e ->
  decode_varint_loop fail (S n) m p e r (63 - 7 * Z.of_nat n) =
  Done (r + v * 2 ^ (63 - 7 * Z.of_nat n), p + Z.of_nat (length (encode_varint_loop (S n) v))).
Proof.
  revert p r v. induction n as [|n IH]; intros p r v Hn Hwf He Hv Hr Hat Hlen;
    rewrite encode_varint_loop_step in * by lia.
  - destruct (Z.ltb_spec v 128); [|lia]. cbn [length] in *.
    apply decode_varint_loop_last with []; done || lia.
  - assert (Hpow : 2 ^ (7 * Z.of_nat (S n) + 1) * 2 ^ (63 - 7 * Z.of_nat (S n)) = 2 ^ 64)
      by (rewrite <- Z.pow_add_r by lia; f_equal; lia).
    assert (0 < 2 ^ (63 - 7 * Z.of_nat (S n))) by (apply Z.pow_pos_nonneg; lia).
    destruct (Z.ltb_spec v 128).
    + cbn [length] in *. apply decode_varint_loop_last with []; try (done || lia). nia.
    + cbn [length] in *.
      pose proof (Z.mod_pos_bound v 128 ltac:(lia)). pose proof (Z.div_mod v 128 ltac:(lia)).
      assert (0 < v / 128) by (apply Z.div_str_pos; lia).
      rewrite (decode_varint_loop_more _ _ _ _ _ _ _ _ _ Hat) by (done || lia || nia).
      apply bytes_at_cons in Hat as [_ Hat].
      replace (63 - 7 * Z.of_nat (S n) + 7) with (63 - 7 * Z.of_nat n) by lia.
      assert (Hs : 2 ^ (63 - 7 * Z.of_nat n) = 128 * 2 ^ (63 - 7 * Z.of_nat (S n)))
        by (change 128 with (2 ^ 7); rewrite <- Z.pow_add_r by lia; f_equal; lia).
      assert (Hv2 : 2 ^ (7 * Z.of_nat (S n) + 1) = 128 * 2 ^ (7 * Z.of_nat n + 1))
        by (change 128 with (2 ^ 7); rewrite <- Z.pow_add_r by lia; f_equal; lia).
      rewrite (IH _ _ (v / 128)); try (done || lia || nia).
      f_equal. f_equal; [|lia]. rewrite Hs. nia.
Qed.

(** Decoding an encoded varint returns the value and the address just past it. *)
Lemma decode_encode_varint {E} (fail : E) m p e v :
  mem_wf m -> e <= m_base m + Z.of_nat (length (m_bytes m)) ->
  bytes_at m p (quicpro_iibin_encode_varint v) ->
  p + Z.of_nat (length (quicpro_iibin_encode_varint v)) <= e ->
  quicpro_iibin_decode_varint fail m p e =
  Done (u64 v, p + Z.of_nat (length (quicpro_iibin_encode_varint v))).
Proof.
  intros Hwf He Hat Hlen. unfold quicpro_iibin_decode_varint, quicpro_iibin_encode_varint in *.
  pose proof (u64_range v).
  pose proof (varint_loop_roundtrip fail 9 m p e 0 (u64 v)) as H9.
  change (63 - 7 * Z.of_nat 9) with 0 in H9. rewrite Z.mul_1_r, Z.add_0_l in H9.
  apply H9; try (done || lia).
Qed.

Lemma encode_varint_loop_length n v k : 0 <= v < 2 ^ (7 * Z.of_nat n) -> (0 < n)%nat ->
  length (encode_varint_loop n v) = k <->
  (1 <= k <= n)%nat /\ v < 2 ^ (7 * Z.of_nat k) /\ (k = 1%nat \/ 2 ^ (7 * Z.of_nat (k - 1)) <= v).
Proof.
  revert v k. induction n as [|n IH]; intros v k Hv Hn; [lia|].
  rewrite encode_varint_loop_step by lia.
  destruct (Z.ltb_spec v 128) as [Hs|Hs]; cbn [length].
  - split.
    + intros <-. split; [lia|]. split; [change (2 ^ _) with 128; lia | auto].
    + intros (Hk & _ & [?|Hlo]); [lia|]. destruct k as [|[|k]]; [lia|lia|].
      assert (128 <= 2 ^ (7 * Z.of_nat (S (S k) - 1))); [|lia].
      change 128 with (2 ^ 7). apply Z.pow_le_mono_r; lia.
  - assert (Hp : forall j : nat, 2 ^ (7 * Z.of_nat (S j)) = 128 * 2 ^ (7 * Z.of_nat j)).
    { intros j. change 128 with (2 ^ 7). rewrite <- Z.pow_add_r by lia. f_equal. lia. }
    assert (Hn' : (0 < n)%nat) by (destruct n; [change (2 ^ _) with 128 in Hv; lia | lia]).
    assert (Hd : 0 <= v / 128 < 2 ^ (7 * Z.of_nat n)).
    { rewrite Hp in Hv. split; [apply Z.div_pos; lia | apply Z.div_lt_upper_bound; lia]. }
    assert (0 < v / 128) by (apply Z.div_str_pos; lia).
    destruct k as [|k]; [lia|].
    rewrite Nat.succ_inj_wd, (IH _ _ Hd Hn'), Hp.
    assert (Hlt : v / 128 < 2 ^ (7 * Z.of_nat k) <-> v < 128 * 2 ^ (7 * Z.of_nat k)).
    { split; intros Hx; [|apply Z.div_lt_upper_bound; lia].
      pose proof (Z.mod_pos_bound v 128 ltac:(lia)). pose proof (Z.div_mod v 128 ltac:(lia)). nia. }
    destruct k as [|k].
    + split; [lia|]. rewrite Z.mul_1_r. lia.
    + replace (S (S k) - 1)%nat with (S k) by lia. replace (S k - 1)%nat with k by lia.
      rewrite Hlt, Hp. destruct k as [|k]; [change (2 ^ (7 * Z.of_nat 0)) with 1 in *; lia|].
      assert (Hge : 2 ^ (7 * Z.of_nat (S k)) <= v / 128 <-> 128 * 2 ^ (7 * Z.of_nat (S k)) <= v).
      { split; intros Hx; [|apply Z.div_le_lower_bound; lia].
        pose proof (Z.mod_pos_bound v 128 ltac:(lia)). pose proof (Z.div_mod v 128 ltac:(lia)). nia. }
      rewrite Hge. lia.
Qed.

Lemma encode_varint_nonempty v : (1 <= length (quicpro_iibin_encode_varint v))%nat.
Proof.
  unfold quicpro_iibin_encode_varint. pose proof (u64_range v).
  rewrite (encode_varint_loop_step 9) by lia. destruct (_ <? _); cbn [length]; lia.
Qed.

(** The decoder is memory safe on any input, and moves forward by one to ten bytes. *)
Lemma decode_varint_loop_safe {E} (fail : E) n m p e r s :
  mem_wf m -> m_base m <= p -> e <= m_base m + Z.of_nat (length (m_bytes m)) ->
  match decode_varint_loop fail n m p e r s with
  | Done (_, p') => p < p' <= p + Z.of_nat n /\ p' <= e
  | Failed _ => True
  | _ => False
  end.
Proof.
  intros Hwf. pose proof Hwf as [? ?]. revert p r s.
  induction n as [|n IH]; intros p r s Hp He; [done|]. cbn [decode_varint_loop].
  destruct (Z.geb_spec p e); [done|].
  unfold load. destruct (Z.ltb_spec p (m_base m)); [lia|].
  destruct (nth_error (m_bytes m) (Z.to_nat (p - m_base m))) eqn:Hl.
  2:{ apply nth_error_None in Hl. lia. }
  rewrite (ptr_add_small m) by (done || lia).
  destruct (Z.land (b2z b) 128 =? 0); [lia|].
  specialize (IH (p + 1)
    (Z.lor r (u64 (Z.shiftl (Z.land (b2z b) 127) s))) (s + 7) ltac:(lia) He).
  destruct (decode_varint_loop _ _ _ _ _ _ _) as [[? ?]|?| |]; try done. lia.
Qed.

Lemma decode_varint_range {E} (fail : E) n m p e r s v p' : 0 <= r < 2 ^ 64 ->
  decode_varint_loop fail n m p e r s = Done (v, p') -> 0 <= v < 2 ^ 64.
Proof.
  revert p r s. induction n as [|n IH]; intros p r s Hr; [done|]. cbn [decode_varint_loop].
  destruct (p >=? e); [done|]. destruct (load m p); [|done].
  set (r' := Z.lor r _). assert (0 <= r' < 2 ^ 64) as Hr'.
  { subst r'. pose proof (u64_range (Z.shiftl (Z.land (b2z b) 127) s)) as Hu.
    split; [apply Z.lor_nonneg; lia|].
    destruct (Z.eq_dec (Z.lor r (u64 (Z.shiftl (Z.land (b2z b) 127) s))) 0) as [->|]; [lia|].
    apply Z.log2_lt_pow2; [pose proof (proj2 (Z.lor_nonneg r (u64 (Z.shiftl (Z.land (b2z b) 127) s)))); lia|].
    rewrite Z.log2_lor by lia. apply Z.max_lub_lt.
    - destruct (Z.eq_dec r 0) as [->|]; [done|]. apply Z.log2_lt_pow2; lia.
    - destruct (Z.eq_dec (u64 (Z.shiftl (Z.land (b2z b) 127) s)) 0) as [->|]; [done|].
      apply Z.log2_lt_pow2; lia. }
  destruct (_ =? _); [intros; simplify_eq; done|]. by apply IH.
Qed.

(* ------------------------------------------------------------------------ *)
(** ** Fixed-width lemmas *)

(** The little-endian bytes of an integer, low byte first. *)
Fixpoint le_split (n : nat) (v : Z) : list byte :=
  match n with O => [] | S n' => z2b v :: le_split n' (Z.shiftr v 8) end.

Lemma length_le_split n v : length (le_split n v) = n.
Proof. revert v; induction n; intros; simpl; auto. Qed.

Lemma le_or_split n v s : 0 <= s -> 0 <= v ->
  le_or (le_split n v) s = (v mod 2 ^ (8 * Z.of_nat n)) * 2 ^ s.
Proof.
  revert v s. induction n as [|n IH]; intros v s Hs Hv; cbn [le_split le_or].
  - change (2 ^ _) with 1 at 1. rewrite Z.mod_1_r. done.
  - rewrite b2z_z2b, IH by (rewrite ?Z.shiftr_nonneg; lia).
    pose proof (u8_range v) as Hu.
    assert (Hs8 : 2 ^ (s + 8) = 256 * 2 ^ s) by (rewrite Z.pow_add_r by lia; lia).
    rewrite Z.shiftl_mul_pow2, <- (Z.shiftl_mul_pow2 _ (s + 8)) by lia.
    assert (0 < 2 ^ s) by (apply Z.pow_pos_nonneg; lia).
    rewrite lor_shiftl_add, Hs8 by (try apply Z.mod_pos_bound; try nia; apply Z.pow_pos_nonneg; lia).
    rewrite Z.shiftr_div_pow2 by lia. unfold u8.
    replace (2 ^ (8 * Z.of_nat (S n))) with (2 ^ 8 * 2 ^ (8 * Z.of_nat n))
      by (rewrite <- Z.pow_add_r by lia; f_equal; lia).
    rewrite Z.rem_mul_r by (try apply Z.pow_pos_nonneg; lia). nia.
Qed.

Lemma encode_fixed32_split v : quicpro_iibin_encode_fixed32 v = le_split 4 (u32 v).
Proof. unfold quicpro_iibin_encode_fixed32. cbn [le_split]. rewrite !Z.shiftr_shiftr by lia. done. Qed.

Lemma encode_fixed64_split v : quicpro_iibin_encode_fixed64 v = le_split 8 (u64 v).
Proof. unfold quicpro_iibin_encode_fixed64. cbn [le_split]. rewrite !Z.shiftr_shiftr by lia. done. Qed.

Lemma length_encode_fixed32 v : length (quicpro_iibin_encode_fixed32 v) = 4%nat.
Proof. done. Qed.
Lemma length_encode_fixed64 v : length (quicpro_iibin_encode_fixed64 v) = 8%nat.
Proof. done. Qed.

Lemma decode_fixed_split {E} (fail : E) n m p e v :
  mem_wf m -> e <= m_base m + Z.of_nat (length (m_bytes m)) -> 0 <= v ->
  bytes_at m p (le_split n v) -> p + Z.of_nat n <= e ->
  decode_fixed fail (Z.of_nat n) m p e = Done (v mod 2 ^ (8 * Z.of_nat n), p + Z.of_nat n).
Proof.
  intros Hwf He Hv Hat Hlen. unfold decode_fixed.
  pose proof (bytes_at_range _ _ _ Hat) as Hr. pose proof Hwf as [? ?].
  rewrite (ptr_add_small m) by (done || lia).
  destruct (Z.gtb_spec (p + Z.of_nat n) e); [lia|].
  rewrite <- (length_le_split n v) at 1.
  rewrite (bytes_at_load_range _ _ _ Hat), le_or_split by lia. f_equal. f_equal. lia.
Qed.

Lemma decode_encode_fixed32 {E} (fail : E) m p e v :
  mem_wf m -> e <= m_base m + Z.of_nat (length (m_bytes m)) ->
  bytes_at m p (quicpro_iibin_encode_fixed32 v) -> p + 4 <= e ->
  quicpro_iibin_decode_fixed32 fail m p e = Done (u32 v, p + 4).
Proof.
  rewrite encode_fixed32_split. intros ????. pose proof (u32_range v).
  unfold quicpro_iibin_decode_fixed32. change 4 with (Z.of_nat 4).
  rewrite (decode_fixed_split _ _ _ _ _ (u32 v)) by (done || lia).
  rewrite Z.mod_small by (change (2 ^ _) with (2 ^ 32); lia). done.
Qed.

Lemma decode_encode_fixed64 {E} (fail : E) m p e v :
  mem_wf m -> e <= m_base m + Z.of_nat (length (m_bytes m)) ->
  bytes_at m p (quicpro_iibin_encode_fixed64 v) -> p + 8 <= e ->
  quicpro_iibin_decode_fixed64 fail m p e = Done (u64 v, p + 8).
Proof.
  rewrite encode_fixed64_split. intros ????. pose proof (u64_range v).
  unfold quicpro_iibin_decode_fixed64. change 8 with (Z.of_nat 8).
  rewrite (decode_fixed_split _ _ _ _ _ (u64 v)) by (done || lia).
  rewrite Z.mod_small by (change (2 ^ _) with (2 ^ 64); lia). done.
Qed.

Lemma decode_fixed_safe {E} (fail : E) n m p e :
  mem_wf m -> m_base m <= p <= e -> e <= m_base m + Z.of_nat (length (m_bytes m)) -> 0 < n < 256 ->
  match decode_fixed fail n m p e with
  | Done (_, p') => p' = p + n /\ p' <= e
  | Failed _ => True
  | _ => False
  end.
Proof.
  intros Hwf Hp He Hn. pose proof Hwf as [? ?]. unfold decode_fixed.
  rewrite (ptr_add_small m) by (done || lia).
  destruct (Z.gtb_spec (p + n) e); [done|]. unfold load_range.
  destruct (Z.ltb_spec p (m_base m)); [lia|].
  destruct (Z.ltb_spec (m_base m + Z.of_nat (length (m_bytes m))) (p + n)); [lia|].
  destruct (Z.ltb_spec n 0); [lia|]. simpl. lia.
Qed.

(* ------------------------------------------------------------------------ *)
(** ** Zig-zag lemmas, at any width *)

Definition zz_enc (w n : Z) : Z := Z.lxor (sext w (Z.shiftl n 1)) (Z.shiftr n (w - 1)) mod 2 ^ w.
Definition zz_dec (w n : Z) : Z := sext w (Z.lxor (Z.shiftr n 1) ((- Z.land n 1) mod 2 ^ w)).

Lemma zigzag_encode32_zz n : quicpro_iibin_zigzag_encode32 n = zz_enc 32 n.
Proof. unfold quicpro_iibin_zigzag_encode32, zz_enc, s32, u32. reflexivity. Qed.
Lemma zigzag_decode32_zz n : quicpro_iibin_zigzag_decode32 n = zz_dec 32 n.
Proof. unfold quicpro_iibin_zigzag_decode32, zz_dec, s32, u32. reflexivity. Qed.
Lemma zigzag_encode64_zz n : quicpro_iibin_zigzag_encode64 n = zz_enc 64 n.
Proof. unfold quicpro_iibin_zigzag_encode64, zz_enc, s64, u64. reflexivity. Qed.
Lemma zigzag_decode64_zz n : quicpro_iibin_zigzag_decode64 n = zz_dec 64 n.
Proof. unfold quicpro_iibin_zigzag_decode64, zz_dec, s64, u64. reflexivity. Qed.

Lemma pow2_split w : 0 < w -> 2 ^ w = 2 * 2 ^ (w - 1) /\ 0 < 2 ^ (w - 1).
Proof.
  intros. split; [rewrite <- Z.pow_succ_r by lia; f_equal; lia | apply Z.pow_pos_nonneg; lia].
Qed.

(** Zig-zag interleaves the negative and the non-negative numbers. *)
Lemma zz_enc_spec w n : 1 < w -> - 2 ^ (w - 1) <= n < 2 ^ (w - 1) ->
  zz_enc w n = if 0 <=? n then 2 * n else - 2 * n - 1.
Proof.
  intros Hw Hn. destruct (pow2_split w ltac:(lia)) as [Hp Hpos]. unfold zz_enc.
  rewrite Z.shiftl_mul_pow2, Z.shiftr_div_pow2 by lia. change (2 ^ 1) with 2.
  destruct (Z.leb_spec 0 n).
  - rewrite Z.div_small, Z.lxor_0_r, sext_congr by lia. rewrite Z.mod_small by lia. lia.
  - replace (n / 2 ^ (w - 1)) with (-1).
    2:{ apply Z.div_unique with (n + 2 ^ (w - 1)); lia. }
    rewrite Z.lxor_m1_r. unfold Z.lnot. rewrite <- Z.sub_1_r.
    replace (- sext w (n * 2) - 1) with (- 1 - sext w (n * 2)) by lia.
    rewrite <- Zminus_mod_idemp_r, sext_congr, Zminus_mod_idemp_r by lia.
    rewrite Z.mod_small by lia. lia.
Qed.

Lemma lxor_ones w k : 0 <= w -> 0 <= k < 2 ^ w -> Z.lxor k (2 ^ w - 1) = 2 ^ w - 1 - k.
Proof.
  intros Hw Hk.
  replace (2 ^ w - 1 - k) with (Z.lnot k mod 2 ^ w).
  2:{ unfold Z.lnot. symmetry. apply Z.mod_unique_pos with (-1); lia. }
  replace (2 ^ w - 1) with (Z.ones w) by (rewrite Z.ones_equiv; lia).
  apply Z.bits_inj'; intros i Hi. rewrite Z.lxor_spec.
  destruct (Z.lt_ge_cases i w).
  - rewrite Z.mod_pow2_bits_low, Z.lnot_spec, Z.ones_spec_low by lia. apply xorb_true_r.
  - rewrite Z.mod_pow2_bits_high, Z.ones_spec_high, (bits_above k w) by lia. done.
Qed.

Lemma zz_dec_spec w n : 1 < w -> 0 <= n < 2 ^ w ->
  zz_dec w n = if Z.even n then n / 2 else - (n / 2) - 1.
Proof.
  intros Hw Hn. destruct (pow2_split w ltac:(lia)) as [Hp Hpos]. unfold zz_dec.
  rewrite Z.shiftr_div_pow2 by lia. change (2 ^ 1) with 2.
  change 1 with (2 ^ 1 - 1) at 1. rewrite land_ones_mod by lia. change (2 ^ 1) with 2.
  pose proof (Z.div_mod n 2 ltac:(lia)) as Hdm. pose proof (Z.mod_pos_bound n 2 ltac:(lia)).
  rewrite Zmod_even in *. destruct (Z.even n).
  - change (- 0) with 0. rewrite Z.mod_0_l, Z.lxor_0_r, sext_small by lia. done.
  - replace (Z.opp 1 mod 2 ^ w) with (2 ^ w - 1) by (apply Z.mod_unique_pos with (-1); lia).
    rewrite lxor_ones by lia.
    replace (2 ^ w - 1 - n / 2) with (- (n / 2) - 1 + 1 * 2 ^ w) by lia.
    rewrite <- (sext_mod w w), Z_mod_plus_full, sext_mod, sext_small by lia. done.
Qed.

Lemma zz_roundtrip w n : 1 < w -> - 2 ^ (w - 1) <= n < 2 ^ (w - 1) ->
  0 <= zz_enc w n < 2 ^ w /\ zz_dec w (zz_enc w n) = n.
Proof.
  intros Hw Hn. destruct (pow2_split w ltac:(lia)) as [Hp Hpos].
  rewrite zz_enc_spec by done. destruct (Z.leb_spec 0 n).
  - rewrite zz_dec_spec by lia. rewrite Z.mul_comm, Z.even_mul, orb_true_r.
    split; [lia|]. by rewrite Z.div_mul.
  - rewrite zz_dec_spec by lia.
    replace (- 2 * n - 1) with ((- n - 1) * 2 + 1) by lia.
    rewrite Z.even_add, Z.even_mul, orb_true_r. simpl.
    rewrite Z.div_add_l, Z.div_small by lia. lia.
Qed.

Lemma zz_roundtrip_inv w z : 1 < w -> 0 <= z < 2 ^ w ->
  - 2 ^ (w - 1) <= zz_dec w z < 2 ^ (w - 1) /\ zz_enc w (zz_dec w z) = z.
Proof.
  intros Hw Hz. destruct (pow2_split w ltac:(lia)) as [Hp Hpos].
  pose proof (Z.div_mod z 2 ltac:(lia)) as Hdm. rewrite Zmod_even in Hdm.
  rewrite zz_dec_spec by done. destruct (Z.even z).
  - rewrite zz_enc_spec by lia. destruct (Z.leb_spec 0 (z / 2)); lia.
  - rewrite zz_enc_spec by lia. destruct (Z.leb_spec 0 (- (z / 2) - 1)); lia.
Qed.
