(* ===== verification/IibinSchema.v ===== *)
(** * IIBIN schemas and enums

    [extension/src/iibin/iibin_schema.c]: the compiled schema and enum structures, the
    parsing of a PHP field description, and the two registries with their
    [define_*] operations.  Memory management (the destructors and the cleanup of
    partially built structures) has no effect on the values modelled here. *)

From Stdlib Require Import ZArith Lia String Ascii.
From stdpp Require Import base tactics list gmap strings.
From S2P Require Import Prelude Zend.

Local Open Scope Z_scope.

Definition QUICPRO_IIBIN_WIRETYPE_VARINT : Z := 0.
Definition QUICPRO_IIBIN_WIRETYPE_FIXED64 : Z := 1.
Definition QUICPRO_IIBIN_WIRETYPE_LENGTH_DELIM : Z := 2.
Definition QUICPRO_IIBIN_WIRETYPE_FIXED32 : Z := 5.

(** The enumeration of field types, in the order of the C declaration. *)
Inductive quicpro_iibin_field_type_internal :=
| IIBIN_INTERNAL_TYPE_UNKNOWN
| IIBIN_INTERNAL_TYPE_DOUBLE
| IIBIN_INTERNAL_TYPE_FLOAT
| IIBIN_INTERNAL_TYPE_INT64
| IIBIN_INTERNAL_TYPE_UINT64
| IIBIN_INTERNAL_TYPE_INT32
| IIBIN_INTERNAL_TYPE_UINT32
| IIBIN_INTERNAL_TYPE_SINT32
| IIBIN_INTERNAL_TYPE_SINT64
| IIBIN_INTERNAL_TYPE_FIXED64
| IIBIN_INTERNAL_TYPE_SFIXED64
| IIBIN_INTERNAL_TYPE_FIXED32
| IIBIN_INTERNAL_TYPE_SFIXED32
| IIBIN_INTERNAL_TYPE_BOOL
| IIBIN_INTERNAL_TYPE_STRING
| IIBIN_INTERNAL_TYPE_BYTES
| IIBIN_INTERNAL_TYPE_MESSAGE
| IIBIN_INTERNAL_TYPE_ENUM.
#[export] Instance field_type_eq_dec : EqDecision quicpro_iibin_field_type_internal.
Proof. solve_decision. Defined.

(** The numeric value C gives to the enumerator. *)
Definition type_code (t : quicpro_iibin_field_type_internal) : Z :=
  match t with
  | IIBIN_INTERNAL_TYPE_UNKNOWN => 0 | IIBIN_INTERNAL_TYPE_DOUBLE => 1
  | IIBIN_INTERNAL_TYPE_FLOAT => 2 | IIBIN_INTERNAL_TYPE_INT64 => 3
  | IIBIN_INTERNAL_TYPE_UINT64 => 4 | IIBIN_INTERNAL_TYPE_INT32 => 5
  | IIBIN_INTERNAL_TYPE_UINT32 => 6 | IIBIN_INTERNAL_TYPE_SINT32 => 7
  | IIBIN_INTERNAL_TYPE_SINT64 => 8 | IIBIN_INTERNAL_TYPE_FIXED64 => 9
  | IIBIN_INTERNAL_TYPE_SFIXED64 => 10 | IIBIN_INTERNAL_TYPE_FIXED32 => 11
  | IIBIN_INTERNAL_TYPE_SFIXED32 => 12 | IIBIN_INTERNAL_TYPE_BOOL => 13
  | IIBIN_INTERNAL_TYPE_STRING => 14 | IIBIN_INTERNAL_TYPE_BYTES => 15
  | IIBIN_INTERNAL_TYPE_MESSAGE => 16 | IIBIN_INTERNAL_TYPE_ENUM => 17
  end.

Definition IIBIN_FIELD_FLAG_OPTIONAL : Z := 0x01.
Definition IIBIN_FIELD_FLAG_REQUIRED : Z := 0x02.
Definition IIBIN_FIELD_FLAG_REPEATED : Z := 0x04.
Definition IIBIN_FIELD_FLAG_PACKED : Z := 0x08.

Record quicpro_iibin_field_def_internal := mkFieldDef {
  name_in_php : string;
  tag : Z;
  type : quicpro_iibin_field_type_internal;
  flags : Z;
  json_name : option string;
  is_deprecated : bool;
  message_type_name_if_nested : option string;
  enum_type_name_if_enum : option string;
  default_value_zval : zval;
  wire_type : Z;
}.

(** [field->flags & flag] *)
Definition has_flag (f : quicpro_iibin_field_def_internal) (flag : Z) : bool :=
  negb (Z.land (flags f) flag =? 0).

Record quicpro_iibin_compiled_schema_internal := mkSchema {
  schema_name : string;
  fields_by_tag : gmap Z quicpro_iibin_field_def_internal;
  fields_by_name : gmap string quicpro_iibin_field_def_internal;
  ordered_fields : list quicpro_iibin_field_def_internal;
}.

Record quicpro_iibin_enum_value_def_internal := mkEnumValue { ev_name : string; number : Z }.

Record quicpro_iibin_compiled_enum_internal := mkEnum {
  enum_name : string;
  values_by_name : gmap string quicpro_iibin_enum_value_def_internal;
  names_by_value : gmap Z string;
}.

(** The module's global state. *)
Record registries := mkRegistries {
  quicpro_iibin_schema_registry : gmap string quicpro_iibin_compiled_schema_internal;
  quicpro_iibin_enum_registry : gmap string quicpro_iibin_compiled_enum_internal;
  quicpro_iibin_registries_initialized : bool;
}.

(** The exceptions the module throws. *)
Inductive iibin_error :=
| EBadTag (field : string) | EBadType (field : string) | EUnparseableType (field : string)
| EUnknownType (field ty : string) | ENoWireType (field : string)
| EDefaultEnumName (field value : string)
| ENotInitialized | EAlreadyDefined (name : string)
| EInvalidEnumDef | EDuplicateEnumName (name : string) | EDuplicateEnumNumber (n : Z)
| EInvalidFieldDef | EDuplicateTag (t : Z)
| ESchemaNotDefined (name : string)
| EExpectsInteger (field : string) | EExpectsNumber (field : string)
| EExpectsBoolean (field : string) | EExpectsString (field : string)
| EExpectsEnum (field : string) | EExpectsMessage (field : string)
| EEnumNotDefined (name field : string) | EEnumValueUnknown (value field : string)
| ENestedSchemaNotDefined (name field : string) | EEncodeUnknownType (field : string)
| ERequiredMissing (field : string) | ERepeatedNeedsArray (field : string)
| EMessageNeedsArray (schema : string)
| EWireTypeMismatch (field : string) (expected got : Z)
| EMalformedKey (schema : string) | ECannotSkip (t : Z) (schema : string)
| EPackedTooLong | EBytesRemain
| ERequiredNotFound (field schema : string).

(* ------------------------------------------------------------------------ *)
(** ** Registry lifecycle and lookup *)

Definition quicpro_iibin_registries_init (r : registries) : registries :=
  if quicpro_iibin_registries_initialized r then r
  else mkRegistries ∅ ∅ true.

Definition quicpro_iibin_registries_shutdown (r : registries) : registries :=
  if quicpro_iibin_registries_initialized r then mkRegistries ∅ ∅ false else r.

Definition get_compiled_iibin_schema_internal (r : registries) (name : string)
  : option quicpro_iibin_compiled_schema_internal :=
  if negb (quicpro_iibin_registries_initialized r) then None
  else quicpro_iibin_schema_registry r !! cstr name.

Definition get_compiled_iibin_enum_internal (r : registries) (name : string)
  : option quicpro_iibin_compiled_enum_internal :=
  if negb (quicpro_iibin_registries_initialized r) then None
  else quicpro_iibin_enum_registry r !! cstr name.

(* ------------------------------------------------------------------------ *)
(** ** Field types *)

(** The chain of [strncmp] tests, in source order. *)
Definition primitive_types : list (string * quicpro_iibin_field_type_internal) :=
  [("double", IIBIN_INTERNAL_TYPE_DOUBLE); ("float", IIBIN_INTERNAL_TYPE_FLOAT);
   ("int64", IIBIN_INTERNAL_TYPE_INT64); ("uint64", IIBIN_INTERNAL_TYPE_UINT64);
   ("int32", IIBIN_INTERNAL_TYPE_INT32); ("uint32", IIBIN_INTERNAL_TYPE_UINT32);
   ("sint32", IIBIN_INTERNAL_TYPE_SINT32); ("sint64", IIBIN_INTERNAL_TYPE_SINT64);
   ("fixed64", IIBIN_INTERNAL_TYPE_FIXED64); ("sfixed64", IIBIN_INTERNAL_TYPE_SFIXED64);
   ("fixed32", IIBIN_INTERNAL_TYPE_FIXED32); ("sfixed32", IIBIN_INTERNAL_TYPE_SFIXED32);
   ("bool", IIBIN_INTERNAL_TYPE_BOOL); ("string", IIBIN_INTERNAL_TYPE_STRING);
   ("bytes", IIBIN_INTERNAL_TYPE_BYTES)]%string.

(** The base type, whether the field is repeated, and the referenced type name. *)
Definition parse_php_field_type_details (type_str : string)
  : option (quicpro_iibin_field_type_internal * bool * option string) :=
  if decide (type_str = EmptyString) then None
  else
    let is_repeated := strncmp_eq type_str "repeated_" 9 in
    let type_str_val := if is_repeated then str_drop 9 type_str else type_str in
    let type_str_len := String.length type_str_val in
    if decide (type_str_val = EmptyString) then None
    else
      match List.find (fun p => strncmp_eq type_str_val (fst p) type_str_len) primitive_types with
      | Some p => Some (snd p, is_repeated, None)
      | None => Some (IIBIN_INTERNAL_TYPE_UNKNOWN, is_repeated, Some type_str_val)
      end.

Definition calculate_field_wire_type (t : quicpro_iibin_field_type_internal)
    (is_packed_repeated_field : bool) : Z :=
  if is_packed_repeated_field then QUICPRO_IIBIN_WIRETYPE_LENGTH_DELIM
  else match t with
  | IIBIN_INTERNAL_TYPE_INT32 | IIBIN_INTERNAL_TYPE_UINT32
  | IIBIN_INTERNAL_TYPE_SINT32 | IIBIN_INTERNAL_TYPE_INT64
  | IIBIN_INTERNAL_TYPE_UINT64 | IIBIN_INTERNAL_TYPE_SINT64
  | IIBIN_INTERNAL_TYPE_BOOL | IIBIN_INTERNAL_TYPE_ENUM => QUICPRO_IIBIN_WIRETYPE_VARINT
  | IIBIN_INTERNAL_TYPE_FIXED64 | IIBIN_INTERNAL_TYPE_SFIXED64
  | IIBIN_INTERNAL_TYPE_DOUBLE => QUICPRO_IIBIN_WIRETYPE_FIXED64
  | IIBIN_INTERNAL_TYPE_STRING | IIBIN_INTERNAL_TYPE_BYTES
  | IIBIN_INTERNAL_TYPE_MESSAGE => QUICPRO_IIBIN_WIRETYPE_LENGTH_DELIM
  | IIBIN_INTERNAL_TYPE_FIXED32 | IIBIN_INTERNAL_TYPE_SFIXED32
  | IIBIN_INTERNAL_TYPE_FLOAT => QUICPRO_IIBIN_WIRETYPE_FIXED32
  | IIBIN_INTERNAL_TYPE_UNKNOWN => u32 (-1)
  end.

(** [(type >= DOUBLE && type <= BOOL) || type == ENUM] *)
Definition is_packable (t : quicpro_iibin_field_type_internal) : bool :=
  ((type_code IIBIN_INTERNAL_TYPE_DOUBLE <=? type_code t) &&
   (type_code t <=? type_code IIBIN_INTERNAL_TYPE_BOOL))
  || (type_code t =? type_code IIBIN_INTERNAL_TYPE_ENUM).

(* ------------------------------------------------------------------------ *)
(** ** Field options *)

(** The type of a field after resolving a referenced name: a schema wins over
    an enum of the same name. *)
Definition resolve_field_type (r : registries) (field : string)
    (t : quicpro_iibin_field_type_internal) (ref : option string)
  : outcome iibin_error
      (quicpro_iibin_field_type_internal * option string * option string) :=
  match t, ref with
  | IIBIN_INTERNAL_TYPE_UNKNOWN, Some name =>
      match get_compiled_iibin_schema_internal r name with
      | Some _ => Done (IIBIN_INTERNAL_TYPE_MESSAGE, Some name, None)
      | None =>
          match get_compiled_iibin_enum_internal r name with
          | Some _ => Done (IIBIN_INTERNAL_TYPE_ENUM, None, Some name)
          | None => Failed (EUnknownType field name)
          end
      end
  | IIBIN_INTERNAL_TYPE_UNKNOWN, None => Failed (EUnknownType field EmptyString)
  | _, _ => Done (t, None, None)
  end.

(** The default value: an enum default given by name is stored as its number. *)
Definition parse_default (r : registries) (field : string)
    (t : quicpro_iibin_field_type_internal) (enum_ref : option string) (opts : hashtable)
  : outcome iibin_error zval :=
  match ht_find (KStr "default") opts with
  | None => Done ZUndef
  | Some zv =>
      match t, zv with
      | IIBIN_INTERNAL_TYPE_ENUM, ZString s =>
          match enum_ref with
          | None => Undefined
          | Some en =>
              match get_compiled_iibin_enum_internal r en with
              | None => Undefined
              | Some e =>
                  match values_by_name e !! s with
                  | None => Failed (EDefaultEnumName field s)
                  | Some d => Done (ZLong (number d))
                  end
              end
          end
      | _, _ => Done zv
      end
  end.

Definition flag_if (b : bool) (flag acc : Z) : Z := if b then Z.lor acc flag else acc.

(** An option that is present and true. *)
Definition option_true (k : string) (opts : hashtable) : bool :=
  match ht_find (KStr k) opts with Some v => zend_is_true v | None => false end.

Definition parse_php_field_options (r : registries) (field_name_in_php : string)
    (options_ht : hashtable) : outcome iibin_error quicpro_iibin_field_def_internal :=
  let name := cstr field_name_in_php in
  match ht_find (KStr "tag") options_ht with
  | Some (ZLong tagv) =>
      if tagv <=? 0 then Failed (EBadTag name)
      else
        match ht_find (KStr "type") options_ht with
        | Some (ZString ts) =>
            match parse_php_field_type_details ts with
            | None => Failed (EUnparseableType name)
            | Some (base, is_repeated, ref) =>
                let! '(t, msg_ref, enum_ref) := resolve_field_type r name base ref in
                let fl := flag_if is_repeated IIBIN_FIELD_FLAG_REPEATED 0 in
                let fl := if option_true "required" options_ht
                          then Z.lor fl IIBIN_FIELD_FLAG_REQUIRED
                          else Z.lor fl IIBIN_FIELD_FLAG_OPTIONAL in
                let use_packed :=
                  is_repeated && is_packable t &&
                  match ht_find (KStr "packed") options_ht with
                  | Some v => zend_is_true v
                  | None => true
                  end in
                let fl := flag_if use_packed IIBIN_FIELD_FLAG_PACKED fl in
                let wt := calculate_field_wire_type t
                            (negb (Z.land fl IIBIN_FIELD_FLAG_PACKED =? 0)) in
                if wt =? u32 (-1) then Failed (ENoWireType name)
                else
                  let! dflt := parse_default r name t enum_ref options_ht in
                  Done {| name_in_php := name; tag := u32 tagv; type := t; flags := fl;
                          json_name := match ht_find (KStr "json_name") options_ht with
                                       | Some (ZString s) => Some s | _ => None end;
                          is_deprecated := option_true "deprecated" options_ht;
                          message_type_name_if_nested := msg_ref;
                          enum_type_name_if_enum := enum_ref;
                          default_value_zval := dflt; wire_type := wt |}
            end
        | _ => Failed (EBadType name)
        end
  | _ => Failed (EBadTag name)
  end.

(* ------------------------------------------------------------------------ *)
(** ** Defining enums and schemas *)

Fixpoint define_enum_values (vals : hashtable) (e : quicpro_iibin_compiled_enum_internal)
  : outcome iibin_error quicpro_iibin_compiled_enum_internal :=
  match vals with
  | [] => Done e
  | (KStr name, ZLong n) :: vals' =>
      let num := s32 n in
      match values_by_name e !! name with
      | Some _ => Failed (EDuplicateEnumName name)
      | None =>
          match names_by_value e !! u64 num with
          | Some _ => Failed (EDuplicateEnumNumber num)
          | None =>
              define_enum_values vals'
                {| enum_name := enum_name e;
                   values_by_name := <[name := mkEnumValue name num]> (values_by_name e);
                   names_by_value := <[u64 num := cstr name]> (names_by_value e) |}
          end
      end
  | _ => Failed EInvalidEnumDef
  end.

(** [Done] is [RETURN_TRUE] with the new registries; [Failed] is an exception
    with [RETURN_FALSE], the registries untouched. *)
Definition quicpro_iibin_define_enum (r : registries) (name : string) (vals : hashtable)
  : outcome iibin_error registries :=
  if negb (quicpro_iibin_registries_initialized r) then Failed ENotInitialized
  else match get_compiled_iibin_schema_internal r name, get_compiled_iibin_enum_internal r name with
       | None, None =>
           let! e := define_enum_values vals (mkEnum name ∅ ∅) in
           match quicpro_iibin_enum_registry r !! name with
           | Some _ => Failed (EAlreadyDefined name)
           | None =>
               Done {| quicpro_iibin_schema_registry := quicpro_iibin_schema_registry r;
                       quicpro_iibin_enum_registry := <[name := e]> (quicpro_iibin_enum_registry r);
                       quicpro_iibin_registries_initialized := true |}
           end
       | _, _ => Failed (EAlreadyDefined name)
       end.

Fixpoint define_schema_fields (r : registries) (fields : hashtable)
    (s : quicpro_iibin_compiled_schema_internal)
  : outcome iibin_error quicpro_iibin_compiled_schema_internal :=
  match fields with
  | [] => Done s
  | (KStr fname, ZArray opts) :: fields' =>
      let! f := parse_php_field_options r fname opts in
      match fields_by_tag s !! tag f with
      | Some _ => Failed (EDuplicateTag (tag f))
      | None =>
          define_schema_fields r fields'
            {| schema_name := schema_name s;
               fields_by_tag := <[tag f := f]> (fields_by_tag s);
               fields_by_name := <[name_in_php f := f]> (fields_by_name s);
               ordered_fields := ordered_fields s ++ [f] |}
      end
  | _ => Failed EInvalidFieldDef
  end.

(** [qsort] with [compare_field_defs_by_tag]. *)
Definition compare_field_defs_by_tag (a b : quicpro_iibin_field_def_internal) : Z :=
  if tag a <? tag b then -1 else if tag a >? tag b then 1 else 0.

Fixpoint insert_by_tag (f : quicpro_iibin_field_def_internal)
    (l : list quicpro_iibin_field_def_internal) : list quicpro_iibin_field_def_internal :=
  match l with
  | [] => [f]
  | g :: l' => if compare_field_defs_by_tag f g <=? 0 then f :: l else g :: insert_by_tag f l'
  end.

Definition sort_by_tag (l : list quicpro_iibin_field_def_internal) :=
  foldr insert_by_tag [] l.

Definition quicpro_iibin_define_schema (r : registries) (name : string) (fields : hashtable)
  : outcome iibin_error registries :=
  if negb (quicpro_iibin_registries_initialized r) then Failed ENotInitialized
  else match get_compiled_iibin_schema_internal r name, get_compiled_iibin_enum_internal r name with
       | None, None =>
           let! s := define_schema_fields r fields (mkSchema name ∅ ∅ []) in
           let s := {| schema_name := schema_name s; fields_by_tag := fields_by_tag s;
                       fields_by_name := fields_by_name s;
                       ordered_fields := sort_by_tag (ordered_fields s) |} in
           match quicpro_iibin_schema_registry r !! name with
           | Some _ => Failed (EAlreadyDefined name)
           | None =>
               Done {| quicpro_iibin_schema_registry := <[name := s]> (quicpro_iibin_schema_registry r);
                       quicpro_iibin_enum_registry := quicpro_iibin_enum_registry r;
                       quicpro_iibin_registries_initialized := true |}
           end
       | _, _ => Failed (EAlreadyDefined name)
       end.
