(* ===== verification/IibinEncode.v ===== *)
(** * IIBIN encoder

    [extension/src/iibin/iibin_encoding.c].  A function that appends to a [smart_str]
    returns the appended bytes; every failure discards the buffer.  Nested messages
    are the only recursion: [fuel] bounds their depth, and [encode_enough_fuel]
    gives the depth of the value as a sufficient amount.  (PHP values are finite trees here; the
    recursion of the C code has no bound for a value that contains itself.) *)

From Stdlib Require Import ZArith Lia String Strings.Byte.
From stdpp Require Import base tactics list gmap strings.
From S2P Require Import Prelude Ieee Zend IibinWire IibinSchema.

Local Open Scope Z_scope.

Section Encode.
Context `{ZendConv}.
Variable r : registries.

Abbreviation field_def := quicpro_iibin_field_def_internal.
Abbreviation schema_def := quicpro_iibin_compiled_schema_internal.

(** [(field->tag << 3) | wire] in [uint32_t] arithmetic. *)
Definition field_key (f : field_def) (wire : Z) : Z := Z.lor (u32 (Z.shiftl (tag f) 3)) wire.

(** The strict type checks that precede the value. *)
Definition check_value_type (f : field_def) (v : zval) : outcome iibin_error unit :=
  match type f with
  | IIBIN_INTERNAL_TYPE_INT32 | IIBIN_INTERNAL_TYPE_UINT32 | IIBIN_INTERNAL_TYPE_SINT32
  | IIBIN_INTERNAL_TYPE_INT64 | IIBIN_INTERNAL_TYPE_UINT64 | IIBIN_INTERNAL_TYPE_SINT64
  | IIBIN_INTERNAL_TYPE_FIXED32 | IIBIN_INTERNAL_TYPE_SFIXED32
  | IIBIN_INTERNAL_TYPE_FIXED64 | IIBIN_INTERNAL_TYPE_SFIXED64 =>
      match v with ZLong _ => Done tt | _ => Failed (EExpectsInteger (name_in_php f)) end
  | IIBIN_INTERNAL_TYPE_FLOAT | IIBIN_INTERNAL_TYPE_DOUBLE =>
      match v with ZDouble _ | ZLong _ => Done tt | _ => Failed (EExpectsNumber (name_in_php f)) end
  | IIBIN_INTERNAL_TYPE_BOOL =>
      match v with ZTrue | ZFalse => Done tt | _ => Failed (EExpectsBoolean (name_in_php f)) end
  | _ => Done tt
  end.

(** The number of an enum value given as an integer or by name. *)
Definition enum_number (f : field_def) (v : zval) : outcome iibin_error Z :=
  match v with
  | ZLong n => Done (s32 n)
  | ZString s =>
      match enum_type_name_if_enum f with
      | None => Undefined
      | Some en =>
          match get_compiled_iibin_enum_internal r en with
          | None => Failed (EEnumNotDefined en (name_in_php f))
          | Some e =>
              match values_by_name e !! s with
              | None => Failed (EEnumValueUnknown s (name_in_php f))
              | Some d => Done (number d)
              end
          end
      end
  | _ => Failed (EExpectsEnum (name_in_php f))
  end.

(** The value after its tag.  [rec] encodes a nested message. *)
Definition encode_value (rec : schema_def -> zval -> outcome iibin_error (list byte))
    (f : field_def) (v : zval) : outcome iibin_error (list byte) :=
  match type f with
  | IIBIN_INTERNAL_TYPE_INT32 | IIBIN_INTERNAL_TYPE_INT64
  | IIBIN_INTERNAL_TYPE_UINT32 | IIBIN_INTERNAL_TYPE_UINT64 =>
      match v with ZLong n => Done (quicpro_iibin_encode_varint (u64 n)) | _ => Undefined end
  | IIBIN_INTERNAL_TYPE_SINT32 =>
      match v with
      | ZLong n => Done (quicpro_iibin_encode_varint (quicpro_iibin_zigzag_encode32 (s32 n)))
      | _ => Undefined end
  | IIBIN_INTERNAL_TYPE_SINT64 =>
      match v with
      | ZLong n => Done (quicpro_iibin_encode_varint (quicpro_iibin_zigzag_encode64 (s64 n)))
      | _ => Undefined end
  | IIBIN_INTERNAL_TYPE_BOOL =>
      Done (quicpro_iibin_encode_varint (match v with ZTrue => 1 | _ => 0 end))
  | IIBIN_INTERNAL_TYPE_ENUM =>
      let! n := enum_number f v in
      Done (quicpro_iibin_encode_varint (u64 n))
  | IIBIN_INTERNAL_TYPE_FLOAT =>
      Done (quicpro_iibin_encode_fixed32 (float_of_double (zval_get_double v)))
  | IIBIN_INTERNAL_TYPE_FIXED32 | IIBIN_INTERNAL_TYPE_SFIXED32 =>
      match v with ZLong n => Done (quicpro_iibin_encode_fixed32 (u32 n)) | _ => Undefined end
  | IIBIN_INTERNAL_TYPE_DOUBLE => Done (quicpro_iibin_encode_fixed64 (zval_get_double v))
  | IIBIN_INTERNAL_TYPE_FIXED64 | IIBIN_INTERNAL_TYPE_SFIXED64 =>
      match v with ZLong n => Done (quicpro_iibin_encode_fixed64 (u64 n)) | _ => Undefined end
  | IIBIN_INTERNAL_TYPE_STRING | IIBIN_INTERNAL_TYPE_BYTES =>
      match v with
      | ZString s =>
          Done (quicpro_iibin_encode_varint (Z.of_nat (String.length s)) ++ list_byte_of_string s)
      | _ => Failed (EExpectsString (name_in_php f))
      end
  | IIBIN_INTERNAL_TYPE_MESSAGE =>
      match v with
      | ZArray _ | ZObject _ =>
          match message_type_name_if_nested f with
          | None => Undefined
          | Some mn =>
              match get_compiled_iibin_schema_internal r mn with
              | None => Failed (ENestedSchemaNotDefined mn (name_in_php f))
              | Some s =>
                  let! nested := rec s v in
                  Done (quicpro_iibin_encode_varint (Z.of_nat (length nested)) ++ nested)
              end
          end
      | _ => Failed (EExpectsMessage (name_in_php f))
      end
  | IIBIN_INTERNAL_TYPE_UNKNOWN => Failed (EEncodeUnknownType (name_in_php f))
  end.

Definition encode_single_field_value rec (f : field_def) (v : zval)
  : outcome iibin_error (list byte) :=
  let! _ := check_value_type f v in
  let! value := encode_value rec f v in
  Done (quicpro_iibin_encode_varint (field_key f (wire_type f)) ++ value).

(** One item of a packed block: no tag, and lenient conversions. *)
Definition encode_packed_item (f : field_def) (item : zval) : list byte :=
  match type f with
  | IIBIN_INTERNAL_TYPE_INT32 | IIBIN_INTERNAL_TYPE_INT64 | IIBIN_INTERNAL_TYPE_UINT32
  | IIBIN_INTERNAL_TYPE_UINT64 | IIBIN_INTERNAL_TYPE_BOOL | IIBIN_INTERNAL_TYPE_ENUM =>
      quicpro_iibin_encode_varint (u64 (zval_get_long item))
  | IIBIN_INTERNAL_TYPE_SINT32 =>
      quicpro_iibin_encode_varint (quicpro_iibin_zigzag_encode32 (s32 (zval_get_long item)))
  | IIBIN_INTERNAL_TYPE_SINT64 =>
      quicpro_iibin_encode_varint (quicpro_iibin_zigzag_encode64 (s64 (zval_get_long item)))
  | IIBIN_INTERNAL_TYPE_FIXED32 | IIBIN_INTERNAL_TYPE_SFIXED32 =>
      quicpro_iibin_encode_fixed32 (u32 (zval_get_long item))
  | IIBIN_INTERNAL_TYPE_FLOAT =>
      quicpro_iibin_encode_fixed32 (float_of_double (zval_get_double item))
  | IIBIN_INTERNAL_TYPE_FIXED64 | IIBIN_INTERNAL_TYPE_SFIXED64 =>
      quicpro_iibin_encode_fixed64 (u64 (zval_get_long item))
  | IIBIN_INTERNAL_TYPE_DOUBLE => quicpro_iibin_encode_fixed64 (zval_get_double item)
  | _ => []
  end.

Definition encode_packed_repeated_field (f : field_def) (items : list zval) : list byte :=
  let packed_buf := concat (map (encode_packed_item f) items) in
  match packed_buf with
  | [] => []
  | _ =>
      quicpro_iibin_encode_varint (field_key f QUICPRO_IIBIN_WIRETYPE_LENGTH_DELIM)
      ++ quicpro_iibin_encode_varint (Z.of_nat (length packed_buf)) ++ packed_buf
  end.

(** The [ZEND_HASH_FOREACH_VAL] loop of an unpacked repeated field. *)
Fixpoint encode_repeated rec (f : field_def) (items : list zval)
  : outcome iibin_error (list byte) :=
  match items with
  | [] => Done []
  | item :: items' =>
      let! b := encode_single_field_value rec f item in
      let! bs := encode_repeated rec f items' in
      Done (b ++ bs)
  end.

(** [value] is [None] when the data has no such key. *)
Definition encode_field_internal rec (f : field_def) (value : option zval)
  : outcome iibin_error (list byte) :=
  match value with
  | None | Some ZNull | Some ZUndef =>
      if has_flag f IIBIN_FIELD_FLAG_REQUIRED then Failed (ERequiredMissing (name_in_php f))
      else Done []
  | Some v =>
      if has_flag f IIBIN_FIELD_FLAG_REPEATED then
        match v with
        | ZArray ht =>
            if decide (ht = []) then Done []
            else if has_flag f IIBIN_FIELD_FLAG_PACKED
            then Done (encode_packed_repeated_field f (ht_values ht))
            else encode_repeated rec f (ht_values ht)
        | _ => Failed (ERepeatedNeedsArray (name_in_php f))
        end
      else encode_single_field_value rec f v
  end.

(** The value of a field in the data: an array element or a property. *)
Definition read_field (data : zval) (f : field_def) : option zval :=
  match data with
  | ZArray ht | ZObject ht => ht_find (KStr (name_in_php f)) ht
  | _ => None
  end.

Fixpoint encode_fields rec (fields : list field_def) (data : zval)
  : outcome iibin_error (list byte) :=
  match fields with
  | [] => Done []
  | f :: fields' =>
      let! b := encode_field_internal rec f (read_field data f) in
      let! bs := encode_fields rec fields' data in
      Done (b ++ bs)
  end.

Fixpoint encode_message_internal (fuel : nat) (s : schema_def) (data : zval)
  : outcome iibin_error (list byte) :=
  match fuel with
  | O => NoFuel
  | S fuel' =>
      match data with
      | ZArray _ | ZObject _ =>
          encode_fields (encode_message_internal fuel') (ordered_fields s) data
      | _ => Failed (EMessageNeedsArray (schema_name s))
      end
  end.

(** [quicpro_iibin_encode(schema, data)]: the binary string. *)
Definition quicpro_iibin_encode (fuel : nat) (name : string) (data : zval)
  : outcome iibin_error string :=
  match get_compiled_iibin_schema_internal r name with
  | None => Failed (ESchemaNotDefined name)
  | Some s =>
      let! bs := encode_message_internal fuel s data in
      Done (string_of_list_byte bs)
  end.
End Encode.

(** Nesting depth of a value: the fuel an encoding needs. *)
Fixpoint zdepth (v : zval) : nat :=
  match v with
  | ZArray ht | ZObject ht => S (list_max (map (fun '(_, w) => zdepth w) ht))
  | _ => O
  end.

(* ------------------------------------------------------------------------ *)
(** ** Enough fuel *)

Lemma zdepth_in (k : hkey) (w : zval) (ht : hashtable) : (k, w) ∈ ht -> (zdepth w <= list_max (map (fun '(_, w) => zdepth w) ht))%nat.
Proof.
  intros Hin. pose proof (proj1 (list_max_le (map (fun '(_, w) => zdepth w) ht) _) (le_n _)) as Hall.
  rewrite List.Forall_forall in Hall. apply Hall, in_map_iff. exists (k, w).
  split; [done|by apply list_elem_of_In].
Qed.

Lemma ht_find_in k ht w : ht_find k ht = Some w -> (k, w) ∈ ht.
Proof.
  induction ht as [|[k' w'] ht IH]; simpl; [done|].
  destruct (decide (k = k')) as [->|]; intros; simplify_eq; set_solver.
Qed.

Section Fuel.
Context `{ZendConv}.
Variable r : registries.
Variable rec : quicpro_iibin_compiled_schema_internal -> zval -> outcome iibin_error (list byte).
Variable n : nat.
Hypothesis Hrec : forall s v, (1 <= zdepth v <= n)%nat -> terminates (rec s v).

Lemma encode_single_terminates f v : (zdepth v <= n)%nat ->
  terminates (encode_single_field_value r rec f v).
Proof.
  intros Hv. unfold encode_single_field_value. apply terminates_bind.
  { unfold check_value_type. by destruct (type f), v. }
  intros _. apply terminates_bind; [|done]. unfold encode_value.
  destruct (type f); try done; try (by destruct v).
  - destruct v; try done; (destruct (message_type_name_if_nested f) as [mn|]; [|done]);
      (destruct (get_compiled_iibin_schema_internal r mn); [|done]);
      (apply terminates_bind; [apply Hrec; simpl in *; lia|done]).
  - apply terminates_bind; [|done]. unfold enum_number. by repeat case_match.
Qed.

Lemma encode_field_terminates f value : (forall v, value = Some v -> (zdepth v <= n)%nat) ->
  terminates (encode_field_internal r rec f value).
Proof.
  intros Hd. unfold encode_field_internal.
  destruct value as [v|]; [|by destruct (has_flag _ _)].
  destruct (has_flag f IIBIN_FIELD_FLAG_REPEATED).
  2:{ destruct v; try (by destruct (has_flag _ _)); apply encode_single_terminates; by apply Hd. }
  destruct v; try done; try (by destruct (has_flag _ _)). destruct (decide (ht = [])); [done|].
  destruct (has_flag f IIBIN_FIELD_FLAG_PACKED); [done|].
  assert (Hall : forall k w, (k, w) ∈ ht -> (zdepth w <= n)%nat).
  { intros k w Hin. apply zdepth_in in Hin. pose proof (Hd _ eq_refl) as Hx. simpl in Hx. lia. }
  clear - Hall Hrec. unfold ht_values. induction ht as [|[k w] ht IH]; simpl; [done|].
  apply terminates_bind; [apply encode_single_terminates, (Hall k); set_solver|].
  intros b. apply terminates_bind; [|done]. apply IH. intros k' w' Hin. apply (Hall k'). set_solver.
Qed.
End Fuel.

(** A message whose data is nested at most [fuel] deep is encoded or rejected. *)
Lemma encode_enough_fuel `{ZendConv} r fuel : forall s v, (0 < fuel)%nat -> (zdepth v <= fuel)%nat ->
  terminates (encode_message_internal r fuel s v).
Proof.
  induction fuel as [|fuel IH]; intros s v H0 Hv; [lia|]. cbn [encode_message_internal].
  assert (Hr : forall s v, (1 <= zdepth v <= fuel)%nat -> terminates (encode_message_internal r fuel s v))
    by (intros; apply IH; lia).
  assert (Hfields : forall f w, read_field v f = Some w -> (zdepth w <= fuel)%nat).
  { intros f w Hw. unfold read_field in Hw. destruct v; try done;
      apply ht_find_in, zdepth_in in Hw; simpl in Hv; lia. }
  assert (terminates (encode_fields r (encode_message_internal r fuel) (ordered_fields s) v)) as Ht.
  { induction (ordered_fields s) as [|f fs IHf]; simpl; [done|].
    apply terminates_bind; [|intros b; by apply terminates_bind].
    apply (encode_field_terminates r _ fuel Hr). intros w. apply Hfields. }
  by destruct v.
Qed.
