(* ===== verification/IibinDecode.v ===== *)
(** * IIBIN decoder

    [extension/src/iibin/iibin_decoding.c], over the flat memory of [IibinWire]: pointers
    are addresses, bounds tests are the source's pointer comparisons, a load
    outside the block is [Undefined].

    Three spots of the source do something else than is evidently meant: the length test of strings
    and nested messages compares the end of the value with the *byte* at [buf_end]
    ([*buf_ptr + len > *buf_end]); the other length tests compute [*buf_ptr + len], which
    wraps for huge lengths; and a value stored with [add_assoc_zval_ex] /
    [zend_hash_str_update] is released again with [zval_ptr_dtor].  The record [decoder]
    names these three expressions, so that lemmas can say what they need of them;
    [as_written] are the source's.  ([is_object] in [decode_message_internal] is not declared in the
    source; as in [populate_default_values_and_check_required] it is read as
    [Z_TYPE_P(return_zval) == IS_OBJECT].)

    [fuel] bounds loop iterations and nesting together. *)

From Stdlib Require Import ZArith Lia String Strings.Byte.
From stdpp Require Import base tactics list gmap strings.
From S2P Require Import Prelude Ieee Zend IibinWire IibinSchema.

Local Open Scope Z_scope.

(** A failure without an exception is [None]. *)
Abbreviation dec A := (outcome (option iibin_error) A).

Record decoder := {
  (** [*buf_ptr + len > ...] for strings, bytes and nested messages *)
  value_len_exceeds : mem -> Z -> Z -> Z -> dec bool;
  (** [*buf_ptr + len > buf_end] for skipped and packed fields *)
  block_len_exceeds : Z -> Z -> Z -> bool;
  (** what is left in a slot after the stored value has been released *)
  after_store : zval -> zval;
}.

(** The source: a pointer is compared with a byte; the sum wraps; the only
    reference to a stored payload is dropped. *)
Definition as_written : decoder := {|
  value_len_exceeds m ptr len buf_end :=
    match load m buf_end with
    | None => Undefined
    | Some b => Done (ptr_add ptr len >? b2z b)
    end;
  block_len_exceeds ptr len buf_end := ptr_add ptr len >? buf_end;
  after_store v := if refcounted v then ZFreed else v;
|}.

Section Decode.
Variable r : registries.
Variable d : decoder.
Variable m : mem.

Abbreviation field_def := quicpro_iibin_field_def_internal.
Abbreviation schema_def := quicpro_iibin_compiled_schema_internal.

(** Decoding a message: schema, start and end, the zval to fill. *)
Abbreviation msg_decoder := (schema_def -> Z -> Z -> zval -> dec (zval * Z)).

Definition read_varint (ptr buf_end : Z) : dec (Z * Z) :=
  quicpro_iibin_decode_varint None m ptr buf_end.

(** A length prefix and its bounds test: the length and the value's address. *)
Definition read_value_length (ptr buf_end : Z) : dec (Z * Z) :=
  let! '(len, ptr) := read_varint ptr buf_end in
  let! exceeds := value_len_exceeds d m ptr len buf_end in
  if exceeds then Failed None else Done (len, ptr).

Definition decode_value_to_zval (rec : msg_decoder) (ptr buf_end : Z) (f : field_def)
    (wt : Z) (decode_as_object : bool) : dec (zval * Z) :=
  if negb (wt =? wire_type f) && negb (has_flag f IIBIN_FIELD_FLAG_PACKED)
  then Failed (Some (EWireTypeMismatch (name_in_php f) (wire_type f) wt))
  else match type f with
  | IIBIN_INTERNAL_TYPE_INT32 | IIBIN_INTERNAL_TYPE_ENUM =>
      let! '(u, ptr) := read_varint ptr buf_end in Done (ZLong (s32 u), ptr)
  | IIBIN_INTERNAL_TYPE_SINT32 =>
      let! '(u, ptr) := read_varint ptr buf_end in
      Done (ZLong (quicpro_iibin_zigzag_decode32 (u32 u)), ptr)
  | IIBIN_INTERNAL_TYPE_INT64 =>
      let! '(u, ptr) := read_varint ptr buf_end in Done (ZLong (s64 u), ptr)
  | IIBIN_INTERNAL_TYPE_SINT64 =>
      let! '(u, ptr) := read_varint ptr buf_end in
      Done (ZLong (quicpro_iibin_zigzag_decode64 u), ptr)
  | IIBIN_INTERNAL_TYPE_UINT32 | IIBIN_INTERNAL_TYPE_UINT64 =>
      let! '(u, ptr) := read_varint ptr buf_end in Done (ZLong (s64 u), ptr)
  | IIBIN_INTERNAL_TYPE_BOOL =>
      let! '(u, ptr) := read_varint ptr buf_end in Done (zbool (negb (u =? 0)), ptr)
  | IIBIN_INTERNAL_TYPE_FLOAT =>
      let! '(u, ptr) := quicpro_iibin_decode_fixed32 None m ptr buf_end in
      Done (ZDouble (double_of_float u), ptr)
  | IIBIN_INTERNAL_TYPE_FIXED32 =>
      let! '(u, ptr) := quicpro_iibin_decode_fixed32 None m ptr buf_end in Done (ZLong u, ptr)
  | IIBIN_INTERNAL_TYPE_SFIXED32 =>
      let! '(u, ptr) := quicpro_iibin_decode_fixed32 None m ptr buf_end in
      Done (ZLong (s32 u), ptr)
  | IIBIN_INTERNAL_TYPE_DOUBLE =>
      let! '(u, ptr) := quicpro_iibin_decode_fixed64 None m ptr buf_end in Done (ZDouble u, ptr)
  | IIBIN_INTERNAL_TYPE_FIXED64 | IIBIN_INTERNAL_TYPE_SFIXED64 =>
      let! '(u, ptr) := quicpro_iibin_decode_fixed64 None m ptr buf_end in
      Done (ZLong (s64 u), ptr)
  | IIBIN_INTERNAL_TYPE_STRING | IIBIN_INTERNAL_TYPE_BYTES =>
      let! '(len, ptr) := read_value_length ptr buf_end in
      match load_range m ptr len with
      | None => Undefined
      | Some bs => Done (ZString (string_of_list_byte bs), ptr_add ptr len)
      end
  | IIBIN_INTERNAL_TYPE_MESSAGE =>
      let! '(len, ptr) := read_value_length ptr buf_end in
      let nested_buf_end := ptr_add ptr len in
      match message_type_name_if_nested f with
      | None => Undefined
      | Some mn =>
          match get_compiled_iibin_schema_internal r mn with
          | None => Failed (Some (ENestedSchemaNotDefined mn (name_in_php f)))
          | Some s =>
              let! '(out, _) := rec s ptr nested_buf_end
                                  (if decode_as_object then ZObject [] else ZArray []) in
              Done (out, nested_buf_end)
          end
      end
  | IIBIN_INTERNAL_TYPE_UNKNOWN => Failed None
  end.

Definition skip_field (ptr buf_end wt : Z) : dec Z :=
  if wt =? QUICPRO_IIBIN_WIRETYPE_VARINT then
    let! '(_, ptr) := read_varint ptr buf_end in Done ptr
  else if wt =? QUICPRO_IIBIN_WIRETYPE_FIXED64 then
    if ptr_add ptr 8 >? buf_end then Failed None else Done (ptr_add ptr 8)
  else if wt =? QUICPRO_IIBIN_WIRETYPE_LENGTH_DELIM then
    let! '(len, ptr) := read_varint ptr buf_end in
    if block_len_exceeds d ptr len buf_end then Failed None else Done (ptr_add ptr len)
  else if wt =? QUICPRO_IIBIN_WIRETYPE_FIXED32 then
    if ptr_add ptr 4 >? buf_end then Failed None else Done (ptr_add ptr 4)
  else Failed None.

(** [add_next_index_zval] on a slot that must be a live array. *)
Definition push_zval (slot v : zval) : dec zval :=
  match slot with ZArray ht => Done (ZArray (ht_push v ht)) | _ => Undefined end.

(** The [while] loop over the packed block, appending to the sub-array. *)
Fixpoint decode_packed (fuel : nat) (rec : msg_decoder) (ptr packed_end : Z) (f : field_def)
    (decode_as_object : bool) (sub_array : zval) : dec (zval * Z) :=
  match fuel with
  | O => NoFuel
  | S fuel' =>
      if ptr <? packed_end then
        let! '(item, ptr) := decode_value_to_zval rec ptr packed_end f (wire_type f) decode_as_object in
        let! sub_array := push_zval sub_array item in
        decode_packed fuel' rec ptr packed_end f decode_as_object sub_array
      else Done (sub_array, ptr)
  end.

(** A packed block: length, bounds test, items.  The hash table access is
    [Z_ARRVAL_P(return_zval)] whatever the kind of [return_zval]. *)
Definition decode_packed_field (fuel : nat) (rec : msg_decoder) (ptr buf_end : Z) (f : field_def)
    (decode_as_object : bool) (return_zval : zval) : dec (zval * Z) :=
  let! '(len, ptr) := read_varint ptr buf_end in
  if block_len_exceeds d ptr len buf_end then Failed (Some EPackedTooLong)
  else
    let packed_end := ptr_add ptr len in
    match return_zval with
    | ZArray ht =>
        let k := KStr (name_in_php f) in
        let sub_array := match ht_find k ht with Some v => v | None => ZArray [] end in
        let! '(sub_array, ptr) :=
          decode_packed fuel rec ptr packed_end f decode_as_object sub_array in
        Done (ZArray (ht_update k sub_array ht), ptr)
    | _ => Undefined
    end.

(** Storing a decoded value into the message being built. *)
Definition store_value (f : field_def) (value return_zval : zval) : dec zval :=
  let k := KStr (name_in_php f) in
  if has_flag f IIBIN_FIELD_FLAG_REPEATED then
    match return_zval with
    | ZObject props =>
        match ht_find k props with
        | None => Done (ZObject (ht_update k (ZArray [(KInt 0, value)]) props))
        | Some sub => let! sub := push_zval sub value in Done (ZObject (ht_update k sub props))
        end
    | ZArray ht =>
        match ht_find k ht with
        | None => Done (ZArray (ht_update k (after_store d (ZArray [(KInt 0, value)])) ht))
        | Some sub => let! sub := push_zval sub value in Done (ZArray (ht_update k sub ht))
        end
    | _ => Undefined
    end
  else
    match return_zval with
    | ZObject props => Done (ZObject (ht_update k value props))
    | ZArray ht => Done (ZArray (ht_update (symtable_key (name_in_php f)) (after_store d value) ht))
    | _ => Undefined
    end.

Fixpoint decode_message_internal (fuel : nat) (decode_as_object : bool) (s : schema_def)
    (ptr buf_end : Z) (return_zval : zval) : dec (zval * Z) :=
  match fuel with
  | O => NoFuel
  | S fuel' =>
      let rec := decode_message_internal fuel' decode_as_object in
      if ptr <? buf_end then
        match read_varint ptr buf_end with
        | Failed _ => Failed (Some (EMalformedKey (schema_name s)))
        | Undefined => Undefined
        | NoFuel => NoFuel
        | Done (key, ptr) =>
            let t := u32 (Z.shiftr key 3) in
            let wt := Z.land key 0x7 in
            if t =? 0 then rec s ptr buf_end return_zval
            else
              match fields_by_tag s !! t with
              | None =>
                  match skip_field ptr buf_end wt with
                  | Failed _ => Failed (Some (ECannotSkip t (schema_name s)))
                  | Undefined => Undefined
                  | NoFuel => NoFuel
                  | Done ptr => rec s ptr buf_end return_zval
                  end
              | Some f =>
                  if has_flag f IIBIN_FIELD_FLAG_PACKED
                     && (wt =? QUICPRO_IIBIN_WIRETYPE_LENGTH_DELIM) then
                    let! '(rv, ptr) :=
                      decode_packed_field fuel' rec ptr buf_end f decode_as_object return_zval in
                    rec s ptr buf_end rv
                  else
                    let! '(value, ptr) :=
                      decode_value_to_zval rec ptr buf_end f wt decode_as_object in
                    let! rv := store_value f value return_zval in
                    rec s ptr buf_end rv
              end
        end
      else Done (return_zval, ptr)
  end.

(** Defaults and required fields, over the fields in tag order. *)
Fixpoint populate_default_values_and_check_required (sname : string) (fields : list field_def)
    (msg : zval) : dec zval :=
  match fields with
  | [] => Done msg
  | f :: fields' =>
      let k := KStr (name_in_php f) in
      match msg with
      | ZArray ht | ZObject ht =>
          if ht_exists k ht
          then populate_default_values_and_check_required sname fields' msg
          else if has_flag f IIBIN_FIELD_FLAG_REQUIRED
          then Failed (Some (ERequiredNotFound (name_in_php f) sname))
          else match default_value_zval f with
               | ZUndef => populate_default_values_and_check_required sname fields' msg
               | dv =>
                   populate_default_values_and_check_required sname fields'
                     (match msg with
                      | ZObject _ => ZObject (ht_update k dv ht)
                      | _ => ZArray (ht_update k dv ht)
                      end)
               end
      | _ => Undefined
      end
  end.
End Decode.

(** The block of a PHP string: its bytes and the terminating NUL. *)
Definition mem_of_string (base : Z) (s : string) : mem :=
  Mem base (list_byte_of_string s ++ [Byte.x00]).

(** [quicpro_iibin_decode(schema, data, as_object)]: the decoded value and whether
    the "not all bytes were consumed" exception is pending. *)
Definition quicpro_iibin_decode (r : registries) (d : decoder) (base : Z) (fuel : nat)
    (name data : string) (decode_as_object : bool) : dec (zval * bool) :=
  match get_compiled_iibin_schema_internal r name with
  | None => Failed (Some (ESchemaNotDefined name))
  | Some s =>
      let m := mem_of_string base data in
      let buf_end := base + Z.of_nat (String.length data) in
      let! '(rv, ptr) :=
        decode_message_internal r d m fuel decode_as_object s base buf_end
          (if decode_as_object then ZObject [] else ZArray []) in
      let! rv := populate_default_values_and_check_required (schema_name s) (ordered_fields s) rv in
      Done (rv, negb (ptr =? buf_end))
  end.
