(* ===== verification/IibinRoundtrip.v ===== *)
(** * IIBIN round trip

    What a decoded message is ([norm_message]), and the proof that the decoder
    produces it from the bytes of the encoder. *)

From Stdlib Require Import ZArith Lia String Strings.Byte.
From stdpp Require Import base tactics list gmap strings.
From S2P Require Import Prelude Ieee Zend IibinWire IibinSchema IibinEncode IibinDecode.

Local Open Scope Z_scope.

Abbreviation field_def := quicpro_iibin_field_def_internal.
Abbreviation schema_def := quicpro_iibin_compiled_schema_internal.

(* ------------------------------------------------------------------------ *)
(** ** The specification: what a value becomes on the other side *)

Section Norm.
Context `{ZendConv}.
Variable r : registries.

(** A value written with its tag. *)
Definition norm_value (rec : schema_def -> zval -> zval) (f : field_def) (v : zval) : zval :=
  match type f, v with
  | (IIBIN_INTERNAL_TYPE_INT32 | IIBIN_INTERNAL_TYPE_SINT32 | IIBIN_INTERNAL_TYPE_SFIXED32),
      ZLong n => ZLong (s32 n)
  | (IIBIN_INTERNAL_TYPE_INT64 | IIBIN_INTERNAL_TYPE_SINT64 | IIBIN_INTERNAL_TYPE_UINT32
    | IIBIN_INTERNAL_TYPE_UINT64 | IIBIN_INTERNAL_TYPE_FIXED64 | IIBIN_INTERNAL_TYPE_SFIXED64),
      ZLong n => ZLong (s64 n)
  | IIBIN_INTERNAL_TYPE_FIXED32, ZLong n => ZLong (u32 n)
  | IIBIN_INTERNAL_TYPE_BOOL, _ => v
  | IIBIN_INTERNAL_TYPE_ENUM, _ =>
      match enum_number r f v with Done n => ZLong (s32 n) | _ => ZUndef end
  | IIBIN_INTERNAL_TYPE_FLOAT, _ =>
      ZDouble (double_of_float (u32 (float_of_double (zval_get_double v))))
  | IIBIN_INTERNAL_TYPE_DOUBLE, _ => ZDouble (u64 (zval_get_double v))
  | (IIBIN_INTERNAL_TYPE_STRING | IIBIN_INTERNAL_TYPE_BYTES), _ => v
  | IIBIN_INTERNAL_TYPE_MESSAGE, _ =>
      match message_type_name_if_nested f with
      | Some mn => match get_compiled_iibin_schema_internal r mn with
                   | Some s => rec s v
                   | None => ZUndef
                   end
      | None => ZUndef
      end
  | _, _ => ZUndef
  end.

(** An item of a packed block, converted leniently. *)
Definition norm_packed_item (f : field_def) (item : zval) : zval :=
  match type f with
  | IIBIN_INTERNAL_TYPE_INT32 | IIBIN_INTERNAL_TYPE_SINT32 | IIBIN_INTERNAL_TYPE_SFIXED32
  | IIBIN_INTERNAL_TYPE_ENUM => ZLong (s32 (zval_get_long item))
  | IIBIN_INTERNAL_TYPE_INT64 | IIBIN_INTERNAL_TYPE_SINT64 | IIBIN_INTERNAL_TYPE_UINT32
  | IIBIN_INTERNAL_TYPE_UINT64 | IIBIN_INTERNAL_TYPE_FIXED64
  | IIBIN_INTERNAL_TYPE_SFIXED64 => ZLong (s64 (zval_get_long item))
  | IIBIN_INTERNAL_TYPE_FIXED32 => ZLong (u32 (zval_get_long item))
  | IIBIN_INTERNAL_TYPE_BOOL => zbool (negb (u64 (zval_get_long item) =? 0))
  | IIBIN_INTERNAL_TYPE_FLOAT =>
      ZDouble (double_of_float (u32 (float_of_double (zval_get_double item))))
  | IIBIN_INTERNAL_TYPE_DOUBLE => ZDouble (u64 (zval_get_double item))
  | _ => ZUndef
  end.

(** The entry of a field in the decoded array, if any. *)
Definition norm_field rec (f : field_def) (value : option zval) : hashtable :=
  match value with
  | None | Some ZNull | Some ZUndef => []
  | Some v =>
      if has_flag f IIBIN_FIELD_FLAG_REPEATED then
        match v with
        | ZArray ht =>
            if decide (ht = []) then []
            else
              let item := if has_flag f IIBIN_FIELD_FLAG_PACKED
                          then norm_packed_item f else norm_value rec f in
              [(KStr (name_in_php f), ZArray (enum_from 0 (map item (ht_values ht))))]
        | _ => []
        end
      else [(KStr (name_in_php f), norm_value rec f v)]
  end.

Fixpoint norm_fields rec (fields : list field_def) (data : zval) : hashtable :=
  match fields with
  | [] => []
  | f :: fields' => norm_field rec f (read_field data f) ++ norm_fields rec fields' data
  end.

(** The decoded array of a message: the present fields, in tag order. *)
Fixpoint norm_message (fuel : nat) (s : schema_def) (data : zval) : zval :=
  match fuel with
  | O => ZUndef
  | S fuel' => ZArray (norm_fields (norm_message fuel') (ordered_fields s) data)
  end.
End Norm.

(* ------------------------------------------------------------------------ *)
(** ** Well-formed fields and schemas *)

(** What [parse_php_field_options] establishes, plus the limits of the wire
    format: 29-bit tags, and names that are not canonical integers. *)
Record field_wf (f : field_def) : Prop := {
  fw_tag : 1 <= tag f < 2 ^ 29;
  fw_name : symtable_key (name_in_php f) = KStr (name_in_php f);
  fw_type : type f <> IIBIN_INTERNAL_TYPE_UNKNOWN;
  fw_wire : wire_type f = calculate_field_wire_type (type f) (has_flag f IIBIN_FIELD_FLAG_PACKED);
  fw_packed : has_flag f IIBIN_FIELD_FLAG_PACKED = true ->
              has_flag f IIBIN_FIELD_FLAG_REPEATED = true /\ is_packable (type f) = true;
  fw_ref : type f = IIBIN_INTERNAL_TYPE_MESSAGE -> message_type_name_if_nested f <> None;
}.

Record schema_wf (s : schema_def) : Prop := {
  sw_fields : Forall field_wf (ordered_fields s);
  sw_names : NoDup (map name_in_php (ordered_fields s));
  sw_tags : Forall (fun f => fields_by_tag s !! tag f = Some f) (ordered_fields s);
}.

(** Fields whose decoding meets neither the length test of values nor the
    release of a stored payload. *)
Definition is_length_delimited_type (t : quicpro_iibin_field_type_internal) : bool :=
  match t with
  | IIBIN_INTERNAL_TYPE_STRING | IIBIN_INTERNAL_TYPE_BYTES | IIBIN_INTERNAL_TYPE_MESSAGE => true
  | _ => false
  end.

Definition scalar_field (f : field_def) : bool :=
  negb (is_length_delimited_type (type f))
  && (negb (has_flag f IIBIN_FIELD_FLAG_REPEATED) || has_flag f IIBIN_FIELD_FLAG_PACKED).

Definition registry_wf (r : registries) : Prop :=
  forall n s, get_compiled_iibin_schema_internal r n = Some s -> schema_wf s.

(* ------------------------------------------------------------------------ *)
(** ** What is required of the decoder's bounds tests *)

Definition mem_end (m : mem) : Z := m_base m + Z.of_nat (length (m_bytes m)).

Record decoder_sane (d : decoder) (m : mem) : Prop := {
  ds_block : forall ptr len e, m_base m <= ptr -> 0 <= len -> ptr + len <= e -> e <= mem_end m ->
    block_len_exceeds d ptr len e = false;
  ds_store : forall v, refcounted v = false -> after_store d v = v;
}.

(** A schema the decoder can handle in full: only scalar fields. *)
Definition decodable (s : schema_def) : Prop :=
  schema_wf s /\ Forall (fun f => scalar_field f = true) (ordered_fields s).

Lemma as_written_sane m : mem_wf m -> decoder_sane as_written m.
Proof.
  intros Hwf. pose proof Hwf as [? ?]. split.
  - intros ptr len e ????. unfold mem_end in *. simpl.
    rewrite (ptr_add_small m) by (done || lia).
    destruct (Z.gtb_spec (ptr + len) e); [lia|done].
  - intros v Hv. simpl. by rewrite Hv.
Qed.

(* ------------------------------------------------------------------------ *)
(** ** Integers across the wire *)

Lemma u64_u64 n : u64 (u64 n) = u64 n.
Proof. unfold u64. apply Zmod_mod. Qed.
Lemma u32_u32 n : u32 (u32 n) = u32 n.
Proof. unfold u32. apply Zmod_mod. Qed.
Lemma s32_u64 n : s32 (u64 n) = s32 n.
Proof. unfold s32, u64. apply sext_mod. lia. Qed.
Lemma s32_u32 n : s32 (u32 n) = s32 n.
Proof. unfold s32, u32. apply sext_mod. lia. Qed.
Lemma s64_u64 n : s64 (u64 n) = s64 n.
Proof. unfold s64, u64. apply sext_mod. lia. Qed.

Lemma zigzag32_wire n :
  quicpro_iibin_zigzag_decode32 (u32 (u64 (quicpro_iibin_zigzag_encode32 (s32 n)))) = s32 n.
Proof.
  destruct (zz_roundtrip 32 (s32 n) ltac:(lia) (sext_range 32 n ltac:(lia))) as [Hr He].
  rewrite zigzag_encode32_zz, zigzag_decode32_zz, u64_small, u32_small by lia. exact He.
Qed.

Lemma zigzag64_wire n :
  quicpro_iibin_zigzag_decode64 (u64 (quicpro_iibin_zigzag_encode64 (s64 n))) = s64 n.
Proof.
  destruct (zz_roundtrip 64 (s64 n) ltac:(lia) (sext_range 64 n ltac:(lia))) as [Hr He].
  rewrite zigzag_encode64_zz, zigzag_decode64_zz, u64_small by lia. exact He.
Qed.

#[export] Hint Rewrite u64_u64 u32_u32 s32_u64 s32_u32 s64_u64 zigzag32_wire zigzag64_wire : quicpro.

(** A field key splits back into its tag and wire type. *)
Lemma field_key_val (f : field_def) wt : 1 <= tag f < 2 ^ 29 -> 0 <= wt < 8 ->
  field_key f wt = tag f * 8 + wt.
Proof.
  intros Ht Hw. unfold field_key. rewrite Z.lor_comm.
  rewrite u32_small by (rewrite Z.shiftl_mul_pow2 by lia; lia).
  rewrite lor_shiftl_add by lia. lia.
Qed.

Lemma key_split k t wt : k = t * 8 + wt -> 0 <= t < 2 ^ 29 -> 0 <= wt < 8 ->
  u32 (Z.shiftr k 3) = t /\ Z.land k 7 = wt.
Proof.
  intros -> Ht Hw. split.
  - rewrite Z.shiftr_div_pow2 by lia. change (2 ^ 3) with 8.
    rewrite Z.div_add_l, (Z.div_small wt), Z.add_0_r by lia. apply u32_small. lia.
  - change 7 with (2 ^ 3 - 1). rewrite land_ones_mod by lia. change (2 ^ 3) with 8.
    rewrite Z.add_comm, Z_mod_plus_full. apply Z.mod_small. lia.
Qed.

Lemma wire_type_range t p : t <> IIBIN_INTERNAL_TYPE_UNKNOWN ->
  0 <= calculate_field_wire_type t p < 8.
Proof. destruct t, p; intros; try done; split; simpl; reflexivity || discriminate || lia. Qed.

Lemma length_list_byte_of_string s : length (list_byte_of_string s) = String.length s.
Proof. unfold list_byte_of_string. rewrite length_map. induction s; simpl; auto. Qed.

Lemma length_string_of_list_byte l : String.length (string_of_list_byte l) = length l.
Proof.
  rewrite <- length_list_byte_of_string, list_byte_of_string_of_list_byte. done.
Qed.

(* ------------------------------------------------------------------------ *)
(** ** One value *)

Section Values.
Context `{ZendConv}.
Variables (r : registries) (d : decoder) (m : mem).
Hypothesis Hwf : mem_wf m.
Hypothesis Hsane : decoder_sane d m.

(** The bytes are in the block, before [e], and [e] is in the block. *)
Definition region (p : Z) (bs : list byte) (e : Z) : Prop :=
  bytes_at m p bs /\ p + Z.of_nat (length bs) <= e /\ e <= mem_end m.

Lemma region_app p bs cs e :
  region p (bs ++ cs) e <-> region p bs e /\ region (p + Z.of_nat (length bs)) cs e.
Proof. unfold region. rewrite bytes_at_app, length_app. split; intros; intuition lia. Qed.

Lemma region_le p bs e : region p bs e -> m_base m <= p <= e.
Proof. intros (Hb & ? & ?). apply bytes_at_range in Hb. lia. Qed.

Lemma read_varint_ok p e v : region p (quicpro_iibin_encode_varint v) e ->
  read_varint m p e = Done (u64 v, p + Z.of_nat (length (quicpro_iibin_encode_varint v))).
Proof. intros (? & ? & ?). apply decode_encode_varint; done. Qed.

Lemma read_fixed32_ok p e v : region p (quicpro_iibin_encode_fixed32 v) e ->
  quicpro_iibin_decode_fixed32 (None : option iibin_error) m p e =
  Done (u32 v, p + Z.of_nat (length (quicpro_iibin_encode_fixed32 v))).
Proof. intros (? & ? & ?). apply decode_encode_fixed32; done. Qed.

Lemma read_fixed64_ok p e v : region p (quicpro_iibin_encode_fixed64 v) e ->
  quicpro_iibin_decode_fixed64 (None : option iibin_error) m p e =
  Done (u64 v, p + Z.of_nat (length (quicpro_iibin_encode_fixed64 v))).
Proof. intros (? & ? & ?). apply decode_encode_fixed64; done. Qed.

#[local] Opaque float_of_double double_of_float u32 u64 s32 s64
  quicpro_iibin_encode_varint quicpro_iibin_encode_fixed32 quicpro_iibin_encode_fixed64
  quicpro_iibin_zigzag_encode32 quicpro_iibin_zigzag_encode64
  quicpro_iibin_zigzag_decode32 quicpro_iibin_zigzag_decode64.

(** The scalar cases of [decode_value_to_zval]. *)
Ltac scalar :=
  match goal with
  | R : region _ (quicpro_iibin_encode_varint _) _ |- _ => rewrite (read_varint_ok _ _ _ R)
  | R : region _ (quicpro_iibin_encode_fixed32 _) _ |- _ => rewrite (read_fixed32_ok _ _ _ R)
  | R : region _ (quicpro_iibin_encode_fixed64 _) _ |- _ => rewrite (read_fixed64_ok _ _ _ R)
  end; cbn [obind]; autorewrite with quicpro; try reflexivity.

Lemma decode_packed_item_ok rec p e f item :
  is_packable (type f) = true -> region p (encode_packed_item f item) e ->
  decode_value_to_zval r d m rec p e f (wire_type f) false =
  Done (norm_packed_item f item, p + Z.of_nat (length (encode_packed_item f item))).
Proof.
  intros Hp Hreg. unfold decode_value_to_zval. rewrite Z.eqb_refl. simpl negb.
  rewrite andb_false_l. unfold encode_packed_item, norm_packed_item in *.
  destruct (type f); try discriminate Hp; scalar.
Qed.

Lemma packed_item_nonempty f item : is_packable (type f) = true ->
  (1 <= length (encode_packed_item f item))%nat.
Proof.
  intros Hp. unfold encode_packed_item.
  destruct (type f); try discriminate Hp; try apply encode_varint_nonempty;
    rewrite ?length_encode_fixed32, ?length_encode_fixed64; lia.
Qed.

Lemma decode_packed_ok rec f items : is_packable (type f) = true ->
  forall fuel p e done, region p (concat (map (encode_packed_item f) items)) e ->
  e = p + Z.of_nat (length (concat (map (encode_packed_item f) items))) ->
  (length items < fuel)%nat ->
  decode_packed r d m fuel rec p e f false (ZArray (enum_from 0 done)) =
  Done (ZArray (enum_from 0 (done ++ map (norm_packed_item f) items)), e).
Proof.
  intros Hp. induction items as [|item items IH]; intros fuel p e dn Hreg He Hfuel;
    (destruct fuel as [|fuel]; [simpl in Hfuel; lia|]); cbn [decode_packed map concat] in *.
  - cbn [length] in He. destruct (Z.ltb_spec p e); [lia|].
    rewrite app_nil_r. do 2 f_equal. lia.
  - apply region_app in Hreg as [Hr1 Hr2]. rewrite length_app in He.
    pose proof (packed_item_nonempty f item Hp) as Hne.
    destruct (Z.ltb_spec p e); [|lia].
    rewrite (decode_packed_item_ok rec p e f item Hp Hr1). simpl.
    rewrite ht_push_enum, (IH fuel _ e); [|done|lia|simpl in Hfuel; lia].
    rewrite <- app_assoc. done.
Qed.

(** The whole packed field, starting after its key. *)
Lemma decode_packed_field_ok rec f items fuel p e ht :
  is_packable (type f) = true ->
  let pk := concat (map (encode_packed_item f) items) in
  let bs := quicpro_iibin_encode_varint (Z.of_nat (length pk)) ++ pk in
  region p bs e -> ht_find (KStr (name_in_php f)) ht = None -> (length items < fuel)%nat ->
  decode_packed_field r d m fuel rec p e f false (ZArray ht) =
  Done (ZArray (ht ++ [(KStr (name_in_php f), ZArray (enum_from 0 (map (norm_packed_item f) items)))]),
        p + Z.of_nat (length bs)).
Proof.
  intros Hp pk bs Hreg Hht Hfuel. unfold decode_packed_field.
  apply region_app in Hreg as [Hr1 Hr2]. pose proof Hr2 as (Hb2 & Hl2 & He2).
  pose proof (bytes_at_range _ _ _ Hb2) as Hrg. pose proof Hwf as [? ?].
  rewrite (read_varint_ok _ _ _ Hr1). simpl obind.
  rewrite u64_small by (unfold mem_end in *; lia).
  rewrite (ds_block _ _ Hsane) by lia.
  rewrite (ptr_add_small m) by (done || unfold mem_end in *; lia).
  rewrite Hht. change (ZArray []) with (ZArray (enum_from 0 [])).
  rewrite (decode_packed_ok rec f items Hp fuel _ _ []); [|repeat split; (done || fold pk; unfold mem_end in *; lia)|done|done].
  simpl. rewrite ht_update_fresh by done. subst bs. rewrite length_app. do 2 f_equal. lia.
Qed.

Definition field_decodable (f : field_def) : Prop := field_wf f /\ scalar_field f = true.

Lemma scalar_not_delimited f : scalar_field f = true -> is_length_delimited_type (type f) = false.
Proof. unfold scalar_field. by destruct (is_length_delimited_type (type f)). Qed.

Lemma decode_value_ok rec_e rec_n rec_d f v bs p e : field_decodable f ->
  check_value_type f v = Done tt -> encode_value r rec_e f v = Done bs -> region p bs e ->
  decode_value_to_zval r d m rec_d p e f (wire_type f) false =
  Done (norm_value r rec_n f v, p + Z.of_nat (length bs)).
Proof.
  intros [_ Hsc] Hchk Henc Hreg. unfold decode_value_to_zval.
  rewrite Z.eqb_refl. simpl negb. rewrite andb_false_l.
  apply scalar_not_delimited in Hsc. unfold check_value_type, encode_value, norm_value in *.
  destruct (type f); try discriminate Hsc; try (destruct v; try discriminate; inv_done; scalar); try discriminate.
  - (* enum, by number *) by rewrite E.
  - (* enum, by name *) by rewrite E.
Qed.
End Values.
