(* ===== verification/IibinMessage.v ===== *)
(** * IIBIN messages across the wire

    The message level of the round trip: from one encoded field to the loop over
    the fields of a schema, and up to the two PHP functions
    [quicpro_iibin_encode] and [quicpro_iibin_decode]. *)

From Stdlib Require Import ZArith Lia String Strings.Byte.
From stdpp Require Import base tactics list gmap strings.
From S2P Require Import Prelude Ieee Zend IibinWire IibinSchema IibinEncode IibinDecode IibinRoundtrip.

Local Open Scope Z_scope.

#[local] Opaque float_of_double double_of_float u32 u64 s32 s64
  quicpro_iibin_encode_varint quicpro_iibin_encode_fixed32 quicpro_iibin_encode_fixed64.

Section Messages.
Context `{ZendConv}.
Variables (r : registries) (d : decoder) (m : mem).
Hypothesis Hwf : mem_wf m.
Hypothesis Hsane : decoder_sane d m.

Abbreviation decode_msg fuel := (decode_message_internal r d m fuel false).

(** A schema field the decoder finds under its tag and can decode. *)
Definition field_ready (s : schema_def) (f : field_def) : Prop :=
  field_decodable f /\ fields_by_tag s !! tag f = Some f.

(** The loop body after it has read the key of a known field. *)
Lemma decode_key_ok fuel s f wt p e rv :
  field_wf f -> fields_by_tag s !! tag f = Some f -> 0 <= wt < 8 ->
  region m p (quicpro_iibin_encode_varint (field_key f wt)) e ->
  let q := p + Z.of_nat (length (quicpro_iibin_encode_varint (field_key f wt))) in
  decode_msg (S fuel) s p e rv =
  if has_flag f IIBIN_FIELD_FLAG_PACKED && (wt =? QUICPRO_IIBIN_WIRETYPE_LENGTH_DELIM) then
    let! '(rv, ptr) := decode_packed_field r d m fuel (decode_msg fuel) q e f false rv in
    decode_msg fuel s ptr e rv
  else
    let! '(value, ptr) := decode_value_to_zval r d m (decode_msg fuel) q e f wt false in
    let! rv := store_value d f value rv in
    decode_msg fuel s ptr e rv.
Proof.
  intros Hf Htag Hwt Hreg q. pose proof (fw_tag _ Hf) as Ht.
  pose proof (field_key_val f wt Ht Hwt) as Hk.
  pose proof (encode_varint_nonempty (field_key f wt)).
  cbn [decode_message_internal].
  destruct (Z.ltb_spec p e); [|destruct Hreg as (_ & ? & _); lia].
  rewrite (read_varint_ok m Hwf _ _ _ Hreg), u64_small by lia.
  destruct (key_split _ _ _ Hk ltac:(lia) Hwt) as [-> ->].
  destruct (Z.eqb_spec (tag f) 0); [lia|]. by rewrite Htag.
Qed.

Variables (rec_e : schema_def -> zval -> outcome iibin_error (list byte))
  (rec_n : schema_def -> zval -> zval).

(** One tagged value: it is decoded and stored, and the loop goes on. *)
Lemma decode_single_ok fuel s f v bs p e rv :
  field_ready s f -> has_flag f IIBIN_FIELD_FLAG_PACKED = false ->
  encode_single_field_value r rec_e f v = Done bs -> region m p bs e -> (length bs <= fuel)%nat ->
  decode_msg (S fuel) s p e rv =
  let! rv := store_value d f (norm_value r rec_n f v) rv in
  decode_msg fuel s (p + Z.of_nat (length bs)) e rv.
Proof.
  intros Hf Hnp Henc Hreg Hfuel. unfold encode_single_field_value in Henc. inv_done.
  destruct r0. apply region_app in Hreg as [Hr1 Hr2]. rewrite length_app in *.
  pose proof (fw_wire _ (proj1 (proj1 Hf))) as Hw.
  pose proof (wire_type_range (type f) false (fw_type _ (proj1 (proj1 Hf)))).
  rewrite (decode_key_ok fuel s f (wire_type f)); [|apply Hf|apply Hf|rewrite Hw, Hnp; lia|done].
  rewrite Hnp. cbn [andb].
  rewrite (decode_value_ok r d m Hwf rec_e rec_n _ f v r1 _ e (proj1 Hf) E E0 Hr2).
  simpl. destruct (store_value _ _ _ _); [|done..]. simpl. f_equal. lia.
Qed.

Lemma encode_single_nonempty f v bs :
  encode_single_field_value r rec_e f v = Done bs -> (1 <= length bs)%nat.
Proof.
  unfold encode_single_field_value. intros. inv_done. rewrite length_app.
  pose proof (encode_varint_nonempty (field_key f (wire_type f))). lia.
Qed.

Lemma norm_scalar_plain f v : is_length_delimited_type (type f) = false ->
  check_value_type f v = Done tt -> refcounted (norm_value r rec_n f v) = false.
Proof.
  unfold check_value_type, norm_value. intros Hl Hchk.
  destruct (type f); try discriminate Hl; destruct v; try discriminate Hchk; try done;
    by destruct (enum_number _ _ _).
Qed.

(** What is stored survives. *)
Lemma stored_value f v bs : field_decodable f ->
  encode_single_field_value r rec_e f v = Done bs ->
  after_store d (norm_value r rec_n f v) = norm_value r rec_n f v.
Proof.
  intros [_ Hs] Henc. apply (ds_store _ _ Hsane). unfold encode_single_field_value in Henc. inv_done. destruct r0.
  apply norm_scalar_plain; [by apply scalar_not_delimited|done].
Qed.

Lemma decode_singular_ok fuel s f v bs p e ht :
  field_ready s f -> has_flag f IIBIN_FIELD_FLAG_REPEATED = false ->
  encode_single_field_value r rec_e f v = Done bs -> region m p bs e ->
  (length bs < fuel)%nat -> ht_find (KStr (name_in_php f)) ht = None ->
  exists fuel', (fuel <= fuel' + length bs)%nat /\
  decode_msg fuel s p e (ZArray ht) =
  decode_msg fuel' s (p + Z.of_nat (length bs)) e
    (ZArray (ht ++ [(KStr (name_in_php f), norm_value r rec_n f v)])).
Proof.
  intros Hf Hrep Henc Hreg Hlt Hht. pose proof (encode_single_nonempty _ _ _ Henc).
  destruct fuel as [|fuel]; [lia|]. exists fuel. split; [lia|].
  pose proof (proj1 (proj1 Hf)) as Hfw.
  assert (has_flag f IIBIN_FIELD_FLAG_PACKED = false) as Hnp.
  { destruct (has_flag f IIBIN_FIELD_FLAG_PACKED) eqn:Hp; [|done].
    destruct (fw_packed _ Hfw Hp). congruence. }
  rewrite (decode_single_ok fuel s f v _ p e _ Hf Hnp Henc Hreg) by lia.
  unfold store_value. rewrite Hrep, (fw_name _ Hfw), (stored_value _ _ _ (proj1 Hf) Henc). simpl.
  by rewrite ht_update_fresh.
Qed.

Lemma decode_packed_block_ok fuel s f items p e ht :
  field_ready s f -> has_flag f IIBIN_FIELD_FLAG_PACKED = true -> items <> [] ->
  region m p (encode_packed_repeated_field f items) e ->
  (length (encode_packed_repeated_field f items) < fuel)%nat ->
  ht_find (KStr (name_in_php f)) ht = None ->
  exists fuel', (fuel <= fuel' + length (encode_packed_repeated_field f items))%nat /\
  decode_msg fuel s p e (ZArray ht) =
  decode_msg fuel' s (p + Z.of_nat (length (encode_packed_repeated_field f items))) e
    (ZArray (ht ++ [(KStr (name_in_php f),
                     ZArray (enum_from 0 (map (norm_packed_item f) items)))])).
Proof.
  intros Hf Hp Hne. destruct (fw_packed _ (proj1 (proj1 Hf)) Hp) as [_ Hpk].
  assert (Hlen : (length items <= length (concat (map (encode_packed_item f) items)))%nat).
  { clear - Hpk. induction items as [|i items IH]; simpl; [lia|]. rewrite length_app.
    pose proof (packed_item_nonempty f i Hpk). lia. }
  unfold encode_packed_repeated_field.
  destruct (concat (map (encode_packed_item f) items)) as [|b bs] eqn:Epk;
    [destruct items; [done|simpl in Hlen; lia]|].
  rewrite <- Epk in *. clear Epk b bs. intros Hreg Hlt Hht.
  destruct fuel as [|fuel]; [lia|]. apply region_app in Hreg as [Hr1 Hr2].
  pose proof (encode_varint_nonempty (field_key f QUICPRO_IIBIN_WIRETYPE_LENGTH_DELIM)).
  pose proof Hlt as Hlt2. rewrite 2 length_app in Hlt2.
  exists fuel. split; [rewrite 2 length_app; lia|].
  rewrite (decode_key_ok fuel s f QUICPRO_IIBIN_WIRETYPE_LENGTH_DELIM); [|apply Hf|apply Hf|done|done].
  rewrite Hp. cbn [andb Z.eqb]. change (QUICPRO_IIBIN_WIRETYPE_LENGTH_DELIM =? _) with true. simpl.
  rewrite (decode_packed_field_ok r d m Hwf Hsane _ f items fuel _ e ht Hpk Hr2 Hht) by lia.
  simpl. f_equal. rewrite !length_app. lia.
Qed.

Lemma scalar_repeated_packed f : scalar_field f = true -> has_flag f IIBIN_FIELD_FLAG_REPEATED = true ->
  has_flag f IIBIN_FIELD_FLAG_PACKED = false -> False.
Proof. unfold scalar_field. intros Hs Hr Hp. by rewrite Hr, Hp, andb_false_r in Hs. Qed.

(** One field of the schema. *)
Lemma decode_field_ok fuel s f value bs p e ht :
  field_ready s f -> encode_field_internal r rec_e f value = Done bs -> region m p bs e ->
  (length bs < fuel)%nat -> ht_find (KStr (name_in_php f)) ht = None ->
  exists fuel', (fuel <= fuel' + length bs)%nat /\
  decode_msg fuel s p e (ZArray ht) =
  decode_msg fuel' s (p + Z.of_nat (length bs)) e
    (ZArray (ht ++ norm_field r rec_n f value)).
Proof.
  intros Hf Henc Hreg Hlt Hht. unfold encode_field_internal, norm_field in *.
  destruct (has_flag f IIBIN_FIELD_FLAG_REPEATED) eqn:Hrep.
  - destruct value as [v|]; [destruct v|]; repeat (case_match; try discriminate); inv_done;
      first [ exists fuel; split; [lia|]; simpl; rewrite app_nil_r; f_equal; lia
            | eapply decode_packed_block_ok; eauto; by destruct ht0
            | exfalso; by eapply scalar_repeated_packed; [apply Hf|..] ].
  - destruct value as [v|]; [destruct v|]; repeat (case_match; try discriminate); inv_done;
      first [ exists fuel; split; [lia|]; simpl; rewrite app_nil_r; f_equal; lia
            | eapply decode_singular_ok; eauto ].
Qed.

(** A field has no entry under another key. *)
Lemma norm_field_find f value k : k <> KStr (name_in_php f) ->
  ht_find k (norm_field r rec_n f value) = None.
Proof.
  intros Hk. unfold norm_field. destruct value as [v|]; [|done].
  destruct (has_flag f IIBIN_FIELD_FLAG_REPEATED), v; simpl; rewrite ?decide_False by done; try done.
  destruct (decide (ht = [])); simpl; by rewrite ?decide_False.
Qed.

(** The fields of a schema, one after the other. *)
Lemma decode_fields_ok s data fields : Forall (field_ready s) fields ->
  NoDup (map name_in_php fields) ->
  forall fuel bs p e ht, encode_fields r rec_e fields data = Done bs -> region m p bs e ->
  e = p + Z.of_nat (length bs) -> (length bs < fuel)%nat ->
  (forall f, f ∈ fields -> ht_find (KStr (name_in_php f)) ht = None) ->
  decode_msg fuel s p e (ZArray ht) = Done (ZArray (ht ++ norm_fields r rec_n fields data), e).
Proof.
  induction 1 as [|f fields Hf Hfs IH]; intros Hnd fuel bs p e ht Henc Hreg He Hlt Hfresh;
    simpl in Henc; inv_done.
  - destruct fuel as [|fuel]; [lia|]. cbn [decode_message_internal length].
    destruct (Z.ltb_spec p (p + Z.of_nat 0)); [lia|]. simpl. by rewrite app_nil_r, Z.add_0_r.
  - apply region_app in Hreg as [Hr1 Hr2]. rewrite length_app in Hlt.
    simpl in Hnd. apply NoDup_cons in Hnd as [Hnin Hnd].
    destruct (decode_field_ok fuel s f _ r0 p _ ht Hf E Hr1) as (fuel' & Hle & ->);
      [lia|apply Hfresh; set_solver|].
    rewrite (IH Hnd fuel' r1 _ _ _ E0 Hr2); [|rewrite length_app; lia|lia|].
    + simpl. by rewrite <- app_assoc.
    + intros g Hg. rewrite ht_find_app, Hfresh by set_solver.
      assert (KStr (name_in_php g) <> KStr (name_in_php f)).
      { intros [= Heq]. apply Hnin. rewrite <- Heq. by apply list_elem_of_fmap_2. }
      by apply norm_field_find.
Qed.
End Messages.

(** A message of scalar fields. *)
Lemma decode_message_ok `{ZendConv} r d m ef fuel s v bs p e : mem_wf m -> decoder_sane d m -> decodable s ->
  encode_message_internal r ef s v = Done bs -> region m p bs e -> e = p + Z.of_nat (length bs) -> (length bs < fuel)%nat ->
  decode_message_internal r d m fuel false s p e (ZArray []) = Done (norm_message r ef s v, e).
Proof.
  intros Hwf Hsane [Hs Hd] Henc Hreg He Hlt. destruct ef as [|ef]; [discriminate|].
  assert (Hf : encode_fields r (encode_message_internal r ef) (ordered_fields s) v = Done bs)
    by (simpl in Henc; by destruct v).
  rewrite (decode_fields_ok r d m Hwf Hsane (encode_message_internal r ef) (norm_message r ef) s v (ordered_fields s))
    with (bs := bs); try done; [|apply (sw_names _ Hs)].
  apply Forall_forall. intros f Hin.
  split; [split; [apply (proj1 (Forall_forall _ _) (sw_fields _ Hs) f Hin)|apply (proj1 (Forall_forall _ _) Hd f Hin)]|].
  apply (proj1 (Forall_forall _ _) (sw_tags _ Hs) f Hin).
Qed.

(** The block of a string with its terminating NUL. *)
Lemma mem_of_string_region base bs :
  region (mem_of_string base (string_of_list_byte bs)) base bs (base + Z.of_nat (length bs)).
Proof.
  unfold mem_of_string. rewrite list_byte_of_string_of_list_byte.
  split; [|unfold mem_end; simpl; rewrite length_app; simpl; lia].
  exists [], [Byte.x00]. simpl. split; [done|lia].
Qed.

(** A block the allocator can return. *)
Definition base_ok (base : Z) (s : string) : Prop :=
  256 <= base /\ base + Z.of_nat (String.length s) + 1 < 2 ^ 63.

Lemma mem_of_string_wf base s : base_ok base s -> mem_wf (mem_of_string base s).
Proof.
  intros [? ?]. unfold mem_wf, mem_of_string. simpl.
  rewrite length_app, length_list_byte_of_string. simpl. lia.
Qed.

(** Encoding then decoding is [norm_message] then the defaults and required
    fields; the "bytes remain" exception is not pending. *)
Lemma decode_encode `{ZendConv} r d base ef fuel name s data str :
  get_compiled_iibin_schema_internal r name = Some s ->
  base_ok base str -> decoder_sane d (mem_of_string base str) ->
  decodable s ->
  quicpro_iibin_encode r ef name data = Done str -> (String.length str < fuel)%nat ->
  quicpro_iibin_decode r d base fuel name str false =
  let! rv := populate_default_values_and_check_required (schema_name s) (ordered_fields s)
               (norm_message r ef s data) in
  Done (rv, false).
Proof.
  intros Hn Hb Hsane Hdec Henc Hfuel. unfold quicpro_iibin_encode in Henc. rewrite Hn in Henc.
  inv_done. rewrite length_string_of_list_byte in Hfuel.
  unfold quicpro_iibin_decode. rewrite Hn, length_string_of_list_byte.
  rewrite (decode_message_ok r d _ ef fuel s data r0 base _ (mem_of_string_wf _ _ Hb) Hsane Hdec E
             (mem_of_string_region base r0) eq_refl Hfuel).
  simpl. by rewrite Z.eqb_refl.
Qed.

(* ------------------------------------------------------------------------ *)
(** ** Defaults and required fields *)

(** The entries that [populate_default_values_and_check_required] adds. *)
Definition default_entry (ht : hashtable) (f : field_def) : hashtable :=
  if ht_exists (KStr (name_in_php f)) ht then []
  else match default_value_zval f with
       | ZUndef => []
       | dv => [(KStr (name_in_php f), dv)]
       end.

Definition required_ok (ht : hashtable) (f : field_def) : Prop :=
  has_flag f IIBIN_FIELD_FLAG_REQUIRED = true -> ht_exists (KStr (name_in_php f)) ht = true.

Lemma ht_exists_app k h1 h2 : ht_exists k (h1 ++ h2) = ht_exists k h1 || ht_exists k h2.
Proof. unfold ht_exists. rewrite ht_find_app. by destruct (ht_find k h1). Qed.

Lemma default_entry_other ht f k : k <> KStr (name_in_php f) -> ht_find k (default_entry ht f) = None.
Proof.
  intros. unfold default_entry. destruct (ht_exists _ _); [done|].
  destruct (default_value_zval f); simpl; by rewrite ?decide_False.
Qed.

Lemma name_key_ne (f g : field_def) fields : name_in_php f ∉ map name_in_php fields -> g ∈ fields ->
  KStr (name_in_php g) <> KStr (name_in_php f).
Proof. intros Hn Hg [= Heq]. apply Hn. rewrite <- Heq. by apply list_elem_of_fmap_2. Qed.

Lemma populate_ok sname fields : NoDup (map name_in_php fields) ->
  forall ht, Forall (required_ok ht) fields ->
  populate_default_values_and_check_required sname fields (ZArray ht) =
  Done (ZArray (ht ++ concat (map (default_entry ht) fields))).
Proof.
  induction fields as [|f fields IH]; intros Hnd ht Hreq; [simpl; by rewrite app_nil_r|].
  simpl in Hnd. apply NoDup_cons in Hnd as [Hn Hnd]. apply Forall_cons in Hreq as [Hf Hreq].
  cbn [map concat populate_default_values_and_check_required].
  assert (Hother : forall dv, 
    populate_default_values_and_check_required sname fields (ZArray (ht ++ [(KStr (name_in_php f), dv)]))
    = Done (ZArray ((ht ++ [(KStr (name_in_php f), dv)]) ++ concat (map (default_entry ht) fields)))).
  { intros dv. assert (Hsame : forall g, g ∈ fields ->
      ht_exists (KStr (name_in_php g)) (ht ++ [(KStr (name_in_php f), dv)]) = ht_exists (KStr (name_in_php g)) ht).
    { intros g Hg. rewrite ht_exists_app. unfold ht_exists at 2. simpl.
      rewrite decide_False by (by eapply name_key_ne). by rewrite orb_false_r. }
    rewrite (IH Hnd).
    - do 4 f_equal. apply map_ext_in. intros g Hg. unfold default_entry.
      rewrite Hsame; [done|]. by apply list_elem_of_In.
    - apply Forall_forall. intros g Hg. unfold required_ok. rewrite Hsame by done.
      by apply (proj1 (Forall_forall _ _) Hreq). }
  unfold required_ok in Hf. unfold default_entry at 1. destruct (ht_exists _ ht) eqn:Hex.
  - by rewrite (IH Hnd).
  - destruct (has_flag f IIBIN_FIELD_FLAG_REQUIRED); [by discriminate Hf|].
    assert (Hu : forall v, ht_update (KStr (name_in_php f)) v ht = ht ++ [(KStr (name_in_php f), v)]).
    { intros v. apply ht_update_fresh. unfold ht_exists in Hex. by destruct (ht_find _ ht). }
    destruct (default_value_zval f); rewrite ?Hu, ?Hother, <- ?app_assoc; try done. by rewrite (IH Hnd).
Qed.

(** A missing required field is an error, whatever the other fields are. *)
Lemma populate_missing sname f fields ht :
  has_flag f IIBIN_FIELD_FLAG_REQUIRED = true -> ht_exists (KStr (name_in_php f)) ht = false ->
  populate_default_values_and_check_required sname (f :: fields) (ZArray ht) =
  Failed (Some (ERequiredNotFound (name_in_php f) sname)).
Proof. intros Hr Hx. simpl. by rewrite Hx, Hr. Qed.

(* ------------------------------------------------------------------------ *)
(** ** What a decoded field holds *)

Section Decoded.
Context `{ZendConv}.
Variable r : registries.
Variable rec_n : schema_def -> zval -> zval.

(** The value of a field after the round trip: the one that was encoded, else
    the default, else nothing. *)
Definition decoded_field (data : zval) (f : field_def) : option zval :=
  match norm_field r rec_n f (read_field data f) with
  | (_, v) :: _ => Some v
  | [] => match default_value_zval f with ZUndef => None | dv => Some dv end
  end.

Lemma find_norm_field f value : ht_find (KStr (name_in_php f)) (norm_field r rec_n f value) =
  match norm_field r rec_n f value with (_, v) :: _ => Some v | [] => None end.
Proof.
  unfold norm_field. destruct value as [v|]; [|done].
  destruct (has_flag f IIBIN_FIELD_FLAG_REPEATED), v; simpl; rewrite ?decide_True by done; try done.
  destruct (decide (ht = [])); simpl; by rewrite ?decide_True.
Qed.

Lemma find_norm_fields data fields : NoDup (map name_in_php fields) ->
  forall f, f ∈ fields ->
  ht_find (KStr (name_in_php f)) (norm_fields r rec_n fields data) =
  ht_find (KStr (name_in_php f)) (norm_field r rec_n f (read_field data f)).
Proof.
  induction fields as [|g fields IH]; intros Hnd f Hf; [set_solver|].
  simpl in *. apply NoDup_cons in Hnd as [Hn Hnd]. rewrite ht_find_app.
  apply elem_of_cons in Hf as [->|Hf].
  - destruct (ht_find _ (norm_field _ _ g _)) eqn:Eg; [done|].
    assert (Hnone : forall h, h ∈ fields -> KStr (name_in_php g) <> KStr (name_in_php h))
      by (intros h Hh ?; by eapply (name_key_ne g h fields)).
    clear - Hnone. induction fields as [|h fields IH]; [done|]. simpl.
    rewrite ht_find_app, norm_field_find by (apply Hnone; set_solver).
    apply IH. intros; apply Hnone; set_solver.
  - rewrite norm_field_find by (by eapply name_key_ne). by apply IH.
Qed.

Lemma find_defaults ht fields : NoDup (map name_in_php fields) ->
  forall f, f ∈ fields -> ht_exists (KStr (name_in_php f)) ht = false ->
  ht_find (KStr (name_in_php f)) (concat (map (default_entry ht) fields)) =
  match default_value_zval f with ZUndef => None | dv => Some dv end.
Proof.
  induction fields as [|g fields IH]; intros Hnd f Hf Hx; [set_solver|].
  simpl in *. apply NoDup_cons in Hnd as [Hn Hnd]. rewrite ht_find_app.
  apply elem_of_cons in Hf as [->|Hf].
  - assert (Hnone : ht_find (KStr (name_in_php g)) (concat (map (default_entry ht) fields)) = None).
    { assert (Hne : forall h, h ∈ fields -> KStr (name_in_php g) <> KStr (name_in_php h))
        by (intros h Hh ?; by eapply (name_key_ne g h fields)).
      clear - Hne. induction fields as [|h fields IH]; [done|]. simpl.
      rewrite ht_find_app, default_entry_other by (apply Hne; set_solver).
      apply IH. intros; apply Hne; set_solver. }
    rewrite Hnone. unfold default_entry. rewrite Hx.
    destruct (default_value_zval g); simpl; by rewrite ?decide_True.
  - rewrite default_entry_other by (by eapply name_key_ne). by apply IH.
Qed.

(** A required field that was encoded has an entry. *)
Lemma encoded_required rec_e data fields bs : encode_fields r rec_e fields data = Done bs ->
  forall f, f ∈ fields -> has_flag f IIBIN_FIELD_FLAG_REQUIRED = true ->
  (has_flag f IIBIN_FIELD_FLAG_REPEATED = true -> read_field data f <> Some (ZArray [])) ->
  exists v, norm_field r rec_n f (read_field data f) = [(KStr (name_in_php f), v)].
Proof.
  revert bs. induction fields as [|g fields IH]; intros bs Henc f Hf Hreq Hne; [set_solver|].
  simpl in Henc. inv_done. apply elem_of_cons in Hf as [->|Hf]; [|by eapply IH].
  clear - E Hreq Hne. unfold encode_field_internal, norm_field in *.
  destruct (read_field data g) as [v|]; [|by rewrite Hreq in E].
  destruct (has_flag g IIBIN_FIELD_FLAG_REPEATED), v; rewrite ?Hreq in E; try discriminate; eauto.
  destruct (decide (ht = [])) as [->|]; [by destruct Hne|eauto].
Qed.

(** The decoded message, field by field. *)
Lemma populate_norm sname rec_e data fields bs : NoDup (map name_in_php fields) ->
  encode_fields r rec_e fields data = Done bs ->
  (forall f, f ∈ fields -> has_flag f IIBIN_FIELD_FLAG_REQUIRED = true ->
     has_flag f IIBIN_FIELD_FLAG_REPEATED = true -> read_field data f <> Some (ZArray [])) ->
  exists ht, populate_default_values_and_check_required sname fields
               (ZArray (norm_fields r rec_n fields data)) = Done (ZArray ht) /\
  forall f, f ∈ fields -> ht_find (KStr (name_in_php f)) ht = decoded_field data f.
Proof.
  intros Hnd Henc Hne. set (ht := norm_fields r rec_n fields data).
  assert (Hfind : forall f, f ∈ fields -> ht_find (KStr (name_in_php f)) ht =
    match norm_field r rec_n f (read_field data f) with (_, v) :: _ => Some v | [] => None end)
    by (intros f Hf; unfold ht; by rewrite find_norm_fields, find_norm_field).
  exists (ht ++ concat (map (default_entry ht) fields)). split.
  - apply populate_ok; [done|]. apply Forall_forall. intros f Hf Hreq.
    destruct (encoded_required rec_e data fields bs Henc f Hf Hreq) as [v Hv]; [by apply Hne|].
    unfold ht_exists. by rewrite Hfind, Hv.
  - intros f Hf. rewrite ht_find_app. unfold decoded_field.
    destruct (norm_field r rec_n f (read_field data f)) as [|[k v] l] eqn:En.
    + rewrite Hfind, En by done. apply find_defaults; [done|done|].
      unfold ht_exists. by rewrite Hfind, En.
    + by rewrite Hfind, En.
Qed.
End Decoded.

(** The round trip of a schema the decoder can handle. *)
Lemma roundtrip_fields `{ZendConv} r d base ef fuel name s data str :
  get_compiled_iibin_schema_internal r name = Some s -> base_ok base str ->
  decoder_sane d (mem_of_string base str) -> decodable s ->
  quicpro_iibin_encode r (S ef) name data = Done str -> (String.length str < fuel)%nat ->
  (forall f, f ∈ ordered_fields s -> has_flag f IIBIN_FIELD_FLAG_REQUIRED = true ->
     has_flag f IIBIN_FIELD_FLAG_REPEATED = true -> read_field data f <> Some (ZArray [])) ->
  exists ht, quicpro_iibin_decode r d base fuel name str false = Done (ZArray ht, false) /\
  forall f, f ∈ ordered_fields s ->
    ht_find (KStr (name_in_php f)) ht = decoded_field r (norm_message r ef) data f.
Proof.
  intros Hn Hb Hsane Hdec Henc Hfuel Hne.
  rewrite (decode_encode r d base (S ef) fuel name s data str) by done.
  unfold quicpro_iibin_encode in Henc. rewrite Hn in Henc. inv_done.
  assert (encode_fields r (encode_message_internal r ef) (ordered_fields s) data = Done r0) as Hf
    by (simpl in E; by destruct data).
  destruct (populate_norm r (norm_message r ef) (schema_name s) _ data _ _
              (sw_names _ (proj1 Hdec)) Hf Hne) as (ht & Hp & Hall).
  exists ht. cbn [norm_message]. by rewrite Hp.
Qed.
