(* ===== verification/IibinDefine.v ===== *)
(** * Defining schemas and enums keeps the registries well formed

    What the two [define_*] functions of [iibin_schema.c] establish: every schema
    in the registry is one that the encoder and the decoder can work with. *)

From Stdlib Require Import ZArith Lia String Sorting.Sorted.
From stdpp Require Import base tactics list gmap strings.
From S2P Require Import Prelude Zend IibinSchema IibinWire IibinDecode IibinRoundtrip.

Local Open Scope Z_scope.

(* ------------------------------------------------------------------------ *)
(** ** One field *)

(** A field description within the limits of the wire format: a PHP array key
    without NUL bytes, and a tag of at most 29 bits. *)
Definition key_ok (n : string) : Prop := cstr n = n /\ symtable_key n = KStr n.
Definition tag_ok (opts : hashtable) : Prop :=
  forall t, ht_find (KStr "tag") opts = Some (ZLong t) -> t < 2 ^ 29.

Lemma resolve_not_unknown r n t ref t' mr er :
  resolve_field_type r n t ref = Done (t', mr, er) ->
  t' <> IIBIN_INTERNAL_TYPE_UNKNOWN /\
  ((t' = IIBIN_INTERNAL_TYPE_MESSAGE -> mr <> None) \/ t = t').
Proof.
  unfold resolve_field_type. intros Hr. repeat case_match; simplify_eq; split; try done; auto.
Qed.

Lemma parse_type_not_message ts t rep ref :
  parse_php_field_type_details ts = Some (t, rep, ref) -> t <> IIBIN_INTERNAL_TYPE_MESSAGE.
Proof.
  unfold parse_php_field_type_details. intros Hp.
  destruct (decide (ts = EmptyString)); [done|]. destruct (decide _); [done|].
  destruct (List.find _ primitive_types) as [q|] eqn:Hf; simplify_eq; [|done].
  apply List.find_some in Hf as [Hin _]. simpl in Hin.
  destruct_or?; subst; done.
Qed.

(** The flag word built from three choices, and what is read back from it. *)
Lemma field_flags_spec (rep req pk : bool) :
  let fl := flag_if rep IIBIN_FIELD_FLAG_REPEATED 0 in
  let fl := if req then Z.lor fl IIBIN_FIELD_FLAG_REQUIRED else Z.lor fl IIBIN_FIELD_FLAG_OPTIONAL in
  let fl := flag_if pk IIBIN_FIELD_FLAG_PACKED fl in
  negb (Z.land fl IIBIN_FIELD_FLAG_REPEATED =? 0) = rep /\
  negb (Z.land fl IIBIN_FIELD_FLAG_REQUIRED =? 0) = req /\
  negb (Z.land fl IIBIN_FIELD_FLAG_PACKED =? 0) = pk.
Proof. by destruct rep, req, pk. Qed.

Lemma parse_field_ok r n opts f : key_ok n -> tag_ok opts ->
  parse_php_field_options r n opts = Done f -> field_wf f /\ name_in_php f = n.
Proof.
  intros [Hc Hk] Ht Hp. unfold parse_php_field_options in Hp. rewrite Hc in Hp. cbv zeta in Hp.
  destruct (ht_find (KStr "tag") opts) as [[]|] eqn:Etag; try discriminate.
  destruct (Z.leb_spec n0 0); [discriminate|].
  destruct (ht_find (KStr "type") opts) as [[]|]; try discriminate.
  destruct (parse_php_field_type_details s) as [[[base rep] ref]|] eqn:Ept; [|discriminate].
  apply obind_Done in Hp as ([[t mr] er] & Er & Hp).
  set (pk := rep && is_packable t && _) in Hp.
  destruct (field_flags_spec rep (option_true "required" opts) pk) as (F1 & F2 & F3).
  cbv zeta in Hp. rewrite F3 in Hp. destruct (_ =? u32 (-1)); [discriminate|]. inv_done.
  apply resolve_not_unknown in Er as [Hu Hm]. apply parse_type_not_message in Ept.
  specialize (Ht _ Etag). split; [|done]. constructor; simpl.
  - rewrite u32_small; lia.
  - done.
  - done.
  - unfold has_flag; simpl. by rewrite F3.
  - unfold has_flag; simpl. rewrite F1, F3. subst pk. intros Hpk.
    apply andb_true_iff in Hpk as [Hpk _]. by apply andb_true_iff in Hpk.
  - intros ->. destruct Hm as [Hm| ->]; [by apply Hm|done].
Qed.

(* ------------------------------------------------------------------------ *)
(** ** Sorting by tag *)

Lemma insert_by_tag_perm f l : insert_by_tag f l ≡ₚ f :: l.
Proof.
  induction l as [|g l IH]; simpl; [done|]. case_match; [done|].
  rewrite IH. by rewrite Permutation_swap.
Qed.

Lemma sort_by_tag_perm l : sort_by_tag l ≡ₚ l.
Proof. induction l as [|f l IH]; simpl; [done|]. by rewrite insert_by_tag_perm, IH. Qed.

Definition tag_le (f g : field_def) : Prop := tag f <= tag g.
Definition tag_lt (f g : field_def) : Prop := tag f < tag g.

Lemma compare_spec f g : compare_field_defs_by_tag f g <= 0 <-> tag_le f g.
Proof.
  unfold compare_field_defs_by_tag, tag_le.
  destruct (Z.ltb_spec (tag f) (tag g)), (Z.gtb_spec (tag f) (tag g)); lia.
Qed.

Lemma insert_by_tag_sorted f l : StronglySorted tag_le l -> StronglySorted tag_le (insert_by_tag f l).
Proof.
  induction 1 as [|g l Hs IH Hg]; simpl; [repeat constructor|].
  destruct (Z.leb_spec (compare_field_defs_by_tag f g) 0) as [Hc|Hc].
  - apply compare_spec in Hc. constructor; [by constructor|]. constructor; [done|].
    eapply Forall_impl; [exact Hg|]. unfold tag_le in *. lia.
  - constructor; [done|]. assert (tag_le g f).
    { destruct (Z.le_gt_cases (tag f) (tag g)) as [Hle|?]; [apply compare_spec in Hle; lia|].
      unfold tag_le; lia. }
    rewrite insert_by_tag_perm. by constructor.
Qed.

Lemma sort_by_tag_sorted l : StronglySorted tag_le (sort_by_tag l).
Proof. induction l; simpl; [constructor|by apply insert_by_tag_sorted]. Qed.

Lemma sorted_strict l : NoDup (map tag l) -> StronglySorted tag_le l -> StronglySorted tag_lt l.
Proof.
  induction l as [|f l IH]; intros Hnd Hs; [constructor|]. simpl in Hnd.
  apply NoDup_cons in Hnd as [Hn Hnd]. apply StronglySorted_inv in Hs as [Hs Hf].
  constructor; [by apply IH|]. apply Forall_forall. intros g Hg.
  pose proof (proj1 (Forall_forall _ _) Hf g Hg) as Hle. unfold tag_le, tag_lt in *.
  assert (tag f <> tag g); [|lia]. intros Heq. apply Hn. rewrite Heq. by apply list_elem_of_fmap_2.
Qed.

(* ------------------------------------------------------------------------ *)
(** ** The fields of a schema *)

(** Table and list agree, and names identify fields. *)
Record fields_inv (s : schema_def) : Prop := {
  fi_wf : Forall field_wf (ordered_fields s);
  fi_names : NoDup (map name_in_php (ordered_fields s));
  fi_in : forall f, f ∈ ordered_fields s -> fields_by_tag s !! tag f = Some f;
  fi_tab : forall t f, fields_by_tag s !! t = Some f -> tag f = t /\ f ∈ ordered_fields s;
}.

Definition field_input_ok (kv : hkey * zval) : Prop :=
  match kv with
  | (KStr n, ZArray opts) => key_ok n /\ tag_ok opts
  | _ => True
  end.

Definition key_name (kv : hkey * zval) : string :=
  match kv.1 with KStr n => n | KInt _ => EmptyString end.

Lemma define_schema_fields_ok r fields : Forall field_input_ok fields ->
  forall s s', fields_inv s ->
  NoDup (map name_in_php (ordered_fields s) ++ map key_name fields) ->
  define_schema_fields r fields s = Done s' -> fields_inv s' /\ schema_name s' = schema_name s.
Proof.
  induction 1 as [|[k v] fields Hin Hins IH]; intros s s' Hinv Hnd Hd; simpl in Hd; [by inv_done|].
  destruct k as [i|n]; [discriminate|]. destruct v; try discriminate.
  apply obind_Done in Hd as (f & Hf & Hd).
  destruct Hin as [Hk Ht]. destruct (parse_field_ok r n ht f Hk Ht Hf) as [Hfw Hn].
  destruct (fields_by_tag s !! tag f) eqn:Etag; [discriminate|].
  apply (IH _ s') in Hd; [done| |].
  - destruct Hinv as [I1 I2 I3 I4]. simpl in Hnd. constructor; simpl.
    + by apply Forall_app_2; [|constructor].
    + rewrite map_app. simpl. rewrite Hn. rewrite cons_middle, app_assoc in Hnd.
      by apply NoDup_app in Hnd as (? & _).
    + intros g [Hg|Hg%list_elem_of_singleton]%elem_of_app.
      * rewrite lookup_insert_ne; [by apply I3|]. intros Heq.
        pose proof (I3 g Hg). congruence.
      * subst. by rewrite lookup_insert_eq.
    + intros t g. destruct (decide (tag f = t)) as [<-|Hne].
      * rewrite lookup_insert_eq. intros. simplify_eq. split; [done|apply elem_of_app; right; by apply list_elem_of_singleton].
      * rewrite lookup_insert_ne by done. intros Hg. destruct (I4 t g Hg). split; [done|apply elem_of_app; by left].
  - simpl. rewrite map_app. simpl. rewrite Hn, <- app_assoc. done.
Qed.

Lemma schema_wf_of_inv s : fields_inv s -> schema_wf s.
Proof. intros [? ? ? ?]. constructor; [done|done|]. by apply Forall_forall. Qed.

Lemma fields_inv_sort s : fields_inv s ->
  fields_inv {| schema_name := schema_name s; fields_by_tag := fields_by_tag s;
                fields_by_name := fields_by_name s; ordered_fields := sort_by_tag (ordered_fields s) |}.
Proof.
  intros [I1 I2 I3 I4]. constructor; simpl.
  - by rewrite sort_by_tag_perm.
  - pose proof (sort_by_tag_perm (ordered_fields s)) as Hp. apply (Permutation_map name_in_php) in Hp.
    by rewrite Hp.
  - intros f. rewrite sort_by_tag_perm. apply I3.
  - intros t f. rewrite sort_by_tag_perm. apply I4.
Qed.

(** The tags of the fields are distinct. *)
Lemma fields_inv_tags s : fields_inv s -> NoDup (map tag (ordered_fields s)).
Proof.
  intros [_ I2 I3 _]. assert (NoDup (ordered_fields s)) as Hnd by (by eapply NoDup_fmap_1).
  clear I2. induction (ordered_fields s) as [|f l IH]; simpl; [constructor|].
  apply NoDup_cons in Hnd as [Hn Hnd]. constructor; [|apply IH; [|done]; intros; apply I3; set_solver].
  intros (g & Hg & Hgl)%list_elem_of_fmap. pose proof (I3 f ltac:(set_solver)).
  pose proof (I3 g ltac:(set_solver)). congruence.
Qed.

(* ------------------------------------------------------------------------ *)
(** ** The registries *)

(** Every schema is well formed and lists its fields by strictly increasing tag. *)
Definition registry_inv (r : registries) : Prop :=
  map_Forall (fun _ s => fields_inv s /\ StronglySorted tag_lt (ordered_fields s))
    (quicpro_iibin_schema_registry r).

Lemma registry_inv_get r n s : registry_inv r -> get_compiled_iibin_schema_internal r n = Some s ->
  fields_inv s /\ StronglySorted tag_lt (ordered_fields s).
Proof.
  unfold get_compiled_iibin_schema_internal. intros Hr. destruct (negb _); [done|]. apply Hr.
Qed.

Lemma registry_inv_wf r : registry_inv r -> registry_wf r.
Proof. intros Hr n s Hn. apply schema_wf_of_inv. by eapply registry_inv_get. Qed.

(** What a schema definition needs of its array of fields. *)
Definition fields_input_ok (fields : hashtable) : Prop :=
  Forall field_input_ok fields /\ NoDup (map key_name fields).

Lemma fields_inv_empty name : fields_inv (mkSchema name ∅ ∅ []).
Proof. constructor; simpl; [constructor|constructor|set_solver|]. intros t f Hf. by rewrite lookup_empty in Hf. Qed.

Lemma define_schema_inv r name fields r' : registry_inv r -> fields_input_ok fields ->
  quicpro_iibin_define_schema r name fields = Done r' -> registry_inv r'.
Proof.
  intros Hr [Hin Hnd]. unfold quicpro_iibin_define_schema.
  destruct (negb _); [done|]. destruct (get_compiled_iibin_schema_internal r name); [done|].
  destruct (get_compiled_iibin_enum_internal r name); [done|].
  intros (s & Hs & Hd)%obind_Done. destruct (_ !! name); [done|]. inv_done.
  apply define_schema_fields_ok in Hs as [Hs _]; [|done|apply fields_inv_empty|done].
  intros n s'. simpl. destruct (decide (name = n)) as [<-|Hne].
  - rewrite lookup_insert_eq. intros. simplify_eq.
    pose proof (fields_inv_sort _ Hs) as Hi. split; [done|].
    apply sorted_strict; [apply (fields_inv_tags _ Hi)|apply sort_by_tag_sorted].
  - rewrite lookup_insert_ne by done. apply Hr.
Qed.

(* ------------------------------------------------------------------------ *)
(** ** Enums *)

(** Names and numbers of an enum determine each other. *)
Record enum_inv (e : quicpro_iibin_compiled_enum_internal) : Prop := {
  ei_name : forall n d, values_by_name e !! n = Some d ->
    ev_name d = n /\ - 2 ^ 31 <= number d < 2 ^ 31 /\
    names_by_value e !! u64 (number d) = Some (cstr n);
  ei_number : forall k s, names_by_value e !! k = Some s ->
    exists n d, values_by_name e !! n = Some d /\ k = u64 (number d) /\ s = cstr n;
  ei_inj : forall n n' d d', values_by_name e !! n = Some d -> values_by_name e !! n' = Some d' ->
    number d = number d' -> n = n';
}.

Lemma u64_s32_inj a b : - 2 ^ 31 <= a < 2 ^ 31 -> - 2 ^ 31 <= b < 2 ^ 31 -> u64 a = u64 b -> a = b.
Proof. intros Ha Hb Heq. rewrite <- (s64_small a), <- (s64_small b), <- (s64_u64 a), Heq, s64_u64; lia. Qed.

Lemma define_enum_values_ok vals : forall e e', enum_inv e ->
  define_enum_values vals e = Done e' -> enum_inv e'.
Proof.
  induction vals as [|[k v] vals IH]; intros e e' He Hd; simpl in Hd; [by inv_done|].
  destruct k as [|n]; [done|]. destruct v as [| | | |num| | | | | |]; try done.
  destruct (values_by_name e !! n) eqn:En; [done|].
  destruct (names_by_value e !! u64 (s32 num)) eqn:Ev; [done|].
  apply IH in Hd; [done|]. destruct He as [E1 E2 E3].
  pose proof (sext_range 32 num ltac:(lia)) as Hr. fold (s32 num) in Hr. simpl in Hr.
  assert (Hfresh : forall n' d', values_by_name e !! n' = Some d' -> number d' <> s32 num).
  { intros n' d' Hd' Heq. destruct (E1 _ _ Hd') as (_ & _ & Hnb). rewrite Heq in Hnb. congruence. }
  constructor; simpl.
  - intros n' d Hl. destruct (decide (n = n')) as [<-|Hne].
    + rewrite lookup_insert_eq in Hl. simplify_eq. simpl. rewrite lookup_insert_eq. done.
    + rewrite lookup_insert_ne in Hl by done. destruct (E1 _ _ Hl) as (? & ? & ?).
      split_and!; try done; try lia. rewrite lookup_insert_ne; [done|].
      intros Heq. apply (Hfresh _ _ Hl). symmetry. apply u64_s32_inj; done || lia.
  - intros k s Hl. destruct (decide (u64 (s32 num) = k)) as [<-|Hne].
    + rewrite lookup_insert_eq in Hl. simplify_eq. exists n, (mkEnumValue n (s32 num)).
      by rewrite lookup_insert_eq.
    + rewrite lookup_insert_ne in Hl by done. destruct (E2 _ _ Hl) as (n' & d & ? & ? & ?).
      exists n', d. rewrite lookup_insert_ne by congruence. done.
  - intros n1 n2 d1 d2 H1 H2 Heq.
    destruct (decide (n = n1)) as [<-|], (decide (n = n2)) as [<-|]; try done;
      rewrite ?lookup_insert_eq in H1; rewrite ?lookup_insert_eq in H2;
      rewrite ?lookup_insert_ne in H1 by done; rewrite ?lookup_insert_ne in H2 by done;
      simplify_eq; simpl in *.
    + by destruct (Hfresh _ _ H2).
    + by destruct (Hfresh _ _ H1).
    + by eapply E3.
Qed.

Lemma enum_inv_empty name : enum_inv (mkEnum name ∅ ∅).
Proof.
  constructor; simpl; intros ? ?; [| |intros ? ?]; rewrite lookup_empty; done.
Qed.
