(* ===== verification/IibinSafety.v ===== *)
(** * The IIBIN decoder on hostile input

    The decoder as it is written, in array mode, on arbitrary input bytes.  The length tests
    [*buf_ptr + len > ...] wrap only for lengths of [2^63] and more, which take a varint of ten
    bytes.  On inputs without one, and for schemas without repeated fields, the decoder comes
    back, reads nothing outside the input, stops exactly at its end, and what it returns has
    the types of the schema.  A repeated field is different: the array that its first value
    opens is released at once, and the second value goes into released memory. *)

From Stdlib Require Import ZArith Lia String Strings.Byte.
From stdpp Require Import base tactics list gmap strings.
From S2P Require Import Prelude Ieee Zend IibinWire IibinSchema IibinEncode IibinDecode IibinRoundtrip IibinMessage IibinDefine.

Local Open Scope Z_scope.
Set Warnings "-clear-no-such-hyp,-register-all".

(* ------------------------------------------------------------------------ *)
(** ** Numbers *)

Lemma lor_below n x y : 0 <= n -> 0 <= x < 2 ^ n -> 0 <= y < 2 ^ n -> 0 <= Z.lor x y < 2 ^ n.
Proof.
  intros Hn Hx Hy. assert (0 <= Z.lor x y) by (apply Z.lor_nonneg; lia). split; [done|].
  destruct (Z.eq_dec (Z.lor x y) 0) as [->|]; [lia|]. apply Z.log2_lt_pow2; [lia|]. rewrite Z.log2_lor by lia.
  assert (Hlog : forall z, 0 <= z < 2 ^ n -> 0 <> n -> Z.log2 z < n).
  { intros z Hz Hn0. destruct (Z.eq_dec z 0) as [->|]; [simpl; lia|]. apply Z.log2_lt_pow2; lia. }
  destruct (Z.eq_dec 0 n) as [<-|]; [change (2 ^ 0) with 1 in *; assert (x = 0) as -> by lia; assert (y = 0) as -> by lia; done|].
  pose proof (Hlog x Hx ltac:(done)). pose proof (Hlog y Hy ltac:(done)). lia.
Qed.

Lemma le_or_range bs : forall s, 0 <= s -> 0 <= le_or bs s < 2 ^ (s + 8 * Z.of_nat (length bs)).
Proof.
  induction bs as [|b bs IH]; intros s Hs; cbn [le_or length]; [split; [lia|apply Z.pow_pos_nonneg; lia]|].
  specialize (IH (s + 8) ltac:(lia)).
  replace (s + 8 * Z.of_nat (S (length bs))) with (s + 8 + 8 * Z.of_nat (length bs)) by lia.
  apply lor_below; [lia| |done]. pose proof (b2z_range b). rewrite Z.shiftl_mul_pow2 by lia.
  assert (2 ^ (s + 8) <= 2 ^ (s + 8 + 8 * Z.of_nat (length bs))) by (apply Z.pow_le_mono_r; lia).
  assert (Hp : 0 < 2 ^ s) by (apply Z.pow_pos_nonneg; lia).
  assert (H8 : 2 ^ (s + 8) = 2 ^ s * 256) by (rewrite Z.pow_add_r by lia; done). nia.
Qed.

Lemma fixed32_range {E} (fail : E) m p e u q : quicpro_iibin_decode_fixed32 fail m p e = Done (u, q) -> 0 <= u < 2 ^ 32.
Proof.
  unfold quicpro_iibin_decode_fixed32, decode_fixed. destruct (_ >? e); [done|].
  destruct (load_range m p 4) as [bs|] eqn:El; [|done]. intros [= <- _].
  unfold load_range in El. destruct (_ || _); [done|]. injection El as <-.
  pose proof (le_or_range (take (Z.to_nat 4) (drop (Z.to_nat (p - m_base m)) (m_bytes m))) 0 ltac:(lia)) as Hle.
  split; [lia|]. eapply Z.lt_le_trans; [apply Hle|]. apply Z.pow_le_mono_r; [lia|]. rewrite length_take. lia.
Qed.

(** A varint of [k] bytes has at most [7 * k] bits, and all its bytes but the last continue. *)
Lemma varint_group_below b s : 0 <= s <= 56 -> 0 <= u64 (Z.shiftl (Z.land (b2z b) 127) s) < 2 ^ (s + 7).
Proof.
  intros Hs. change 127 with (2 ^ 7 - 1). rewrite land_ones_mod by lia.
  pose proof (Z.mod_pos_bound (b2z b) (2 ^ 7) ltac:(lia)) as Hb.
  assert (Hle : 2 ^ s * 2 ^ 7 <= 2 ^ 63) by (rewrite <- Z.pow_add_r by lia; apply Z.pow_le_mono_r; lia).
  assert (Hp : 0 < 2 ^ s) by (apply Z.pow_pos_nonneg; lia).
  rewrite Z.pow_add_r, Z.shiftl_mul_pow2 by lia. rewrite u64_small by nia. nia.
Qed.

Lemma varint_value_below {E} (fail : E) n m p e r s v q : mem_wf m -> m_base m <= p -> e <= mem_end m ->
  decode_varint_loop fail n m p e r s = Done (v, q) -> 0 <= s -> 0 <= r < 2 ^ s -> s + 7 * (q - p) <= 63 -> v < 2 ^ 63.
Proof.
  intros Hwf. pose proof Hwf as [? ?]. revert p r s. induction n as [|n IH]; intros p r s Hp He Hd Hs Hr Hq; [done|].
  pose proof (decode_varint_loop_safe fail (S n) m p e r s Hwf Hp He) as Hsafe. rewrite Hd in Hsafe.
  cbn [decode_varint_loop] in Hd. unfold mem_end in *.
  destruct (Z.geb_spec p e); [done|]. destruct (load m p) as [b|]; [|done].
  rewrite (ptr_add_small m) in Hd by (done || lia). pose proof (varint_group_below b s ltac:(lia)) as Hg.
  assert (Hle : 2 ^ s <= 2 ^ (s + 7)) by (apply Z.pow_le_mono_r; lia).
  pose proof (lor_below (s + 7) r _ ltac:(lia) ltac:(lia) Hg) as Hv.
  destruct (_ =? 0).
  - injection Hd as <- <-. eapply Z.lt_le_trans; [apply Hv|]. apply Z.pow_le_mono_r; lia.
  - eapply (IH (p + 1)); [lia|done|exact Hd|lia|done|lia].
Qed.

Lemma varint_continues {E} (fail : E) n m p e r s v q : mem_wf m -> m_base m <= p -> e <= mem_end m ->
  decode_varint_loop fail n m p e r s = Done (v, q) ->
  forall i, p <= i < q - 1 -> exists b, load m i = Some b /\ 128 <= b2z b.
Proof.
  intros Hwf. pose proof Hwf as [? ?]. revert p r s. induction n as [|n IH]; intros p r s Hp He Hd i Hi; [done|].
  cbn [decode_varint_loop] in Hd. unfold mem_end in *.
  destruct (Z.geb_spec p e); [done|]. destruct (load m p) as [b|] eqn:El; [|done].
  rewrite (ptr_add_small m) in Hd by (done || lia). destruct (Z.eqb_spec (Z.land (b2z b) 128) 0) as [Hz|Hz].
  - injection Hd as <- <-. lia.
  - destruct (decide (i = p)) as [->|]; [|by eapply (IH (p + 1)); [lia|done|exact Hd|lia]].
    exists b. split; [done|]. destruct (Z.leb_spec 128 (b2z b)); [done|]. destruct Hz. pose proof (b2z_range b).
    change 128 with (2 ^ 7). rewrite Z.land_comm. apply Z.bits_inj'. intros k Hk. rewrite Z.land_spec, Z.bits_0.
    rewrite Z.pow2_bits_eqb by lia. destruct (Z.eqb_spec 7 k) as [<-|]; [|done]. rewrite andb_true_l.
    destruct (Z.eq_dec (b2z b) 0) as [->|]; [done|]. apply Z.bits_above_log2; [lia|]. apply Z.log2_lt_pow2; lia.
Qed.

(* ------------------------------------------------------------------------ *)
(** ** The input *)

(** Among nine bytes in a row there is one that ends a varint. *)
Definition narrow (bs : list byte) : bool :=
  forallb (fun i => existsb (fun j => match nth_error bs (i + j) with Some b => b2z b <? 128 | None => true end) (seq 0 9))
    (seq 0 (length bs)).

Definition mem_narrow (m : mem) : Prop :=
  forall p, m_base m <= p -> exists q, p <= q < p + 9 /\ forall b, load m q = Some b -> b2z b < 128.

Lemma narrow_mem base s : narrow (list_byte_of_string s) = true -> mem_narrow (mem_of_string base s).
Proof.
  unfold narrow. rewrite forallb_forall. intros Hn p Hp. cbn [m_base mem_of_string] in Hp.
  set (bs := list_byte_of_string s) in *. set (i := Z.to_nat (p - base)).
  assert (Hload : forall q b, base <= q -> load (mem_of_string base s) q = Some b ->
    nth_error bs (Z.to_nat (q - base)) = Some b \/ b = Byte.x00).
  { intros q b Hq. unfold load. cbn [m_base m_bytes mem_of_string]. destruct (q <? base); [done|]. fold bs.
    destruct (decide (Z.to_nat (q - base) < length bs)%nat); [rewrite nth_error_app1 by done; auto|].
    rewrite nth_error_app2 by lia. destruct (_ - length bs)%nat as [|[]]; intros [= <-]; auto. }
  destruct (decide (i < length bs)%nat) as [Hi|Hi].
  - destruct (proj1 (existsb_exists _ _) (Hn i ltac:(apply in_seq; lia))) as (j & Hj%in_seq & Hb).
    exists (p + Z.of_nat j). split; [lia|]. intros b [Hb'| ->]%Hload; [|done|lia].
    replace (Z.to_nat (p + Z.of_nat j - base)) with (i + j)%nat in Hb' by lia. rewrite Hb' in Hb. by apply Z.ltb_lt.
  - exists p. split; [lia|]. intros b [Hb'| ->]%Hload; [|done|lia]. fold i in Hb'.
    assert (nth_error bs i = None) by (apply nth_error_None; lia). congruence.
Qed.

(* ------------------------------------------------------------------------ *)
(** ** The types of a message *)

Definition in_range (lo hi : Z) (v : zval) : Prop := match v with ZLong n => lo <= n < hi | _ => False end.

(** The values of a scalar type.  (A decoded [uint32] is not cut to 32 bits.) *)
Definition scalar_typed (t : quicpro_iibin_field_type_internal) (v : zval) : Prop :=
  match t with
  | IIBIN_INTERNAL_TYPE_INT32 | IIBIN_INTERNAL_TYPE_ENUM | IIBIN_INTERNAL_TYPE_SINT32
  | IIBIN_INTERNAL_TYPE_SFIXED32 => in_range (- 2 ^ 31) (2 ^ 31) v
  | IIBIN_INTERNAL_TYPE_FIXED32 => in_range 0 (2 ^ 32) v
  | IIBIN_INTERNAL_TYPE_INT64 | IIBIN_INTERNAL_TYPE_SINT64 | IIBIN_INTERNAL_TYPE_UINT32
  | IIBIN_INTERNAL_TYPE_UINT64 | IIBIN_INTERNAL_TYPE_FIXED64 | IIBIN_INTERNAL_TYPE_SFIXED64 =>
      in_range (- 2 ^ 63) (2 ^ 63) v
  | IIBIN_INTERNAL_TYPE_BOOL => v = ZTrue \/ v = ZFalse
  | IIBIN_INTERNAL_TYPE_FLOAT | IIBIN_INTERNAL_TYPE_DOUBLE => exists b, v = ZDouble b
  | IIBIN_INTERNAL_TYPE_STRING | IIBIN_INTERNAL_TYPE_BYTES | IIBIN_INTERNAL_TYPE_MESSAGE
  | IIBIN_INTERNAL_TYPE_UNKNOWN => False
  end.

Lemma s32_in_range z : in_range (- 2 ^ 31) (2 ^ 31) (ZLong (s32 z)).
Proof. apply (sext_range 32). lia. Qed.
Lemma s64_in_range z : in_range (- 2 ^ 63) (2 ^ 63) (ZLong (s64 z)).
Proof. apply (sext_range 64). lia. Qed.

Lemma scalar_typed_plain t v : scalar_typed t v -> refcounted v = false.
Proof. destruct t; simpl; try done; destruct v; naive_solver. Qed.

Lemma elem_of_ht_update k v ht k' v' : (k', v') ∈ ht_update k v ht -> (k', v') = (k, v) \/ (k', v') ∈ ht.
Proof.
  induction ht as [|[k2 v2] ht IH]; simpl; [set_solver|]. destruct (decide (k = k2)) as [->|]; [set_solver|].
  rewrite !elem_of_cons. naive_solver.
Qed.

(** Every slot belongs to a field of the schema, and its value is as [ok] says. *)
Definition slots (ok : field_def -> zval -> Prop) (s : schema_def) (ht : hashtable) : Prop :=
  forall k w, (k, w) ∈ ht -> exists f, f ∈ ordered_fields s /\ k = KStr (name_in_php f) /\ ok f w.

Lemma slots_update ok s ht f w : slots ok s ht -> f ∈ ordered_fields s -> ok f w ->
  slots ok s (ht_update (KStr (name_in_php f)) w ht).
Proof. intros Hs Hf Hw k v [[= -> ->]|Hin]%elem_of_ht_update; [by exists f|by apply Hs]. Qed.

(** A value of the field's type, or the default. *)
Definition typed_or_default (f : field_def) (w : zval) : Prop := scalar_typed (type f) w \/ w = default_value_zval f.

(* ------------------------------------------------------------------------ *)
(** ** One field *)

(** Reading a value from [p] ends strictly after [p] and not beyond [e]. *)
Definition advances {A} (p e : Z) (x : A * Z) : Prop := p < x.2 <= e.

Lemma read_varint_range m p e : mem_wf m -> m_base m <= p -> e <= mem_end m ->
  returns (fun x => p < x.2 <= p + 10 /\ x.2 <= e /\ 0 <= x.1 < 2 ^ 64) (read_varint m p e).
Proof.
  intros Hwf Hp He. unfold read_varint, quicpro_iibin_decode_varint.
  pose proof (decode_varint_loop_safe (None : option iibin_error) 10 m p e 0 0 Hwf Hp He) as Hs.
  destruct (decode_varint_loop _ _ _ _ _ _ _) as [[v q]|?| |] eqn:Ev; try done.
  apply decode_varint_range in Ev; [|lia]. simpl in *. lia.
Qed.

Section Safety.
Variables (r : registries) (m : mem).
Hypothesis Hwf : mem_wf m.
Hypothesis Hnarrow : mem_narrow m.

Lemma read_varint_safe p e : m_base m <= p -> e <= mem_end m ->
  returns (fun x => advances p e x /\ 0 <= x.1 < 2 ^ 63) (read_varint m p e).
Proof.
  intros Hp He. pose proof (read_varint_range m p e Hwf Hp He) as Hs.
  destruct (read_varint m p e) as [[v q]|?| |] eqn:Ev; try done. unfold advances. cbn [returns fst snd] in *.
  split; [lia|]. split; [lia|]. destruct (decide (q - p <= 9)) as [Hq|Hq].
  - eapply varint_value_below; [exact Hwf|exact Hp|exact He|exact Ev|lia|simpl; lia|lia].
  - destruct (Hnarrow p Hp) as (i & Hi & Hb).
    destruct (varint_continues _ _ _ _ _ _ _ _ _ Hwf Hp He Ev i) as (b & Hl & Hge); [lia|].
    specialize (Hb b Hl). lia.
Qed.

Lemma decode_fixed_advances n p e : m_base m <= p <= e -> e <= mem_end m -> 0 < n < 256 ->
  returns (advances p e) (decode_fixed (None : option iibin_error) n m p e).
Proof.
  intros Hp He Hn. pose proof (decode_fixed_safe (None : option iibin_error) n m p e Hwf Hp He Hn) as Hs.
  destruct (decode_fixed _ _ _ _ _) as [[v q]|?| |]; try done. unfold advances; simpl in *; lia.
Qed.

(** The length test compares an address with a byte: no length passes it. *)
Lemma read_value_length_fails p e : m_base m <= p -> e < mem_end m ->
  returns (fun _ => False) (read_value_length as_written m p e).
Proof.
  intros Hp He. pose proof Hwf as [? ?]. unfold read_value_length.
  eapply returns_bind; [apply read_varint_safe; lia|]. intros [len q] [[? ?] ?]. simpl in *.
  destruct (load m e) as [b|] eqn:El.
  - simpl. pose proof (b2z_range b). unfold mem_end in *. rewrite (ptr_add_small m) by (done || lia).
    destruct (Z.gtb_spec (q + len) (b2z b)); simpl; [done|lia].
  - exfalso. unfold load in El. destruct (Z.ltb_spec e (m_base m)); [lia|]. apply nth_error_None in El. unfold mem_end in *. lia.
Qed.

Lemma decode_value_safe rec p e f wt : m_base m <= p <= e -> e < mem_end m ->
  returns (fun x => advances p e x /\ scalar_typed (type f) x.1) (decode_value_to_zval r as_written m rec p e f wt false).
Proof.
  intros Hp He. unfold decode_value_to_zval. destruct (_ && _); [done|].
  set (P := fun x : zval * Z => _).
  assert (Hv : forall (k : Z -> zval), (forall u, scalar_typed (type f) (k u)) ->
    returns P (let! '(u, ptr) := read_varint m p e in Done (k u, ptr))).
  { intros k Hk. eapply returns_bind; [apply read_varint_safe; lia|]. intros [u q] [? _]. split; [done|apply Hk]. }
  assert (Hx : forall b (k : Z -> zval), 0 < b < 256 ->
    (forall u q, decode_fixed (None : option iibin_error) b m p e = Done (u, q) -> scalar_typed (type f) (k u)) ->
    returns P (let! '(u, ptr) := decode_fixed (None : option iibin_error) b m p e in Done (k u, ptr))).
  { intros b k Hb Hk. pose proof (decode_fixed_advances b p e ltac:(lia) ltac:(lia) Hb) as Ha.
    destruct (decode_fixed _ _ _ _ _) as [[u q]|?| |] eqn:Ef; try done. split; [done|by eapply Hk]. }
  assert (Hl : forall A (k : Z * Z -> dec A) (Q : A -> Prop), returns Q (obind (read_value_length as_written m p e) k)).
  { intros A k Q. eapply returns_bind; [by apply read_value_length_fails; lia|]. by intros. }
  destruct (type f); try done; try apply Hl;
    try (apply Hv; intros u; cbn [scalar_typed];
         first [apply s32_in_range|apply s64_in_range|destruct (negb _); [by left|by right]]);
    (apply Hx; [lia|]; intros u q Hd; cbn [scalar_typed];
         first [by apply fixed32_range in Hd|apply s32_in_range|apply s64_in_range|by eexists]).
Qed.

Lemma skip_field_safe p e wt : m_base m <= p <= e -> e <= mem_end m ->
  returns (fun q => p < q <= e) (skip_field as_written m p e wt).
Proof.
  intros Hp He. pose proof Hwf as [? ?]. unfold mem_end in *. unfold skip_field.
  repeat (destruct (_ =? _)); try done.
  - eapply returns_bind; [apply read_varint_safe; unfold mem_end; lia|]. by intros [u q] [[? ?] ?].
  - rewrite (ptr_add_small m) by (done || lia). destruct (Z.gtb_spec (p + 8) e); simpl; [done|lia].
  - eapply returns_bind; [apply read_varint_safe; unfold mem_end; lia|]. intros [len q] [[? ?] ?]; simpl in *.
    rewrite (ptr_add_small m) by (done || lia). destruct (Z.gtb_spec (q + len) e); simpl; [done|].
    lia.
  - rewrite (ptr_add_small m) by (done || lia). destruct (Z.gtb_spec (p + 4) e); simpl; [done|lia].
Qed.

(* ------------------------------------------------------------------------ *)
(** ** A message *)

(** The schema has no repeated field. *)
Definition singular (s : schema_def) : Prop :=
  forall f, f ∈ ordered_fields s -> has_flag f IIBIN_FIELD_FLAG_REPEATED = false.

Lemma decode_message_safe s e : fields_inv s -> singular s -> e < mem_end m ->
  forall fuel p ht, m_base m <= p <= e -> e - p < Z.of_nat fuel -> slots (fun f => scalar_typed (type f)) s ht ->
  returns (fun x => x.2 = e /\ exists ht', x.1 = ZArray ht' /\ slots (fun f => scalar_typed (type f)) s ht')
    (decode_message_internal r as_written m fuel false s p e (ZArray ht)).
Proof.
  intros Hinv Hsg He. induction fuel as [|fuel IH]; intros p ht Hp Hn Hht; [lia|].
  cbn [decode_message_internal]. destruct (Z.ltb_spec p e); [|simpl; split; [lia|eauto]].
  pose proof (read_varint_safe p e ltac:(lia) ltac:(lia)) as Hv.
  destruct (read_varint m p e) as [[key q]|?| |]; try done. destruct Hv as [[? ?] ?]; simpl in *.
  destruct (_ =? 0); [apply IH; done || lia|].
  destruct (fields_by_tag s !! _) as [f|] eqn:Hf.
  - destruct (fi_tab s Hinv _ _ Hf) as [_ Hin]. pose proof (proj1 (Forall_forall _ _) (fi_wf s Hinv) f Hin) as Hfw.
    assert (has_flag f IIBIN_FIELD_FLAG_PACKED = false) as ->.
    { destruct (has_flag f IIBIN_FIELD_FLAG_PACKED) eqn:Epk; [|done]. destruct (fw_packed f Hfw Epk) as [Hrep _].
      by rewrite (Hsg f Hin) in Hrep. }
    cbn [andb]. eapply returns_bind; [by apply decode_value_safe; lia|].
    intros [v q'] [[? ?] Hv]; simpl in *. unfold store_value. rewrite (Hsg f Hin). cbn [obind].
    rewrite (fw_name f Hfw). simpl after_store. rewrite (scalar_typed_plain _ _ Hv).
    apply IH; [lia|lia|]. by apply (slots_update (fun f => scalar_typed (type f))).
  - pose proof (skip_field_safe q e (Z.land key 7) ltac:(lia) ltac:(lia)) as Hsk.
    destruct (skip_field _ _ _ _ _) as [q'|?| |]; try done. simpl in Hsk. apply IH; done || lia.
Qed.
End Safety.

(** The defaults are added, and no required field is missing. *)
Definition complete (fields : list field_def) (ht : hashtable) : Prop :=
  forall f, f ∈ fields -> has_flag f IIBIN_FIELD_FLAG_REQUIRED = true \/ default_value_zval f <> ZUndef ->
  ht_exists (KStr (name_in_php f)) ht = true.

Lemma ht_exists_update k k' v ht : ht_exists k ht = true -> ht_exists k (ht_update k' v ht) = true.
Proof.
  unfold ht_exists. destruct (decide (k = k')) as [->|]; [by rewrite ht_find_update_eq|by rewrite ht_find_update_ne].
Qed.
Lemma ht_exists_updated k v ht : ht_exists k (ht_update k v ht) = true.
Proof. unfold ht_exists. by rewrite ht_find_update_eq. Qed.

Lemma populate_safe sname s fields : (forall f, f ∈ fields -> f ∈ ordered_fields s) -> forall dn ht,
  slots typed_or_default s ht -> complete dn ht ->
  returns (fun v => exists ht', v = ZArray ht' /\ slots typed_or_default s ht' /\ complete (dn ++ fields) ht')
    (populate_default_values_and_check_required sname fields (ZArray ht)).
Proof.
  induction fields as [|f fields IH]; intros Hin dn ht Hht Hdn; [exists ht; by rewrite app_nil_r|].
  cbn [populate_default_values_and_check_required].
  assert (Hgo : forall ht', slots typed_or_default s ht' -> complete dn ht' ->
    (has_flag f IIBIN_FIELD_FLAG_REQUIRED = true \/ default_value_zval f <> ZUndef -> ht_exists (KStr (name_in_php f)) ht' = true) ->
    returns (fun v => exists ht'', v = ZArray ht'' /\ slots typed_or_default s ht'' /\ complete (dn ++ f :: fields) ht'')
      (populate_default_values_and_check_required sname fields (ZArray ht'))).
  { intros ht' H1 H2 H3. rewrite cons_middle, app_assoc. apply IH; [intros; apply Hin; set_solver|done|].
    intros g [Hg| ->%list_elem_of_singleton]%elem_of_app; [by apply H2|done]. }
  destruct (ht_exists _ _) eqn:Ex; [by apply Hgo|].
  destruct (has_flag _ _) eqn:Er; [done|].
  assert (Hup : returns (fun v => exists ht'', v = ZArray ht'' /\ slots typed_or_default s ht'' /\ complete (dn ++ f :: fields) ht'')
    (populate_default_values_and_check_required sname fields
      (ZArray (ht_update (KStr (name_in_php f)) (default_value_zval f) ht)))).
  { apply Hgo; [|intros g Hg Hc; by apply ht_exists_update, Hdn|intros; apply ht_exists_updated].
    apply slots_update; [done|apply Hin; set_solver|by right]. }
  destruct (default_value_zval f) eqn:Ed; try exact Hup. apply Hgo; [done|done|]. by intros [?|?].
Qed.

(* ------------------------------------------------------------------------ *)
(** ** Repeated fields *)

(** The zero of a scalar type, as it is on the wire when it is not packed. *)
Definition zero_bytes (t : quicpro_iibin_field_type_internal) : list byte :=
  let wt := calculate_field_wire_type t false in
  if wt =? QUICPRO_IIBIN_WIRETYPE_VARINT then quicpro_iibin_encode_varint 0
  else if wt =? QUICPRO_IIBIN_WIRETYPE_FIXED64 then quicpro_iibin_encode_fixed64 0 else quicpro_iibin_encode_fixed32 0.
Definition zero_of (f : field_def) : list byte :=
  quicpro_iibin_encode_varint (field_key f (calculate_field_wire_type (type f) false)) ++ zero_bytes (type f).

Section Repeated.
Variables (r : registries) (m : mem).
Hypothesis Hwf : mem_wf m.

Lemma decode_zero rec f p e : field_wf f -> is_length_delimited_type (type f) = false -> region m p (zero_bytes (type f)) e ->
  exists v, decode_value_to_zval r as_written m rec p e f (calculate_field_wire_type (type f) false) false =
    Done (v, p + Z.of_nat (length (zero_bytes (type f)))).
Proof.
  intros Hf Hl Hreg. unfold decode_value_to_zval. rewrite (fw_wire f Hf).
  assert (negb (calculate_field_wire_type (type f) false =? calculate_field_wire_type (type f) (has_flag f IIBIN_FIELD_FLAG_PACKED))
          && negb (has_flag f IIBIN_FIELD_FLAG_PACKED) = false) as ->.
  { destruct (has_flag f IIBIN_FIELD_FLAG_PACKED); [by rewrite andb_false_r|by rewrite Z.eqb_refl]. }
  pose proof (fw_type f Hf). destruct (type f); try done;
    first [change (region m p (quicpro_iibin_encode_varint 0) e) in Hreg; rewrite (read_varint_ok m Hwf _ _ _ Hreg)
          |change (region m p (quicpro_iibin_encode_fixed32 0) e) in Hreg; rewrite (read_fixed32_ok m Hwf _ _ _ Hreg)
          |change (region m p (quicpro_iibin_encode_fixed64 0) e) in Hreg; rewrite (read_fixed64_ok m Hwf _ _ _ Hreg)];
    cbn [obind]; eexists; reflexivity.
Qed.

(** A value of a repeated field that is not packed. *)
Lemma decode_zero_step fuel s f p e ht : field_wf f -> fields_by_tag s !! tag f = Some f ->
  is_length_delimited_type (type f) = false -> has_flag f IIBIN_FIELD_FLAG_REPEATED = true -> region m p (zero_of f) e ->
  decode_message_internal r as_written m (S fuel) false s p e (ZArray ht) =
  match ht_find (KStr (name_in_php f)) ht with
  | None => decode_message_internal r as_written m fuel false s (p + Z.of_nat (length (zero_of f))) e
              (ZArray (ht_update (KStr (name_in_php f)) ZFreed ht))
  | Some ZFreed => Undefined
  | Some _ => decode_message_internal r as_written m (S fuel) false s p e (ZArray ht)
  end.
Proof.
  intros Hf Ht Hl Hrep Hreg. pose proof (wire_type_range (type f) false (fw_type f Hf)) as Hw.
  unfold zero_of in *. apply region_app in Hreg as [Hr1 Hr2].
  rewrite (decode_key_ok r as_written m Hwf fuel s f _ p e _ Hf Ht Hw Hr1).
  assert (Hn2 : (calculate_field_wire_type (type f) false =? QUICPRO_IIBIN_WIRETYPE_LENGTH_DELIM) = false)
    by (pose proof (fw_type f Hf); by destruct (type f)).
  rewrite Hn2, andb_false_r.
  destruct (decode_zero (decode_message_internal r as_written m fuel false) f _ e Hf Hl Hr2) as [v ->].
  cbn [obind]. unfold store_value. rewrite Hrep.
  destruct (ht_find (KStr (name_in_php f)) ht) as [w|] eqn:Ef; [by destruct w|].
  cbn [obind as_written after_store refcounted]. f_equal. rewrite length_app. lia.
Qed.
End Repeated.
