(* ===== verification/IibinProps.v ===== *)
(** * IIBIN: the correctness properties

    The claims about the binary format: the wire primitives, whole messages, the
    decoder on hostile input, and the registries.  A small registry serves the
    witnesses. *)

From Stdlib Require Import ZArith Lia String Sorting.Sorted Strings.Byte.
From stdpp Require Import base tactics list gmap strings.
From S2P Require Import Prelude Ieee Zend IibinWire IibinSchema IibinEncode IibinDecode.
From S2P Require Import IibinRoundtrip IibinMessage IibinDefine IibinSafety.

Local Open Scope Z_scope.

(* ------------------------------------------------------------------------ *)
(** ** A registry for the witnesses *)

Module Demo.
#[export] Existing Instance demo_conv.

Definition fresh : registries := quicpro_iibin_registries_init (mkRegistries ∅ ∅ false).

Definition field (ty : string) (t : Z) (more : hashtable) : zval :=
  ZArray ([(KStr "type", ZString ty); (KStr "tag", ZLong t)] ++ more).

Definition point_fields : hashtable :=
  [(KStr "y", field "sint32" 2 []); (KStr "x", field "sint32" 1 [])].

Definition shape_fields : hashtable :=
  [(KStr "id", field "uint64" 1 [(KStr "required", ZTrue)]);
   (KStr "label", field "string" 2 []);
   (KStr "corners", field "repeated_Point" 3 []);
   (KStr "weights", field "repeated_sint64" 4 []);
   (KStr "color", field "Color" 5 [(KStr "default", ZString "RED")])].

(** Scalar fields only. *)
Definition sample_fields : hashtable :=
  [(KStr "id", field "uint64" 1 [(KStr "required", ZTrue)]);
   (KStr "weights", field "repeated_sint64" 4 []);
   (KStr "color", field "Color" 5 [(KStr "default", ZString "RED")])].

Definition or_fresh (o : outcome iibin_error registries) : registries :=
  match o with Done r => r | _ => fresh end.

Definition r1 := or_fresh (quicpro_iibin_define_enum fresh "Color"
                             [(KStr "RED", ZLong 0); (KStr "BLUE", ZLong 7)]).
Definition r2 := or_fresh (quicpro_iibin_define_schema r1 "Point" point_fields).
Definition r3 := or_fresh (quicpro_iibin_define_schema r2 "Shape" shape_fields).
Definition r4 := or_fresh (quicpro_iibin_define_schema r3 "Sample" sample_fields).

Definition schema (n : string) : schema_def :=
  match get_compiled_iibin_schema_internal r4 n with
  | Some s => s | None => mkSchema "" ∅ ∅ [] end.

Definition point (x y : Z) : zval := ZArray [(KStr "x", ZLong x); (KStr "y", ZLong y)].
Definition shape : zval :=
  ZArray [(KStr "label", ZString "box"); (KStr "id", ZLong 300);
          (KStr "corners", ZArray (enum_from 0 [point 1 (-1); point 70 2]));
          (KStr "weights", ZArray (enum_from 0 [ZLong (-5); ZLong 12]))].
Definition sample : zval :=
  ZArray [(KStr "id", ZLong 300); (KStr "weights", ZArray (enum_from 0 [ZLong (-5); ZLong 12]));
          (KStr "color", ZString "BLUE")].

Definition bytes_of (n : string) (v : zval) : string :=
  match quicpro_iibin_encode r4 5 n v with Done s => s | _ => "" end.

Lemma tag_small (ty : string) (t : Z) (more : hashtable) : t < 2 ^ 29 ->
  ht_find (KStr "tag") ([(KStr "type", ZString ty); (KStr "tag", ZLong t)] ++ more) = Some (ZLong t) ->
  tag_ok ([(KStr "type", ZString ty); (KStr "tag", ZLong t)] ++ more).
Proof. intros Ht Hf t' Hf'. rewrite Hf in Hf'. by simplify_eq. Qed.

Ltac input_ok :=
  split; [repeat constructor; try (apply tag_small; [lia|reflexivity])
         |apply (bool_decide_unpack _); vm_compute; reflexivity].

Lemma r4_inv : registry_inv r4.
Proof.
  assert (registry_inv r1) by (by intros ? ? ?).
  apply (define_schema_inv r3 "Sample" sample_fields); [|input_ok|by vm_compute].
  apply (define_schema_inv r2 "Shape" shape_fields); [|input_ok|by vm_compute].
  by apply (define_schema_inv r1 "Point" point_fields); [|input_ok|vm_compute].
Qed.
End Demo.

(* ------------------------------------------------------------------------ *)
(** ** Whole messages *)

(** C1: The decoder as it is written round trips the schemas it can handle: every
    field a scalar (integer, float, bool, enum) or a packed repeated scalar. *)
Theorem iibin_roundtrip_scalar `{ZendConv} r base ef fuel name s data str :
  get_compiled_iibin_schema_internal r name = Some s -> schema_wf s ->
  Forall (fun f => scalar_field f = true) (ordered_fields s) -> base_ok base str ->
  quicpro_iibin_encode r (S ef) name data = Done str -> (String.length str < fuel)%nat ->
  (forall f, f ∈ ordered_fields s -> has_flag f IIBIN_FIELD_FLAG_REQUIRED = true ->
     has_flag f IIBIN_FIELD_FLAG_REPEATED = true -> read_field data f <> Some (ZArray [])) ->
  exists ht, quicpro_iibin_decode r as_written base fuel name str false = Done (ZArray ht, false) /\
  forall f, f ∈ ordered_fields s ->
    ht_find (KStr (name_in_php f)) ht = decoded_field r (norm_message r ef) data f.
Proof.
  intros Hn Hs Hsc Hb Henc Hfuel Hne.
  apply roundtrip_fields; [done|done| | |done|done|done].
  - by apply as_written_sane, mem_of_string_wf.
  - done.
Qed.

(** C13: On hostile input, the decoder as it is written: for every registered schema without
    repeated fields and every input in which no nine bytes in a row are continuation bytes (so
    no length is [2^63] or more), decoding to an array comes back, one iteration of fuel per
    input byte being enough, and never reads outside the input.  It reports an error, or it
    has consumed every byte and returns an array that has only entries of the schema's fields,
    each a number in the range of the field's type, a boolean or a float, or the field's
    default; every required field and every field with a default has an entry. *)
Theorem iibin_decode_safe r base fuel name s data :
  registry_inv r -> get_compiled_iibin_schema_internal r name = Some s -> singular s ->
  base_ok base data -> narrow (list_byte_of_string data) = true -> (String.length data < fuel)%nat ->
  returns (fun x => x.2 = false /\ exists ht, x.1 = ZArray ht /\
      slots typed_or_default s ht /\ complete (ordered_fields s) ht)
    (quicpro_iibin_decode r as_written base fuel name data false).
Proof.
  intros Hinv Hs Hsg Hb Hn Hfuel. unfold quicpro_iibin_decode. rewrite Hs.
  destruct (registry_inv_get _ _ _ Hinv Hs) as [Hf _].
  assert (Hend : base + Z.of_nat (String.length data) < mem_end (mem_of_string base data))
    by (unfold mem_end; simpl; rewrite length_app, length_list_byte_of_string; simpl; lia).
  eapply returns_bind.
  { apply (decode_message_safe r _ (mem_of_string_wf _ _ Hb) (narrow_mem base data Hn) s _ Hf Hsg Hend fuel);
      [simpl; lia|lia|intros k w Hk; by apply elem_of_nil in Hk]. }
  intros [rv ptr] [Hp (ht & Hrv & Hht)]; simpl in Hrv, Hp. subst.
  eapply returns_bind; [apply (populate_safe _ s (ordered_fields s)) with (dn := []); [done| |by intros f Hnil%elem_of_nil]|].
  - intros k w Hk. destruct (Hht k w Hk) as (f & ? & ? & ?). exists f. split_and!; [done|done|by left].
  - intros v (ht' & -> & ? & ?). simpl. rewrite Z.eqb_refl. eauto.
Qed.

(** C14: A repeated field of numbers, booleans or enum values is not safe to decode, in any registered
    schema: the input that holds its zero twice, each under a key of its own, makes the decoder
    append to the array it has released after the first.  (The sender decides: a field that is
    declared as packed is read this way too.) *)
Theorem iibin_repeated_reuses_freed r base fuel name s f : let data := string_of_list_byte (zero_of f ++ zero_of f) in
  registry_inv r -> get_compiled_iibin_schema_internal r name = Some s -> f ∈ ordered_fields s ->
  has_flag f IIBIN_FIELD_FLAG_REPEATED = true -> is_length_delimited_type (type f) = false ->
  base_ok base data -> (2 <= fuel)%nat ->
  quicpro_iibin_decode r as_written base fuel name data false = Undefined.
Proof.
  intros data Hinv Hs Hin Hrep Hl Hb Hfuel. unfold quicpro_iibin_decode. rewrite Hs.
  destruct (registry_inv_get _ _ _ Hinv Hs) as [Hf _].
  pose proof (proj1 (Forall_forall _ _) (fi_wf s Hf) f Hin) as Hfw. pose proof (fi_in s Hf f Hin) as Ht.
  pose proof (mem_of_string_region base (zero_of f ++ zero_of f)) as Hreg. fold data in Hreg.
  unfold data at 2. rewrite length_string_of_list_byte. pose proof (mem_of_string_wf _ _ Hb) as Hwf.
  apply region_app in Hreg as [H1 H2]. destruct fuel as [|[|fuel]]; [lia|lia|].
  rewrite (decode_zero_step r _ Hwf (S fuel) s f _ _ [] Hfw Ht Hl Hrep H1). cbn [ht_find].
  rewrite (decode_zero_step r _ Hwf fuel s f _ _ _ Hfw Ht Hl Hrep H2). by rewrite ht_find_update_eq.
Qed.

(** With the length test as it is written, which compares the end of the value
    with the byte at [buf_end], no string or bytes field decodes from any input. *)
Theorem as_written_rejects_strings r m rec p e f wt obj :
  mem_wf m -> m_base m <= p -> e < mem_end m ->
  type f = IIBIN_INTERNAL_TYPE_STRING \/ type f = IIBIN_INTERNAL_TYPE_BYTES ->
  forall res, decode_value_to_zval r as_written m rec p e f wt obj <> Done res.
Proof.
  intros Hwf Hp He Ht res. pose proof Hwf as [? ?]. unfold decode_value_to_zval.
  destruct (_ && _); [done|].
  enough (Hs : (let! '(len, ptr) := read_value_length as_written m p e in
     match load_range m ptr len with None => Undefined
     | Some bs => Done (ZString (string_of_list_byte bs), ptr_add ptr len) end) <> Done res)
    by (by destruct Ht as [-> | ->]).
  intros Hd. unfold read_value_length in Hd.
  apply obind_Done in Hd as ([len q] & Hlen & Hd). apply obind_Done in Hlen as ([len' q'] & Hv & Hlen).
  pose proof (read_varint_range m p e Hwf Hp ltac:(lia)) as Hs. rewrite Hv in Hs.
  destruct Hs as (? & ? & ?); simpl in *.
  destruct (load m e) as [b|]; [|done]. simpl in Hlen.
  destruct (Z.gtb_spec (ptr_add q' len') (b2z b)); [done|]. inv_done.
  unfold load_range, mem_end in *. destruct (Z.ltb_spec q (m_base m)); [done|].
  destruct (Z.ltb_spec (m_base m + Z.of_nat (length (m_bytes m))) (q + len)); [done|].
  pose proof (b2z_range b). rewrite (ptr_add_small m) in * by (done || lia). lia.
Qed.

(** An unknown field of wire type 2 whose length is [2^64 - 11]. *)
Definition eleven_bytes : string :=
  string_of_list_byte (quicpro_iibin_encode_varint (1 * 8 + 2)
                       ++ quicpro_iibin_encode_varint (2 ^ 64 - 11)).

(** The skip of an unknown field as it is written lets [*buf_ptr + len] wrap: on
    an eleven byte input the decoder never comes back. *)
Theorem as_written_hangs r base fuel s rv obj :
  base_ok base eleven_bytes -> fields_by_tag s !! 1 = None ->
  decode_message_internal r as_written (mem_of_string base eleven_bytes) fuel obj s base
    (base + 11) rv = NoFuel.
Proof.
  intros Hb Hs. pose proof (mem_of_string_wf _ _ Hb) as Hwf.
  assert (Hlen : Z.of_nat (String.length eleven_bytes) = 11) by reflexivity.
  pose proof (mem_of_string_region base (quicpro_iibin_encode_varint (1 * 8 + 2)
    ++ quicpro_iibin_encode_varint (2 ^ 64 - 11))) as Hreg. fold eleven_bytes in Hreg.
  apply region_app in Hreg as [Hr1 Hr2].
  change (base + Z.of_nat (length (quicpro_iibin_encode_varint (1 * 8 + 2)
    ++ quicpro_iibin_encode_varint (2 ^ 64 - 11)))) with (base + 11) in *.
  change (Z.of_nat (length (quicpro_iibin_encode_varint (1 * 8 + 2)))) with 1 in *.
  pose proof (read_varint_ok _ Hwf _ _ _ Hr1) as Hk. pose proof (read_varint_ok _ Hwf _ _ _ Hr2) as Hl.
  change (Z.of_nat (length (quicpro_iibin_encode_varint (1 * 8 + 2)))) with 1 in *.
  change (Z.of_nat (length (quicpro_iibin_encode_varint (2 ^ 64 - 11)))) with 10 in *.
  induction fuel as [|fuel IH]; [done|]. cbn [decode_message_internal].
  destruct (Z.ltb_spec base (base + 11)); [|lia]. rewrite Hk.
  change (u32 (Z.shiftr (u64 (1 * 8 + 2)) 3)) with 1. change (Z.land (u64 (1 * 8 + 2)) 7) with 2.
  rewrite Hs. cbn [Z.eqb Pos.eqb]. unfold skip_field. rewrite Hl. simpl.
  change (u64 (2 ^ 64 - 11)) with (2 ^ 64 - 11).
  assert (Hw : ptr_add (base + 1 + 10) (2 ^ 64 - 11) = base).
  { unfold ptr_add, u64. replace (base + 1 + 10 + (2 ^ 64 - 11)) with (base + 1 * 2 ^ 64) by lia.
    rewrite Z_mod_plus_full. apply Z.mod_small. destruct Hb. lia. }
  rewrite Hw. destruct (Z.gtb_spec base (base + 11)); [lia|exact IH].
Qed.

(** C39: No message goes out without its required fields: when the data has no value
    (or null) for a required field of the schema, encoding delivers no bytes. *)
Theorem iibin_required_enforced `{ZendConv} r fuel name s data f str :
  get_compiled_iibin_schema_internal r name = Some s -> f ∈ ordered_fields s ->
  has_flag f IIBIN_FIELD_FLAG_REQUIRED = true ->
  read_field data f = None \/ read_field data f = Some ZNull ->
  quicpro_iibin_encode r fuel name data <> Done str.
Proof.
  intros Hs Hf Hreq Hnull Henc. unfold quicpro_iibin_encode in Henc. rewrite Hs in Henc. inv_done.
  destruct fuel as [|fuel]; [done|].
  assert (encode_fields r (encode_message_internal r fuel) (ordered_fields s) data = Done r0) as He
    by (simpl in E; by destruct data).
  clear E. revert r0 He. induction (ordered_fields s) as [|g l IH]; intros bs He; [set_solver|].
  simpl in He. inv_done. apply elem_of_cons in Hf as [->|Hf]; [|by eapply IH].
  unfold encode_field_internal in E. by destruct Hnull as [Hn|Hn]; rewrite Hn, Hreq in E.
Qed.

(* ------------------------------------------------------------------------ *)
(** ** Registries *)

(** A successful [define_schema] registers a schema whose fields are sorted by
    strictly increasing tag and agree with the tag table, under a name that was
    free, and leaves every other schema and all enums as they were. *)
Theorem define_schema_correct r name fields r' :
  registry_inv r -> fields_input_ok fields ->
  quicpro_iibin_define_schema r name fields = Done r' ->
  registry_inv r' /\
  quicpro_iibin_schema_registry r !! name = None /\
  (exists s, quicpro_iibin_schema_registry r' !! name = Some s) /\
  (forall n, n <> name ->
     quicpro_iibin_schema_registry r' !! n = quicpro_iibin_schema_registry r !! n) /\
  quicpro_iibin_enum_registry r' = quicpro_iibin_enum_registry r.
Proof.
  intros Hr Hin Hd. split; [by eapply define_schema_inv|].
  unfold quicpro_iibin_define_schema in Hd. destruct (negb _); [done|].
  destruct (get_compiled_iibin_schema_internal r name); [done|].
  destruct (get_compiled_iibin_enum_internal r name); [done|].
  apply obind_Done in Hd as (s & Hs & Hd).
  destruct (quicpro_iibin_schema_registry r !! name) eqn:En; [done|]. inv_done. simpl.
  rewrite lookup_insert_eq. split_and!; eauto. intros n Hne. by rewrite lookup_insert_ne.
Qed.

(** A successful [define_enum] registers an enum in which names and 32-bit
    numbers determine each other, and changes nothing else. *)
Theorem define_enum_correct r name vals r' :
  quicpro_iibin_define_enum r name vals = Done r' ->
  exists e, quicpro_iibin_enum_registry r' = <[name := e]> (quicpro_iibin_enum_registry r) /\
  enum_inv e /\ quicpro_iibin_enum_registry r !! name = None /\
  quicpro_iibin_schema_registry r' = quicpro_iibin_schema_registry r.
Proof.
  intros Hd. unfold quicpro_iibin_define_enum in Hd. destruct (negb _); [done|].
  destruct (get_compiled_iibin_schema_internal r name); [done|].
  destruct (get_compiled_iibin_enum_internal r name); [done|].
  apply obind_Done in Hd as (e & He & Hd).
  destruct (quicpro_iibin_enum_registry r !! name) eqn:En; [done|]. inv_done.
  exists e. split_and!; try done. eapply define_enum_values_ok; [apply enum_inv_empty|done].
Qed.

(* ------------------------------------------------------------------------ *)
(** ** Wire primitives *)

(** A varint is read back as the 64-bit value that was written, from any place
    of any buffer, and the cursor stops right after it. *)
Theorem varint_roundtrip m p e v :
  mem_wf m -> e <= mem_end m -> bytes_at m p (quicpro_iibin_encode_varint v) ->
  p + Z.of_nat (length (quicpro_iibin_encode_varint v)) <= e ->
  quicpro_iibin_decode_varint tt m p e =
  Done (u64 v, p + Z.of_nat (length (quicpro_iibin_encode_varint v))).
Proof. intros Hwf He Hb Hp. by apply decode_encode_varint. Qed.

(** The varint encoding is minimal: [k] bytes exactly when the value needs [k]
    groups of seven bits, never more than ten. *)
Theorem varint_minimal v k :
  length (quicpro_iibin_encode_varint v) = k <->
  (1 <= k <= 10)%nat /\ u64 v < 2 ^ (7 * Z.of_nat k) /\
  (k = 1%nat \/ 2 ^ (7 * Z.of_nat (k - 1)) <= u64 v).
Proof.
  unfold quicpro_iibin_encode_varint. apply encode_varint_loop_length; [|lia].
  pose proof (u64_range v). change (2 ^ (7 * Z.of_nat 10)) with (2 ^ 70). lia.
Qed.

(** On any bytes the varint decoder reads only inside the buffer, comes back,
    moves one to ten bytes forward when it succeeds and delivers a 64-bit value. *)
Theorem varint_decode_safe m p e :
  mem_wf m -> m_base m <= p -> e <= mem_end m ->
  returns (fun '(v, q) => 0 <= v < 2 ^ 64 /\ p < q <= p + 10 /\ q <= e)
    (quicpro_iibin_decode_varint tt m p e).
Proof.
  intros Hwf Hp He. unfold quicpro_iibin_decode_varint.
  pose proof (decode_varint_loop_safe tt 10 m p e 0 0 Hwf Hp He) as Hs.
  destruct (decode_varint_loop _ _ _ _ _ _ _) as [[v q]|?| |] eqn:Ev; try done.
  apply decode_varint_range in Ev; [|lia]. simpl. lia.
Qed.

(** Fixed-width integers are read back as they were written, from four and
    eight bytes. *)
Theorem fixed_roundtrip m p e v :
  mem_wf m -> e <= mem_end m ->
  (bytes_at m p (quicpro_iibin_encode_fixed32 v) -> p + 4 <= e ->
   quicpro_iibin_decode_fixed32 tt m p e = Done (u32 v, p + 4)) /\
  (bytes_at m p (quicpro_iibin_encode_fixed64 v) -> p + 8 <= e ->
   quicpro_iibin_decode_fixed64 tt m p e = Done (u64 v, p + 8)).
Proof.
  intros Hwf He. split; intros Hb Hp;
    [by apply decode_encode_fixed32 | by apply decode_encode_fixed64].
Qed.

(** Zig-zag is a bijection between the signed and the unsigned 32-bit integers,
    and between the 64-bit ones. *)
Theorem zigzag_bijective :
  (forall n, - 2 ^ 31 <= n < 2 ^ 31 ->
     0 <= quicpro_iibin_zigzag_encode32 n < 2 ^ 32 /\
     quicpro_iibin_zigzag_decode32 (quicpro_iibin_zigzag_encode32 n) = n) /\
  (forall z, 0 <= z < 2 ^ 32 ->
     - 2 ^ 31 <= quicpro_iibin_zigzag_decode32 z < 2 ^ 31 /\
     quicpro_iibin_zigzag_encode32 (quicpro_iibin_zigzag_decode32 z) = z) /\
  (forall n, - 2 ^ 63 <= n < 2 ^ 63 ->
     0 <= quicpro_iibin_zigzag_encode64 n < 2 ^ 64 /\
     quicpro_iibin_zigzag_decode64 (quicpro_iibin_zigzag_encode64 n) = n) /\
  (forall z, 0 <= z < 2 ^ 64 ->
     - 2 ^ 63 <= quicpro_iibin_zigzag_decode64 z < 2 ^ 63 /\
     quicpro_iibin_zigzag_encode64 (quicpro_iibin_zigzag_decode64 z) = z).
Proof.
  split_and!; intros n Hn;
    rewrite ?zigzag_encode32_zz, ?zigzag_decode32_zz, ?zigzag_encode64_zz, ?zigzag_decode64_zz;
    first [ by apply (zz_roundtrip 32) | by apply (zz_roundtrip_inv 32)
          | by apply (zz_roundtrip 64) | by apply (zz_roundtrip_inv 64) ].
Qed.

(* ------------------------------------------------------------------------ *)
(** ** Witnesses *)

Import Demo.

Ltac in_block := split; [vm_compute; discriminate | vm_compute; reflexivity].

Lemma no_required_repeated s data :
  forallb (fun f => negb (has_flag f IIBIN_FIELD_FLAG_REQUIRED && has_flag f IIBIN_FIELD_FLAG_REPEATED))
    (ordered_fields s) = true ->
  forall f, f ∈ ordered_fields s -> has_flag f IIBIN_FIELD_FLAG_REQUIRED = true ->
    has_flag f IIBIN_FIELD_FLAG_REPEATED = true -> read_field data f <> Some (ZArray []).
Proof.
  rewrite forallb_forall. intros Hall f Hf%list_elem_of_In Hq Hp. specialize (Hall f Hf).
  by rewrite Hq, Hp in Hall.
Qed.

Lemma iibin_roundtrip_scalar_witness : exists ht,
  quicpro_iibin_decode r4 as_written 4096 100 "Sample" (bytes_of "Sample" sample) false
    = Done (ZArray ht, false).
Proof.
  destruct (iibin_roundtrip_scalar r4 4096 4 100 "Sample" (schema "Sample") sample
              (bytes_of "Sample" sample)) as (ht & Hd & _).
  - vm_compute. reflexivity.
  - apply schema_wf_of_inv, (registry_inv_get r4 "Sample"); [exact r4_inv|vm_compute; reflexivity].
  - vm_compute. repeat constructor.
  - in_block.
  - vm_compute. reflexivity.
  - vm_compute. lia.
  - apply no_required_repeated. vm_compute. reflexivity.
  - exists ht. exact Hd.
Defined.

(** The point [(5, -3)], then an unknown field of three bytes. *)
Definition hostile : string := string_of_list_byte (map z2b [8; 10; 16; 5; 58; 3; 255; 255; 255]).

Lemma iibin_decode_safe_witness :
  returns (fun x => x.2 = false /\ exists ht, x.1 = ZArray ht /\
      slots typed_or_default (schema "Point") ht /\ complete (ordered_fields (schema "Point")) ht)
    (quicpro_iibin_decode r4 as_written 4096 100 "Point" hostile false) /\
  quicpro_iibin_decode r4 as_written 4096 100 "Point" hostile false =
    Done (ZArray [(KStr "x", ZLong 5); (KStr "y", ZLong (-3))], false).
Proof.
  split; [|vm_compute; reflexivity].
  apply iibin_decode_safe; [exact r4_inv|vm_compute; reflexivity| |in_block|vm_compute; reflexivity|vm_compute; lia].
  intros f Hf. assert (Hall : forallb (fun f => negb (has_flag f IIBIN_FIELD_FLAG_REPEATED)) (ordered_fields (schema "Point")) = true)
    by (vm_compute; reflexivity).
  apply negb_true_iff. exact (proj1 (forallb_forall _ _) Hall f (proj1 (list_elem_of_In _ _) Hf)).
Defined.

Definition weights : field_def :=
  nth 1 (ordered_fields (schema "Sample")) (mkFieldDef "" 0 IIBIN_INTERNAL_TYPE_BOOL 0 None false None None ZUndef 0).

Lemma iibin_repeated_reuses_freed_witness :
  quicpro_iibin_decode r4 as_written 4096 100 "Sample" (string_of_list_byte (zero_of weights ++ zero_of weights)) false = Undefined.
Proof.
  apply (iibin_repeated_reuses_freed r4 4096 100 "Sample" (schema "Sample") weights);
    [exact r4_inv|vm_compute; reflexivity|apply list_elem_of_In; unfold weights; apply nth_In; vm_compute; lia
    |vm_compute; reflexivity|vm_compute; reflexivity|in_block|lia].
Defined.

Lemma as_written_rejects_strings_witness :
  decode_value_to_zval r4 as_written (mem_of_string 4096 (bytes_of "Shape" shape))
    (fun _ _ _ _ => Undefined) 4100 (4096 + 10)
    (mkFieldDef "s" 1 IIBIN_INTERNAL_TYPE_STRING 1 None false None None ZUndef 2) 2 false
  <> Done (ZString "box", 4104).
Proof.
  apply as_written_rejects_strings; [in_block|vm_compute; discriminate|vm_compute; reflexivity|by left].
Defined.

Lemma as_written_hangs_witness :
  decode_message_internal r4 as_written (mem_of_string 4096 eleven_bytes) 1000 false
    (mkSchema "Empty" ∅ ∅ []) 4096 (4096 + 11) (ZArray []) = NoFuel.
Proof. apply as_written_hangs; [in_block|reflexivity]. Defined.

Lemma iibin_required_enforced_witness :
  quicpro_iibin_encode r4 3 "Shape" (ZArray [(KStr "label", ZString "x")]) <> Done "".
Proof.
  apply (iibin_required_enforced r4 3 "Shape" (schema "Shape") _ (hd (mkFieldDef "" 0
    IIBIN_INTERNAL_TYPE_BOOL 0 None false None None ZUndef 0) (ordered_fields (schema "Shape"))));
    [vm_compute; reflexivity|apply list_elem_of_In; vm_compute; left; reflexivity
    |vm_compute; reflexivity|left; vm_compute; reflexivity].
Defined.

Lemma define_schema_correct_witness : registry_inv r2.
Proof.
  apply (define_schema_correct r1 "Point" point_fields r2);
    [by intros ? ? ?|input_ok|vm_compute; reflexivity].
Defined.

Lemma define_enum_correct_witness : exists e,
  quicpro_iibin_enum_registry r1 = <["Color"%string := e]> (quicpro_iibin_enum_registry fresh) /\ enum_inv e.
Proof.
  destruct (define_enum_correct fresh "Color" [(KStr "RED", ZLong 0); (KStr "BLUE", ZLong 7)] r1)
    as (e & He & Hi & _); [vm_compute; reflexivity|]. by exists e.
Defined.

Lemma varint_roundtrip_witness :
  quicpro_iibin_decode_varint tt (Mem 4096 (quicpro_iibin_encode_varint 300)) 4096 4098 = Done (300, 4098).
Proof.
  apply (varint_roundtrip (Mem 4096 (quicpro_iibin_encode_varint 300)) 4096 4098 300);
    [in_block|vm_compute; discriminate|by exists [], []|vm_compute; discriminate].
Defined.

Lemma varint_decode_safe_witness :
  returns (fun '(v, q) => 0 <= v < 2 ^ 64 /\ 4096 < q <= 4096 + 10 /\ q <= 4098)
    (quicpro_iibin_decode_varint tt (Mem 4096 [Byte.xff; Byte.xff]) 4096 4098).
Proof. apply varint_decode_safe; [in_block|simpl; lia|vm_compute; discriminate]. Defined.

Lemma fixed_roundtrip_witness :
  quicpro_iibin_decode_fixed32 tt (Mem 4096 (quicpro_iibin_encode_fixed32 (-2))) 4096 4100
  = Done (2 ^ 32 - 2, 4100).
Proof.
  apply (fixed_roundtrip (Mem 4096 (quicpro_iibin_encode_fixed32 (-2))) 4096 4100 (-2));
    [in_block|vm_compute; discriminate|by exists [], []|lia].
Defined.
