(* ===== verification/IibinMemory.v ===== *)
(** * The memory of IIBIN schemas and enums

    [extension/src/iibin/iibin_schema.c] at the level of single allocations: what defining a
    schema or an enum allocates, what its error paths release and leave, the destructors of
    the registries, and what they find after the end of the request.  The values are those of [IibinSchema]. *)

From Stdlib Require Import ZArith Lia String.
From stdpp Require Import base tactics list gmap strings.
From S2P Require Import Prelude Zend IibinSchema Heap.

Local Open Scope Z_scope.
Set Warnings "-clear-no-such-hyp,-missing-scheme".

Abbreviation result A := (outcome iibin_error A).

(* ------------------------------------------------------------------------ *)
(** ** Fields *)

(** The pointers of a field definition; the reference held by its default value. *)
Record field_mem := mkFM {
  fm_self : Z;
  fm_name : Z;
  fm_message : option Z;
  fm_enum : option Z;
  fm_json : option Z;
  fm_default : option Z;
}.
Definition field_strings (f : field_mem) : list Z :=
  [fm_name f] ++ ptr (fm_message f) ++ ptr (fm_enum f) ++ ptr (fm_json f) ++ ptr (fm_default f).
Definition field_ptrs (f : field_mem) : list Z := field_strings f ++ [fm_self f].

Definition quicpro_destroy_iibin_field_def_internal (f : field_mem) : mem unit :=
  let$ _ := efree (fm_name f) in
  let$ _ := efree_if (fm_message f) in
  let$ _ := efree_if (fm_enum f) in
  let$ _ := efree_if (fm_json f) in
  let$ _ := efree_if (fm_default f) in
  efree (fm_self f).

(** [ZVAL_COPY] of the default, unless it is the name of an enum value. *)
Definition default_copied (t : quicpro_iibin_field_type_internal) (opts : hashtable) : bool :=
  match ht_find (KStr "default") opts with
  | Some zv => match t, zv with IIBIN_INTERNAL_TYPE_ENUM, ZString _ => false | _, _ => true end
  | None => false
  end.

(** [parse_php_field_options] on a zeroed definition at [self]. *)
Definition parse_field_options (r : registries) (field_name_in_php : string) (opts : hashtable) (self : Z)
  : mem (result quicpro_iibin_field_def_internal * field_mem) :=
  let name := cstr field_name_in_php in
  let$ pn := emalloc in
  let fm := mkFM self pn None None None None in
  match ht_find (KStr "tag") opts with
  | Some (ZLong tagv) =>
      if tagv <=? 0 then mret (Failed (EBadTag name), fm)
      else
        match ht_find (KStr "type") opts with
        | Some (ZString ts) =>
            match parse_php_field_type_details ts with
            | None => mret (Failed (EUnparseableType name), fm)
            | Some (base, is_repeated, ref) =>
                let$ pr := emalloc_if (is_some ref) in
                match resolve_field_type r name base ref with
                | Done (t, msg_ref, enum_ref) =>
                    let$ _ := if is_some msg_ref || is_some enum_ref then mret tt else efree_if pr in
                    let fm := mkFM self pn (if is_some msg_ref then pr else None)
                                (if is_some msg_ref then None else if is_some enum_ref then pr else None) None None in
                    let fl := flag_if is_repeated IIBIN_FIELD_FLAG_REPEATED 0 in
                    let fl := if option_true "required" opts
                              then Z.lor fl IIBIN_FIELD_FLAG_REQUIRED else Z.lor fl IIBIN_FIELD_FLAG_OPTIONAL in
                    let use_packed := is_repeated && is_packable t &&
                      match ht_find (KStr "packed") opts with Some v => zend_is_true v | None => true end in
                    let fl := flag_if use_packed IIBIN_FIELD_FLAG_PACKED fl in
                    let wt := calculate_field_wire_type t (negb (Z.land fl IIBIN_FIELD_FLAG_PACKED =? 0)) in
                    if wt =? u32 (-1) then mret (Failed (ENoWireType name), fm)
                    else
                      unless (parse_default r name t enum_ref opts) fm (fun dflt =>
                      let$ pd := emalloc_if (default_copied t opts) in
                      let json := match ht_find (KStr "json_name") opts with Some (ZString s) => Some s | _ => None end in
                      let$ pj := emalloc_if (is_some json) in
                      mret (Done {| name_in_php := name; tag := u32 tagv; type := t; flags := fl; json_name := json;
                                    is_deprecated := option_true "deprecated" opts;
                                    message_type_name_if_nested := msg_ref; enum_type_name_if_enum := enum_ref;
                                    default_value_zval := dflt; wire_type := wt |},
                            mkFM self pn (fm_message fm) (fm_enum fm) pj pd))
                | Failed e => let$ _ := efree_if pr in mret (Failed e, fm)
                | Undefined => mret (Undefined, fm)
                | NoFuel => mret (NoFuel, fm)
                end
            end
        | _ => mret (Failed (EBadType name), fm)
        end
  | _ => mret (Failed (EBadTag name), fm)
  end.

(* ------------------------------------------------------------------------ *)
(** ** Schemas *)

Record schema_mem := mkSM {
  sm_self : Z;
  sm_name : Z;
  sm_by_tag : Z;
  sm_by_name : Z;
  sm_ordered : option Z;
  sm_fields : list field_mem;
}.
Definition schema_ptrs (s : schema_mem) : list Z :=
  [sm_name s] ++ ptr (sm_ordered s) ++ concat (map field_ptrs (sm_fields s)) ++ [sm_by_tag s; sm_by_name s; sm_self s].

Definition quicpro_iibin_compiled_schema_dtor_internal (s : schema_mem) : mem unit :=
  let$ _ := efree (sm_name s) in
  let$ _ := efree_if (sm_ordered s) in
  let$ _ := each quicpro_destroy_iibin_field_def_internal (sm_fields s) in
  let$ _ := efree (sm_by_tag s) in
  let$ _ := efree (sm_by_name s) in
  efree (sm_self s).

(** The fields that are in the tables are not released. *)
Definition cleanup_partially_built_schema (s : schema_mem) : mem unit :=
  let$ _ := efree (sm_name s) in
  let$ _ := efree (sm_by_tag s) in
  let$ _ := efree (sm_by_name s) in
  let$ _ := efree_if (sm_ordered s) in
  efree (sm_self s).

(** The loop over the fields; [fms] are the definitions in the tables. *)
Fixpoint define_fields (r : registries) (fields : hashtable) (s : quicpro_iibin_compiled_schema_internal)
    (fms : list field_mem) : mem (result quicpro_iibin_compiled_schema_internal * list field_mem) :=
  match fields with
  | [] => mret (Done s, fms)
  | (KStr fname, ZArray opts) :: fields' =>
      let$ self := emalloc in
      let$ '(o, fm) := parse_field_options r fname opts self in
      match o with
      | Done f =>
          match fields_by_tag s !! tag f with
          | Some _ =>
              let$ _ := quicpro_destroy_iibin_field_def_internal fm in
              mret (Failed (EDuplicateTag (tag f)), fms)
          | None =>
              define_fields r fields'
                {| schema_name := schema_name s;
                   fields_by_tag := <[tag f := f]> (fields_by_tag s);
                   fields_by_name := <[name_in_php f := f]> (fields_by_name s);
                   ordered_fields := ordered_fields s ++ [f] |} (fms ++ [fm])
          end
      | Failed e => let$ _ := efree self in mret (Failed e, fms)
      | Undefined => mret (Undefined, fms)
      | NoFuel => mret (NoFuel, fms)
      end
  | _ => mret (Failed EInvalidFieldDef, fms)
  end.

Definition define_schema (r : registries) (name : string) (fields : hashtable) : mem (result registries * option schema_mem) :=
  if negb (quicpro_iibin_registries_initialized r) then mret (Failed ENotInitialized, None)
  else match get_compiled_iibin_schema_internal r name, get_compiled_iibin_enum_internal r name with
       | None, None =>
           let$ self := emalloc in
           let$ pn := emalloc in
           let$ t1 := emalloc in
           let$ t2 := emalloc in
           let$ po := emalloc_if (negb (bool_decide (fields = []))) in
           let$ '(o, fms) := define_fields r fields (mkSchema name ∅ ∅ []) [] in
           let sm := mkSM self pn t1 t2 po fms in
           match o with
           | Done s =>
               match quicpro_iibin_schema_registry r !! name with
               | Some _ => let$ _ := cleanup_partially_built_schema sm in mret (Failed (EAlreadyDefined name), None)
               | None =>
                   let s := {| schema_name := schema_name s; fields_by_tag := fields_by_tag s;
                               fields_by_name := fields_by_name s; ordered_fields := sort_by_tag (ordered_fields s) |} in
                   mret (Done {| quicpro_iibin_schema_registry := <[name := s]> (quicpro_iibin_schema_registry r);
                                 quicpro_iibin_enum_registry := quicpro_iibin_enum_registry r;
                                 quicpro_iibin_registries_initialized := true |}, Some sm)
               end
           | Failed e => let$ _ := cleanup_partially_built_schema sm in mret (Failed e, None)
           | Undefined => mret (Undefined, None)
           | NoFuel => mret (NoFuel, None)
           end
       | _, _ => mret (Failed (EAlreadyDefined name), None)
       end.

(* ------------------------------------------------------------------------ *)
(** ** Enums *)

(** A value: its definition, its name, and the copy of the name in the table by value. *)
Record value_mem := mkVM { vm_self : Z; vm_name : Z; vm_copy : Z }.
Definition value_ptrs (v : value_mem) : list Z := [vm_name v; vm_self v].

Record enum_mem := mkEM { em_self : Z; em_name : Z; em_by_name : Z; em_by_value : Z; em_values : list value_mem }.
Definition enum_ptrs (e : enum_mem) : list Z :=
  [em_name e] ++ concat (map value_ptrs (em_values e)) ++ [em_by_name e] ++ map vm_copy (em_values e)
  ++ [em_by_value e; em_self e].

Definition quicpro_destroy_iibin_enum_value_def_internal (v : value_mem) : mem unit :=
  let$ _ := efree (vm_name v) in efree (vm_self v).

Definition quicpro_iibin_compiled_enum_dtor_internal (e : enum_mem) : mem unit :=
  let$ _ := efree (em_name e) in
  let$ _ := each quicpro_destroy_iibin_enum_value_def_internal (em_values e) in
  let$ _ := efree (em_by_name e) in
  let$ _ := each efree (map vm_copy (em_values e)) in
  let$ _ := efree (em_by_value e) in
  efree (em_self e).

Definition cleanup_partially_built_enum (e : enum_mem) : mem unit :=
  let$ _ := efree (em_name e) in
  let$ _ := efree (em_by_name e) in
  let$ _ := efree (em_by_value e) in
  efree (em_self e).

(** The loop over the values, with the cleanup in its error branches. *)
Fixpoint define_values (vals : hashtable) (e : quicpro_iibin_compiled_enum_internal) (em : enum_mem)
  : mem (result quicpro_iibin_compiled_enum_internal * enum_mem) :=
  match vals with
  | [] => mret (Done e, em)
  | (KStr name, ZLong n) :: vals' =>
      let num := s32 n in
      let$ self := emalloc in
      let$ pn := emalloc in
      let discard := let$ _ := efree pn in efree self in
      match values_by_name e !! name with
      | Some _ =>
          let$ _ := cleanup_partially_built_enum em in
          let$ _ := discard in mret (Failed (EDuplicateEnumName name), em)
      | None =>
          match names_by_value e !! u64 num with
          | Some _ =>
              let$ _ := cleanup_partially_built_enum em in
              let$ _ := discard in mret (Failed (EDuplicateEnumNumber num), em)
          | None =>
              let$ pc := emalloc in
              define_values vals'
                {| enum_name := enum_name e;
                   values_by_name := <[name := mkEnumValue name num]> (values_by_name e);
                   names_by_value := <[u64 num := cstr name]> (names_by_value e) |}
                (mkEM (em_self em) (em_name em) (em_by_name em) (em_by_value em) (em_values em ++ [mkVM self pn pc]))
          end
      end
  | _ => let$ _ := cleanup_partially_built_enum em in mret (Failed EInvalidEnumDef, em)
  end.

Definition define_enum (r : registries) (name : string) (vals : hashtable) : mem (result registries * option enum_mem) :=
  if negb (quicpro_iibin_registries_initialized r) then mret (Failed ENotInitialized, None)
  else match get_compiled_iibin_schema_internal r name, get_compiled_iibin_enum_internal r name with
       | None, None =>
           let$ self := emalloc in
           let$ pn := emalloc in
           let$ t1 := emalloc in
           let$ t2 := emalloc in
           let$ '(o, em) := define_values vals (mkEnum name ∅ ∅) (mkEM self pn t1 t2 []) in
           match o with
           | Done e =>
               match quicpro_iibin_enum_registry r !! name with
               | Some _ => let$ _ := cleanup_partially_built_enum em in mret (Failed (EAlreadyDefined name), None)
               | None =>
                   mret (Done {| quicpro_iibin_schema_registry := quicpro_iibin_schema_registry r;
                                 quicpro_iibin_enum_registry := <[name := e]> (quicpro_iibin_enum_registry r);
                                 quicpro_iibin_registries_initialized := true |}, Some em)
               end
           | Failed e => mret (Failed e, None)
           | Undefined => mret (Undefined, None)
           | NoFuel => mret (NoFuel, None)
           end
       | _, _ => mret (Failed (EAlreadyDefined name), None)
       end.

(* ------------------------------------------------------------------------ *)
(** ** Destructors *)

Lemma destroys_field f : destroys (quicpro_destroy_iibin_field_def_internal f) (field_ptrs f).
Proof.
  unfold quicpro_destroy_iibin_field_def_internal, field_ptrs, field_strings.
  rewrite <- !app_assoc. auto 10 with mem.
Qed.
#[local] Hint Resolve destroys_field : mem.

Lemma destroys_two p q : destroys (let$ _ := efree p in efree q) [p; q].
Proof. apply (destroys_bind _ _ [p] [q]); auto with mem. Qed.
Lemma destroys_three p q s : destroys (let$ _ := efree p in let$ _ := efree q in efree s) [p; q; s].
Proof. apply (destroys_bind _ _ [p] [q; s]); [auto with mem|apply destroys_two]. Qed.

Lemma destroys_schema s : destroys (quicpro_iibin_compiled_schema_dtor_internal s) (schema_ptrs s).
Proof.
  unfold quicpro_iibin_compiled_schema_dtor_internal, schema_ptrs.
  repeat (apply destroys_bind; [by auto with mem|]). apply destroys_bind; [|apply destroys_three].
  apply destroys_each. auto with mem.
Qed.

(** What the cleanup of a schema leaves. *)
Lemma destroys_partial_schema s :
  destroys (cleanup_partially_built_schema s) ([sm_name s; sm_by_tag s; sm_by_name s] ++ ptr (sm_ordered s) ++ [sm_self s]).
Proof.
  unfold cleanup_partially_built_schema.
  apply (destroys_bind _ _ [sm_name s]); [auto with mem|]. apply (destroys_bind _ _ [sm_by_tag s]); [auto with mem|].
  apply (destroys_bind _ _ [sm_by_name s]); auto with mem.
Qed.

Lemma destroys_efrees l : destroys (each efree l) l.
Proof. induction l as [|p l IH]; [apply destroys_ret|]. apply (destroys_bind _ _ [p] l); auto with mem. Qed.

Lemma destroys_enum e : destroys (quicpro_iibin_compiled_enum_dtor_internal e) (enum_ptrs e).
Proof.
  unfold quicpro_iibin_compiled_enum_dtor_internal, enum_ptrs.
  apply destroys_bind; [auto with mem|]. apply destroys_bind; [apply destroys_each; intros v; apply destroys_two|].
  apply destroys_bind; [auto with mem|]. apply destroys_bind; [apply destroys_efrees|apply destroys_two].
Qed.

Lemma destroys_partial_enum e :
  destroys (cleanup_partially_built_enum e) [em_name e; em_by_name e; em_by_value e; em_self e].
Proof. apply (destroys_bind _ _ [em_name e]); [auto with mem|apply destroys_three]. Qed.

(* ------------------------------------------------------------------------ *)
(** ** Constructors *)

Ltac ptrs :=
  unfold field_ptrs, field_strings, schema_ptrs, enum_ptrs;
  cbn [fm_self fm_name fm_message fm_enum fm_json fm_default sm_self sm_name sm_by_tag sm_by_name sm_ordered sm_fields
       em_self em_name em_by_name em_by_value em_values ptr fst snd].

(** The end of a branch. *)
Ltac ret_done := apply triple_ret; cbn [fst snd]; done.
Ltac ended := apply triple_ret; ptrs; split_and!; [done|done|solve_Permutation].

Lemma resolve_total r field t ref : returns (fun _ => True) (resolve_field_type r field t ref).
Proof. unfold resolve_field_type. repeat case_match; done. Qed.

(** How many blocks a field definition has when its options have been read, or could not be
    read: the definition, its name, a resolved type name, a default, a JSON name. *)
Definition json_of (opts : hashtable) : option string :=
  match ht_find (KStr "json_name") opts with Some (ZString s) => Some s | _ => None end.

Definition field_blocks (r : registries) (field_name_in_php : string) (opts : hashtable) : nat :=
  2 + match ht_find (KStr "tag") opts, ht_find (KStr "type") opts with
      | Some (ZLong tagv), Some (ZString ts) =>
          if tagv <=? 0 then 0
          else match parse_php_field_type_details ts with
               | None => 0
               | Some (base, _, ref) =>
                   match resolve_field_type r (cstr field_name_in_php) base ref with
                   | Done (t, m, e) =>
                       Nat.b2n ((is_some m || is_some e) && is_some ref) +
                       match parse_php_field_options r field_name_in_php opts with
                       | Done _ => Nat.b2n (default_copied t opts) + Nat.b2n (is_some (json_of opts))
                       | _ => 0
                       end
                   | _ => 0
                   end
               end
      | _, _ => 0
      end.

(** A reading of the options is never stopped by a null enum: a field has an enum type only
    when the enum was found. *)
Lemma parse_field_total r name opts : returns (fun _ => True) (parse_php_field_options r name opts).
Proof.
  unfold parse_php_field_options. destruct (ht_find (KStr "tag") opts) as [[]|]; try done.
  destruct (n <=? 0); [done|]. destruct (ht_find (KStr "type") opts) as [[]|]; try done.
  destruct (parse_php_field_type_details s) as [[[base rep] ref]|] eqn:Hd; [|done].
  assert (Hbase : base <> IIBIN_INTERNAL_TYPE_ENUM).
  { intros ->. unfold parse_php_field_type_details in Hd. repeat case_match; simplify_eq.
    all: match goal with H : List.find _ primitive_types = Some ?p |- _ => apply List.find_some in H as [Hin _]; destruct p end.
    all: simpl in *; subst; destruct_or! Hin; simplify_eq. }
  eapply (returns_bind (fun x => x.1.1 = IIBIN_INTERNAL_TYPE_ENUM ->
    exists en e, x.2 = Some en /\ get_compiled_iibin_enum_internal r en = Some e)).
  { unfold resolve_field_type. destruct base, ref; try done; repeat case_match; simpl; try done. intros _. eauto. }
  intros [[t m] e] He. cbn [fst snd] in He. destruct (_ =? u32 (-1)); [done|].
  eapply (returns_bind (fun _ => True)); [|done]. unfold parse_default. destruct (ht_find (KStr "default") opts) as [zv|]; [|done].
  destruct t; try done. destruct zv; try done. destruct (He eq_refl) as (en & e' & -> & ->). by destruct (_ !! _).
Qed.

Lemma length_ptr p : length (ptr p) = Nat.b2n (is_some p).
Proof. by destruct p. Qed.

(** The end of a branch, with the number of blocks. *)
Ltac ended_n := apply triple_ret; ptrs; split_and!; [done|done|solve_Permutation|rewrite ?length_app, ?length_ptr; try done].

Lemma parse_field_spec r name opts self :
  triple [self] (parse_field_options r name opts self)
    (fun x S => x.1 = parse_php_field_options r name opts /\ fm_self x.2 = self /\ S ≡ₚ field_ptrs x.2 /\
       length (field_ptrs x.2) = field_blocks r name opts).
Proof.
  unfold field_blocks, parse_field_options, parse_php_field_options, json_of. apply triple_alloc. intros pn.
  destruct (ht_find (KStr "tag") opts) as [[]|]; try ended_n.
  destruct (ht_find (KStr "type") opts) as [[]|]; try (destruct (n <=? 0); ended_n). destruct (n <=? 0); [ended_n|].
  destruct (parse_php_field_type_details s) as [[[base rep] ref]|]; [|ended_n].
  apply triple_alloc_opt. intros pr Hpr. pose proof (resolve_total r (cstr name) base ref) as Ht.
  destruct (resolve_field_type r (cstr name) base ref) as [[[t m] e]|err| |]; try done; cbn [obind]; clear Ht.
  2:{ eapply triple_release; [apply destroys_efree_if|reflexivity|ended_n]. }
  eapply (triple_bind _ _ _ (fun _ S => S ≡ₚ ptr (if is_some m then pr else None)
    ++ ptr (if is_some m then None else if is_some e then pr else None) ++ [pn; self])).
  { destruct m, e; cbn [is_some orb ptr app]; try (apply triple_ret; solve_Permutation).
    apply (destroys_among (efree_if pr) (ptr pr) [pn; self]); [apply destroys_efree_if|done]. }
  intros [] S HS. rewrite HS. clear S HS.
  assert (Hrefs : (length (ptr (if is_some m then pr else None)) +
    length (ptr (if is_some m then None else if is_some e then pr else None)) =
    Nat.b2n ((is_some m || is_some e) && is_some ref))%nat).
  { rewrite <- Hpr. by destruct m, e, pr. }
  revert Hrefs. generalize (Nat.b2n ((is_some m || is_some e) && is_some ref)).
  generalize (if is_some m then pr else None) (if is_some m then None else if is_some e then pr else None).
  intros pm pe refs Hrefs. rewrite !length_ptr in Hrefs.
  destruct (_ =? u32 (-1)); [ended_n; cbn [length Nat.b2n is_some]; lia|].
  destruct (parse_default r (cstr name) t e opts); cbn [unless obind]; try (ended_n; cbn [length Nat.b2n is_some]; lia).
  apply triple_alloc_opt. intros pd Hd. apply triple_alloc_opt. intros pj Hj. ended_n.
  rewrite Hd, Hj. cbn [length]. lia.
Qed.

(** The blocks that a definition which fails leaves behind: those of the fields it had added,
    and of the field it failed at all but the definition itself. *)
Fixpoint fields_leaked (r : registries) (fields : hashtable) (s : quicpro_iibin_compiled_schema_internal) : nat :=
  match fields with
  | (KStr fname, ZArray opts) :: fields' =>
      match parse_php_field_options r fname opts with
      | Done f =>
          match fields_by_tag s !! tag f with
          | Some _ => 0
          | None =>
              field_blocks r fname opts + fields_leaked r fields'
                {| schema_name := schema_name s; fields_by_tag := <[tag f := f]> (fields_by_tag s);
                   fields_by_name := <[name_in_php f := f]> (fields_by_name s); ordered_fields := ordered_fields s ++ [f] |}
          end
      | _ => field_blocks r fname opts - 1
      end
  | _ => 0
  end.

Definition fields_ptrs (fms : list field_mem) : list Z := concat (map field_ptrs fms).

Lemma fields_ptrs_snoc fms fm : fields_ptrs (fms ++ [fm]) = fields_ptrs fms ++ field_ptrs fm.
Proof. unfold fields_ptrs. rewrite map_app, concat_app. cbn. by rewrite app_nil_r. Qed.


Definition fields_outcome (r : registries) (fields : hashtable) (s : quicpro_iibin_compiled_schema_internal)
    (fms : list field_mem) (x : result quicpro_iibin_compiled_schema_internal * list field_mem) (S : list Z) : Prop :=
  x.1 = define_schema_fields r fields s /\
  length S = (length (fields_ptrs fms) + fields_leaked r fields s)%nat /\
  match x.1 with Done _ => S ≡ₚ fields_ptrs x.2 | Failed _ => True | _ => False end.

Lemma define_fields_spec r fields : forall s fms,
  triple (fields_ptrs fms) (define_fields r fields s fms) (fields_outcome r fields s fms).
Proof.
  unfold fields_outcome.
  induction fields as [|[k v] fields IH]; intros s fms; cbn [define_fields define_schema_fields fields_leaked];
    [apply triple_ret; cbn [fst snd]; split_and!; [done|lia|done]|].
  destruct k as [|fname]; [apply triple_ret; cbn [fst snd]; split_and!; [done|lia|done]|].
  destruct v; try (apply triple_ret; cbn [fst snd]; split_and!; [done|lia|done]).
  apply triple_alloc. intros self.
  eapply triple_bind; [apply (triple_frame [self] (fields_ptrs fms)), parse_field_spec|].
  intros [o fm] S' (S & HS' & Ho & Hself & HS & Hn). cbn [fst snd] in *. rewrite HS', HS. clear HS' HS S S'.
  pose proof (parse_field_total r fname ht) as Ht. rewrite <- Ho in Ht |- *.
  destruct o as [f|e| |]; try done; cbn [obind]; clear Ht.
  - destruct (fields_by_tag s !! tag f).
    + eapply triple_release; [apply destroys_field|reflexivity|]. apply triple_ret. cbn [fst snd]. split_and!; [done|lia|done].
    + eapply triple_mono; [rewrite Permutation_app_comm, <- fields_ptrs_snoc; apply IH|].
      intros [o' fms'] S (H1 & H2 & H3). cbn [fst snd] in *. split_and!; [done| |done].
      rewrite H2, fields_ptrs_snoc, length_app, Hn. lia.
  - eapply (triple_release _ [self] (fields_ptrs fms ++ field_strings fm)); [apply destroys_efree| |].
    + unfold field_ptrs. rewrite Hself. solve_Permutation.
    + apply triple_ret. cbn [fst snd]. split_and!; [done| |done]. rewrite <- Hn. unfold field_ptrs.
      rewrite !length_app. cbn [length]. lia.
Qed.

(** Whether a definition gets as far as its fields. *)
Definition fresh_name (r : registries) (name : string) : bool :=
  quicpro_iibin_registries_initialized r && negb (is_some (get_compiled_iibin_schema_internal r name))
  && negb (is_some (get_compiled_iibin_enum_internal r name)).
Definition schema_leaked (r : registries) (name : string) (fields : hashtable) : nat :=
  if fresh_name r name then fields_leaked r fields (mkSchema name ∅ ∅ []) else 0.

Definition schema_outcome (r : registries) (name : string) (fields : hashtable) (x : result registries * option schema_mem)
    (S : list Z) : Prop :=
  x.1 = quicpro_iibin_define_schema r name fields /\
  match x.2 with
  | Some sm => is_done x.1 = true /\ S ≡ₚ schema_ptrs sm
  | None => is_done x.1 = false /\ length S = schema_leaked r name fields
  end.

Lemma define_schema_spec r name fields : triple [] (define_schema r name fields) (schema_outcome r name fields).
Proof.
  unfold define_schema, schema_outcome, quicpro_iibin_define_schema, schema_leaked, fresh_name.
  destruct (quicpro_iibin_registries_initialized r); cbn [negb andb]; [|by apply triple_ret].
  destruct (get_compiled_iibin_schema_internal r name), (get_compiled_iibin_enum_internal r name); cbn [is_some negb andb];
    try by apply triple_ret.
  apply triple_alloc; intros self. apply triple_alloc; intros pn. apply triple_alloc; intros t1. apply triple_alloc; intros t2.
  apply triple_alloc_if. intros po. eapply triple_call; [apply (define_fields_spec r fields _ [])|].
  intros [o fms] S (Ho & Hn & HS). cbn [fst snd length Nat.add fields_ptrs map concat] in *. rewrite <- Ho. clear Ho.
  assert (Hp : S ++ ptr po ++ [t2; t1; pn; self] ≡ₚ ([pn; t1; t2] ++ ptr po ++ [self]) ++ S) by solve_Permutation.
  destruct o as [s|e| |]; try done; cbn [obind].
  - destruct (quicpro_iibin_schema_registry r !! name).
    + eapply triple_release; [apply destroys_partial_schema|exact Hp|]. by apply triple_ret.
    + apply triple_ret. cbn [fst snd]. split_and!; [done|done|]. rewrite HS. unfold schema_ptrs, fields_ptrs. cbn. solve_Permutation.
  - eapply triple_release; [apply destroys_partial_schema|exact Hp|]. by apply triple_ret.
Qed.

(** ** Enums *)

Definition values_ptrs (vs : list value_mem) : list Z := concat (map value_ptrs vs) ++ map vm_copy vs.

Lemma values_ptrs_snoc vs v : values_ptrs (vs ++ [v]) ≡ₚ vm_copy v :: vm_name v :: vm_self v :: values_ptrs vs.
Proof. unfold values_ptrs. rewrite !map_app, concat_app. cbn. unfold value_ptrs. solve_Permutation. Qed.

Lemma enum_ptrs_perm e : enum_ptrs e ≡ₚ [em_name e; em_by_name e; em_by_value e; em_self e] ++ values_ptrs (em_values e).
Proof. unfold enum_ptrs, values_ptrs. solve_Permutation. Qed.

(** The values that reach the tables before the end or the first error. *)
Fixpoint values_added (vals : hashtable) (e : quicpro_iibin_compiled_enum_internal) : nat :=
  match vals with
  | (KStr name, ZLong n) :: vals' =>
      match values_by_name e !! name, names_by_value e !! u64 (s32 n) with
      | None, None =>
          S (values_added vals'
            {| enum_name := enum_name e; values_by_name := <[name := mkEnumValue name (s32 n)]> (values_by_name e);
               names_by_value := <[u64 (s32 n) := cstr name]> (names_by_value e) |})
      | _, _ => 0
      end
  | _ => 0
  end.

(** On an error the enum has been cleaned up, but for its values. *)
Lemma define_values_spec vals : forall e em,
  triple (enum_ptrs em) (define_values vals e em) (fun x S =>
    x.1 = define_enum_values vals e /\ length (em_values x.2) = (length (em_values em) + values_added vals e)%nat /\
    match x.1 with Done _ => S ≡ₚ enum_ptrs x.2 | Failed _ => S ≡ₚ values_ptrs (em_values x.2) | _ => False end).
Proof.
  assert (Hstop : forall em R, R ≡ₚ [em_name em; em_by_name em; em_by_value em; em_self em] ++ values_ptrs (em_values em) ->
    forall e, triple R (let$ _ := cleanup_partially_built_enum em in mret (Failed e : result quicpro_iibin_compiled_enum_internal, em))
      (fun x S => x.1 = Failed e /\ length (em_values x.2) = (length (em_values em) + 0)%nat /\ match x.1 with Done _ => S ≡ₚ enum_ptrs x.2 | Failed _ => S ≡ₚ values_ptrs (em_values x.2) | _ => False end)).
  { intros em R HR e. eapply triple_release; [apply destroys_partial_enum|exact HR|apply triple_ret; cbn [fst snd]; split_and!; [done|lia|done]]. }
  induction vals as [|[k v] vals IH]; intros e em; cbn [define_values define_enum_values values_added];
    [apply triple_ret; cbn [fst snd]; split_and!; [done|lia|done]|].
  destruct k as [|name]; [apply Hstop, enum_ptrs_perm|]. destruct v; try apply Hstop, enum_ptrs_perm.
  apply triple_alloc; intros self. apply triple_alloc; intros pn. rewrite enum_ptrs_perm.
  assert (Hdup : forall er, triple (pn :: self :: [em_name em; em_by_name em; em_by_value em; em_self em] ++ values_ptrs (em_values em))
    (let$ _ := cleanup_partially_built_enum em in let$ _ := (let$ _ := efree pn in efree self) in mret (Failed er : result quicpro_iibin_compiled_enum_internal, em))
    (fun x S => x.1 = Failed er /\ length (em_values x.2) = (length (em_values em) + 0)%nat /\ match x.1 with Done _ => S ≡ₚ enum_ptrs x.2 | Failed _ => S ≡ₚ values_ptrs (em_values x.2) | _ => False end)).
  { intros er. eapply (triple_release _ _ (pn :: self :: values_ptrs (em_values em))); [apply destroys_partial_enum|solve_Permutation|].
    apply (triple_release _ [pn; self] (values_ptrs (em_values em))); [apply destroys_two|reflexivity|apply triple_ret; cbn [fst snd]; split_and!; [done|lia|done]]. }
  destruct (values_by_name e !! name); [apply Hdup|]. destruct (names_by_value e !! u64 (s32 n)); [apply Hdup|].
  apply triple_alloc. intros pc.
  match goal with |- triple _ (define_values _ ?e' ?em') _ => pose proof (IH e' em') as Hr end.
  rewrite enum_ptrs_perm in Hr. cbn [em_values em_name em_by_name em_by_value em_self] in Hr. rewrite values_ptrs_snoc in Hr. cbn [vm_copy vm_name vm_self] in Hr.
  eapply triple_mono; [refine (proj1 (triple_proper _ _ _ _ _ eq_refl _ _ eq_refl) Hr); solve_Permutation|].
  intros [o' em'] S (H1 & H2 & H3). cbn [fst snd] in *. split_and!; [done| |done]. rewrite H2, length_app. cbn [length]. lia.
Qed.

Definition enum_leaked (r : registries) (name : string) (vals : hashtable) : nat :=
  if fresh_name r name then 3 * values_added vals (mkEnum name ∅ ∅) else 0.

Lemma values_ptrs_length vs : length (values_ptrs vs) = (3 * length vs)%nat.
Proof. unfold values_ptrs. rewrite length_app, length_map. induction vs as [|v vs IH]; [done|]. cbn. lia. Qed.

Lemma define_enum_spec r name vals : triple [] (define_enum r name vals) (fun x S =>
  x.1 = quicpro_iibin_define_enum r name vals /\
  match x.2 with Some em => is_done x.1 = true /\ S ≡ₚ enum_ptrs em | None => is_done x.1 = false /\ length S = enum_leaked r name vals end).
Proof.
  unfold define_enum, quicpro_iibin_define_enum, enum_leaked, fresh_name.
  destruct (quicpro_iibin_registries_initialized r); cbn [negb andb]; [|by apply triple_ret].
  destruct (get_compiled_iibin_schema_internal r name), (get_compiled_iibin_enum_internal r name); cbn [is_some negb andb];
    try by apply triple_ret.
  apply triple_alloc; intros self. apply triple_alloc; intros pn. apply triple_alloc; intros t1. apply triple_alloc; intros t2.
  pose proof (define_values_spec vals (mkEnum name ∅ ∅) (mkEM self pn t1 t2 [])) as Hv.
  rewrite enum_ptrs_perm in Hv. cbn [em_values em_name em_by_name em_by_value em_self values_ptrs map concat app] in Hv.
  eapply triple_bind; [refine (proj1 (triple_proper _ _ _ _ _ eq_refl _ _ eq_refl) Hv); solve_Permutation|].
  intros [o em] S (Ho & Hn & HS). cbn [fst snd em_values length Nat.add] in *. rewrite <- Ho, <- Hn.
  destruct o as [e|er| |]; cbn [obind]; try done.
  - rewrite HS. destruct (quicpro_iibin_enum_registry r !! name); [|ret_done].
    eapply triple_release; [apply destroys_partial_enum|apply enum_ptrs_perm|]. apply triple_ret. cbn [fst snd].
    by rewrite values_ptrs_length.
  - apply triple_ret. cbn [fst snd]. by rewrite HS, values_ptrs_length.
Qed.

(* ------------------------------------------------------------------------ *)
(** ** The life of the registries *)

Inductive definition := DefineSchema (name : string) (fields : hashtable) | DefineEnum (name : string) (vals : hashtable).

(** What the two registries hold. *)
Record tables_mem := mkTables { t_schemas : list schema_mem; t_enums : list enum_mem }.
Definition tables_ptrs (tb : tables_mem) : list Z :=
  concat (map schema_ptrs (t_schemas tb)) ++ concat (map enum_ptrs (t_enums tb)).

Definition stored {A} (x : option A) : list A := match x with Some a => [a] | None => [] end.

(** A script that defines types, and [quicpro_iibin_registries_shutdown]. *)
Fixpoint define_all (r : registries) (tb : tables_mem) (calls : list definition) : mem (registries * tables_mem) :=
  match calls with
  | [] => mret (r, tb)
  | DefineSchema name fields :: calls' =>
      let$ '(o, sm) := define_schema r name fields in
      define_all (match o with Done r' => r' | _ => r end) (mkTables (t_schemas tb ++ stored sm) (t_enums tb)) calls'
  | DefineEnum name vals :: calls' =>
      let$ '(o, em) := define_enum r name vals in
      define_all (match o with Done r' => r' | _ => r end) (mkTables (t_schemas tb) (t_enums tb ++ stored em)) calls'
  end.

Definition destroy_registries (tb : tables_mem) : mem unit :=
  let$ _ := each quicpro_iibin_compiled_schema_dtor_internal (t_schemas tb) in
  each quicpro_iibin_compiled_enum_dtor_internal (t_enums tb).

(** The abstract registries after a definition, and how many blocks it leaves that are in
    no table. *)
Definition run_definition (r : registries) (d : definition) : result registries :=
  match d with
  | DefineSchema name fields => quicpro_iibin_define_schema r name fields
  | DefineEnum name vals => quicpro_iibin_define_enum r name vals
  end.
Definition after (r : registries) (d : definition) : registries :=
  match run_definition r d with Done r' => r' | _ => r end.
Definition leaked (r : registries) (d : definition) : nat :=
  if is_done (run_definition r d) then 0
  else match d with
       | DefineSchema name fields => schema_leaked r name fields
       | DefineEnum name vals => enum_leaked r name vals
       end.

Fixpoint define_seq (r : registries) (calls : list definition) : registries :=
  match calls with [] => r | d :: calls' => define_seq (after r d) calls' end.
Fixpoint leaked_seq (r : registries) (calls : list definition) : nat :=
  match calls with [] => 0 | d :: calls' => leaked r d + leaked_seq (after r d) calls' end.

Lemma destroys_registries tb : destroys (destroy_registries tb) (tables_ptrs tb).
Proof.
  unfold destroy_registries, tables_ptrs. apply destroys_bind.
  - apply destroys_each, destroys_schema.
  - apply destroys_each, destroys_enum.
Qed.

(** One definition: its blocks are stored, or leaked. *)
Definition stored_or_leaked {A} (ptrs : A -> list Z) (r : registries) (d : definition) (x : result registries * option A)
    (S : list Z) : Prop :=
  x.1 = run_definition r d /\ exists lost, S ≡ₚ concat (map ptrs (stored x.2)) ++ lost /\ length lost = leaked r d.

Lemma define_schema_stored r name fields :
  triple [] (define_schema r name fields) (stored_or_leaked schema_ptrs r (DefineSchema name fields)).
Proof.
  eapply triple_mono; [apply define_schema_spec|]. intros [o sm] S [Ho Hm]. split; [done|]. cbn [fst snd] in *.
  unfold leaked. cbn [run_definition]. rewrite <- Ho. destruct sm as [sm|]; cbn [stored map concat].
  - destruct Hm as [-> HS]. exists []. by rewrite !app_nil_r.
  - destruct Hm as (-> & HS). by exists S.
Qed.

Lemma define_enum_stored r name vals :
  triple [] (define_enum r name vals) (stored_or_leaked enum_ptrs r (DefineEnum name vals)).
Proof.
  eapply triple_mono; [apply define_enum_spec|]. intros [o em] S [Ho Hm]. split; [done|]. cbn [fst snd] in *.
  unfold leaked. cbn [run_definition]. rewrite <- Ho. destruct em as [em|]; cbn [stored map concat].
  - destruct Hm as [-> HS]. exists []. by rewrite !app_nil_r.
  - destruct Hm as (-> & HS). by exists S.
Qed.

Lemma define_all_spec calls : forall r tb lost,
  triple (tables_ptrs tb ++ lost) (define_all r tb calls) (fun x S => x.1 = define_seq r calls /\
    exists more, S ≡ₚ tables_ptrs x.2 ++ more ++ lost /\ length more = leaked_seq r calls).
Proof.
  induction calls as [|d calls IH]; intros r tb lost; cbn [define_all define_seq leaked_seq].
  { apply triple_ret. split; [done|]. by exists []. }
  assert (Hnext : forall tb' new lost',
    new ++ tables_ptrs tb ++ lost ≡ₚ tables_ptrs tb' ++ lost' ++ lost -> length lost' = leaked r d ->
    triple (new ++ tables_ptrs tb ++ lost) (define_all (after r d) tb' calls) (fun x S => x.1 = define_seq (after r d) calls /\
      exists more, S ≡ₚ tables_ptrs x.2 ++ more ++ lost /\ length more = (leaked r d + leaked_seq (after r d) calls)%nat)).
  { intros tb' new lost' HP Hk. rewrite HP. eapply triple_mono; [apply IH|].
    intros x S (Hx & more & HS & Hm). split; [done|]. exists (more ++ lost'). split.
    - by rewrite HS, <- app_assoc.
    - rewrite length_app. lia. }
  destruct d as [name fields|name vals].
  - eapply triple_call; [apply define_schema_stored|]. intros [o sm] S (Ho & lk & HS & Hk). cbn [fst snd] in *. subst o.
    apply (Hnext _ _ lk); [|done]. rewrite HS. unfold tables_ptrs. cbn [t_schemas t_enums]. rewrite map_app, concat_app.
    solve_Permutation.
  - eapply triple_call; [apply define_enum_stored|]. intros [o em] S (Ho & lk & HS & Hk). cbn [fst snd] in *. subst o.
    apply (Hnext _ _ lk); [|done]. rewrite HS. unfold tables_ptrs. cbn [t_schemas t_enums]. rewrite map_app, concat_app.
    solve_Permutation.
Qed.

(** The registries are kept across requests, what they hold is memory of the request that
    defined it: destroying them after that request has ended is undefined. *)
Lemma registries_after_request tb n : t_schemas tb <> [] \/ t_enums tb <> [] -> destroy_registries tb (n, []) = Undefined.
Proof. destruct tb as [[|sm ss] [|em es]]; intros [?|?]; done. Qed.

(** C17: The memory of the type registries.  Whatever a request defines, the code with its
    allocations makes the registries of the abstract one.  The blocks live are then those of
    the stored schemas and enums, each with all that was allocated for it, and as many more
    as failed definitions leaked: of a schema all blocks of the fields it had added, and of
    the field it failed at all but one; of an enum three for every value it had added.  The
    destructors release the blocks of every stored type once and leave the leaked ones,
    while the request lasts; after its end, destroying registries that hold any type is
    undefined. *)
Theorem registry_life r calls n : exists tb n1 L,
  define_all r (mkTables [] []) calls (n, []) = Done ((define_seq r calls, tb), (n1, L)) /\
  (exists lost, L ≡ₚ tables_ptrs tb ++ lost /\ length lost = leaked_seq r calls /\
     exists n2 L', destroy_registries tb (n1, L) = Done (tt, (n2, L')) /\ L' ≡ₚ lost) /\
  (t_schemas tb <> [] \/ t_enums tb <> [] -> destroy_registries tb (n1, []) = Undefined).
Proof.
  destruct (define_all_spec calls r (mkTables [] []) [] n [] []) as ([r' tb] & n1 & L & S & E & HL & Hr & lost & HS & Hn);
    [done|]. cbn [fst snd] in *. subst r'. rewrite app_nil_r in HL, HS.
  exists tb, n1, L. split_and!; [done| |apply registries_after_request]. exists lost. rewrite HL, HS.
  split_and!; [done|done|]. destruct (destroys_registries tb n1 L lost) as ([] & n2 & L' & T & E2 & HL' & HT); [by rewrite HL|].
  exists n2, L'. split; [done|]. by rewrite HL', HT.
Qed.
