(* ===== verification/IibinRegistry.v ===== *)
(** * The other registry of IIBIN types

    [extension/src/iibin/iibin_registry.c], the second definition of the registry functions of
    [iibin_schema.c] (the values are those of [IibinSchema]); the build lists only the first.
    It adds a lock for builds with threads: the two look-ups take it, the definitions of
    [iibin_schema.c] do not.  The functions are those of one thread, with the tables as C has
    them: a table that is not initialised or was destroyed must not be searched. *)

From Stdlib Require Import ZArith String.
From stdpp Require Import base tactics list gmap strings.
From S2P Require Import Prelude Zend IibinSchema.

Set Warnings "-clear-no-such-hyp".

(** The hash tables: [None] before [zend_hash_init] and after [zend_hash_destroy]; the lock:
    [None] for the null pointer. *)
Record registry := mkRegistry {
  schema_table : option (gmap string quicpro_iibin_compiled_schema_internal);
  enum_table : option (gmap string quicpro_iibin_compiled_enum_internal);
  initialized : bool;
  registry_mutex : option bool;   (* held? *)
}.
Definition at_load : registry := mkRegistry None None false None.

(** [tsrm_mutex_lock] of a free lock by a single thread, and [tsrm_mutex_unlock]. *)
Definition REG_LOCK (r : registry) : outcome unit registry :=
  match registry_mutex r with
  | Some false => Done (mkRegistry (schema_table r) (enum_table r) (initialized r) (Some true))
  | Some true => NoFuel
  | None => Undefined
  end.
Definition REG_UNLOCK (r : registry) : outcome unit registry :=
  match registry_mutex r with
  | Some true => Done (mkRegistry (schema_table r) (enum_table r) (initialized r) (Some false))
  | _ => Undefined
  end.

Definition find_schema (r : registry) (name : string) : outcome unit (option quicpro_iibin_compiled_schema_internal) :=
  match schema_table r with Some t => Done (t !! cstr name) | None => Undefined end.
Definition find_enum (r : registry) (name : string) : outcome unit (option quicpro_iibin_compiled_enum_internal) :=
  match enum_table r with Some t => Done (t !! cstr name) | None => Undefined end.

Definition locked {A} (find : registry -> outcome unit A) (r : registry) : outcome unit (A * registry) :=
  let! r := REG_LOCK r in
  let! a := find r in
  let! r := REG_UNLOCK r in
  Done (a, r).

Definition get_compiled_schema (r : registry) (name : string) := locked (fun r => find_schema r name) r.
Definition get_compiled_enum (r : registry) (name : string) := locked (fun r => find_enum r name) r.

(** Initialisation does not look at the flag: a second one forgets the tables. *)
Definition registries_init (r : registry) : registry :=
  mkRegistry (Some ∅) (Some ∅) true (match registry_mutex r with Some h => Some h | None => Some false end).

Definition registries_shutdown (r : registry) : registry :=
  if initialized r then mkRegistry None None false None else r.

(** The registry of [IibinSchema] that a usable registry stands for. *)
Definition represents (r : registry) (v : registries) : Prop :=
  initialized r = quicpro_iibin_registries_initialized v /\
  (initialized r = true -> schema_table r = Some (quicpro_iibin_schema_registry v) /\
     enum_table r = Some (quicpro_iibin_enum_registry v) /\ registry_mutex r = Some false) /\
  (initialized r = false -> registry_mutex r = None /\ schema_table r = None /\ enum_table r = None).

(** Between initialisation and shutdown the two definitions of the registry agree; shutdown
    and a first initialisation agree too. *)
Theorem registry_refines r v name : represents r v ->
  (initialized r = true -> get_compiled_schema r name = Done (get_compiled_iibin_schema_internal v name, r) /\
     get_compiled_enum r name = Done (get_compiled_iibin_enum_internal v name, r)) /\
  (initialized r = false -> get_compiled_schema r name = Undefined /\ get_compiled_enum r name = Undefined /\
     represents (registries_init r) (quicpro_iibin_registries_init v)) /\
  represents (registries_shutdown r) (quicpro_iibin_registries_shutdown v).
Proof.
  destruct r as [st et i m], v as [sv ev iv]. unfold represents. cbn. intros (-> & Ht & Hf). split; [|split].
  - intros ->. destruct (Ht eq_refl) as (-> & -> & ->). unfold get_compiled_schema, get_compiled_enum, locked. by cbn.
  - intros ->. destruct (Hf eq_refl) as (-> & -> & ->). unfold registries_init, quicpro_iibin_registries_init. cbn. naive_solver.
  - unfold registries_shutdown, quicpro_iibin_registries_shutdown. destruct iv; cbn; naive_solver.
Qed.

(** The two definitions differ on a second initialisation: this one forgets every definition. *)
Lemma second_init_forgets r v name s : represents r v -> initialized r = true ->
  quicpro_iibin_schema_registry v !! cstr name = Some s ->
  get_compiled_iibin_schema_internal (quicpro_iibin_registries_init v) name = Some s /\
  get_compiled_schema (registries_init r) name = Done (None, registries_init r).
Proof.
  destruct r as [st et i m], v as [sv ev iv]. unfold represents. cbn. intros (-> & Ht & _) -> Hs.
  destruct (Ht eq_refl) as (-> & -> & ->). unfold quicpro_iibin_registries_init, get_compiled_iibin_schema_internal. cbn.
  split; [done|]. unfold get_compiled_schema, locked, find_schema. cbn. by rewrite lookup_empty.
Qed.
