(* ===== verification/Validation.v ===== *)
(** * Configuration parameter validators

    [extension/src/validation/config_param/]: nineteen C functions that check one
    PHP value and, when it is acceptable, store it into a member of a configuration
    struct.  Here a validator maps the value to what is stored, or to [None] when an
    [InvalidArgumentException] is thrown and the member keeps its old value (the
    [pefree] of the old string and the [pestrdup] of the new one happen after every
    check, so a rejected value never touches the member).

    C strings end at their first NUL ([cstr]).  [strtok_r], [strcasecmp], [php_trim],
    [strtol] and [sscanf] are modelled for the way they are called, in the C locale.
    [strtod], the file system and PHP's URL parser are parameters ([ValidationEnv]),
    as are the two validators that are called but not part of the sources. *)

From Stdlib Require Import ZArith Lia String Ascii.
From stdpp Require Import base tactics list strings.
From S2P Require Import Prelude Ieee Zend.

Local Open Scope Z_scope.

(** A member of a configuration struct: [bool], [zend_long], [double], [char *]. *)
Inductive cvalue :=
| CBool (b : bool)
| CLong (n : Z)
| CDouble (bits : Z)
| CString (s : string).
#[export] Instance cvalue_eq_dec : EqDecision cvalue.
Proof. solve_decision. Defined.

(* ------------------------------------------------------------------------ *)
(** ** C string functions *)

(** [isspace] in the C locale. *)
Definition isspace (c : ascii) : bool :=
  let n := nat_of_ascii c in (n =? 32)%nat || ((9 <=? n)%nat && (n <=? 13)%nat).

Definition isdigit (c : ascii) : bool :=
  let n := nat_of_ascii c in (48 <=? n)%nat && (n <=? 57)%nat.

Definition isalnum (c : ascii) : bool :=
  let n := nat_of_ascii c in
  isdigit c || ((65 <=? n)%nat && (n <=? 90)%nat) || ((97 <=? n)%nat && (n <=? 122)%nat).

Definition tolower (c : ascii) : ascii :=
  let n := nat_of_ascii c in
  if (65 <=? n)%nat && (n <=? 90)%nat then ascii_of_nat (n + 32) else c.

Fixpoint lower (s : string) : string :=
  match s with EmptyString => EmptyString | String c s' => String (tolower c) (lower s') end.

(** [strcmp(a, b) == 0] and [strcasecmp(a, b) == 0]. *)
Definition strcmp_eq (a b : string) : bool := bool_decide (cstr a = cstr b).
Definition strcasecmp_eq (a b : string) : bool := bool_decide (lower (cstr a) = lower (cstr b)).

Definition snoc (s : string) (c : ascii) : string := (s ++ String c EmptyString)%string.

(** The tokens of [strtok_r] with one delimiter: maximal runs of other characters,
    so empty tokens do not exist. *)
Fixpoint strtok_loop (delim : ascii) (s token : string) : list string :=
  let emit := if decide (token = EmptyString) then [] else [token] in
  match s with
  | EmptyString => emit
  | String c s' =>
      if decide (c = delim) then emit ++ strtok_loop delim s' EmptyString
      else strtok_loop delim s' (snoc token c)
  end.

Definition strtok_r (delim : ascii) (s : string) : list string :=
  strtok_loop delim (cstr s) EmptyString.

(** [php_trim(s, " \t\n\r\v\f", 7, 3)]: the length 7 includes the terminating NUL. *)
Definition trimmed (c : ascii) : bool := isspace c || bool_decide (c = Ascii.zero).

Fixpoint ltrim (s : string) : string :=
  match s with
  | EmptyString => EmptyString
  | String c s' => if trimmed c then ltrim s' else s
  end.

Fixpoint rtrim (s : string) : string :=
  match s with
  | EmptyString => EmptyString
  | String c s' =>
      let t := rtrim s' in
      if trimmed c && bool_decide (t = EmptyString) then EmptyString else String c t
  end.

Definition php_trim (s : string) : string := rtrim (ltrim s).

Fixpoint all_chars (p : ascii -> bool) (s : string) : bool :=
  match s with EmptyString => true | String c s' => p c && all_chars p s' end.

(** [is_numeric_string] and [is_numeric_string_policy]: [strtol(s, &p, 10)] consumes
    the whole string, which does not start with a blank. *)
Definition is_sign (c : ascii) : bool := bool_decide (c = "+"%char) || bool_decide (c = "-"%char).

Definition is_numeric_string (s : string) : bool :=
  match s with
  | EmptyString => false
  | String c s' =>
      if isspace c then false
      else
        let digits := if is_sign c then s' else s in
        negb (bool_decide (digits = EmptyString)) && all_chars isdigit digits
  end.

(** [%d] of [sscanf]: blanks, a sign, at least one digit; the value is the [strtol]
    result, saturated to [long] and truncated to [int]. *)
Fixpoint skip_blanks (s : string) : string :=
  match s with
  | String c s' => if isspace c then skip_blanks s' else s
  | EmptyString => EmptyString
  end.

Fixpoint scan_digits (acc : Z) (any : bool) (s : string) : option (Z * string) :=
  match s with
  | String c s' =>
      if isdigit c then scan_digits (acc * 10 + Z.of_nat (nat_of_ascii c - 48)) true s'
      else if any then Some (acc, s) else None
  | EmptyString => if any then Some (acc, s) else None
  end.

Definition clamp_long (z : Z) : Z := Z.max (- 2 ^ 63) (Z.min z (2 ^ 63 - 1)).

Definition scan_int (s : string) : option (Z * string) :=
  let s := skip_blanks s in
  let neg := match s with String c _ => bool_decide (c = "-"%char) | EmptyString => false end in
  let s := match s with String c s' => if is_sign c then s' else s | EmptyString => s end in
  match scan_digits 0 false s with
  | None => None
  | Some (n, rest) => Some (s32 (clamp_long (if neg then - n else n)), rest)
  end.

(** [sscanf(s, "%d%c%d%c", ...) == 4]: the four values. *)
Definition scan_shards (s : string) : option (Z * ascii * Z * ascii) :=
  match scan_int s with
  | Some (data_shards, String d s') =>
      match scan_int s' with
      | Some (parity_shards, String p _) => Some (data_shards, d, parity_shards, p)
      | _ => None
      end
  | _ => None
  end.

(* ------------------------------------------------------------------------ *)
(** ** The validators *)

Class ValidationEnv := {
  (** [VCWD_ACCESS(path, R_OK) == 0] *)
  file_readable : string -> bool;
  (** [php_url_parse_ex]: the scheme and the host, [None] when unparseable *)
  php_url_parse_ex : string -> option (option string * option string);
  (** [strtod] consumes the whole (non-empty) string *)
  strtod_all : string -> bool;
  (** declared by the modules that call them, defined nowhere in the sources *)
  qp_validate_non_empty_string : zval -> option string;
  qp_validate_writable_file_path : zval -> option string;
}.

Definition validator := zval -> option cvalue.

(** [qp_validate_bool(value)] followed by [member = zend_is_true(value)]. *)
Definition qp_validate_bool : validator := fun value =>
  match value with
  | ZTrue | ZFalse => Some (CBool (zend_is_true value))
  | _ => None
  end.

Definition qp_validate_positive_long : validator := fun value =>
  match value with
  | ZLong n => if n <=? 0 then None else Some (CLong n)
  | _ => None
  end.

Definition qp_validate_non_negative_long : validator := fun value =>
  match value with
  | ZLong n => if n <? 0 then None else Some (CLong n)
  | _ => None
  end.

Definition qp_validate_long_range (min max : Z) : validator := fun value =>
  match value with
  | ZLong val => if (val <? min) || (val >? max) then None else Some (CLong val)
  | _ => None
  end.

Definition qp_validate_niceness_value : validator := fun value =>
  match value with
  | ZLong n => if (n <? -20) || (n >? 19) then None else Some (CLong n)
  | _ => None
  end.

(** [val < min || val > max] on doubles: both comparisons are false for a NaN. *)
Definition qp_validate_double_range (min max : Z) : validator := fun value =>
  match value with
  | ZDouble val => if double_ltb val min || double_ltb max val then None else Some (CDouble val)
  | _ => None
  end.

Definition qp_validate_string : validator := fun value =>
  match value with ZString s => Some (CString (cstr s)) | _ => None end.

Definition qp_validate_generic_string : validator := fun value =>
  match value with ZString s => Some (CString (cstr s)) | _ => None end.

Definition qp_validate_scheduler_policy : validator := fun value =>
  match value with
  | ZString policy =>
      if negb (strcmp_eq policy "other") && negb (strcmp_eq policy "fifo") && negb (strcmp_eq policy "rr")
      then None else Some (CString (cstr policy))
  | _ => None
  end.

Definition qp_validate_string_from_allowlist (allowed_values : list string) : validator := fun value =>
  match value with
  | ZString input_str =>
      if existsb (strcasecmp_eq input_str) allowed_values then Some (CString (cstr input_str)) else None
  | _ => None
  end.

Definition qp_validate_comma_separated_string_from_allowlist (allowed_values : list string)
  : validator := fun value =>
  match value with
  | ZString input_str =>
      let token_is_valid token :=
        let trimmed_token_str := php_trim token in
        if (0 <? String.length trimmed_token_str)%nat
        then existsb (strcasecmp_eq trimmed_token_str) allowed_values else true in
      if forallb token_is_valid (strtok_r "," input_str) then Some (CString (cstr input_str)) else None
  | _ => None
  end.

Definition qp_validate_colon_separated_string_from_allowlist (allowed : list string)
  : validator := fun value =>
  match value with
  | ZString s =>
      if forallb (fun token => existsb (strcmp_eq token) allowed) (strtok_r ":" s)
      then Some (CString (cstr s)) else None
  | _ => None
  end.

(** [host[i]] over the whole string, embedded NULs included. *)
Definition host_char (c : ascii) : bool :=
  isalnum c || bool_decide (c = "."%char) || bool_decide (c = "-"%char) || bool_decide (c = ":"%char).

Definition qp_validate_host_string : validator := fun value =>
  match value with
  | ZString host =>
      if decide (host = EmptyString) then None
      else if all_chars host_char host then Some (CString (cstr host)) else None
  | _ => None
  end.

Definition qp_validate_erasure_coding_shards_string : validator := fun value =>
  match value with
  | ZString input_str =>
      match scan_shards (cstr input_str) with
      | Some (data_shards, d, parity_shards, p) =>
          if negb (bool_decide (d = "d"%char)) || negb (bool_decide (p = "p"%char))
             || (data_shards <=? 0) || (parity_shards <=? 0)
          then None else Some (CString (cstr input_str))
      | None => None
      end
  | _ => None
  end.

Definition qp_validate_scale_up_policy_string : validator := fun value =>
  match value with
  | ZString input_str =>
      match strtok_r ":" input_str with
      | action_part :: value_part :: _ =>
          if (strcmp_eq action_part "add_nodes" || strcmp_eq action_part "add_percent")
             && is_numeric_string value_part
          then Some (CString (cstr input_str)) else None
      | _ => None
      end
  | _ => None
  end.

(** One [worker:core] or [worker:first-last] entry. *)
Definition affinity_entry (entry_token : string) : bool :=
  match strtok_r ":" entry_token with
  | worker_part :: core_part :: _ =>
      if negb (is_numeric_string worker_part) then false
      else match strtok_r "-" core_part with
           | [] => false
           | core_start :: rest =>
               if negb (is_numeric_string core_start) then false
               else match rest with
                    | [] => true
                    | core_end :: _ => is_numeric_string core_end
                    end
           end
  | _ => false
  end.

Definition qp_validate_cpu_affinity_map_string : validator := fun value =>
  match value with
  | ZString input_str =>
      if decide (cstr input_str = EmptyString) then Some (CString (cstr input_str))
      else if forallb affinity_entry (strtok_r "," input_str)
      then Some (CString (cstr input_str)) else None
  | _ => None
  end.

Section Env.
Context `{ValidationEnv}.

Definition qp_validate_comma_separated_numeric_string : validator := fun value =>
  match value with
  | ZString input_str =>
      let is_valid token :=
        let t := php_trim token in
        negb ((0 <? String.length t)%nat && negb (strtod_all t)) in
      if forallb is_valid (strtok_r "," input_str) then Some (CString (cstr input_str)) else None
  | _ => None
  end.

Definition qp_validate_readable_file_path : validator := fun value =>
  match value with
  | ZString path =>
      if decide (cstr path = EmptyString) then Some (CString (cstr path))
      else if file_readable (cstr path) then Some (CString (cstr path)) else None
  | _ => None
  end.

(** One origin of the list; an entry of blanks is skipped. *)
Definition origin_token (token : string) : bool :=
  let t := php_trim token in
  if decide (t = EmptyString) then true
  else match php_url_parse_ex t with
       | Some (Some scheme, Some _) => strcasecmp_eq scheme "http" || strcasecmp_eq scheme "https"
       | _ => false
       end.

Definition qp_validate_cors_origin_string : validator := fun value =>
  match value with
  | ZString input_str =>
      if strcmp_eq input_str "*" || forallb origin_token (strtok_r "," input_str)
      then Some (CString (cstr input_str)) else None
  | _ => None
  end.
End Env.
