(* ===== verification/Config.v ===== *)
(** * Applying a PHP array to a configuration module

    The common shape of the [qp_config_*_apply_userland_config] functions of
    [extension/src/config/*/config.c]: the policy gate
    [quicpro_globals.is_userland_override_allowed], the array test, and the loop over
    the string keys, which stores each validated value at once and returns at the first
    rejected one.  A module's struct is a map from member names to values; the table of
    a module ([ConfigModules]) says which key writes which member through which
    validator. *)

From Stdlib Require Import ZArith Lia String Ascii.
From stdpp Require Import base tactics list gmap strings.
From S2P Require Import Prelude Ieee Zend Validation.

Local Open Scope Z_scope.

Abbreviation config := (gmap string cvalue).

(** The validator of a key, by the name of the C function it calls; the last two are
    written out in the [config.c] files ([Z_TYPE_P(value) == IS_STRING] then [estrdup]). *)
Inductive check :=
| CkBool
| CkPositiveLong
| CkNonNegativeLong
| CkLongRange (min max : Z)
| CkNicenessValue
| CkDoubleRange (min max : Z)
| CkString
| CkGenericString
| CkSchedulerPolicy
| CkAllowlist (allowed : list string)
| CkCommaAllowlist (allowed : list string)
| CkHostString
| CkReadableFilePath
| CkErasureCodingShardsString
| CkScaleUpPolicyString
| CkCpuAffinityMapString
| CkCorsOriginString
| CkNonEmptyString
| CkWritableFilePath
| CkInlineString
| CkInlineNonEmptyString.
#[export] Instance check_eq_dec : EqDecision check.
Proof. solve_decision. Defined.

Section Checks.
Context `{ValidationEnv}.

Definition run_check (c : check) : validator :=
  match c with
  | CkBool => qp_validate_bool
  | CkPositiveLong => qp_validate_positive_long
  | CkNonNegativeLong => qp_validate_non_negative_long
  | CkLongRange min max => qp_validate_long_range min max
  | CkNicenessValue => qp_validate_niceness_value
  | CkDoubleRange min max => qp_validate_double_range min max
  | CkString => qp_validate_string
  | CkGenericString => qp_validate_generic_string
  | CkSchedulerPolicy => qp_validate_scheduler_policy
  | CkAllowlist allowed => qp_validate_string_from_allowlist allowed
  | CkCommaAllowlist allowed => qp_validate_comma_separated_string_from_allowlist allowed
  | CkHostString => qp_validate_host_string
  | CkReadableFilePath => qp_validate_readable_file_path
  | CkErasureCodingShardsString => qp_validate_erasure_coding_shards_string
  | CkScaleUpPolicyString => qp_validate_scale_up_policy_string
  | CkCpuAffinityMapString => qp_validate_cpu_affinity_map_string
  | CkCorsOriginString => qp_validate_cors_origin_string
  | CkNonEmptyString => fun value => CString <$> qp_validate_non_empty_string value
  | CkWritableFilePath => fun value => CString <$> qp_validate_writable_file_path value
  | CkInlineString => fun value =>
      match value with ZString s => Some (CString (cstr s)) | _ => None end
  | CkInlineNonEmptyString => fun value =>
      match value with
      | ZString s => if (String.length s =? 0)%nat then None else Some (CString (cstr s))
      | _ => None
      end
  end.
End Checks.

(** A key of the user's array, the member it sets and its validator. *)
Record param := Param { p_key : string; p_member : string; p_check : check }.
#[export] Instance param_eq_dec : EqDecision param.
Proof. solve_decision. Defined.

Inductive config_error :=
| EOverrideDisabled
| ENotArray
| EInvalidValue (key : string).
#[export] Instance config_error_eq_dec : EqDecision config_error.
Proof. solve_decision. Defined.

Definition find_param (params : list param) (key : string) : option param :=
  List.find (fun p => bool_decide (key = p_key p)) params.

Section Apply.
Context `{ValidationEnv}.

(** The loop: the members written so far stay written when a later value fails. *)
Fixpoint apply_entries (params : list param) (ht : hashtable) (cfg : config)
  : config * option config_error :=
  match ht with
  | [] => (cfg, None)
  | (KInt _, _) :: ht' => apply_entries params ht' cfg
  | (KStr key, value) :: ht' =>
      match find_param params key with
      | None => apply_entries params ht' cfg
      | Some p =>
          match run_check (p_check p) value with
          | None => (cfg, Some (EInvalidValue key))
          | Some v => apply_entries params ht' (<[p_member p := v]> cfg)
          end
      end
  end.

(** [None] is [return SUCCESS]. *)
Definition apply_userland_config (params : list param) (is_userland_override_allowed : bool)
    (config_arr : zval) (cfg : config) : config * option config_error :=
  if negb is_userland_override_allowed then (cfg, Some EOverrideDisabled)
  else match config_arr with
       | ZArray ht => apply_entries params ht cfg
       | _ => (cfg, Some ENotArray)
       end.
End Apply.
