(* ===== verification/ConfigModules.v ===== *)
(** * The twenty-two configuration modules

    One table per [extension/src/config/<module>/config.c]: the chain of
    [zend_string_equals_literal] tests in source order, each with the struct member it
    writes and the validator it calls; and the compiled-in values of
    [extension/src/config/<module>/default.c]. *)

From Stdlib Require Import ZArith String.
From stdpp Require Import base list gmap strings.
From S2P Require Import Prelude Zend Validation Config.

Local Open Scope Z_scope.
Local Open Scope string_scope.

Module AppHttp3WebsocketsWebtransport.
Definition app_http3_websockets_webtransport_params : list param := [
  Param "http_advertise_h3_alt_svc" "http_advertise_h3_alt_svc" CkBool;
  Param "http_auto_compress" "http_auto_compress" (CkCommaAllowlist ["brotli"; "gzip"; "none"]);
  Param "h3_max_header_list_size" "h3_max_header_list_size" CkPositiveLong;
  Param "h3_qpack_max_table_capacity" "h3_qpack_max_table_capacity" CkPositiveLong;
  Param "h3_qpack_blocked_streams" "h3_qpack_blocked_streams" CkPositiveLong;
  Param "h3_server_push_enable" "h3_server_push_enable" CkBool;
  Param "http_enable_early_hints" "http_enable_early_hints" CkBool;
  Param "websocket_default_max_payload_size" "websocket_default_max_payload_size" CkPositiveLong;
  Param "websocket_default_ping_interval_ms" "websocket_default_ping_interval_ms" CkPositiveLong;
  Param "websocket_handshake_timeout_ms" "websocket_handshake_timeout_ms" CkPositiveLong;
  Param "webtransport_enable" "webtransport_enable" CkBool;
  Param "webtransport_max_concurrent_sessions" "webtransport_max_concurrent_sessions" CkPositiveLong;
  Param "webtransport_max_streams_per_session" "webtransport_max_streams_per_session" CkPositiveLong].

Definition qp_config_app_http3_websockets_webtransport_apply_userland_config `{ValidationEnv} :=
  apply_userland_config app_http3_websockets_webtransport_params.

Definition qp_config_app_http3_websockets_webtransport_defaults_load : config := list_to_map [
  ("http_advertise_h3_alt_svc", CBool true);
  ("http_auto_compress", CString "brotli,gzip");
  ("h3_max_header_list_size", CLong 65536);
  ("h3_qpack_max_table_capacity", CLong 4096);
  ("h3_qpack_blocked_streams", CLong 100);
  ("h3_server_push_enable", CBool false);
  ("http_enable_early_hints", CBool true);
  ("websocket_default_max_payload_size", CLong 16777216);
  ("websocket_default_ping_interval_ms", CLong 25000);
  ("websocket_handshake_timeout_ms", CLong 5000);
  ("webtransport_enable", CBool true);
  ("webtransport_max_concurrent_sessions", CLong 10000);
  ("webtransport_max_streams_per_session", CLong 256)].
End AppHttp3WebsocketsWebtransport.

Module BareMetalTuning.
Definition bare_metal_tuning_params : list param := [
  Param "io_engine_use_uring" "io_engine_use_uring" CkBool;
  Param "io_uring_sq_poll_ms" "io_uring_sq_poll_ms" CkNonNegativeLong;
  Param "io_max_batch_read_packets" "io_max_batch_read_packets" CkPositiveLong;
  Param "io_max_batch_write_packets" "io_max_batch_write_packets" CkPositiveLong;
  Param "socket_receive_buffer_size" "socket_receive_buffer_size" CkPositiveLong;
  Param "socket_send_buffer_size" "socket_send_buffer_size" CkPositiveLong;
  Param "socket_enable_busy_poll_us" "socket_enable_busy_poll_us" CkNonNegativeLong;
  Param "socket_enable_timestamping" "socket_enable_timestamping" CkBool;
  Param "io_thread_cpu_affinity" "io_thread_cpu_affinity" CkGenericString;
  Param "io_thread_numa_node_policy" "io_thread_numa_node_policy" (CkAllowlist ["default"; "prefer"; "bind"; "interleave"])].

Definition qp_config_bare_metal_tuning_apply_userland_config `{ValidationEnv} :=
  apply_userland_config bare_metal_tuning_params.

Definition qp_config_bare_metal_tuning_defaults_load : config := list_to_map [
  ("io_engine_use_uring", CBool true);
  ("io_uring_sq_poll_ms", CLong 0);
  ("io_max_batch_read_packets", CLong 64);
  ("io_max_batch_write_packets", CLong 64);
  ("socket_receive_buffer_size", CLong 2097152);
  ("socket_send_buffer_size", CLong 2097152);
  ("socket_enable_busy_poll_us", CLong 0);
  ("socket_enable_timestamping", CBool true);
  ("io_thread_cpu_affinity", CString "");
  ("io_thread_numa_node_policy", CString "default")].
End BareMetalTuning.

Module CloudAutoscale.
Definition cloud_autoscale_params : list param := [
  Param "provider" "provider" (CkAllowlist ["aws"; "azure"; "hetzner"; "google_cloud"; "digitalocean"; ""]);
  Param "region" "region" CkGenericString;
  Param "credentials_path" "credentials_path" CkGenericString;
  Param "min_nodes" "min_nodes" CkPositiveLong;
  Param "max_nodes" "max_nodes" CkPositiveLong;
  Param "scale_up_cpu_threshold_percent" "scale_up_cpu_threshold_percent" (CkLongRange 0 100);
  Param "scale_down_cpu_threshold_percent" "scale_down_cpu_threshold_percent" (CkLongRange 0 100);
  Param "scale_up_policy" "scale_up_policy" CkScaleUpPolicyString;
  Param "cooldown_period_sec" "cooldown_period_sec" CkPositiveLong;
  Param "idle_node_timeout_sec" "idle_node_timeout_sec" CkPositiveLong;
  Param "instance_type" "instance_type" CkGenericString;
  Param "instance_image_id" "instance_image_id" CkGenericString;
  Param "network_config" "network_config" CkGenericString;
  Param "instance_tags" "instance_tags" CkGenericString].

Definition qp_config_cloud_autoscale_apply_userland_config `{ValidationEnv} :=
  apply_userland_config cloud_autoscale_params.

Definition qp_config_cloud_autoscale_defaults_load : config := list_to_map [
  ("provider", CString "");
  ("region", CString "");
  ("credentials_path", CString "");
  ("min_nodes", CLong 1);
  ("max_nodes", CLong 1);
  ("scale_up_cpu_threshold_percent", CLong 80);
  ("scale_down_cpu_threshold_percent", CLong 20);
  ("scale_up_policy", CString "add_nodes:1");
  ("cooldown_period_sec", CLong 300);
  ("idle_node_timeout_sec", CLong 600);
  ("instance_type", CString "");
  ("instance_image_id", CString "");
  ("network_config", CString "");
  ("instance_tags", CString "")].
End CloudAutoscale.

Module ClusterAndProcess.
Definition cluster_and_process_params : list param := [
  Param "cluster_workers" "cluster_workers" CkNonNegativeLong;
  Param "cluster_graceful_shutdown_ms" "cluster_graceful_shutdown_ms" CkPositiveLong;
  Param "server_max_fd_per_worker" "server_max_fd_per_worker" CkPositiveLong;
  Param "cluster_restart_crashed_workers" "cluster_restart_crashed_workers" CkBool;
  Param "cluster_max_restarts_per_worker" "cluster_max_restarts_per_worker" CkPositiveLong;
  Param "cluster_restart_interval_sec" "cluster_restart_interval_sec" CkPositiveLong;
  Param "cluster_worker_niceness" "cluster_worker_niceness" CkNicenessValue;
  Param "cluster_worker_scheduler_policy" "cluster_worker_scheduler_policy" CkSchedulerPolicy;
  Param "cluster_worker_cpu_affinity_map" "cluster_worker_cpu_affinity_map" CkGenericString;
  Param "cluster_worker_cgroup_path" "cluster_worker_cgroup_path" CkGenericString;
  Param "cluster_worker_user_id" "cluster_worker_user_id" CkGenericString;
  Param "cluster_worker_group_id" "cluster_worker_group_id" CkGenericString].

Definition qp_config_cluster_and_process_apply_user_land_config `{ValidationEnv} :=
  apply_userland_config cluster_and_process_params.

Definition qp_config_cluster_and_process_defaults_load : config := list_to_map [
  ("cluster_workers", CLong 0);
  ("cluster_graceful_shutdown_ms", CLong 30000);
  ("server_max_fd_per_worker", CLong 8192);
  ("cluster_restart_crashed_workers", CBool true);
  ("cluster_max_restarts_per_worker", CLong 10);
  ("cluster_restart_interval_sec", CLong 60);
  ("cluster_worker_niceness", CLong 0);
  ("cluster_worker_scheduler_policy", CString "other");
  ("cluster_worker_cpu_affinity_map", CString "");
  ("cluster_worker_cgroup_path", CString "");
  ("cluster_worker_user_id", CString "");
  ("cluster_worker_group_id", CString "")].
End ClusterAndProcess.

Module DynamicAdminApi.
Definition dynamic_admin_api_params : list param := [
  Param "bind_host" "bind_host" CkHostString;
  Param "port" "port" (CkLongRange 1024 65535);
  Param "auth_mode" "auth_mode" (CkAllowlist ["mtls"]);
  Param "ca_file" "ca_file" CkReadableFilePath;
  Param "cert_file" "cert_file" CkReadableFilePath;
  Param "key_file" "key_file" CkReadableFilePath].

Definition qp_config_dynamic_admin_api_apply_userland_config `{ValidationEnv} :=
  apply_userland_config dynamic_admin_api_params.

Definition qp_config_dynamic_admin_api_defaults_load : config := list_to_map [
  ("bind_host", CString "127.0.0.1");
  ("port", CLong 2019);
  ("auth_mode", CString "mtls");
  ("ca_file", CString "");
  ("cert_file", CString "");
  ("key_file", CString "")].
End DynamicAdminApi.

Module HighPerfComputeAndAi.
Definition high_perf_compute_and_ai_params : list param := [
  Param "dataframe_enable" "dataframe_enable" CkBool;
  Param "dataframe_memory_limit_mb" "dataframe_memory_limit_mb" CkPositiveLong;
  Param "dataframe_string_interning_enable" "dataframe_string_interning_enable" CkBool;
  Param "dataframe_cpu_parallelism_default" "dataframe_cpu_parallelism_default" CkNonNegativeLong;
  Param "gpu_bindings_enable" "gpu_bindings_enable" CkBool;
  Param "gpu_default_backend" "gpu_default_backend" (CkAllowlist ["auto"; "cuda"; "rocm"; "sycl"]);
  Param "worker_gpu_affinity_map" "worker_gpu_affinity_map" CkCpuAffinityMapString;
  Param "gpu_memory_preallocation_mb" "gpu_memory_preallocation_mb" CkPositiveLong;
  Param "gpu_p2p_enable" "gpu_p2p_enable" CkBool;
  Param "storage_enable_directstorage" "storage_enable_directstorage" CkBool;
  Param "cuda_enable_tensor_cores" "cuda_enable_tensor_cores" CkBool;
  Param "cuda_stream_pool_size" "cuda_stream_pool_size" CkPositiveLong;
  Param "rocm_enable_gfx_optimizations" "rocm_enable_gfx_optimizations" CkBool;
  Param "arc_enable_xmx_optimizations" "arc_enable_xmx_optimizations" CkBool;
  Param "arc_video_acceleration_enable" "arc_video_acceleration_enable" CkBool].

Definition qp_config_high_perf_compute_and_ai_apply_userland_config `{ValidationEnv} :=
  apply_userland_config high_perf_compute_and_ai_params.

Definition qp_config_high_perf_compute_and_ai_defaults_load : config := list_to_map [
  ("dataframe_enable", CBool true);
  ("dataframe_memory_limit_mb", CLong 1024);
  ("dataframe_string_interning_enable", CBool true);
  ("dataframe_cpu_parallelism_default", CLong 0);
  ("gpu_bindings_enable", CBool false);
  ("gpu_default_backend", CString "auto");
  ("worker_gpu_affinity_map", CString "");
  ("gpu_memory_preallocation_mb", CLong 2048);
  ("gpu_p2p_enable", CBool true);
  ("storage_enable_directstorage", CBool false);
  ("cuda_enable_tensor_cores", CBool true);
  ("cuda_stream_pool_size", CLong 4);
  ("rocm_enable_gfx_optimizations", CBool true);
  ("arc_enable_xmx_optimizations", CBool true);
  ("arc_video_acceleration_enable", CBool true)].
End HighPerfComputeAndAi.

Module Http2.
Definition http2_params : list param := [
  Param "enable" "enable" CkBool;
  Param "initial_window_size" "initial_window_size" CkPositiveLong;
  Param "max_concurrent_streams" "max_concurrent_streams" CkPositiveLong;
  Param "max_header_list_size" "max_header_list_size" CkNonNegativeLong;
  Param "enable_push" "enable_push" CkBool;
  Param "max_frame_size" "max_frame_size" (CkLongRange 16384 16777215)].

Definition qp_config_http2_apply_userland_config `{ValidationEnv} :=
  apply_userland_config http2_params.

Definition qp_config_http2_defaults_load : config := list_to_map [
  ("enable", CBool true);
  ("initial_window_size", CLong 65535);
  ("max_concurrent_streams", CLong 100);
  ("max_header_list_size", CLong 0);
  ("enable_push", CBool true);
  ("max_frame_size", CLong 16384)].
End Http2.

Module Iibin.
Definition iibin_params : list param := [
  Param "max_schema_fields" "max_schema_fields" CkPositiveLong;
  Param "max_recursion_depth" "max_recursion_depth" CkPositiveLong;
  Param "string_interning_enable" "string_interning_enable" CkBool;
  Param "use_shared_memory_buffers" "use_shared_memory_buffers" CkBool;
  Param "default_buffer_size_kb" "default_buffer_size_kb" CkPositiveLong;
  Param "shm_total_memory_mb" "shm_total_memory_mb" CkPositiveLong;
  Param "shm_path" "shm_path" CkGenericString].

Definition qp_config_iibin_apply_userland_config `{ValidationEnv} :=
  apply_userland_config iibin_params.

Definition qp_config_iibin_defaults_load : config := list_to_map [
  ("max_schema_fields", CLong 256);
  ("max_recursion_depth", CLong 32);
  ("string_interning_enable", CBool true);
  ("use_shared_memory_buffers", CBool false);
  ("default_buffer_size_kb", CLong 64);
  ("shm_total_memory_mb", CLong 256);
  ("shm_path", CString "/quicpro_io_shm")].
End Iibin.

Module McpAndOrchestrator.
Definition mcp_and_orchestrator_params : list param := [
  Param "mcp_default_request_timeout_ms" "mcp_default_request_timeout_ms" CkPositiveLong;
  Param "mcp_max_message_size_bytes" "mcp_max_message_size_bytes" CkPositiveLong;
  Param "mcp_default_retry_policy_enable" "mcp_default_retry_policy_enable" CkBool;
  Param "mcp_default_retry_max_attempts" "mcp_default_retry_max_attempts" CkPositiveLong;
  Param "mcp_default_retry_backoff_ms_initial" "mcp_default_retry_backoff_ms_initial" CkPositiveLong;
  Param "mcp_enable_request_caching" "mcp_enable_request_caching" CkBool;
  Param "mcp_request_cache_ttl_sec" "mcp_request_cache_ttl_sec" CkPositiveLong;
  Param "orchestrator_default_pipeline_timeout_ms" "orchestrator_default_pipeline_timeout_ms" CkPositiveLong;
  Param "orchestrator_max_recursion_depth" "orchestrator_max_recursion_depth" CkPositiveLong;
  Param "orchestrator_loop_concurrency_default" "orchestrator_loop_concurrency_default" CkPositiveLong;
  Param "orchestrator_enable_distributed_tracing" "orchestrator_enable_distributed_tracing" CkBool].

Definition qp_config_mcp_and_orchestrator_apply_userland_config `{ValidationEnv} :=
  apply_userland_config mcp_and_orchestrator_params.

Definition qp_config_mcp_and_orchestrator_defaults_load : config := list_to_map [
  ("mcp_default_request_timeout_ms", CLong 30000);
  ("mcp_max_message_size_bytes", CLong 4194304);
  ("mcp_default_retry_policy_enable", CBool true);
  ("mcp_default_retry_max_attempts", CLong 3);
  ("mcp_default_retry_backoff_ms_initial", CLong 100);
  ("mcp_enable_request_caching", CBool false);
  ("mcp_request_cache_ttl_sec", CLong 60);
  ("orchestrator_default_pipeline_timeout_ms", CLong 120000);
  ("orchestrator_max_recursion_depth", CLong 10);
  ("orchestrator_loop_concurrency_default", CLong 50);
  ("orchestrator_enable_distributed_tracing", CBool true)].
End McpAndOrchestrator.

Module NativeCdn.
Definition native_cdn_params : list param := [
  Param "enable" "enable" CkBool;
  Param "cache_mode" "cache_mode" (CkAllowlist ["memory"; "disk"; "hybrid"]);
  Param "cache_memory_limit_mb" "cache_memory_limit_mb" CkPositiveLong;
  Param "cache_disk_path" "cache_disk_path" CkWritableFilePath;
  Param "cache_default_ttl_sec" "cache_default_ttl_sec" CkPositiveLong;
  Param "cache_max_object_size_mb" "cache_max_object_size_mb" CkPositiveLong;
  Param "cache_respect_origin_headers" "cache_respect_origin_headers" CkBool;
  Param "cache_vary_on_headers" "cache_vary_on_headers" CkGenericString;
  Param "origin_mcp_endpoint" "origin_mcp_endpoint" CkGenericString;
  Param "origin_http_endpoint" "origin_http_endpoint" CkGenericString;
  Param "origin_request_timeout_ms" "origin_request_timeout_ms" CkPositiveLong;
  Param "serve_stale_on_error" "serve_stale_on_error" CkBool;
  Param "response_headers_to_add" "response_headers_to_add" CkGenericString;
  Param "allowed_http_methods" "allowed_http_methods" (CkCommaAllowlist ["GET"; "HEAD"; "POST"; "PUT"; "DELETE"; "OPTIONS"; "PATCH"])].

Definition qp_config_native_cdn_apply_userland_config `{ValidationEnv} :=
  apply_userland_config native_cdn_params.

Definition qp_config_native_cdn_defaults_load : config := list_to_map [
  ("enable", CBool false);
  ("cache_mode", CString "disk");
  ("cache_memory_limit_mb", CLong 512);
  ("cache_disk_path", CString "/var/cache/quicpro_cdn");
  ("cache_default_ttl_sec", CLong 86400);
  ("cache_max_object_size_mb", CLong 1024);
  ("cache_respect_origin_headers", CBool true);
  ("cache_vary_on_headers", CString "Accept-Encoding");
  ("origin_mcp_endpoint", CString "");
  ("origin_http_endpoint", CString "");
  ("origin_request_timeout_ms", CLong 15000);
  ("serve_stale_on_error", CBool true);
  ("response_headers_to_add", CString "X-Cache-Status: HIT");
  ("allowed_http_methods", CString "GET,HEAD")].
End NativeCdn.

Module NativeObjectStore.
Definition native_object_store_params : list param := [
  Param "enable" "enable" CkBool;
  Param "s3_api_compat_enable" "s3_api_compat_enable" CkBool;
  Param "versioning_enable" "versioning_enable" CkBool;
  Param "allow_anonymous_access" "allow_anonymous_access" CkBool;
  Param "default_redundancy_mode" "default_redundancy_mode" (CkAllowlist ["erasure_coding"; "replication"]);
  Param "erasure_coding_shards" "erasure_coding_shards" CkErasureCodingShardsString;
  Param "default_replication_factor" "default_replication_factor" CkPositiveLong;
  Param "default_chunk_size_mb" "default_chunk_size_mb" CkPositiveLong;
  Param "metadata_agent_uri" "metadata_agent_uri" CkGenericString;
  Param "node_discovery_mode" "node_discovery_mode" (CkAllowlist ["static"; "mcp_heartbeat"]);
  Param "node_static_list" "node_static_list" CkGenericString;
  Param "metadata_cache_enable" "metadata_cache_enable" CkBool;
  Param "metadata_cache_ttl_sec" "metadata_cache_ttl_sec" CkPositiveLong;
  Param "enable_directstorage" "enable_directstorage" CkBool].

Definition qp_config_native_object_store_apply_userland_config `{ValidationEnv} :=
  apply_userland_config native_object_store_params.

Definition qp_config_native_object_store_defaults_load : config := list_to_map [
  ("enable", CBool false);
  ("s3_api_compat_enable", CBool false);
  ("versioning_enable", CBool true);
  ("allow_anonymous_access", CBool false);
  ("default_redundancy_mode", CString "erasure_coding");
  ("erasure_coding_shards", CString "8d4p");
  ("default_replication_factor", CLong 3);
  ("default_chunk_size_mb", CLong 64);
  ("metadata_agent_uri", CString "127.0.0.1:9701");
  ("node_discovery_mode", CString "static");
  ("node_static_list", CString "127.0.0.1:9711,127.0.0.1:9712");
  ("metadata_cache_enable", CBool true);
  ("metadata_cache_ttl_sec", CLong 60);
  ("enable_directstorage", CBool false)].
End NativeObjectStore.

Module OpenTelemetry.
Definition open_telemetry_params : list param := [
  Param "enable" "enable" CkBool;
  Param "service_name" "service_name" CkGenericString;
  Param "exporter_endpoint" "exporter_endpoint" CkGenericString;
  Param "exporter_protocol" "exporter_protocol" (CkAllowlist ["grpc"; "http/protobuf"]);
  Param "exporter_timeout_ms" "exporter_timeout_ms" CkPositiveLong;
  Param "exporter_headers" "exporter_headers" CkGenericString;
  Param "batch_processor_max_queue_size" "batch_processor_max_queue_size" CkPositiveLong;
  Param "batch_processor_schedule_delay_ms" "batch_processor_schedule_delay_ms" CkPositiveLong;
  Param "traces_sampler_type" "traces_sampler_type" (CkAllowlist ["parent_based_probability"; "always_on"; "always_off"]);
  Param "traces_sampler_ratio" "traces_sampler_ratio" (CkDoubleRange 0x0 0x3ff0000000000000);
  Param "traces_max_attributes_per_span" "traces_max_attributes_per_span" CkPositiveLong;
  Param "metrics_enable" "metrics_enable" CkBool;
  Param "metrics_export_interval_ms" "metrics_export_interval_ms" CkPositiveLong;
  Param "metrics_default_histogram_boundaries" "metrics_default_histogram_boundaries" CkGenericString;
  Param "logs_enable" "logs_enable" CkBool;
  Param "logs_exporter_batch_size" "logs_exporter_batch_size" CkPositiveLong].

Definition qp_config_open_telemetry_apply_userland_config `{ValidationEnv} :=
  apply_userland_config open_telemetry_params.

Definition qp_config_open_telemetry_defaults_load : config := list_to_map [
  ("enable", CBool true);
  ("service_name", CString "quicpro_application");
  ("exporter_endpoint", CString "http://localhost:4317");
  ("exporter_protocol", CString "grpc");
  ("exporter_timeout_ms", CLong 10000);
  ("exporter_headers", CString "");
  ("batch_processor_max_queue_size", CLong 2048);
  ("batch_processor_schedule_delay_ms", CLong 5000);
  ("traces_sampler_type", CString "parent_based_probability");
  ("traces_sampler_ratio", CDouble 0x3ff0000000000000);
  ("traces_max_attributes_per_span", CLong 128);
  ("metrics_enable", CBool true);
  ("metrics_export_interval_ms", CLong 60000);
  ("metrics_default_histogram_boundaries", CString "0,5,10,25,50,75,100,250,500,1000");
  ("logs_enable", CBool false);
  ("logs_exporter_batch_size", CLong 512)].
End OpenTelemetry.

Module QuicTransport.
Definition quic_transport_params : list param := [
  Param "cc_algorithm" "cc_algorithm" (CkAllowlist ["cubic"; "bbr"]);
  Param "cc_initial_cwnd_packets" "cc_initial_cwnd_packets" CkPositiveLong;
  Param "cc_min_cwnd_packets" "cc_min_cwnd_packets" CkPositiveLong;
  Param "cc_enable_hystart_plus_plus" "cc_enable_hystart_plus_plus" CkBool;
  Param "pacing_enable" "pacing_enable" CkBool;
  Param "pacing_max_burst_packets" "pacing_max_burst_packets" CkPositiveLong;
  Param "max_ack_delay_ms" "max_ack_delay_ms" CkNonNegativeLong;
  Param "ack_delay_exponent" "ack_delay_exponent" CkNonNegativeLong;
  Param "pto_timeout_ms_initial" "pto_timeout_ms_initial" CkPositiveLong;
  Param "pto_timeout_ms_max" "pto_timeout_ms_max" CkPositiveLong;
  Param "max_pto_probes" "max_pto_probes" CkPositiveLong;
  Param "ping_interval_ms" "ping_interval_ms" CkNonNegativeLong;
  Param "initial_max_data" "initial_max_data" CkPositiveLong;
  Param "initial_max_stream_data_bidi_local" "initial_max_stream_data_bidi_local" CkPositiveLong;
  Param "initial_max_stream_data_bidi_remote" "initial_max_stream_data_bidi_remote" CkPositiveLong;
  Param "initial_max_stream_data_uni" "initial_max_stream_data_uni" CkPositiveLong;
  Param "initial_max_streams_bidi" "initial_max_streams_bidi" CkPositiveLong;
  Param "initial_max_streams_uni" "initial_max_streams_uni" CkPositiveLong;
  Param "active_connection_id_limit" "active_connection_id_limit" CkPositiveLong;
  Param "stateless_retry_enable" "stateless_retry_enable" CkBool;
  Param "grease_enable" "grease_enable" CkBool;
  Param "datagrams_enable" "datagrams_enable" CkBool;
  Param "dgram_recv_queue_len" "dgram_recv_queue_len" CkPositiveLong;
  Param "dgram_send_queue_len" "dgram_send_queue_len" CkPositiveLong].

Definition qp_config_quic_transport_apply_userland_config `{ValidationEnv} :=
  apply_userland_config quic_transport_params.

Definition qp_config_quic_transport_defaults_load : config := list_to_map [
  ("cc_algorithm", CString "cubic");
  ("cc_initial_cwnd_packets", CLong 32);
  ("cc_min_cwnd_packets", CLong 4);
  ("cc_enable_hystart_plus_plus", CBool true);
  ("pacing_enable", CBool true);
  ("pacing_max_burst_packets", CLong 10);
  ("max_ack_delay_ms", CLong 25);
  ("ack_delay_exponent", CLong 3);
  ("pto_timeout_ms_initial", CLong 1000);
  ("pto_timeout_ms_max", CLong 60000);
  ("max_pto_probes", CLong 5);
  ("ping_interval_ms", CLong 15000);
  ("initial_max_data", CLong 10485760);
  ("initial_max_stream_data_bidi_local", CLong 1048576);
  ("initial_max_stream_data_bidi_remote", CLong 1048576);
  ("initial_max_stream_data_uni", CLong 1048576);
  ("initial_max_streams_bidi", CLong 100);
  ("initial_max_streams_uni", CLong 100);
  ("active_connection_id_limit", CLong 8);
  ("stateless_retry_enable", CBool false);
  ("grease_enable", CBool true);
  ("datagrams_enable", CBool true);
  ("dgram_recv_queue_len", CLong 1024);
  ("dgram_send_queue_len", CLong 1024)].
End QuicTransport.

Module RouterAndLoadbalancer.
Definition router_and_loadbalancer_params : list param := [
  Param "router_mode_enable" "router_mode_enable" CkBool;
  Param "hashing_algorithm" "hashing_algorithm" (CkAllowlist ["consistent_hash"; "round_robin"]);
  Param "connection_id_entropy_salt" "connection_id_entropy_salt" CkGenericString;
  Param "backend_discovery_mode" "backend_discovery_mode" (CkAllowlist ["static"; "mcp"]);
  Param "backend_static_list" "backend_static_list" CkGenericString;
  Param "backend_mcp_endpoint" "backend_mcp_endpoint" CkGenericString;
  Param "backend_mcp_poll_interval_sec" "backend_mcp_poll_interval_sec" CkPositiveLong;
  Param "max_forwarding_pps" "max_forwarding_pps" CkPositiveLong].

Definition qp_config_router_and_loadbalancer_apply_userland_config `{ValidationEnv} :=
  apply_userland_config router_and_loadbalancer_params.

Definition qp_config_router_and_loadbalancer_defaults_load : config := list_to_map [
  ("router_mode_enable", CBool false);
  ("hashing_algorithm", CString "consistent_hash");
  ("connection_id_entropy_salt", CString "change-this-to-a-long-random-string-in-production");
  ("backend_discovery_mode", CString "static");
  ("backend_static_list", CString "127.0.0.1:8443");
  ("backend_mcp_endpoint", CString "127.0.0.1:9998");
  ("backend_mcp_poll_interval_sec", CLong 10);
  ("max_forwarding_pps", CLong 1000000)].
End RouterAndLoadbalancer.

Module SecurityAndTraffic.
Definition security_and_traffic_params : list param := [
  Param "security_rate_limiter_enable" "rate_limiter_enable" CkBool;
  Param "security_rate_limiter_requests_per_sec" "rate_limiter_requests_per_sec" CkNonNegativeLong;
  Param "security_rate_limiter_burst" "rate_limiter_burst" CkNonNegativeLong;
  Param "security_cors_allowed_origins" "cors_allowed_origins" CkCorsOriginString].

Definition qp_config_security_apply_userland_config `{ValidationEnv} :=
  apply_userland_config security_and_traffic_params.

Definition qp_config_security_defaults_load : config := list_to_map [
  ("allow_config_override", CBool false);
  ("admin_api_enable", CBool false);
  ("rate_limiter_enable", CBool true);
  ("rate_limiter_requests_per_sec", CLong 100);
  ("rate_limiter_burst", CLong 50);
  ("cors_allowed_origins", CString "*")].
End SecurityAndTraffic.

Module SemanticGeometry.
Definition semantic_geometry_params : list param := [
  Param "default_vector_dimensions" "default_vector_dimensions" CkPositiveLong;
  Param "calculation_precision" "calculation_precision" (CkAllowlist ["float32"; "float64"]);
  Param "convex_hull_algorithm" "convex_hull_algorithm" (CkAllowlist ["qhull"; "gift_wrapping"]);
  Param "point_in_polytope_algorithm" "point_in_polytope_algorithm" (CkAllowlist ["ray_casting"; "barycentric"]);
  Param "hausdorff_distance_algorithm" "hausdorff_distance_algorithm" (CkAllowlist ["exact"; "approximated"]);
  Param "spiral_search_step_size" "spiral_search_step_size" (CkDoubleRange 0x0 0x3ff0000000000000);
  Param "core_consolidation_threshold" "core_consolidation_threshold" (CkDoubleRange 0x0 0x3ff0000000000000)].

Definition qp_config_semantic_geometry_apply_userland_config `{ValidationEnv} :=
  apply_userland_config semantic_geometry_params.

Definition qp_config_semantic_geometry_defaults_load : config := list_to_map [
  ("default_vector_dimensions", CLong 768);
  ("calculation_precision", CString "float64");
  ("convex_hull_algorithm", CString "qhull");
  ("point_in_polytope_algorithm", CString "ray_casting");
  ("hausdorff_distance_algorithm", CString "exact");
  ("spiral_search_step_size", CDouble 0x3fb999999999999a);
  ("core_consolidation_threshold", CDouble 0x3fee666666666666)].
End SemanticGeometry.

Module SmartContracts.
Definition smart_contracts_params : list param := [
  Param "smartcontract_enable" "smartcontract_enable" CkBool;
  Param "smartcontract_registry_uri" "registry_uri" CkNonEmptyString;
  Param "smartcontract_dlt_provider" "dlt_provider" (CkAllowlist ["ethereum"; "solana"; "fabric"]);
  Param "smartcontract_dlt_rpc_endpoint" "dlt_rpc_endpoint" CkNonEmptyString;
  Param "smartcontract_chain_id" "chain_id" CkPositiveLong;
  Param "smartcontract_default_gas_limit" "default_gas_limit" CkPositiveLong;
  Param "smartcontract_default_gas_price_gwei" "default_gas_price_gwei" CkPositiveLong;
  Param "smartcontract_default_wallet_path" "default_wallet_path" CkNonEmptyString;
  Param "smartcontract_default_wallet_password_env_var" "default_wallet_password_env_var" CkNonEmptyString;
  Param "smartcontract_use_hardware_wallet" "use_hardware_wallet" CkBool;
  Param "smartcontract_hsm_pkcs11_library_path" "hsm_pkcs11_library_path" CkNonEmptyString;
  Param "smartcontract_abi_directory" "abi_directory" CkNonEmptyString;
  Param "smartcontract_event_listener_enable" "event_listener_enable" CkBool].

Definition qp_config_smart_contracts_apply_userland_config `{ValidationEnv} :=
  apply_userland_config smart_contracts_params.

Definition qp_config_smart_contracts_defaults_load : config := list_to_map [
  ("smartcontract_enable", CBool false);
  ("registry_uri", CString "https://contracts.quicpro.internal");
  ("dlt_provider", CString "ethereum");
  ("dlt_rpc_endpoint", CString "");
  ("chain_id", CLong 1);
  ("default_gas_limit", CLong 300000);
  ("default_gas_price_gwei", CLong 20);
  ("default_wallet_path", CString "");
  ("default_wallet_password_env_var", CString "QUICPRO_WALLET_PASSWORD");
  ("use_hardware_wallet", CBool false);
  ("hsm_pkcs11_library_path", CString "/usr/lib/x86_64-linux-gnu/softhsm/libsofthsm2.so");
  ("abi_directory", CString "/var/www/abis");
  ("event_listener_enable", CBool false)].
End SmartContracts.

Module SmartDns.
Definition smart_dns_params : list param := [
  Param "dns_server_enable" "dns_server_enable" CkBool;
  Param "dns_server_enable_tcp" "dns_server_enable_tcp" CkBool;
  Param "dns_enable_dnssec_validation" "dns_enable_dnssec_validation" CkBool;
  Param "dns_semantic_mode_enable" "dns_semantic_mode_enable" CkBool;
  Param "dns_server_port" "dns_server_port" CkPositiveLong;
  Param "dns_default_record_ttl_sec" "dns_default_record_ttl_sec" CkPositiveLong;
  Param "dns_service_discovery_max_ips_per_response" "dns_service_discovery_max_ips_per_response" CkPositiveLong;
  Param "dns_edns_udp_payload_size" "dns_edns_udp_payload_size" CkPositiveLong;
  Param "dns_mothernode_sync_interval_sec" "dns_mothernode_sync_interval_sec" CkPositiveLong;
  Param "dns_mode" "dns_mode" (CkAllowlist ["authoritative"; "recursive_resolver"; "service_discovery"]);
  Param "dns_server_bind_host" "dns_server_bind_host" CkInlineString;
  Param "dns_static_zone_file_path" "dns_static_zone_file_path" CkInlineString;
  Param "dns_recursive_forwarders" "dns_recursive_forwarders" CkInlineString;
  Param "dns_health_agent_mcp_endpoint" "dns_health_agent_mcp_endpoint" CkInlineString;
  Param "dns_mothernode_uri" "dns_mothernode_uri" CkInlineString].

Definition qp_config_smart_dns_apply_userland_config `{ValidationEnv} :=
  apply_userland_config smart_dns_params.

Definition qp_config_smart_dns_defaults_load : config := list_to_map [
  ("dns_server_enable", CBool false);
  ("dns_server_bind_host", CString "0.0.0.0");
  ("dns_server_port", CLong 53);
  ("dns_server_enable_tcp", CBool true);
  ("dns_default_record_ttl_sec", CLong 60);
  ("dns_mode", CString "service_discovery");
  ("dns_static_zone_file_path", CString "/etc/quicpro/dns/zones.db");
  ("dns_recursive_forwarders", CString "");
  ("dns_health_agent_mcp_endpoint", CString "127.0.0.1:9998");
  ("dns_service_discovery_max_ips_per_response", CLong 8);
  ("dns_enable_dnssec_validation", CBool true);
  ("dns_edns_udp_payload_size", CLong 1232);
  ("dns_semantic_mode_enable", CBool false);
  ("dns_mothernode_uri", CString "");
  ("dns_mothernode_sync_interval_sec", CLong 86400)].
End SmartDns.

Module SshOverQuic.
Definition ssh_over_quic_params : list param := [
  Param "ssh_gateway_enable" "gateway_enable" CkBool;
  Param "ssh_gateway_log_session_activity" "log_session_activity" CkBool;
  Param "ssh_gateway_listen_host" "listen_host" CkInlineString;
  Param "ssh_gateway_default_target_host" "default_target_host" CkInlineString;
  Param "ssh_gateway_mcp_auth_agent_uri" "mcp_auth_agent_uri" CkInlineString;
  Param "ssh_gateway_user_profile_agent_uri" "user_profile_agent_uri" CkInlineString;
  Param "ssh_gateway_listen_port" "listen_port" CkPositiveLong;
  Param "ssh_gateway_default_target_port" "default_target_port" CkPositiveLong;
  Param "ssh_gateway_target_connect_timeout_ms" "target_connect_timeout_ms" CkPositiveLong;
  Param "ssh_gateway_idle_timeout_sec" "idle_timeout_sec" CkPositiveLong;
  Param "ssh_gateway_auth_mode" "auth_mode" (CkAllowlist ["mtls"; "mcp_token"]);
  Param "ssh_gateway_target_mapping_mode" "target_mapping_mode" (CkAllowlist ["static"; "user_profile"])].

Definition qp_config_ssh_over_quic_apply_userland_config `{ValidationEnv} :=
  apply_userland_config ssh_over_quic_params.

Definition qp_config_ssh_over_quic_defaults_load : config := list_to_map [
  ("gateway_enable", CBool false);
  ("listen_host", CString "0.0.0.0");
  ("listen_port", CLong 2222);
  ("default_target_host", CString "127.0.0.1");
  ("default_target_port", CLong 22);
  ("target_connect_timeout_ms", CLong 5000);
  ("gateway_auth_mode", CString "mtls");
  ("mcp_auth_agent_uri", CString "");
  ("target_mapping_mode", CString "static");
  ("user_profile_agent_uri", CString "");
  ("idle_timeout_sec", CLong 1800);
  ("log_session_activity", CBool true)].
End SshOverQuic.

Module StateManagement.
Definition state_management_params : list param := [
  Param "state_manager_default_backend" "default_backend" (CkAllowlist ["memory"; "sqlite"; "redis"; "postgres"]);
  Param "state_manager_default_uri" "default_uri" CkString].

Definition qp_config_state_management_apply_userland_config `{ValidationEnv} :=
  apply_userland_config state_management_params.

Definition qp_config_state_management_defaults_load : config := list_to_map [
  ("default_backend", CString "memory");
  ("default_uri", CString "")].
End StateManagement.

Module TcpTransport.
Definition tcp_transport_params : list param := [
  Param "tcp_enable" "tcp_enable" CkBool;
  Param "tcp_reuse_port_enable" "tcp_reuse_port_enable" CkBool;
  Param "tcp_nodelay_enable" "tcp_nodelay_enable" CkBool;
  Param "tcp_cork_enable" "tcp_cork_enable" CkBool;
  Param "tcp_keepalive_enable" "tcp_keepalive_enable" CkBool;
  Param "tcp_max_connections" "tcp_max_connections" CkPositiveLong;
  Param "tcp_connect_timeout_ms" "tcp_connect_timeout_ms" CkPositiveLong;
  Param "tcp_listen_backlog" "tcp_listen_backlog" CkPositiveLong;
  Param "tcp_keepalive_time_sec" "tcp_keepalive_time_sec" CkPositiveLong;
  Param "tcp_keepalive_interval_sec" "tcp_keepalive_interval_sec" CkPositiveLong;
  Param "tcp_keepalive_probes" "tcp_keepalive_probes" CkPositiveLong;
  Param "tcp_tls_min_version_allowed" "tcp_tls_min_version_allowed" (CkAllowlist ["TLSv1.2"; "TLSv1.3"]);
  Param "tcp_tls_ciphers_tls12" "tcp_tls_ciphers_tls12" CkInlineNonEmptyString].

Definition qp_config_tcp_transport_apply_userland_config `{ValidationEnv} :=
  apply_userland_config tcp_transport_params.

Definition qp_config_tcp_transport_defaults_load : config := list_to_map [
  ("tcp_enable", CBool true);
  ("tcp_max_connections", CLong 10240);
  ("tcp_connect_timeout_ms", CLong 5000);
  ("tcp_listen_backlog", CLong 511);
  ("tcp_reuse_port_enable", CBool true);
  ("tcp_nodelay_enable", CBool false);
  ("tcp_cork_enable", CBool false);
  ("tcp_keepalive_enable", CBool true);
  ("tcp_keepalive_time_sec", CLong 7200);
  ("tcp_keepalive_interval_sec", CLong 75);
  ("tcp_keepalive_probes", CLong 9);
  ("tcp_tls_min_version_allowed", CString "TLSv1.2");
  ("tcp_tls_ciphers_tls12", CString "ECDHE-ECDSA-AES128-GCM-SHA256:ECDHE-RSA-AES128-GCM-SHA256:ECDHE-ECDSA-AES256-GCM-SHA384")].
End TcpTransport.

Module TlsAndCrypto.
Definition tls_and_crypto_params : list param := [
  Param "tls_verify_peer" "tls_verify_peer" CkBool;
  Param "tls_enable_early_data" "tls_enable_early_data" CkBool;
  Param "tls_enable_ocsp_stapling" "tls_enable_ocsp_stapling" CkBool;
  Param "tls_enable_ech" "tls_enable_ech" CkBool;
  Param "tls_require_ct_policy" "tls_require_ct_policy" CkBool;
  Param "tls_disable_sni_validation" "tls_disable_sni_validation" CkBool;
  Param "transport_disable_encryption" "transport_disable_encryption" CkBool;
  Param "tls_verify_depth" "tls_verify_depth" CkPositiveLong;
  Param "tls_session_ticket_lifetime_sec" "tls_session_ticket_lifetime_sec" CkPositiveLong;
  Param "tls_server_0rtt_cache_size" "tls_server_0rtt_cache_size" CkPositiveLong;
  Param "tls_default_ca_file" "tls_default_ca_file" CkString;
  Param "tls_default_cert_file" "tls_default_cert_file" CkString;
  Param "tls_default_key_file" "tls_default_key_file" CkString;
  Param "tls_ticket_key_file" "tls_ticket_key_file" CkString;
  Param "tls_ciphers_tls13" "tls_ciphers_tls13" CkString;
  Param "tls_curves" "tls_curves" CkString].

Definition qp_config_tls_crypto_apply_userland_config `{ValidationEnv} :=
  apply_userland_config tls_and_crypto_params.

Definition qp_config_tls_crypto_defaults_load : config := list_to_map [
  ("tls_verify_peer", CBool true);
  ("tls_verify_depth", CLong 10);
  ("tls_default_ca_file", CString "");
  ("tls_default_cert_file", CString "");
  ("tls_default_key_file", CString "");
  ("tls_ticket_key_file", CString "");
  ("tls_ciphers_tls13", CString "TLS_AES_128_GCM_SHA256:TLS_AES_256_GCM_SHA384:TLS_CHACHA20_POLY1305_SHA256");
  ("tls_curves", CString "P-256:X25519");
  ("tls_session_ticket_lifetime_sec", CLong 7200);
  ("tls_enable_early_data", CBool false);
  ("tls_server_0rtt_cache_size", CLong 100000);
  ("tls_enable_ocsp_stapling", CBool true);
  ("tls_enable_ech", CBool false);
  ("tls_require_ct_policy", CBool false);
  ("tls_disable_sni_validation", CBool false);
  ("transport_disable_encryption", CBool false)].
End TlsAndCrypto.

(** Every module: its table and its defaults. *)
Definition all_modules : list (list param * config) := [
  (AppHttp3WebsocketsWebtransport.app_http3_websockets_webtransport_params, AppHttp3WebsocketsWebtransport.qp_config_app_http3_websockets_webtransport_defaults_load);
  (BareMetalTuning.bare_metal_tuning_params, BareMetalTuning.qp_config_bare_metal_tuning_defaults_load);
  (CloudAutoscale.cloud_autoscale_params, CloudAutoscale.qp_config_cloud_autoscale_defaults_load);
  (ClusterAndProcess.cluster_and_process_params, ClusterAndProcess.qp_config_cluster_and_process_defaults_load);
  (DynamicAdminApi.dynamic_admin_api_params, DynamicAdminApi.qp_config_dynamic_admin_api_defaults_load);
  (HighPerfComputeAndAi.high_perf_compute_and_ai_params, HighPerfComputeAndAi.qp_config_high_perf_compute_and_ai_defaults_load);
  (Http2.http2_params, Http2.qp_config_http2_defaults_load);
  (Iibin.iibin_params, Iibin.qp_config_iibin_defaults_load);
  (McpAndOrchestrator.mcp_and_orchestrator_params, McpAndOrchestrator.qp_config_mcp_and_orchestrator_defaults_load);
  (NativeCdn.native_cdn_params, NativeCdn.qp_config_native_cdn_defaults_load);
  (NativeObjectStore.native_object_store_params, NativeObjectStore.qp_config_native_object_store_defaults_load);
  (OpenTelemetry.open_telemetry_params, OpenTelemetry.qp_config_open_telemetry_defaults_load);
  (QuicTransport.quic_transport_params, QuicTransport.qp_config_quic_transport_defaults_load);
  (RouterAndLoadbalancer.router_and_loadbalancer_params, RouterAndLoadbalancer.qp_config_router_and_loadbalancer_defaults_load);
  (SecurityAndTraffic.security_and_traffic_params, SecurityAndTraffic.qp_config_security_defaults_load);
  (SemanticGeometry.semantic_geometry_params, SemanticGeometry.qp_config_semantic_geometry_defaults_load);
  (SmartContracts.smart_contracts_params, SmartContracts.qp_config_smart_contracts_defaults_load);
  (SmartDns.smart_dns_params, SmartDns.qp_config_smart_dns_defaults_load);
  (SshOverQuic.ssh_over_quic_params, SshOverQuic.qp_config_ssh_over_quic_defaults_load);
  (StateManagement.state_management_params, StateManagement.qp_config_state_management_defaults_load);
  (TcpTransport.tcp_transport_params, TcpTransport.qp_config_tcp_transport_defaults_load);
  (TlsAndCrypto.tls_and_crypto_params, TlsAndCrypto.qp_config_tls_crypto_defaults_load)].
