(* ===== verification/ConfigProps.v ===== *)
(** * Configuration: what the validators accept and what the modules keep

    A declarative reading of every check ([check_post]), the proof that the validators
    accept exactly that, and the invariants of the twenty-two modules under arbitrary
    sequences of overrides from PHP. *)

From Stdlib Require Import ZArith Lia String Ascii.
From stdpp Require Import base tactics list gmap strings.
From S2P Require Import Prelude Ieee Zend Validation Config ConfigModules.

Local Open Scope Z_scope.

(* ------------------------------------------------------------------------ *)
(** ** What each check means *)

(** A C string in memory has no NUL before its end. *)
Definition nul_free (s : string) : Prop := cstr s = s.

Definition numeric (s : string) : Prop := is_numeric_string s = true.

(** [worker:core] or [worker:first-last], and anything after that. *)
Definition affinity_form (e : string) : Prop :=
  exists worker core more, strtok_r ":" e = worker :: core :: more /\ numeric worker /\
  exists first ends, strtok_r "-" core = first :: ends /\ numeric first /\
  match ends with [] => True | last :: _ => numeric last end.

Section Post.
Context `{ValidationEnv}.

(** An http or https URL with a host, or blanks. *)
Definition origin_form (t : string) : Prop :=
  php_trim t = EmptyString \/
  exists scheme host, php_url_parse_ex (php_trim t) = Some (Some scheme, Some host) /\
    (lower (cstr scheme) = "http"%string \/ lower (cstr scheme) = "https"%string).

Definition check_post (c : check) (v : cvalue) : Prop :=
  match c with
  | CkBool => exists b, v = CBool b
  | CkPositiveLong => exists n, v = CLong n /\ 0 < n
  | CkNonNegativeLong => exists n, v = CLong n /\ 0 <= n
  | CkLongRange min max => exists n, v = CLong n /\ min <= n <= max
  | CkNicenessValue => exists n, v = CLong n /\ -20 <= n <= 19
  | CkDoubleRange min max =>
      exists d, v = CDouble d /\ double_ltb d min = false /\ double_ltb max d = false
  | CkString | CkGenericString | CkInlineString | CkInlineNonEmptyString =>
      exists s, v = CString s /\ nul_free s
  | CkSchedulerPolicy => exists s, v = CString s /\ s ∈ ["other"; "fifo"; "rr"]%string
  | CkAllowlist l =>
      exists s a, v = CString s /\ nul_free s /\ a ∈ l /\ lower s = lower (cstr a)
  | CkCommaAllowlist l =>
      exists s, v = CString s /\ nul_free s /\
      Forall (fun t => php_trim t = EmptyString \/
                exists a, a ∈ l /\ lower (cstr (php_trim t)) = lower (cstr a)) (strtok_r "," s)
  | CkHostString =>
      exists s, v = CString s /\ s <> EmptyString /\ all_chars host_char s = true
  | CkReadableFilePath =>
      exists s, v = CString s /\ nul_free s /\ (s = EmptyString \/ file_readable s = true)
  | CkErasureCodingShardsString =>
      exists s data parity, v = CString s /\ nul_free s /\
      scan_shards s = Some (data, "d"%char, parity, "p"%char) /\ 0 < data /\ 0 < parity
  | CkScaleUpPolicyString =>
      exists s action amount more, v = CString s /\ nul_free s /\
      strtok_r ":" s = action :: amount :: more /\
      cstr action ∈ ["add_nodes"; "add_percent"]%string /\ numeric amount
  | CkCpuAffinityMapString =>
      exists s, v = CString s /\ nul_free s /\ Forall affinity_form (strtok_r "," s)
  | CkCorsOriginString =>
      exists s, v = CString s /\ nul_free s /\
      (s = "*"%string \/ Forall origin_form (strtok_r "," s))
  | CkNonEmptyString | CkWritableFilePath => exists s, v = CString s
  end.

(** The two validators that are not part of the sources. *)
Definition external (c : check) : bool :=
  match c with CkNonEmptyString | CkWritableFilePath => true | _ => false end.
End Post.

(* ------------------------------------------------------------------------ *)
(** ** Lemmas about C strings *)

Lemma cstr_idemp s : cstr (cstr s) = cstr s.
Proof.
  induction s as [|c s IH]; simpl; [done|].
  destruct (decide (c = Ascii.zero)) as [->|Hc]; simpl; [done|].
  by rewrite decide_False, IH.
Qed.

Lemma nul_free_cstr s : nul_free (cstr s).
Proof. apply cstr_idemp. Qed.
#[export] Hint Resolve nul_free_cstr : quicpro.

Lemma strtok_cstr d s : strtok_r d (cstr s) = strtok_r d s.
Proof. unfold strtok_r. by rewrite cstr_idemp. Qed.
#[export] Hint Rewrite cstr_idemp strtok_cstr : quicpro.

Lemma strtok_empty d : strtok_r d EmptyString = [].
Proof. done. Qed.

Lemma strcasecmp_iff s a : strcasecmp_eq s a = true <-> lower (cstr s) = lower (cstr a).
Proof. unfold strcasecmp_eq. by rewrite bool_decide_eq_true. Qed.

Lemma strcmp_iff s a : strcmp_eq s a = true <-> cstr s = cstr a.
Proof. unfold strcmp_eq. by rewrite bool_decide_eq_true. Qed.

Lemma allowlist_iff s l :
  existsb (strcasecmp_eq s) l = true <-> exists a, a ∈ l /\ lower (cstr s) = lower (cstr a).
Proof. apply existsb_elem_of. intros. apply strcasecmp_iff. Qed.

Lemma string_length_0 s : (0 <? String.length s)%nat = false <-> s = EmptyString.
Proof. destruct s; simpl; naive_solver. Qed.

Lemma affinity_entry_iff e : affinity_entry e = true <-> affinity_form e.
Proof.
  unfold affinity_entry, affinity_form, numeric. split.
  - intros He. repeat (case_match; try discriminate); simplify_eq;
      repeat match goal with H : negb _ = false |- _ => apply negb_false_iff in H end;
      do 3 eexists; (split; [done|]); (split; [done|]); do 2 eexists; (split; [done|]); done.
  - intros (w & c & more & -> & -> & f & ends & -> & -> & He). simpl. by destruct ends.
Qed.

Lemma host_nul_free s : all_chars host_char s = true -> nul_free s.
Proof.
  unfold nul_free. induction s as [|c s IH]; simpl; [done|]. intros [Hc Hs]%andb_true_iff.
  rewrite IH by done. destruct (decide (c = Ascii.zero)) as [->|]; [discriminate Hc|done].
Qed.

#[local] Opaque double_ltb scan_shards strtok_r php_trim cstr.

Section Characterise.
Context `{ValidationEnv}.

Lemma origin_token_iff t : origin_token t = true <-> origin_form t.
Proof.
  unfold origin_token, origin_form. destruct (decide (php_trim t = EmptyString)) as [?|Hne].
  { split; auto. }
  split.
  - intros Ht. right. destruct (php_url_parse_ex _) as [[[scheme|] [host|]]|]; try discriminate.
    exists scheme, host. split; [done|].
    apply orb_true_iff in Ht as [Ht|Ht]; apply strcasecmp_iff in Ht; auto.
  - intros [?|(scheme & host & -> & Hs)]; [done|]. apply orb_true_iff.
    destruct Hs as [Hs|Hs]; [left|right]; by apply strcasecmp_iff.
Qed.

Lemma comma_token_iff l t :
  (if (0 <? String.length (php_trim t))%nat
   then existsb (strcasecmp_eq (php_trim t)) l else true) = true <->
  (php_trim t = EmptyString \/ exists a, a ∈ l /\ lower (cstr (php_trim t)) = lower (cstr a)).
Proof.
  destruct (0 <? String.length (php_trim t))%nat eqn:E.
  - rewrite allowlist_iff. split; [auto|]. intros [He|?]; [|done]. by rewrite He in E.
  - apply string_length_0 in E. split; auto.
Qed.

(** Strings: a string is accepted and stored as its C string when a condition on
    that C string holds. *)
Lemma string_check_iff (run : validator) (P : string -> Prop) v :
  (forall z, run z = match z with ZString s => run (ZString s) | _ => None end) ->
  (forall s, run (ZString s) = Some (CString (cstr s)) \/ run (ZString s) = None) ->
  (forall s, (exists w, run (ZString s) = Some w) <-> P (cstr s)) ->
  (exists z, run z = Some v) <-> exists s, v = CString s /\ nul_free s /\ P s.
Proof.
  intros Hz Hs HP. split.
  - intros (z & Hr). rewrite Hz in Hr. destruct z; try discriminate.
    destruct (Hs s) as [E|E]; rewrite E in Hr; simplify_eq.
    exists (cstr s). split_and!; [done|apply cstr_idemp|]. apply HP. eauto.
  - intros (s & -> & Hn & Hp). exists (ZString s). rewrite <- Hn in Hp. apply HP in Hp as [w Hw].
    destruct (Hs s) as [E|E]; rewrite E in Hw; simplify_eq. by rewrite E, Hn.
Qed.

(** Numbers: a [zend_long] is accepted unchanged when a condition holds. *)
Lemma long_check_iff (run : validator) (P : Z -> Prop) v :
  (forall z, run z = match z with ZLong n => run (ZLong n) | _ => None end) ->
  (forall n, P n -> run (ZLong n) = Some (CLong n)) ->
  (forall n, ~ P n -> run (ZLong n) = None) -> (forall n, Decision (P n)) ->
  (exists z, run z = Some v) <-> exists n, v = CLong n /\ P n.
Proof.
  intros Hz Hy Hn Hd. split.
  - intros (z & Hr). rewrite Hz in Hr. destruct z as [| | | |n| | | | | |]; try discriminate.
    destruct (Hd n) as [HP|HP]; [rewrite Hy in Hr by done|rewrite Hn in Hr by done]; simplify_eq.
    eauto.
  - intros (n & -> & HP). exists (ZLong n). by apply Hy.
Qed.

Ltac only_type := by intros [].
Ltac string_case P :=
  let s := fresh "s" in
  apply (string_check_iff _ P);
  [only_type | intros s; simpl; repeat case_match; auto |
   intros s; simpl; autorewrite with quicpro; split].
Ltac long_case P :=
  apply (long_check_iff _ P);
  [only_type | intros n ?; simpl | intros n ?; simpl | intros n; solve_decision].

Lemma long_checks_iff v :
  ((exists z, qp_validate_positive_long z = Some v) <-> exists n, v = CLong n /\ 0 < n) /\
  ((exists z, qp_validate_non_negative_long z = Some v) <-> exists n, v = CLong n /\ 0 <= n) /\
  (forall min max, (exists z, qp_validate_long_range min max z = Some v) <->
     exists n, v = CLong n /\ min <= n <= max) /\
  ((exists z, qp_validate_niceness_value z = Some v) <-> exists n, v = CLong n /\ -20 <= n <= 19).
Proof.
  split_and!; [| |intros min max|].
  - long_case (fun n => 0 < n); destruct (Z.leb_spec n 0); lia || done.
  - long_case (fun n => 0 <= n); destruct (Z.ltb_spec n 0); lia || done.
  - long_case (fun n => min <= n <= max);
      destruct (Z.ltb_spec n min), (Z.gtb_spec n max); simpl; lia || done.
  - long_case (fun n => -20 <= n <= 19);
      destruct (Z.ltb_spec n (-20)), (Z.gtb_spec n 19); simpl; lia || done.
Qed.

Lemma plain_string_iff v :
  (exists z, qp_validate_string z = Some v) <-> exists s, v = CString s /\ nul_free s.
Proof.
  split.
  - intros ([] & Hr); simplify_eq/=. eauto with quicpro.
  - intros (s & -> & Hn). exists (ZString s). simpl. by rewrite Hn.
Qed.

Lemma inline_non_empty_iff v :
  (exists z, run_check CkInlineNonEmptyString z = Some v) <-> exists s, v = CString s /\ nul_free s.
Proof.
  split.
  - intros (z & Hr). simpl in Hr. destruct z; try discriminate. case_match; simplify_eq.
    eauto with quicpro.
  - intros (s & -> & Hn). destruct s as [|c s].
    + exists (ZString (String Ascii.zero EmptyString)). done.
    + exists (ZString (String c s)). cbn [run_check String.length Nat.eqb]. by rewrite Hn.
Qed.

(** The formatted strings, one lemma per format. *)
Lemma scheduler_iff v : (exists z, qp_validate_scheduler_policy z = Some v) <->
  exists s, v = CString s /\ s ∈ ["other"; "fifo"; "rr"]%string.
Proof.
  split.
  - intros (z & Hr). destruct z; try discriminate. simpl in Hr.
    destruct (negb _ && _ && _) eqn:E; [done|]. simplify_eq. exists (cstr s). split; [done|].
    rewrite !andb_false_iff, !negb_false_iff, !strcmp_iff in E.
    rewrite !elem_of_cons. destruct E as [[E|E]|E]; rewrite E; auto.
  - intros (s & -> & Hs). exists (ZString s). rewrite !elem_of_cons, elem_of_nil in Hs.
    destruct Hs as [-> |[-> |[-> |[]]]]; done.
Qed.

Lemma allowlist_check_iff l v : (exists z, qp_validate_string_from_allowlist l z = Some v) <->
  exists s a, v = CString s /\ nul_free s /\ a ∈ l /\ lower s = lower (cstr a).
Proof.
  transitivity (exists s, v = CString s /\ nul_free s /\ exists a, a ∈ l /\ lower s = lower (cstr a));
    [|split; [intros (s & ? & ? & a & ? & ?)|intros (s & a & ? & ? & ? & ?)]; eauto 10].
  string_case (fun s => exists a, a ∈ l /\ lower s = lower (cstr a)).
  - intros [w Hw]. case_match; [|done]. by apply allowlist_iff.
  - intros Ha. apply allowlist_iff in Ha. rewrite Ha. eauto.
Qed.

Lemma comma_allowlist_iff l v :
  (exists z, qp_validate_comma_separated_string_from_allowlist l z = Some v) <->
  exists s, v = CString s /\ nul_free s /\
    Forall (fun t => php_trim t = EmptyString \/
      exists a, a ∈ l /\ lower (cstr (php_trim t)) = lower (cstr a)) (strtok_r "," s).
Proof.
  string_case (fun s => Forall (fun t => php_trim t = EmptyString \/
      exists a, a ∈ l /\ lower (cstr (php_trim t)) = lower (cstr a)) (strtok_r "," s)).
  - intros [w Hw]. case_match; [|done]. eapply forallb_Forall; [|done]. apply comma_token_iff.
  - intros Ha. eapply forallb_Forall in Ha; [|apply comma_token_iff]. rewrite Ha. eauto.
Qed.

Lemma host_check_iff v : (exists z, qp_validate_host_string z = Some v) <->
  exists s, v = CString s /\ s <> EmptyString /\ all_chars host_char s = true.
Proof.
  split.
  - intros (z & Hr). destruct z; try discriminate. simpl in Hr. repeat case_match; simplify_eq.
    exists s. by rewrite (host_nul_free s).
  - intros (s & -> & Hne & Hs). exists (ZString s). simpl. rewrite decide_False, Hs by done.
    by rewrite (host_nul_free s).
Qed.

Lemma readable_check_iff v : (exists z, qp_validate_readable_file_path z = Some v) <->
  exists s, v = CString s /\ nul_free s /\ (s = EmptyString \/ file_readable s = true).
Proof.
  string_case (fun s => s = EmptyString \/ file_readable s = true).
  - intros [w Hw]. repeat case_match; simplify_eq; auto.
  - intros Hs. repeat case_match; eauto. destruct Hs as [?|Hs]; congruence.
Qed.

Lemma erasure_check_iff v : (exists z, qp_validate_erasure_coding_shards_string z = Some v) <->
  exists s data parity, v = CString s /\ nul_free s /\
    scan_shards s = Some (data, "d"%char, parity, "p"%char) /\ 0 < data /\ 0 < parity.
Proof.
  transitivity (exists s, v = CString s /\ nul_free s /\ exists data parity,
    scan_shards s = Some (data, "d"%char, parity, "p"%char) /\ 0 < data /\ 0 < parity);
    [|split; [intros (s & ? & ? & a & b & ? & ? & ?)|intros (s & a & b & ? & ? & ? & ? & ?)]; eauto 15].
  string_case (fun s => exists data parity,
    scan_shards s = Some (data, "d"%char, parity, "p"%char) /\ 0 < data /\ 0 < parity).
  - intros [w Hw]. destruct (scan_shards (cstr s)) as [[[[a d] b] p]|]; [|done].
    case_match eqn:E; [done|]. rewrite !orb_false_iff, !negb_false_iff, !bool_decide_eq_true in E.
    destruct E as [[[-> ->] ?] ?]. exists a, b. split; [done|]. lia.
  - intros (a & b & -> & Ha & Hb). simpl.
    destruct (Z.leb_spec a 0), (Z.leb_spec b 0); simpl; eauto; lia.
Qed.

Lemma scale_up_check_iff v : (exists z, qp_validate_scale_up_policy_string z = Some v) <->
  exists s action amount more, v = CString s /\ nul_free s /\
    strtok_r ":" s = action :: amount :: more /\
    cstr action ∈ ["add_nodes"; "add_percent"]%string /\ numeric amount.
Proof.
  set (P s := exists action amount more, strtok_r ":" s = action :: amount :: more /\
    cstr action ∈ ["add_nodes"; "add_percent"]%string /\ numeric amount).
  transitivity (exists s, v = CString s /\ nul_free s /\ P s);
    [|unfold P; split; [intros (s & ? & ? & a & b & c & ? & ? & ?)
                       |intros (s & a & b & c & ? & ? & ? & ? & ?)]; eauto 15].
  string_case P; unfold P; autorewrite with quicpro.
  - intros [w Hw]. destruct (strtok_r ":" s) as [|a [|b more]]; try discriminate Hw; try by destruct Hw.
    case_match eqn:E; [|done]. rewrite andb_true_iff, orb_true_iff, !strcmp_iff in E.
    destruct E as [Ha Hb]. exists a, b, more. split_and!; [done| |done].
    rewrite !elem_of_cons. destruct Ha as [-> | ->]; auto.
  - intros (a & b & more & -> & Ha & Hb). rewrite Hb, andb_true_r.
    rewrite !elem_of_cons, elem_of_nil in Ha. unfold strcmp_eq.
    destruct Ha as [-> |[-> |[]]]; simpl; eauto.
Qed.

Lemma affinity_check_iff v : (exists z, qp_validate_cpu_affinity_map_string z = Some v) <->
  exists s, v = CString s /\ nul_free s /\ Forall affinity_form (strtok_r "," s).
Proof.
  string_case (fun s => Forall affinity_form (strtok_r "," s)).
  - intros [w Hw]. case_match eqn:E.
    + rewrite <- strtok_cstr, e, strtok_empty. constructor.
    + case_match; [|done]. eapply forallb_Forall; [|done]. apply affinity_entry_iff.
  - intros Ha. eapply forallb_Forall in Ha; [|apply affinity_entry_iff]. rewrite Ha.
    case_match; eauto.
Qed.

Lemma cors_check_iff v : (exists z, qp_validate_cors_origin_string z = Some v) <->
  exists s, v = CString s /\ nul_free s /\
    (s = "*"%string \/ Forall origin_form (strtok_r "," s)).
Proof.
  string_case (fun s => s = "*"%string \/ Forall origin_form (strtok_r "," s)).
  - intros [w Hw]. case_match eqn:E; [|done]. apply orb_true_iff in E as [E|E].
    + left. by apply strcmp_iff in E.
    + right. eapply forallb_Forall; [|done]. apply origin_token_iff.
  - intros Hs. destruct Hs as [Hs|Hs].
    + assert (strcmp_eq s "*" = true) as -> by (apply strcmp_iff; by rewrite Hs). eauto.
    + eapply forallb_Forall in Hs; [|apply origin_token_iff]. rewrite Hs, orb_true_r. eauto.
Qed.

Lemma check_iff c v : external c = false ->
  (exists z, run_check c z = Some v) <-> check_post c v.
Proof.
  intros Hx. destruct (long_checks_iff v) as (L1 & L2 & L3 & L4).
  destruct c; try discriminate Hx; simpl; try apply plain_string_iff.
  - split; [intros ([] & Hr); simplify_eq/=; eauto|]. intros [b ->]. exists (zbool b). by destruct b.
  - exact L1. - exact L2. - apply L3. - exact L4.
  - split.
    + intros (z & Hr). destruct z; try discriminate. simpl in Hr. case_match eqn:E; simplify_eq.
      apply orb_false_iff in E as [??]. eauto.
    + intros (d & -> & H1 & H2). exists (ZDouble d). simpl. by rewrite H1, H2.
  - apply scheduler_iff. - apply allowlist_check_iff. - apply comma_allowlist_iff.
  - apply host_check_iff. - apply readable_check_iff. - apply erasure_check_iff.
  - apply scale_up_check_iff. - apply affinity_check_iff. - apply cors_check_iff.
  - apply inline_non_empty_iff.
Qed.

Lemma check_sound c z v : run_check c z = Some v -> check_post c v.
Proof.
  intros Hr. destruct (external c) eqn:Hx; [|apply check_iff; eauto].
  destruct c; try discriminate Hx; simpl in *; apply fmap_Some in Hr as (s & _ & ->); eauto.
Qed.

(** The PHP type a check asks for, and what of the value is stored: a boolean, an integer
    or a double itself, of a string the part before its first NUL.  Two checks look at the
    whole string: a host name has no NUL at all, and the non-empty test counts bytes. *)
Definition stores (c : check) (z : zval) (v : cvalue) : Prop :=
  match c with
  | CkBool => exists b, z = zbool b /\ v = CBool b
  | CkPositiveLong | CkNonNegativeLong | CkLongRange _ _ | CkNicenessValue => exists n, z = ZLong n /\ v = CLong n
  | CkDoubleRange _ _ => exists d, z = ZDouble d /\ v = CDouble d
  | CkHostString => exists s, z = ZString s /\ v = CString s
  | CkInlineNonEmptyString => exists s, z = ZString s /\ s <> EmptyString /\ v = CString (cstr s)
  | _ => exists s, z = ZString s /\ v = CString (cstr s)
  end.

Lemma run_stores c z v : external c = false -> run_check c z = Some v -> stores c z v.
Proof.
  intros Hx Hr. destruct c, z; try discriminate Hx; try discriminate Hr; simpl in *;
    repeat case_match; simplify_eq; eauto;
    try (by exists true); try (by exists false).
  - eexists. split; [done|]. by rewrite host_nul_free.
  - exists s. split_and!; [done|by intros ->|done].
Qed.

(** The other checks of strings look at the C string only. *)
Definition whole_string (c : check) : bool := match c with CkHostString | CkInlineNonEmptyString => true | _ => false end.

Lemma run_cstr c s s' : external c = false -> whole_string c = false -> cstr s = cstr s' ->
  run_check c (ZString s) = run_check c (ZString s').
Proof.
  intros Hx Hw Hs. assert (Ht : forall d, strtok_r d s = strtok_r d s')
    by (intros d; by rewrite <-(strtok_cstr d s), Hs, strtok_cstr).
  destruct c; try discriminate Hx; try discriminate Hw; simpl; unfold strcmp_eq; rewrite ?Ht, ?Hs; try done.
  unfold strcasecmp_eq. by rewrite Hs.
Qed.

Lemma run_exact c z v : external c = false -> run_check c z = Some v <-> stores c z v /\ check_post c v.
Proof.
  intros Hx. split; [intros Hr; split; [by apply run_stores|by eapply check_sound]|].
  intros [Hs Hp]. pose proof Hp as [z' Hr]%(check_iff c v Hx). pose proof (run_stores _ _ _ Hx Hr) as Hs'.
  assert (Hstr : whole_string c = false -> forall s s' w, cstr s = cstr s' -> run_check c (ZString s') = Some w ->
    run_check c (ZString s) = Some w) by (intros Hw s s' w He; by rewrite (run_cstr c s s')).
  destruct c; try discriminate Hx; simpl in Hs, Hs';
    repeat match goal with H : exists _, _ |- _ => destruct H end; destruct_and?; subst; simplify_eq; try done;
    try (by eapply Hstr; [done| |exact Hr]).
  simpl. by destruct x0.
Qed.

Lemma colon_exact allowed z v : qp_validate_colon_separated_string_from_allowlist allowed z = Some v <->
  exists s, z = ZString s /\ v = CString (cstr s) /\
    Forall (fun t => exists a, a ∈ allowed /\ cstr t = cstr a) (strtok_r ":" s).
Proof.
  assert (Hf : forall s, forallb (fun t => existsb (strcmp_eq t) allowed) (strtok_r ":" s) = true <->
    Forall (fun t => exists a, a ∈ allowed /\ cstr t = cstr a) (strtok_r ":" s)).
  { intros s. apply forallb_Forall. intros t. apply existsb_elem_of. intros a. apply strcmp_iff. }
  destruct z; try (by split; [|intros (? & ? & _)]). cbn [qp_validate_colon_separated_string_from_allowlist]. split.
  - case_match eqn:E; [|done]. intros [= <-]. exists s. by rewrite <-Hf.
  - intros (s' & [= <-] & -> & ->%Hf). done.
Qed.

Lemma comma_numeric_exact z v : qp_validate_comma_separated_numeric_string z = Some v <->
  exists s, z = ZString s /\ v = CString (cstr s) /\
    Forall (fun t => php_trim t = EmptyString \/ strtod_all (php_trim t) = true) (strtok_r "," s).
Proof.
  assert (Hf : forall s, forallb (fun token => negb ((0 <? String.length (php_trim token))%nat && negb (strtod_all (php_trim token))))
      (strtok_r "," s) = true <->
    Forall (fun t => php_trim t = EmptyString \/ strtod_all (php_trim t) = true) (strtok_r "," s)).
  { intros s. apply forallb_Forall. intros t. rewrite negb_true_iff, andb_false_iff, string_length_0, negb_false_iff. done. }
  destruct z; try (by split; [|intros (? & ? & _)]). cbn [qp_validate_comma_separated_numeric_string]. split.
  - case_match eqn:E; [|done]. intros [= <-]. exists s. split_and!; [done|done|]. by apply Hf.
  - intros (s' & [= <-] & -> & Ha%Hf). cbv zeta. by rewrite Ha.
Qed.
End Characterise.

(* ------------------------------------------------------------------------ *)
(** ** The tables *)

(** Keys and members identify the rows of a table. *)
Record table_wf (ps : list param) : Prop := {
  tw_keys : NoDup (map p_key ps);
  tw_members : NoDup (map p_member ps);
}.

Lemma NoDup_map_inj {A B} (f : A -> B) l x y :
  NoDup (map f l) -> x ∈ l -> y ∈ l -> f x = f y -> x = y.
Proof.
  induction l as [|a l IH]; simpl; [set_solver|]. intros [Ha Hl]%NoDup_cons Hx Hy Heq.
  apply elem_of_cons in Hx as [->|Hx]; apply elem_of_cons in Hy as [->|Hy]; auto.
  - destruct Ha. rewrite Heq. by apply list_elem_of_fmap_2.
  - destruct Ha. rewrite <- Heq. by apply list_elem_of_fmap_2.
Qed.

Lemma find_param_Some ps k p : find_param ps k = Some p -> p ∈ ps /\ p_key p = k.
Proof.
  intros Hf. apply List.find_some in Hf as [Hin Hk]. apply bool_decide_eq_true in Hk.
  split; [by apply list_elem_of_In|done].
Qed.

Lemma find_param_key ps p : table_wf ps -> p ∈ ps -> find_param ps (p_key p) = Some p.
Proof.
  intros Ht Hp. destruct (find_param ps (p_key p)) as [q|] eqn:E.
  - apply find_param_Some in E as [Hq Hk]. f_equal.
    by eapply (NoDup_map_inj p_key); [apply (tw_keys _ Ht)| | |].
  - apply list_elem_of_In in Hp. eapply List.find_none in E; [|exact Hp].
    by apply bool_decide_eq_false in E.
Qed.

Lemma all_tables_wf : Forall (fun '(ps, _) => table_wf ps) all_modules.
Proof.
  assert (forallb (fun '(ps, _) => bool_decide (NoDup (map p_key ps))
    && bool_decide (NoDup (map p_member ps))) all_modules = true) as Hb by (vm_compute; reflexivity).
  revert Hb. apply forallb_Forall. intros [ps d]. rewrite andb_true_iff, !bool_decide_eq_true.
  split; [intros []; by constructor|intros []; done].
Qed.

(* ------------------------------------------------------------------------ *)
(** ** The loop *)

Section Loop.
Context `{ValidationEnv}.
Variable ps : list param.
Hypothesis Hwf : table_wf ps.

(** Every member that is set satisfies its check. *)
Definition config_ok (cfg : config) : Prop :=
  forall p v, p ∈ ps -> cfg !! p_member p = Some v -> check_post (p_check p) v.

Lemma config_ok_insert cfg p v : p ∈ ps -> check_post (p_check p) v -> config_ok cfg ->
  config_ok (<[p_member p := v]> cfg).
Proof.
  intros Hp Hv Hok q w Hq Hw. destruct (decide (p_member p = p_member q)) as [Heq|Hne].
  - rewrite Heq, lookup_insert_eq in Hw. simplify_eq.
    by rewrite <- (NoDup_map_inj p_member ps p q (tw_members _ Hwf) Hp Hq Heq).
  - rewrite lookup_insert_ne in Hw by done. by eapply Hok.
Qed.

Lemma apply_entries_ok ht : forall cfg, config_ok cfg -> config_ok (apply_entries ps ht cfg).1.
Proof.
  induction ht as [|[[i|k] z] ht IH]; intros cfg Hok; simpl; [done|by apply IH|].
  destruct (find_param ps k) as [p|] eqn:Ep; [|by apply IH].
  destruct (run_check (p_check p) z) as [v|] eqn:Ev; [|done].
  apply IH, config_ok_insert; [by apply find_param_Some in Ep as []|by eapply check_sound|done].
Qed.

(** Where a new value of a member comes from. *)
Lemma apply_entries_provenance ht : forall cfg m,
  (apply_entries ps ht cfg).1 !! m = cfg !! m \/
  exists p z v, p ∈ ps /\ p_member p = m /\ (KStr (p_key p), z) ∈ ht /\
    run_check (p_check p) z = Some v /\ (apply_entries ps ht cfg).1 !! m = Some v.
Proof.
  induction ht as [|[[i|k] z] ht IH]; intros cfg m; simpl; [by left| |].
  - destruct (IH cfg m) as [?|(p & w & v & ? & ? & ? & ? & ?)]; [by left|right].
    exists p, w, v. split_and!; try done. by right.
  - destruct (find_param ps k) as [q|] eqn:Eq.
    2:{ destruct (IH cfg m) as [?|(p & w & v & ? & ? & ? & ? & ?)]; [by left|right].
        exists p, w, v. split_and!; try done. by right. }
    apply find_param_Some in Eq as [Hq <-].
    destruct (run_check (p_check q) z) as [u|] eqn:Eu; [|by left].
    destruct (IH (<[p_member q := u]> cfg) m) as [Hm|(p & w & v & ? & ? & ? & ? & ?)].
    + rewrite Hm. destruct (decide (p_member q = m)) as [<-|Hne].
      * right. exists q, z, u. rewrite lookup_insert_eq. split_and!; try done. by left.
      * left. by rewrite lookup_insert_ne.
    + right. exists p, w, v. split_and!; try done. by right.
Qed.

(** The value of a member after a successful override: that of its key. *)
Definition member_after (ht : hashtable) (cfg : config) (p : param) : option cvalue :=
  match ht_find (KStr (p_key p)) ht with
  | Some z => run_check (p_check p) z
  | None => cfg !! p_member p
  end.

Definition all_valid (ht : hashtable) : Prop :=
  forall p z, p ∈ ps -> ht_find (KStr (p_key p)) ht = Some z -> run_check (p_check p) z <> None.

Lemma member_after_cons k z ht cfg p : KStr (p_key p) <> k ->
  member_after ((k, z) :: ht) cfg p = member_after ht cfg p.
Proof. intros Hne. unfold member_after. simpl. by rewrite decide_False. Qed.

Lemma all_valid_tail k z ht : k ∉ ht_keys ht -> all_valid ((k, z) :: ht) -> all_valid ht.
Proof.
  intros Hk Hok p w Hp Hw. apply (Hok p w Hp). simpl. rewrite decide_False; [done|].
  intros <-. apply ht_find_None in Hk. congruence.
Qed.

(** Storing the value of a row first is the same as finding it at the front. *)
Lemma member_after_insert ht cfg q z v p : q ∈ ps -> p ∈ ps -> KStr (p_key q) ∉ ht_keys ht ->
  run_check (p_check q) z = Some v ->
  member_after ht (<[p_member q := v]> cfg) p = member_after ((KStr (p_key q), z) :: ht) cfg p.
Proof.
  intros Hq Hp Hk Hv. destruct (decide (p = q)) as [->|Hne].
  - unfold member_after. apply ht_find_None in Hk. rewrite Hk. simpl.
    by rewrite lookup_insert_eq, decide_True.
  - rewrite member_after_cons.
    + unfold member_after. destruct (ht_find _ ht); [done|]. rewrite lookup_insert_ne; [done|].
      intros Heq. apply Hne. symmetry. by apply (NoDup_map_inj p_member ps q p (tw_members _ Hwf)).
    + intros [= Heq]. apply Hne. by apply (NoDup_map_inj p_key ps p q (tw_keys _ Hwf)).
Qed.

(** Keys of a PHP array are unique: a member gets the value of its key. *)
Lemma apply_entries_success ht : NoDup (ht_keys ht) -> forall cfg, all_valid ht ->
  exists cfg', apply_entries ps ht cfg = (cfg', None) /\
  (forall p, p ∈ ps -> cfg' !! p_member p = member_after ht cfg p) /\
  (forall m, m ∉ map p_member ps -> cfg' !! m = cfg !! m).
Proof.
  induction ht as [|[k z] ht IH]; intros Hnd cfg Hok; simpl in *; [exists cfg; by split_and!|].
  apply NoDup_cons in Hnd as [Hk Hnd]. pose proof (all_valid_tail _ _ _ Hk Hok) as Htail.
  assert (Hskip : (forall p, p ∈ ps -> KStr (p_key p) <> k) -> exists cfg',
    apply_entries ps ht cfg = (cfg', None) /\
    (forall p, p ∈ ps -> cfg' !! p_member p = member_after ((k, z) :: ht) cfg p) /\
    (forall m, m ∉ map p_member ps -> cfg' !! m = cfg !! m)).
  { intros Hne. destruct (IH Hnd cfg Htail) as (cfg' & He & Hm & Ho). exists cfg'.
    split_and!; [done| |done]. intros p Hp. rewrite member_after_cons by (by apply Hne). by apply Hm. }
  destruct k as [i|k]; [by apply Hskip|]. destruct (find_param ps k) as [q|] eqn:Eq.
  2:{ apply Hskip. intros p Hp [= Heq]. rewrite <- Heq, find_param_key in Eq; done. }
  apply find_param_Some in Eq as [Hq <-].
  destruct (run_check (p_check q) z) as [v|] eqn:Ev.
  2:{ destruct (Hok q z Hq); [|done]. simpl. by rewrite decide_True. }
  destruct (IH Hnd (<[p_member q := v]> cfg) Htail) as (cfg' & He & Hm & Ho).
  exists cfg'. split_and!; [done| |].
  - intros p Hp. rewrite Hm by done. by apply member_after_insert.
  - intros m Hm'. rewrite Ho by done. rewrite lookup_insert_ne; [done|].
    intros <-. apply Hm'. by apply list_elem_of_fmap_2.
Qed.

(** A rejected value stops the loop; what came before it stays applied. *)
Lemma apply_entries_failure ht : forall cfg cfg' k,
  apply_entries ps ht cfg = (cfg', Some (EInvalidValue k)) <->
  exists pre z post p, ht = pre ++ (KStr k, z) :: post /\ find_param ps k = Some p /\
    run_check (p_check p) z = None /\ apply_entries ps pre cfg = (cfg', None).
Proof.
  induction ht as [|[j w] ht IH]; intros cfg cfg' k; simpl.
  { split; [done|]. intros (pre & z & post & p & Hht & _). by destruct pre. }
  split.
  - intros Ha. destruct j as [i|j].
    { apply IH in Ha as (pre & z & post & p & -> & ? & ? & ?).
      exists ((KInt i, w) :: pre), z, post, p. by split_and!. }
    destruct (find_param ps j) as [q|] eqn:Eq.
    2:{ apply IH in Ha as (pre & z & post & p & -> & ? & ? & ?).
        exists ((KStr j, w) :: pre), z, post, p. split_and!; try done. simpl. by rewrite Eq. }
    destruct (run_check (p_check q) w) as [v|] eqn:Ev.
    + apply IH in Ha as (pre & z & post & p & -> & ? & ? & ?).
      exists ((KStr j, w) :: pre), z, post, p. split_and!; try done. simpl. by rewrite Eq, Ev.
    + simplify_eq. by exists [], w, ht, q.
  - intros (pre & z & post & p & Hht & Hp & Hz & Hpre). destruct pre as [|[j' w'] pre]; simplify_eq/=.
    { by rewrite Hp, Hz. }
    destruct j' as [i|j']; [apply IH; eauto 10|].
    destruct (find_param ps j') as [q|]; [|apply IH; eauto 10].
    destruct (run_check (p_check q) w') as [v|]; [|done]. apply IH; eauto 10.
Qed.
End Loop.

(* ------------------------------------------------------------------------ *)
(** ** Defaults *)

Definition zval_of (v : cvalue) : zval :=
  match v with
  | CBool b => zbool b
  | CLong n => ZLong n
  | CDouble d => ZDouble d
  | CString s => ZString s
  end.

Section Defaults.
Context `{ValidationEnv}.

(** A default is accepted by its own validator; where the validator is not part of
    the sources, it is a string. *)
Definition default_okb (cfg : config) (p : param) : bool :=
  match cfg !! p_member p with
  | None => true
  | Some v =>
      if external (p_check p) then match v with CString _ => true | _ => false end
      else bool_decide (run_check (p_check p) (zval_of v) = Some v)
  end.

Lemma defaults_okb : forallb (fun '(ps, d) => forallb (default_okb d) ps) all_modules = true.
Proof. vm_compute. reflexivity. Qed.

Lemma defaults_ok : Forall (fun '(ps, d) => config_ok ps d) all_modules.
Proof.
  eapply Forall_impl.
  - eapply (forallb_Forall _ (fun '(ps, d) => forallb (default_okb d) ps = true));
      [|apply defaults_okb]. by intros [ps d].
  - intros [ps d] Hb p v Hp Hv. rewrite forallb_forall in Hb.
    specialize (Hb p (proj1 (list_elem_of_In _ _) Hp)). unfold default_okb in Hb. rewrite Hv in Hb.
    destruct (external (p_check p)) eqn:Hx.
    + destruct (p_check p); try discriminate Hx; destruct v; try discriminate Hb; simpl; eauto.
    + apply bool_decide_eq_true in Hb. by eapply check_sound.
Qed.
End Defaults.

(* ------------------------------------------------------------------------ *)
(** ** Reachable configurations *)

Section Reachable.
Context `{ValidationEnv}.

(** One call from PHP, allowed or not, successful or not. *)
Inductive override_step (ps : list param) : config -> config -> Prop :=
| Override allowed arr cfg cfg' err :
    apply_userland_config ps allowed arr cfg = (cfg', err) -> override_step ps cfg cfg'.

Lemma override_step_ok ps cfg cfg' : table_wf ps ->
  override_step ps cfg cfg' -> config_ok ps cfg -> config_ok ps cfg'.
Proof.
  intros Hwf [allowed arr c c' err Ha] Hok. unfold apply_userland_config in Ha.
  destruct (negb allowed); [by simplify_eq|]. destruct arr as [| | | | | | |ht| | |]; simplify_eq; try done.
  pose proof (apply_entries_ok ps Hwf ht _ Hok) as Hres. by rewrite Ha in Hres.
Qed.
End Reachable.

(* ------------------------------------------------------------------------ *)
(** ** The properties *)

(** C28: Every validator of the sources accepts exactly the PHP values it is meant to, and
    stores exactly them: the value has the PHP type the check asks for and what is stored is
    that value ([stores]; of a string the part before its first NUL), and it is in the range,
    allow-list or format described by [check_post].  The first part covers the validators the
    modules use; the others are the list of colon-separated allowed tokens, compared with
    letter case, and the list of comma-separated numbers, in which blank entries are
    skipped. *)
Theorem validators_exact `{ValidationEnv} c z v : external c = false ->
  (run_check c z = Some v <-> stores c z v /\ check_post c v) /\
  (forall allowed, qp_validate_colon_separated_string_from_allowlist allowed z = Some v <->
     exists s, z = ZString s /\ v = CString (cstr s) /\
       Forall (fun t => exists a, a ∈ allowed /\ cstr t = cstr a) (strtok_r ":" s)) /\
  (qp_validate_comma_separated_numeric_string z = Some v <->
     exists s, z = ZString s /\ v = CString (cstr s) /\
       Forall (fun t => php_trim t = EmptyString \/ strtod_all (php_trim t) = true) (strtok_r "," s)).
Proof. intros Hx. split_and!; [by apply run_exact|intros; apply colon_exact|apply comma_numeric_exact]. Qed.

(** C4: In each of the twenty-two modules, whatever sequence of override calls PHP code
    makes, starting from the compiled-in defaults, every member keeps a value that
    satisfies the check of its key. *)
Theorem config_invariant `{ValidationEnv} ps defaults cfg :
  (ps, defaults) ∈ all_modules -> rtc (override_step ps) defaults cfg -> config_ok ps cfg.
Proof.
  intros Hm Hr. assert (Hwf : table_wf ps) by (exact (proj1 (Forall_forall _ _) all_tables_wf _ Hm)).
  assert (Hok : config_ok ps defaults) by (exact (proj1 (Forall_forall _ _) defaults_ok _ Hm)).
  clear Hm. induction Hr as [|c1 c2 c3 Hs _ IH]; [done|]. apply IH. by eapply override_step_ok.
Qed.

(** A member of a configuration changes only when the administrator allows
    overrides, and then only to the validated value of a key of the user's array that
    belongs to this member. *)
Theorem override_provenance `{ValidationEnv} ps allowed arr cfg m :
  (apply_userland_config ps allowed arr cfg).1 !! m <> cfg !! m ->
  allowed = true /\ exists ht p z v, arr = ZArray ht /\ p ∈ ps /\ p_member p = m /\
    (KStr (p_key p), z) ∈ ht /\ run_check (p_check p) z = Some v /\
    (apply_userland_config ps allowed arr cfg).1 !! m = Some v.
Proof.
  unfold apply_userland_config. destruct allowed; simpl; [|done]. intros Hne. split; [done|].
  destruct arr as [| | | | | | |ht| | |]; simpl in *; try done.
  destruct (apply_entries_provenance ps ht cfg m) as [?|(p & z & v & ? & ? & ? & ? & ?)]; [done|].
  exists ht, p, z, v. by split_and!.
Qed.

(** The two security switches of the security module, whether overrides are
    allowed and whether the admin API runs, cannot be changed from PHP. *)
Theorem security_switches_fixed `{ValidationEnv} allowed arr cfg m :
  m = "allow_config_override"%string \/ m = "admin_api_enable"%string ->
  (SecurityAndTraffic.qp_config_security_apply_userland_config allowed arr cfg).1 !! m = cfg !! m.
Proof.
  intros Hm. unfold SecurityAndTraffic.qp_config_security_apply_userland_config, apply_userland_config.
  destruct (negb allowed); [done|]. destruct arr as [| | | | | | |ht| | |]; try done.
  destruct (apply_entries_provenance SecurityAndTraffic.security_and_traffic_params ht cfg m)
    as [?|(p & z & v & Hp & Hpm & _)]; [done|].
  exfalso. unfold SecurityAndTraffic.security_and_traffic_params in Hp.
  rewrite !elem_of_cons, elem_of_nil in Hp.
  destruct Hm as [-> | ->]; destruct_or! Hp; subst p; discriminate Hpm || done.
Qed.

(** An override whose recognised values are all valid succeeds, gives every member
    the value of its key, keeps the members whose keys are absent and ignores unknown
    keys, in every module. *)
Theorem override_success `{ValidationEnv} ps defaults ht cfg :
  (ps, defaults) ∈ all_modules -> NoDup (ht_keys ht) -> all_valid ps ht ->
  exists cfg', apply_userland_config ps true (ZArray ht) cfg = (cfg', None) /\
  (forall p, p ∈ ps -> cfg' !! p_member p = member_after ht cfg p) /\
  (forall m, m ∉ map p_member ps -> cfg' !! m = cfg !! m).
Proof.
  intros Hm Hnd Hok. assert (Hwf : table_wf ps) by (exact (proj1 (Forall_forall _ _) all_tables_wf _ Hm)).
  by apply apply_entries_success.
Qed.

(** An override fails on a value exactly when some recognised key has a rejected
    value, and then everything before that key stays applied: overrides are not atomic. *)
Theorem override_failure_prefix `{ValidationEnv} ps ht cfg cfg' k :
  apply_userland_config ps true (ZArray ht) cfg = (cfg', Some (EInvalidValue k)) <->
  exists pre z post p, ht = pre ++ (KStr k, z) :: post /\ find_param ps k = Some p /\
    run_check (p_check p) z = None /\
    apply_userland_config ps true (ZArray pre) cfg = (cfg', None).
Proof. apply apply_entries_failure. Qed.

(** The range check on floating point values lets every NaN through, whatever the
    range is. *)
Theorem double_range_accepts_nan min max d :
  is_nan binary64 d = true -> qp_validate_double_range min max (ZDouble d) = Some (CDouble d).
Proof. intros Hn. unfold qp_validate_double_range. by rewrite double_ltb_nan_l, double_ltb_nan_r. Qed.

(* ------------------------------------------------------------------------ *)
(** ** Witnesses *)

Module ConfigDemo.
(** A concrete environment: only [/etc/hosts] is readable, URLs are [https] ones of
    host [h], numbers are digits. *)
Definition env : ValidationEnv := {|
  file_readable p := bool_decide (p = "/etc/hosts"%string);
  php_url_parse_ex s := Some (Some "https"%string, Some "h"%string);
  strtod_all := all_chars isdigit;
  qp_validate_non_empty_string z :=
    match z with ZString s => if decide (s = EmptyString) then None else Some (cstr s) | _ => None end;
  qp_validate_writable_file_path z := None;
|}.
#[export] Existing Instance env.

Definition quic := QuicTransport.quic_transport_params.
Definition quic_defaults := QuicTransport.qp_config_quic_transport_defaults_load.
Definition good : hashtable :=
  [(KStr "cc_algorithm", ZString "BBR"); (KInt 0, ZNull); (KStr "ping_interval_ms", ZLong 0)].
Definition bad : hashtable :=
  [(KStr "cc_algorithm", ZString "bbr"); (KStr "initial_max_data", ZLong 0)].

Lemma quic_module : (quic, quic_defaults) ∈ all_modules.
Proof. apply list_elem_of_In. unfold all_modules, quic, quic_defaults. do 12 right. left. reflexivity. Qed.
End ConfigDemo.
Import ConfigDemo.

Lemma validators_exact_witness :
  stores (CkAllowlist ["cubic"; "bbr"]%string) (ZString "BBR") (CString "BBR") /\
  check_post (CkAllowlist ["cubic"; "bbr"]%string) (CString "BBR").
Proof.
  apply (proj1 (validators_exact (CkAllowlist ["cubic"; "bbr"]%string) (ZString "BBR") (CString "BBR") eq_refl)).
  vm_compute. reflexivity.
Defined.

Lemma config_invariant_witness : config_ok quic
  (apply_userland_config quic true (ZArray bad) quic_defaults).1.
Proof.
  apply (config_invariant quic quic_defaults); [exact quic_module|].
  apply rtc_once. by eapply (Override quic true (ZArray bad)), surjective_pairing.
Defined.

Lemma override_provenance_witness : exists z v,
  run_check (CkAllowlist ["cubic"; "bbr"]%string) z = Some v /\
  (apply_userland_config quic true (ZArray good) quic_defaults).1 !! "cc_algorithm"%string = Some v.
Proof.
  destruct (override_provenance quic true (ZArray good) quic_defaults "cc_algorithm")
    as (_ & ht & p & z & v & [= <-] & Hp & Hm & Hin & Hr & Hv).
  - vm_compute. discriminate.
  - exists (ZString "BBR"), (CString "BBR"). split; vm_compute; reflexivity.
Defined.

Lemma security_switches_fixed_witness :
  (SecurityAndTraffic.qp_config_security_apply_userland_config true
     (ZArray [(KStr "allow_config_override", ZTrue)])
     SecurityAndTraffic.qp_config_security_defaults_load).1 !! "allow_config_override"%string
  = SecurityAndTraffic.qp_config_security_defaults_load !! "allow_config_override"%string.
Proof. apply security_switches_fixed. by left. Defined.

Lemma override_success_witness : exists cfg',
  apply_userland_config quic true (ZArray good) quic_defaults = (cfg', None).
Proof.
  destruct (override_success quic quic_defaults good quic_defaults) as (cfg' & He & _).
  - exact quic_module.
  - apply (bool_decide_unpack _). vm_compute. reflexivity.
  - intros p z Hp Hz. assert (forallb (fun p => match ht_find (KStr (p_key p)) good with
      | Some z => bool_decide (run_check (p_check p) z <> None) | None => true end) quic = true) as Hb
      by (vm_compute; reflexivity).
    rewrite forallb_forall in Hb. specialize (Hb p (proj1 (list_elem_of_In _ _) Hp)).
    rewrite Hz in Hb. by apply bool_decide_eq_true in Hb.
  - exists cfg'. exact He.
Defined.

Lemma double_range_accepts_nan_witness :
  qp_validate_double_range 0 0x3FF0000000000000 (ZDouble 0x7FF8000000000000)
  = Some (CDouble 0x7FF8000000000000).
Proof. apply double_range_accepts_nan. vm_compute. reflexivity. Defined.
