(* ===== verification/Ini.v ===== *)
(** * php.ini directives

    [extension/src/config/<module>/ini.c]: each module registers a table of directives; the
    engine hands the configured text, and the built-in text of the table if there is none or
    it is refused, to the directive's [OnUpdate] handler, which stores a value or refuses it
    and leaves the member alone.

    A handler is modelled by its kind.  Three kinds are not what they look like:
    - [IniAllowSized]: [zend_string_equals_literal(new_value, allowed[i])] takes the size of
      a pointer for the length of the literal, so only texts of seven characters can match;
    - [IniConfused]: the [zend_string] is passed to a validator that expects a [zval], so
      that a byte of its cached hash is read as the type tag;
    - [IniSelf]: [tcp_transport] and [tls_and_crypto] define static handlers under the names
      of the engine's [OnUpdateString] and [OnUpdateBool], whose only statement calls the
      function of that name, which is the handler itself.

    The engine's number parsing is the class [IniEnv].

    A value of a configuration is what its member reads as.  Who owns the text of a [char *]
    member is kept apart ([engine_members]): the engine's [OnUpdateString], which every text
    handler but the one for CORS ends with, stores a pointer into the engine's own string,
    and an override frees what the member points to before it stores its copy. *)

From Stdlib Require Import ZArith Lia String Ascii.
From stdpp Require Import base tactics list gmap strings pretty.
From S2P Require Import Prelude Ieee Zend Validation Config.

Local Open Scope Z_scope.

Inductive ini_kind :=
| IniBool
| IniString
| IniLong
| IniReal
| IniPositive
| IniNonNegative
| IniRange (min max : Z)
| IniRealRange (min max : Z)
| IniAllow (allowed : list string)
| IniAllowSized (allowed : list string)
| IniLiteral (allowed : list string)
| IniReadable
| IniShards
| IniCors
| IniConfused
| IniSelf.

Record ini_entry := Ini { i_name : string; i_default : string; i_member : string; i_kind : ini_kind }.

(** The engine: [zend_atol], [zend_ini_parse_bool], [zend_strtod], and the byte of a
    string's header that lies where a [zval] has its type tag. *)
Class IniEnv := {
  zend_atol : string -> Z;
  zend_ini_parse_bool : string -> bool;
  zend_strtod : string -> Z;
  type_byte : string -> Z;
  zend_atol_decimal : forall n, 0 <= n < 2 ^ 63 -> zend_atol (pretty n) = n;
  zend_ini_parse_bool_0 : zend_ini_parse_bool "0" = false;
  zend_ini_parse_bool_1 : zend_ini_parse_bool "1" = true;
}.

Definition IS_STRING : Z := 6.

(** [zend_string_equals_literal(s, p)] for a pointer [p]: [sizeof(p) - 1] is seven; the
    seven characters compared may reach the terminator of the literal. *)
Definition sized_equals (s lit : string) : bool :=
  bool_decide (String.length s = 7%nat)
  && bool_decide (s = String.substring 0 7 (lit ++ String Ascii.zero EmptyString)).

Section Handlers.
Context `{IniEnv} `{ValidationEnv}.

(** A handler: the stored value, a refusal, undefined behaviour, or no return. *)
Definition on_modify (k : ini_kind) (new_value : string) : outcome unit cvalue :=
  let long ok := let val := zend_atol new_value in if (ok val : bool) then Done (CLong val) else Failed tt in
  let text (ok : bool) := if ok then Done (CString (cstr new_value)) else Failed tt in
  match k with
  | IniBool => Done (CBool (zend_ini_parse_bool new_value))
  | IniString => text true
  | IniLong => long (fun _ => true)
  | IniReal => Done (CDouble (zend_strtod new_value))
  | IniPositive => long (fun val => negb (val <=? 0))
  | IniNonNegative => long (fun val => negb (val <? 0))
  | IniRange min max => long (fun val => negb ((val <? min) || (val >? max)))
  | IniRealRange min max =>
      let val := zend_strtod new_value in
      if double_ltb val min || double_ltb max val then Failed tt else Done (CDouble val)
  | IniAllow allowed => text (existsb (strcasecmp_eq new_value) allowed)
  | IniAllowSized allowed => text (existsb (sized_equals new_value) allowed)
  | IniLiteral allowed => text (existsb (fun a => bool_decide (new_value = a)) allowed)
  | IniReadable => text (negb ((0 <? String.length new_value)%nat && negb (file_readable (cstr new_value))))
  | IniShards => text (match scan_shards (cstr new_value) with
                       | Some (data_shards, d, parity_shards, p) =>
                           bool_decide (d = "d"%char) && bool_decide (p = "p"%char)
                           && negb (data_shards <=? 0) && negb (parity_shards <=? 0)
                       | None => false
                       end)
  | IniCors => text (strcmp_eq new_value "*" || forallb origin_token (strtok_r "," new_value))
  | IniConfused => if type_byte new_value =? IS_STRING then Undefined else Failed tt
  | IniSelf => NoFuel
  end.

(** The configured text of a directive, or its built-in text where there is none or the
    configured one is refused. *)
Definition modify_entry (php_ini : string -> option string) (e : ini_entry) : outcome unit cvalue :=
  match php_ini (i_name e) with
  | None => on_modify (i_kind e) (i_default e)
  | Some new_value =>
      match on_modify (i_kind e) new_value with
      | Failed _ => on_modify (i_kind e) (i_default e)
      | r => r
      end
  end.

(** [REGISTER_INI_ENTRIES]; a text that is refused leaves the member as it is.  (What the
    engine does with the exception the handler raised is not modelled.) *)
Fixpoint register_ini_entries (php_ini : string -> option string) (entries : list ini_entry)
    (cfg : config) : outcome unit config :=
  match entries with
  | [] => Done cfg
  | e :: entries' =>
      match modify_entry php_ini e with
      | Done v => register_ini_entries php_ini entries' (<[i_member e := v]> cfg)
      | Failed _ => register_ini_entries php_ini entries' cfg
      | Undefined => Undefined
      | NoFuel => NoFuel
      end
  end.

(** The members whose text belongs to the engine after the registration. *)
Definition engine_string (k : ini_kind) : bool :=
  match k with
  | IniString | IniAllow _ | IniAllowSized _ | IniLiteral _ | IniReadable | IniShards => true
  | _ => false
  end.
Definition engine_members (php_ini : string -> option string) (entries : list ini_entry) : list string :=
  omap (fun e => match modify_entry php_ini e with
                 | Done _ => if engine_string (i_kind e) then Some (i_member e) else None
                 | _ => None
                 end) entries.

(** The loop of [Config.apply_entries] with the [pefree] of the old text: one that lies
    inside a string of the engine was not allocated by [pemalloc]. *)
Fixpoint apply_entries_freeing (params : list param) (engine : list string) (ht : hashtable) (cfg : config)
  : outcome unit (config * option config_error) :=
  match ht with
  | [] => Done (cfg, None)
  | (KInt _, _) :: ht' => apply_entries_freeing params engine ht' cfg
  | (KStr key, value) :: ht' =>
      match find_param params key with
      | None => apply_entries_freeing params engine ht' cfg
      | Some p =>
          match run_check (p_check p) value with
          | None => Done (cfg, Some (EInvalidValue key))
          | Some (CString s) =>
              if bool_decide (p_member p ∈ engine) then Undefined
              else apply_entries_freeing params engine ht' (<[p_member p := CString s]> cfg)
          | Some v => apply_entries_freeing params engine ht' (<[p_member p := v]> cfg)
          end
      end
  end.

Definition apply_userland_freeing (params : list param) (engine : list string) (is_userland_override_allowed : bool)
    (config_arr : zval) (cfg : config) : outcome unit (config * option config_error) :=
  if negb is_userland_override_allowed then Done (cfg, Some EOverrideDisabled)
  else match config_arr with
       | ZArray ht => apply_entries_freeing params engine ht cfg
       | _ => Done (cfg, Some ENotArray)
       end.
End Handlers.
