(* ===== verification/IniModules.v ===== *)
(** * The directives and the start-up of the configuration modules

    Per module, the directive table of [extension/src/config/<module>/ini.c] in source
    order, and the [_init] function of its [index.c]: compiled-in defaults first, then the
    directives.  [quicpro_init_modules] of [extension/src/quicpro_init.c] runs the modules in
    their order; the [http2] and [semantic_geometry] modules are not among them. *)

From Stdlib Require Import ZArith String.
From stdpp Require Import base list gmap strings.
From S2P Require Import Prelude Zend Validation Config ConfigModules Ini.

Local Open Scope Z_scope.
Local Open Scope string_scope.

Definition app_http3_websockets_webtransport_ini : list ini_entry := [
  Ini "quicpro.http_advertise_h3_alt_svc" "1" "http_advertise_h3_alt_svc" IniBool;
  Ini "quicpro.http_auto_compress" "brotli,gzip" "http_auto_compress" IniString;
  Ini "quicpro.h3_max_header_list_size" "65536" "h3_max_header_list_size" IniPositive;
  Ini "quicpro.h3_qpack_max_table_capacity" "4096" "h3_qpack_max_table_capacity" IniPositive;
  Ini "quicpro.h3_qpack_blocked_streams" "100" "h3_qpack_blocked_streams" IniPositive;
  Ini "quicpro.h3_server_push_enable" "0" "h3_server_push_enable" IniBool;
  Ini "quicpro.http_enable_early_hints" "1" "http_enable_early_hints" IniBool;
  Ini "quicpro.websocket_default_max_payload_size" "16777216" "websocket_default_max_payload_size" IniPositive;
  Ini "quicpro.websocket_default_ping_interval_ms" "25000" "websocket_default_ping_interval_ms" IniPositive;
  Ini "quicpro.websocket_handshake_timeout_ms" "5000" "websocket_handshake_timeout_ms" IniPositive;
  Ini "quicpro.webtransport_enable" "1" "webtransport_enable" IniBool;
  Ini "quicpro.webtransport_max_concurrent_sessions" "10000" "webtransport_max_concurrent_sessions" IniPositive;
  Ini "quicpro.webtransport_max_streams_per_session" "256" "webtransport_max_streams_per_session" IniPositive].

Definition qp_config_app_http3_websockets_webtransport_init `{IniEnv} `{ValidationEnv} (php_ini : string -> option string) :=
  register_ini_entries php_ini app_http3_websockets_webtransport_ini AppHttp3WebsocketsWebtransport.qp_config_app_http3_websockets_webtransport_defaults_load.

Definition bare_metal_tuning_ini : list ini_entry := [
  Ini "quicpro.io_engine_use_uring" "1" "io_engine_use_uring" IniBool;
  Ini "quicpro.io_uring_sq_poll_ms" "0" "io_uring_sq_poll_ms" IniNonNegative;
  Ini "quicpro.io_max_batch_read_packets" "64" "io_max_batch_read_packets" IniPositive;
  Ini "quicpro.io_max_batch_write_packets" "64" "io_max_batch_write_packets" IniPositive;
  Ini "quicpro.socket_receive_buffer_size" "2097152" "socket_receive_buffer_size" IniPositive;
  Ini "quicpro.socket_send_buffer_size" "2097152" "socket_send_buffer_size" IniPositive;
  Ini "quicpro.socket_enable_busy_poll_us" "0" "socket_enable_busy_poll_us" IniNonNegative;
  Ini "quicpro.socket_enable_timestamping" "1" "socket_enable_timestamping" IniBool;
  Ini "quicpro.io_thread_cpu_affinity" "" "io_thread_cpu_affinity" IniConfused;
  Ini "quicpro.io_thread_numa_node_policy" "default" "io_thread_numa_node_policy" (IniAllow ["default"; "prefer"; "bind"; "interleave"])].

Definition qp_config_bare_metal_tuning_init `{IniEnv} `{ValidationEnv} (php_ini : string -> option string) :=
  register_ini_entries php_ini bare_metal_tuning_ini BareMetalTuning.qp_config_bare_metal_tuning_defaults_load.

Definition cloud_autoscale_ini : list ini_entry := [
  Ini "quicpro.cluster_autoscale_provider" "" "provider" (IniAllow ["aws"; "azure"; "hetzner"; "google_cloud"; "digitalocean"; ""]);
  Ini "quicpro.cluster_autoscale_region" "" "region" IniString;
  Ini "quicpro.cluster_autoscale_credentials_path" "" "credentials_path" IniString;
  Ini "quicpro.cluster_autoscale_min_nodes" "1" "min_nodes" IniPositive;
  Ini "quicpro.cluster_autoscale_max_nodes" "1" "max_nodes" IniPositive;
  Ini "quicpro.cluster_autoscale_scale_up_cpu_threshold_percent" "80" "scale_up_cpu_threshold_percent" (IniRange 0 100);
  Ini "quicpro.cluster_autoscale_scale_down_cpu_threshold_percent" "20" "scale_down_cpu_threshold_percent" (IniRange 0 100);
  Ini "quicpro.cluster_autoscale_scale_up_policy" "add_nodes:1" "scale_up_policy" IniString;
  Ini "quicpro.cluster_autoscale_cooldown_period_sec" "300" "cooldown_period_sec" IniPositive;
  Ini "quicpro.cluster_autoscale_idle_node_timeout_sec" "600" "idle_node_timeout_sec" IniPositive;
  Ini "quicpro.cluster_autoscale_instance_type" "" "instance_type" IniString;
  Ini "quicpro.cluster_autoscale_instance_image_id" "" "instance_image_id" IniString;
  Ini "quicpro.cluster_autoscale_network_config" "" "network_config" IniString;
  Ini "quicpro.cluster_autoscale_instance_tags" "" "instance_tags" IniString].

Definition qp_config_cloud_autoscale_init `{IniEnv} `{ValidationEnv} (php_ini : string -> option string) :=
  register_ini_entries php_ini cloud_autoscale_ini CloudAutoscale.qp_config_cloud_autoscale_defaults_load.

Definition cluster_and_process_ini : list ini_entry := [
  Ini "quicpro.cluster_workers" "0" "cluster_workers" IniNonNegative;
  Ini "quicpro.cluster_graceful_shutdown_ms" "30000" "cluster_graceful_shutdown_ms" IniNonNegative;
  Ini "quicpro.server_max_fd_per_worker" "8192" "server_max_fd_per_worker" IniNonNegative;
  Ini "quicpro.cluster_restart_crashed_workers" "1" "cluster_restart_crashed_workers" IniBool;
  Ini "quicpro.cluster_max_restarts_per_worker" "10" "cluster_max_restarts_per_worker" IniNonNegative;
  Ini "quicpro.cluster_restart_interval_sec" "60" "cluster_restart_interval_sec" IniNonNegative;
  Ini "quicpro.cluster_worker_niceness" "0" "cluster_worker_niceness" IniLong;
  Ini "quicpro.cluster_worker_scheduler_policy" "other" "cluster_worker_scheduler_policy" IniString;
  Ini "quicpro.cluster_worker_cpu_affinity_map" "" "cluster_worker_cpu_affinity_map" IniString;
  Ini "quicpro.cluster_worker_cgroup_path" "" "cluster_worker_cgroup_path" IniString;
  Ini "quicpro.cluster_worker_user_id" "" "cluster_worker_user_id" IniString;
  Ini "quicpro.cluster_worker_group_id" "" "cluster_worker_group_id" IniString].

Definition qp_config_cluster_and_process_init `{IniEnv} `{ValidationEnv} (php_ini : string -> option string) :=
  register_ini_entries php_ini cluster_and_process_ini ClusterAndProcess.qp_config_cluster_and_process_defaults_load.

Definition dynamic_admin_api_ini : list ini_entry := [
  Ini "quicpro.admin_api_bind_host" "127.0.0.1" "bind_host" IniString;
  Ini "quicpro.admin_api_port" "2019" "port" (IniRange 1024 65535);
  Ini "quicpro.admin_api_auth_mode" "mtls" "auth_mode" (IniAllow ["mtls"]);
  Ini "quicpro.admin_api_ca_file" "" "ca_file" IniReadable;
  Ini "quicpro.admin_api_cert_file" "" "cert_file" IniReadable;
  Ini "quicpro.admin_api_key_file" "" "key_file" IniReadable].

Definition qp_config_dynamic_admin_api_init `{IniEnv} `{ValidationEnv} (php_ini : string -> option string) :=
  register_ini_entries php_ini dynamic_admin_api_ini DynamicAdminApi.qp_config_dynamic_admin_api_defaults_load.

Definition high_perf_compute_and_ai_ini : list ini_entry := [
  Ini "quicpro.dataframe_enable" "1" "dataframe_enable" IniBool;
  Ini "quicpro.dataframe_memory_limit_mb" "1024" "dataframe_memory_limit_mb" IniPositive;
  Ini "quicpro.dataframe_string_interning_enable" "1" "dataframe_string_interning_enable" IniBool;
  Ini "quicpro.dataframe_cpu_parallelism_default" "0" "dataframe_cpu_parallelism_default" IniLong;
  Ini "quicpro.gpu_bindings_enable" "0" "gpu_bindings_enable" IniBool;
  Ini "quicpro.gpu_default_backend" "auto" "gpu_default_backend" (IniAllow ["auto"; "cuda"; "rocm"; "sycl"]);
  Ini "quicpro.worker_gpu_affinity_map" "" "worker_gpu_affinity_map" IniString;
  Ini "quicpro.gpu_memory_preallocation_mb" "2048" "gpu_memory_preallocation_mb" IniPositive;
  Ini "quicpro.gpu_p2p_enable" "1" "gpu_p2p_enable" IniBool;
  Ini "quicpro.storage_enable_directstorage" "0" "storage_enable_directstorage" IniBool;
  Ini "quicpro.cuda_enable_tensor_cores" "1" "cuda_enable_tensor_cores" IniBool;
  Ini "quicpro.cuda_stream_pool_size" "4" "cuda_stream_pool_size" IniPositive;
  Ini "quicpro.rocm_enable_gfx_optimizations" "1" "rocm_enable_gfx_optimizations" IniBool;
  Ini "quicpro.arc_enable_xmx_optimizations" "1" "arc_enable_xmx_optimizations" IniBool;
  Ini "quicpro.arc_video_acceleration_enable" "1" "arc_video_acceleration_enable" IniBool].

Definition qp_config_high_perf_compute_and_ai_init `{IniEnv} `{ValidationEnv} (php_ini : string -> option string) :=
  register_ini_entries php_ini high_perf_compute_and_ai_ini HighPerfComputeAndAi.qp_config_high_perf_compute_and_ai_defaults_load.

Definition http2_ini : list ini_entry := [
  Ini "quicpro.http2_enable" "1" "enable" IniBool;
  Ini "quicpro.http2_initial_window_size" "65535" "initial_window_size" IniPositive;
  Ini "quicpro.http2_max_concurrent_streams" "100" "max_concurrent_streams" IniPositive;
  Ini "quicpro.http2_max_header_list_size" "0" "max_header_list_size" IniLong;
  Ini "quicpro.http2_enable_push" "1" "enable_push" IniBool;
  Ini "quicpro.http2_max_frame_size" "16384" "max_frame_size" (IniRange 16384 16777215)].

Definition qp_config_http2_init `{IniEnv} `{ValidationEnv} (php_ini : string -> option string) :=
  register_ini_entries php_ini http2_ini Http2.qp_config_http2_defaults_load.

Definition iibin_ini : list ini_entry := [
  Ini "quicpro.iibin_max_schema_fields" "256" "max_schema_fields" IniPositive;
  Ini "quicpro.iibin_max_recursion_depth" "32" "max_recursion_depth" IniPositive;
  Ini "quicpro.iibin_string_interning_enable" "1" "string_interning_enable" IniBool;
  Ini "quicpro.io_use_shared_memory_buffers" "0" "use_shared_memory_buffers" IniBool;
  Ini "quicpro.io_default_buffer_size_kb" "64" "default_buffer_size_kb" IniPositive;
  Ini "quicpro.io_shm_total_memory_mb" "256" "shm_total_memory_mb" IniPositive;
  Ini "quicpro.io_shm_path" "/quicpro_io_shm" "shm_path" IniString].

Definition qp_config_iibin_init `{IniEnv} `{ValidationEnv} (php_ini : string -> option string) :=
  register_ini_entries php_ini iibin_ini Iibin.qp_config_iibin_defaults_load.

Definition mcp_and_orchestrator_ini : list ini_entry := [
  Ini "quicpro.mcp_default_request_timeout_ms" "30000" "mcp_default_request_timeout_ms" IniPositive;
  Ini "quicpro.mcp_max_message_size_bytes" "4194304" "mcp_max_message_size_bytes" IniPositive;
  Ini "quicpro.mcp_default_retry_policy_enable" "1" "mcp_default_retry_policy_enable" IniBool;
  Ini "quicpro.mcp_default_retry_max_attempts" "3" "mcp_default_retry_max_attempts" IniPositive;
  Ini "quicpro.mcp_default_retry_backoff_ms_initial" "100" "mcp_default_retry_backoff_ms_initial" IniPositive;
  Ini "quicpro.mcp_enable_request_caching" "0" "mcp_enable_request_caching" IniBool;
  Ini "quicpro.mcp_request_cache_ttl_sec" "60" "mcp_request_cache_ttl_sec" IniPositive;
  Ini "quicpro.orchestrator_default_pipeline_timeout_ms" "120000" "orchestrator_default_pipeline_timeout_ms" IniPositive;
  Ini "quicpro.orchestrator_max_recursion_depth" "10" "orchestrator_max_recursion_depth" IniPositive;
  Ini "quicpro.orchestrator_loop_concurrency_default" "50" "orchestrator_loop_concurrency_default" IniPositive;
  Ini "quicpro.orchestrator_enable_distributed_tracing" "1" "orchestrator_enable_distributed_tracing" IniBool].

Definition qp_config_mcp_and_orchestrator_init `{IniEnv} `{ValidationEnv} (php_ini : string -> option string) :=
  register_ini_entries php_ini mcp_and_orchestrator_ini McpAndOrchestrator.qp_config_mcp_and_orchestrator_defaults_load.

Definition native_cdn_ini : list ini_entry := [
  Ini "quicpro.cdn_enable" "0" "enable" IniBool;
  Ini "quicpro.cdn_cache_mode" "disk" "cache_mode" (IniAllow ["memory"; "disk"; "hybrid"]);
  Ini "quicpro.cdn_cache_memory_limit_mb" "512" "cache_memory_limit_mb" IniPositive;
  Ini "quicpro.cdn_cache_disk_path" "/var/cache/quicpro_cdn" "cache_disk_path" IniString;
  Ini "quicpro.cdn_cache_default_ttl_sec" "86400" "cache_default_ttl_sec" IniPositive;
  Ini "quicpro.cdn_cache_max_object_size_mb" "1024" "cache_max_object_size_mb" IniPositive;
  Ini "quicpro.cdn_cache_respect_origin_headers" "1" "cache_respect_origin_headers" IniBool;
  Ini "quicpro.cdn_cache_vary_on_headers" "Accept-Encoding" "cache_vary_on_headers" IniString;
  Ini "quicpro.cdn_origin_mcp_endpoint" "" "origin_mcp_endpoint" IniString;
  Ini "quicpro.cdn_origin_http_endpoint" "" "origin_http_endpoint" IniString;
  Ini "quicpro.cdn_origin_request_timeout_ms" "15000" "origin_request_timeout_ms" IniPositive;
  Ini "quicpro.cdn_serve_stale_on_error" "1" "serve_stale_on_error" IniBool;
  Ini "quicpro.cdn_response_headers_to_add" "X-Cache-Status: HIT" "response_headers_to_add" IniString;
  Ini "quicpro.cdn_allowed_http_methods" "GET,HEAD" "allowed_http_methods" IniString].

Definition qp_config_native_cdn_init `{IniEnv} `{ValidationEnv} (php_ini : string -> option string) :=
  register_ini_entries php_ini native_cdn_ini NativeCdn.qp_config_native_cdn_defaults_load.

Definition native_object_store_ini : list ini_entry := [
  Ini "quicpro.storage_enable" "0" "enable" IniBool;
  Ini "quicpro.storage_s3_api_compat_enable" "0" "s3_api_compat_enable" IniBool;
  Ini "quicpro.storage_versioning_enable" "1" "versioning_enable" IniBool;
  Ini "quicpro.storage_allow_anonymous_access" "0" "allow_anonymous_access" IniBool;
  Ini "quicpro.storage_default_redundancy_mode" "erasure_coding" "default_redundancy_mode" (IniAllow ["erasure_coding"; "replication"]);
  Ini "quicpro.storage_erasure_coding_shards" "8d4p" "erasure_coding_shards" IniShards;
  Ini "quicpro.storage_default_replication_factor" "3" "default_replication_factor" IniPositive;
  Ini "quicpro.storage_default_chunk_size_mb" "64" "default_chunk_size_mb" IniPositive;
  Ini "quicpro.storage_metadata_agent_uri" "127.0.0.1:9701" "metadata_agent_uri" IniString;
  Ini "quicpro.storage_node_discovery_mode" "static" "node_discovery_mode" (IniAllow ["static"; "mcp_heartbeat"]);
  Ini "quicpro.storage_node_static_list" "127.0.0.1:9711,127.0.0.1:9712" "node_static_list" IniString;
  Ini "quicpro.storage_metadata_cache_enable" "1" "metadata_cache_enable" IniBool;
  Ini "quicpro.storage_metadata_cache_ttl_sec" "60" "metadata_cache_ttl_sec" IniPositive;
  Ini "quicpro.storage_enable_directstorage" "0" "enable_directstorage" IniBool].

Definition qp_config_native_object_store_init `{IniEnv} `{ValidationEnv} (php_ini : string -> option string) :=
  register_ini_entries php_ini native_object_store_ini NativeObjectStore.qp_config_native_object_store_defaults_load.

Definition open_telemetry_ini : list ini_entry := [
  Ini "quicpro.otel_enable" "1" "enable" IniBool;
  Ini "quicpro.otel_service_name" "quicpro_application" "service_name" IniString;
  Ini "quicpro.otel_exporter_endpoint" "http://localhost:4317" "exporter_endpoint" IniString;
  Ini "quicpro.otel_exporter_protocol" "grpc" "exporter_protocol" (IniAllow ["grpc"; "http/protobuf"]);
  Ini "quicpro.otel_exporter_timeout_ms" "10000" "exporter_timeout_ms" IniPositive;
  Ini "quicpro.otel_exporter_headers" "" "exporter_headers" IniString;
  Ini "quicpro.otel_batch_processor_max_queue_size" "2048" "batch_processor_max_queue_size" IniPositive;
  Ini "quicpro.otel_batch_processor_schedule_delay_ms" "5000" "batch_processor_schedule_delay_ms" IniPositive;
  Ini "quicpro.otel_traces_sampler_type" "parent_based_probability" "traces_sampler_type" (IniAllow ["parent_based_probability"; "always_on"; "always_off"]);
  Ini "quicpro.otel_traces_sampler_ratio" "1.0" "traces_sampler_ratio" (IniRealRange 0 0x3FF0000000000000);
  Ini "quicpro.otel_traces_max_attributes_per_span" "128" "traces_max_attributes_per_span" IniPositive;
  Ini "quicpro.otel_metrics_enable" "1" "metrics_enable" IniBool;
  Ini "quicpro.otel_metrics_export_interval_ms" "60000" "metrics_export_interval_ms" IniPositive;
  Ini "quicpro.otel_metrics_default_histogram_boundaries" "0,5,10,25,50,75,100,250,500,1000" "metrics_default_histogram_boundaries" IniConfused;
  Ini "quicpro.otel_logs_enable" "0" "logs_enable" IniBool;
  Ini "quicpro.otel_logs_exporter_batch_size" "512" "logs_exporter_batch_size" IniPositive].

Definition qp_config_open_telemetry_init `{IniEnv} `{ValidationEnv} (php_ini : string -> option string) :=
  register_ini_entries php_ini open_telemetry_ini OpenTelemetry.qp_config_open_telemetry_defaults_load.

Definition quic_transport_ini : list ini_entry := [
  Ini "quicpro.transport_cc_algorithm" "cubic" "cc_algorithm" (IniAllow ["cubic"; "bbr"]);
  Ini "quicpro.transport_cc_initial_cwnd_packets" "32" "cc_initial_cwnd_packets" IniPositive;
  Ini "quicpro.transport_cc_min_cwnd_packets" "4" "cc_min_cwnd_packets" IniPositive;
  Ini "quicpro.transport_cc_enable_hystart_plus_plus" "1" "cc_enable_hystart_plus_plus" IniBool;
  Ini "quicpro.transport_pacing_enable" "1" "pacing_enable" IniBool;
  Ini "quicpro.transport_pacing_max_burst_packets" "10" "pacing_max_burst_packets" IniPositive;
  Ini "quicpro.transport_max_ack_delay_ms" "25" "max_ack_delay_ms" IniNonNegative;
  Ini "quicpro.transport_ack_delay_exponent" "3" "ack_delay_exponent" (IniRange 0 20);
  Ini "quicpro.transport_pto_timeout_ms_initial" "1000" "pto_timeout_ms_initial" IniPositive;
  Ini "quicpro.transport_pto_timeout_ms_max" "60000" "pto_timeout_ms_max" IniPositive;
  Ini "quicpro.transport_max_pto_probes" "5" "max_pto_probes" IniPositive;
  Ini "quicpro.transport_ping_interval_ms" "15000" "ping_interval_ms" IniNonNegative;
  Ini "quicpro.transport_initial_max_data" "10485760" "initial_max_data" IniPositive;
  Ini "quicpro.transport_initial_max_stream_data_bidi_local" "1048576" "initial_max_stream_data_bidi_local" IniPositive;
  Ini "quicpro.transport_initial_max_stream_data_bidi_remote" "1048576" "initial_max_stream_data_bidi_remote" IniPositive;
  Ini "quicpro.transport_initial_max_stream_data_uni" "1048576" "initial_max_stream_data_uni" IniPositive;
  Ini "quicpro.transport_initial_max_streams_bidi" "100" "initial_max_streams_bidi" IniPositive;
  Ini "quicpro.transport_initial_max_streams_uni" "100" "initial_max_streams_uni" IniPositive;
  Ini "quicpro.transport_active_connection_id_limit" "8" "active_connection_id_limit" IniPositive;
  Ini "quicpro.transport_stateless_retry_enable" "0" "stateless_retry_enable" IniBool;
  Ini "quicpro.transport_grease_enable" "1" "grease_enable" IniBool;
  Ini "quicpro.transport_datagrams_enable" "1" "datagrams_enable" IniBool;
  Ini "quicpro.transport_dgram_recv_queue_len" "1024" "dgram_recv_queue_len" IniPositive;
  Ini "quicpro.transport_dgram_send_queue_len" "1024" "dgram_send_queue_len" IniPositive].

Definition qp_config_quic_transport_init `{IniEnv} `{ValidationEnv} (php_ini : string -> option string) :=
  register_ini_entries php_ini quic_transport_ini QuicTransport.qp_config_quic_transport_defaults_load.

Definition router_and_loadbalancer_ini : list ini_entry := [
  Ini "quicpro.router_mode_enable" "0" "router_mode_enable" IniBool;
  Ini "quicpro.router_hashing_algorithm" "consistent_hash" "hashing_algorithm" (IniAllow ["consistent_hash"; "round_robin"]);
  Ini "quicpro.router_connection_id_entropy_salt" "change-this-to-a-long-random-string-in-production" "connection_id_entropy_salt" IniString;
  Ini "quicpro.router_backend_discovery_mode" "static" "backend_discovery_mode" (IniAllow ["static"; "mcp"]);
  Ini "quicpro.router_backend_static_list" "127.0.0.1:8443" "backend_static_list" IniString;
  Ini "quicpro.router_backend_mcp_endpoint" "127.0.0.1:9998" "backend_mcp_endpoint" IniString;
  Ini "quicpro.router_backend_mcp_poll_interval_sec" "10" "backend_mcp_poll_interval_sec" IniPositive;
  Ini "quicpro.router_max_forwarding_pps" "1000000" "max_forwarding_pps" IniPositive].

Definition qp_config_router_and_loadbalancer_init `{IniEnv} `{ValidationEnv} (php_ini : string -> option string) :=
  register_ini_entries php_ini router_and_loadbalancer_ini RouterAndLoadbalancer.qp_config_router_and_loadbalancer_defaults_load.

Definition security_and_traffic_ini : list ini_entry := [
  Ini "quicpro.security_allow_config_override" "0" "allow_config_override" IniBool;
  Ini "quicpro.admin_api_enable" "0" "admin_api_enable" IniBool;
  Ini "quicpro.security_rate_limiter_enable" "1" "rate_limiter_enable" IniBool;
  Ini "quicpro.security_rate_limiter_requests_per_sec" "100" "rate_limiter_requests_per_sec" IniNonNegative;
  Ini "quicpro.security_rate_limiter_burst" "50" "rate_limiter_burst" IniNonNegative;
  Ini "quicpro.security_cors_allowed_origins" "*" "cors_allowed_origins" IniCors].

Definition qp_config_security_and_traffic_init `{IniEnv} `{ValidationEnv} (php_ini : string -> option string) :=
  register_ini_entries php_ini security_and_traffic_ini SecurityAndTraffic.qp_config_security_defaults_load.

Definition semantic_geometry_ini : list ini_entry := [
  Ini "quicpro.geometry_default_vector_dimensions" "768" "default_vector_dimensions" IniLong;
  Ini "quicpro.geometry_calculation_precision" "float64" "calculation_precision" IniString;
  Ini "quicpro.geometry_convex_hull_algorithm" "qhull" "convex_hull_algorithm" IniString;
  Ini "quicpro.geometry_point_in_polytope_algorithm" "ray_casting" "point_in_polytope_algorithm" IniString;
  Ini "quicpro.geometry_hausdorff_distance_algorithm" "exact" "hausdorff_distance_algorithm" IniString;
  Ini "quicpro.geometry_spiral_search_step_size" "0.1" "spiral_search_step_size" IniReal;
  Ini "quicpro.geometry_core_consolidation_threshold" "0.95" "core_consolidation_threshold" IniReal].

Definition qp_config_semantic_geometry_init `{IniEnv} `{ValidationEnv} (php_ini : string -> option string) :=
  register_ini_entries php_ini semantic_geometry_ini SemanticGeometry.qp_config_semantic_geometry_defaults_load.

Definition smart_contracts_ini : list ini_entry := [
  Ini "quicpro.smartcontract_enable" "0" "smartcontract_enable" IniBool;
  Ini "quicpro.smartcontract_registry_uri" "https://contracts.quicpro.internal" "registry_uri" IniString;
  Ini "quicpro.smartcontract_dlt_provider" "ethereum" "dlt_provider" (IniAllowSized ["ethereum"; "solana"; "fabric"]);
  Ini "quicpro.smartcontract_dlt_rpc_endpoint" "" "dlt_rpc_endpoint" IniString;
  Ini "quicpro.smartcontract_chain_id" "1" "chain_id" IniPositive;
  Ini "quicpro.smartcontract_default_gas_limit" "300000" "default_gas_limit" IniPositive;
  Ini "quicpro.smartcontract_default_gas_price_gwei" "20" "default_gas_price_gwei" IniPositive;
  Ini "quicpro.smartcontract_default_wallet_path" "" "default_wallet_path" IniString;
  Ini "quicpro.smartcontract_default_wallet_password_env_var" "QUICPRO_WALLET_PASSWORD" "default_wallet_password_env_var" IniString;
  Ini "quicpro.smartcontract_use_hardware_wallet" "0" "use_hardware_wallet" IniBool;
  Ini "quicpro.smartcontract_hsm_pkcs11_library_path" "/usr/lib/x86_64-linux-gnu/softhsm/libsofthsm2.so" "hsm_pkcs11_library_path" IniString;
  Ini "quicpro.smartcontract_abi_directory" "/var/www/abis" "abi_directory" IniString;
  Ini "quicpro.smartcontract_event_listener_enable" "0" "event_listener_enable" IniBool].

Definition qp_config_smart_contracts_init `{IniEnv} `{ValidationEnv} (php_ini : string -> option string) :=
  register_ini_entries php_ini smart_contracts_ini SmartContracts.qp_config_smart_contracts_defaults_load.

Definition smart_dns_ini : list ini_entry := [
  Ini "quicpro.dns_server_enable" "0" "dns_server_enable" IniBool;
  Ini "quicpro.dns_server_bind_host" "0.0.0.0" "dns_server_bind_host" IniString;
  Ini "quicpro.dns_server_port" "53" "dns_server_port" IniPositive;
  Ini "quicpro.dns_server_enable_tcp" "1" "dns_server_enable_tcp" IniBool;
  Ini "quicpro.dns_default_record_ttl_sec" "60" "dns_default_record_ttl_sec" IniPositive;
  Ini "quicpro.dns_mode" "service_discovery" "dns_mode" (IniAllowSized ["authoritative"; "recursive_resolver"; "service_discovery"]);
  Ini "quicpro.dns_static_zone_file_path" "/etc/quicpro/dns/zones.db" "dns_static_zone_file_path" IniString;
  Ini "quicpro.dns_recursive_forwarders" "" "dns_recursive_forwarders" IniString;
  Ini "quicpro.dns_health_agent_mcp_endpoint" "127.0.0.1:9998" "dns_health_agent_mcp_endpoint" IniString;
  Ini "quicpro.dns_service_discovery_max_ips_per_response" "8" "dns_service_discovery_max_ips_per_response" IniPositive;
  Ini "quicpro.dns_enable_dnssec_validation" "1" "dns_enable_dnssec_validation" IniBool;
  Ini "quicpro.dns_edns_udp_payload_size" "1232" "dns_edns_udp_payload_size" IniPositive;
  Ini "quicpro.dns_semantic_mode_enable" "0" "dns_semantic_mode_enable" IniBool;
  Ini "quicpro.dns_mothernode_uri" "" "dns_mothernode_uri" IniString;
  Ini "quicpro.dns_mothernode_sync_interval_sec" "86400" "dns_mothernode_sync_interval_sec" IniPositive].

Definition qp_config_smart_dns_init `{IniEnv} `{ValidationEnv} (php_ini : string -> option string) :=
  register_ini_entries php_ini smart_dns_ini SmartDns.qp_config_smart_dns_defaults_load.

Definition ssh_over_quic_ini : list ini_entry := [
  Ini "quicpro.ssh_gateway_enable" "0" "gateway_enable" IniBool;
  Ini "quicpro.ssh_gateway_listen_host" "0.0.0.0" "listen_host" IniString;
  Ini "quicpro.ssh_gateway_listen_port" "2222" "listen_port" IniPositive;
  Ini "quicpro.ssh_gateway_default_target_host" "127.0.0.1" "default_target_host" IniString;
  Ini "quicpro.ssh_gateway_default_target_port" "22" "default_target_port" IniPositive;
  Ini "quicpro.ssh_gateway_target_connect_timeout_ms" "5000" "target_connect_timeout_ms" IniPositive;
  Ini "quicpro.ssh_gateway_auth_mode" "mtls" "gateway_auth_mode" (IniAllowSized ["mtls"; "mcp_token"]);
  Ini "quicpro.ssh_gateway_mcp_auth_agent_uri" "" "mcp_auth_agent_uri" IniString;
  Ini "quicpro.ssh_gateway_target_mapping_mode" "static" "target_mapping_mode" (IniAllowSized ["static"; "user_profile"]);
  Ini "quicpro.ssh_gateway_user_profile_agent_uri" "" "user_profile_agent_uri" IniString;
  Ini "quicpro.ssh_gateway_idle_timeout_sec" "1800" "idle_timeout_sec" IniPositive;
  Ini "quicpro.ssh_gateway_log_session_activity" "1" "log_session_activity" IniBool].

Definition qp_config_ssh_over_quic_init `{IniEnv} `{ValidationEnv} (php_ini : string -> option string) :=
  register_ini_entries php_ini ssh_over_quic_ini SshOverQuic.qp_config_ssh_over_quic_defaults_load.

Definition state_management_ini : list ini_entry := [
  Ini "quicpro.state_manager_default_backend" "memory" "default_backend" (IniAllowSized ["memory"; "sqlite"; "redis"; "postgres"]);
  Ini "quicpro.state_manager_default_uri" "" "default_uri" IniString].

Definition qp_config_state_management_init `{IniEnv} `{ValidationEnv} (php_ini : string -> option string) :=
  register_ini_entries php_ini state_management_ini StateManagement.qp_config_state_management_defaults_load.

Definition tcp_transport_ini : list ini_entry := [
  Ini "quicpro.tcp_enable" "1" "tcp_enable" IniBool;
  Ini "quicpro.tcp_max_connections" "10240" "tcp_max_connections" IniPositive;
  Ini "quicpro.tcp_connect_timeout_ms" "5000" "tcp_connect_timeout_ms" IniPositive;
  Ini "quicpro.tcp_listen_backlog" "511" "tcp_listen_backlog" IniPositive;
  Ini "quicpro.tcp_reuse_port_enable" "1" "tcp_reuse_port_enable" IniBool;
  Ini "quicpro.tcp_nodelay_enable" "0" "tcp_nodelay_enable" IniBool;
  Ini "quicpro.tcp_cork_enable" "0" "tcp_cork_enable" IniBool;
  Ini "quicpro.tcp_keepalive_enable" "1" "tcp_keepalive_enable" IniBool;
  Ini "quicpro.tcp_keepalive_time_sec" "7200" "tcp_keepalive_time_sec" IniPositive;
  Ini "quicpro.tcp_keepalive_interval_sec" "75" "tcp_keepalive_interval_sec" IniPositive;
  Ini "quicpro.tcp_keepalive_probes" "9" "tcp_keepalive_probes" IniPositive;
  Ini "quicpro.tcp_tls_min_version_allowed" "TLSv1.2" "tcp_tls_min_version_allowed" (IniLiteral ["TLSv1.2"; "TLSv1.3"]);
  Ini "quicpro.tcp_tls_ciphers_tls12" "ECDHE-ECDSA-AES128-GCM-SHA256:ECDHE-RSA-AES128-GCM-SHA256:ECDHE-ECDSA-AES256-GCM-SHA384" "tcp_tls_ciphers_tls12" IniSelf].

Definition qp_config_tcp_transport_init `{IniEnv} `{ValidationEnv} (php_ini : string -> option string) :=
  register_ini_entries php_ini tcp_transport_ini TcpTransport.qp_config_tcp_transport_defaults_load.

Definition tls_and_crypto_ini : list ini_entry := [
  Ini "quicpro.tls_verify_peer" "1" "tls_verify_peer" IniSelf;
  Ini "quicpro.tls_verify_depth" "10" "tls_verify_depth" IniPositive;
  Ini "quicpro.tls_default_ca_file" "" "tls_default_ca_file" IniString;
  Ini "quicpro.tls_default_cert_file" "" "tls_default_cert_file" IniString;
  Ini "quicpro.tls_default_key_file" "" "tls_default_key_file" IniString;
  Ini "quicpro.tls_ticket_key_file" "" "tls_ticket_key_file" IniString;
  Ini "quicpro.tls_ciphers_tls13" "TLS_AES_128_GCM_SHA256:TLS_AES_256_GCM_SHA384:TLS_CHACHA20_POLY1305_SHA256" "tls_ciphers_tls13" IniString;
  Ini "quicpro.tls_curves" "P-256:X25519" "tls_curves" IniString;
  Ini "quicpro.tls_session_ticket_lifetime_sec" "7200" "tls_session_ticket_lifetime_sec" IniPositive;
  Ini "quicpro.tls_enable_early_data" "0" "tls_enable_early_data" IniSelf;
  Ini "quicpro.tls_server_0rtt_cache_size" "100000" "tls_server_0rtt_cache_size" IniPositive;
  Ini "quicpro.tls_enable_ocsp_stapling" "1" "tls_enable_ocsp_stapling" IniSelf;
  Ini "quicpro.tls_enable_ech" "0" "tls_enable_ech" IniSelf;
  Ini "quicpro.tls_require_ct_policy" "0" "tls_require_ct_policy" IniSelf;
  Ini "quicpro.tls_disable_sni_validation" "0" "tls_disable_sni_validation" IniSelf;
  Ini "quicpro.transport_disable_encryption" "0" "transport_disable_encryption" IniSelf].

Definition qp_config_tls_crypto_init `{IniEnv} `{ValidationEnv} (php_ini : string -> option string) :=
  register_ini_entries php_ini tls_and_crypto_ini TlsAndCrypto.qp_config_tls_crypto_defaults_load.

(** Every module: keys, directives, defaults. *)
Definition ini_modules : list (list param * list ini_entry * config) := [
  (AppHttp3WebsocketsWebtransport.app_http3_websockets_webtransport_params, app_http3_websockets_webtransport_ini,
   AppHttp3WebsocketsWebtransport.qp_config_app_http3_websockets_webtransport_defaults_load);
  (BareMetalTuning.bare_metal_tuning_params, bare_metal_tuning_ini,
   BareMetalTuning.qp_config_bare_metal_tuning_defaults_load);
  (CloudAutoscale.cloud_autoscale_params, cloud_autoscale_ini,
   CloudAutoscale.qp_config_cloud_autoscale_defaults_load);
  (ClusterAndProcess.cluster_and_process_params, cluster_and_process_ini,
   ClusterAndProcess.qp_config_cluster_and_process_defaults_load);
  (DynamicAdminApi.dynamic_admin_api_params, dynamic_admin_api_ini,
   DynamicAdminApi.qp_config_dynamic_admin_api_defaults_load);
  (HighPerfComputeAndAi.high_perf_compute_and_ai_params, high_perf_compute_and_ai_ini,
   HighPerfComputeAndAi.qp_config_high_perf_compute_and_ai_defaults_load);
  (Http2.http2_params, http2_ini,
   Http2.qp_config_http2_defaults_load);
  (Iibin.iibin_params, iibin_ini,
   Iibin.qp_config_iibin_defaults_load);
  (McpAndOrchestrator.mcp_and_orchestrator_params, mcp_and_orchestrator_ini,
   McpAndOrchestrator.qp_config_mcp_and_orchestrator_defaults_load);
  (NativeCdn.native_cdn_params, native_cdn_ini,
   NativeCdn.qp_config_native_cdn_defaults_load);
  (NativeObjectStore.native_object_store_params, native_object_store_ini,
   NativeObjectStore.qp_config_native_object_store_defaults_load);
  (OpenTelemetry.open_telemetry_params, open_telemetry_ini,
   OpenTelemetry.qp_config_open_telemetry_defaults_load);
  (QuicTransport.quic_transport_params, quic_transport_ini,
   QuicTransport.qp_config_quic_transport_defaults_load);
  (RouterAndLoadbalancer.router_and_loadbalancer_params, router_and_loadbalancer_ini,
   RouterAndLoadbalancer.qp_config_router_and_loadbalancer_defaults_load);
  (SecurityAndTraffic.security_and_traffic_params, security_and_traffic_ini,
   SecurityAndTraffic.qp_config_security_defaults_load);
  (SemanticGeometry.semantic_geometry_params, semantic_geometry_ini,
   SemanticGeometry.qp_config_semantic_geometry_defaults_load);
  (SmartContracts.smart_contracts_params, smart_contracts_ini,
   SmartContracts.qp_config_smart_contracts_defaults_load);
  (SmartDns.smart_dns_params, smart_dns_ini,
   SmartDns.qp_config_smart_dns_defaults_load);
  (SshOverQuic.ssh_over_quic_params, ssh_over_quic_ini,
   SshOverQuic.qp_config_ssh_over_quic_defaults_load);
  (StateManagement.state_management_params, state_management_ini,
   StateManagement.qp_config_state_management_defaults_load);
  (TcpTransport.tcp_transport_params, tcp_transport_ini,
   TcpTransport.qp_config_tcp_transport_defaults_load);
  (TlsAndCrypto.tls_and_crypto_params, tls_and_crypto_ini,
   TlsAndCrypto.qp_config_tls_crypto_defaults_load)].

(** The process-wide state: each module's struct, by directory name, and the global that
    guards the overrides. *)
Record globals := mkGlobals {
  module_config : gmap string config;
  is_userland_override_allowed : bool;
}.

Section Startup.
Context `{IniEnv} `{ValidationEnv}.
Variable php_ini : string -> option string.

(** The security module also sets the override flag, in the handler of its first directive;
    [qp_config_security_policy_apply], which [index.c] calls last, is defined nowhere. *)
Definition init_security (g : globals) : outcome unit globals :=
  let! cfg := qp_config_security_and_traffic_init php_ini in
  let text := match php_ini "quicpro.security_allow_config_override" with Some v => v | None => "0" end in
  Done (mkGlobals (<["security_and_traffic" := cfg]> (module_config g)) (zend_ini_parse_bool text)).

Definition init_module (name : string) (init : (string -> option string) -> outcome unit config)
    (g : globals) : outcome unit globals :=
  let! cfg := init php_ini in
  Done (mkGlobals (<[name := cfg]> (module_config g)) (is_userland_override_allowed g)).

(** The globals are zero before [MINIT]. *)
Definition quicpro_init_modules : outcome unit globals :=
  let! g := init_security (mkGlobals ∅ false) in
  let! g := init_module "cluster_and_process" qp_config_cluster_and_process_init g in
  let! g := init_module "tls_and_crypto" qp_config_tls_crypto_init g in
  let! g := init_module "bare_metal_tuning" qp_config_bare_metal_tuning_init g in
  let! g := init_module "quic_transport" qp_config_quic_transport_init g in
  let! g := init_module "tcp_transport" qp_config_tcp_transport_init g in
  let! g := init_module "app_http3_websockets_webtransport" qp_config_app_http3_websockets_webtransport_init g in
  let! g := init_module "mcp_and_orchestrator" qp_config_mcp_and_orchestrator_init g in
  let! g := init_module "iibin" qp_config_iibin_init g in
  let! g := init_module "state_management" qp_config_state_management_init g in
  let! g := init_module "native_object_store" qp_config_native_object_store_init g in
  let! g := init_module "high_perf_compute_and_ai" qp_config_high_perf_compute_and_ai_init g in
  let! g := init_module "cloud_autoscale" qp_config_cloud_autoscale_init g in
  let! g := init_module "open_telemetry" qp_config_open_telemetry_init g in
  let! g := init_module "native_cdn" qp_config_native_cdn_init g in
  let! g := init_module "smart_dns" qp_config_smart_dns_init g in
  let! g := init_module "ssh_over_quic" qp_config_ssh_over_quic_init g in
  let! g := init_module "router_and_loadbalancer" qp_config_router_and_loadbalancer_init g in
  let! g := init_module "smart_contracts" qp_config_smart_contracts_init g in
  let! g := init_module "dynamic_admin_api" qp_config_dynamic_admin_api_init g in
  Done g.
End Startup.
