(* ===== verification/IniProps.v ===== *)
(** * Start-up of the configuration: the guarantees

    The built-in texts of the directives agree with the compiled-in defaults; what php.ini
    can put into a member is within the check of its key, for the directives that are
    validated; and overrides from PHP are closed unless php.ini opens them. *)

From Stdlib Require Import ZArith Lia String Ascii.
From stdpp Require Import base tactics list gmap strings pretty relations.
From S2P Require Import Prelude Ieee Zend Validation Config ConfigModules ConfigProps Ini IniModules.

Local Open Scope Z_scope.

#[local] Opaque double_ltb scan_shards strtok_r php_trim cstr.

(* ------------------------------------------------------------------------ *)
(** ** Built-in texts and compiled-in defaults *)

(** The floating point texts of the tables, with their values. *)
Definition real_texts : list (string * Z) :=
  [("1.0", 0x3FF0000000000000); ("0.1", 0x3FB999999999999A); ("0.95", 0x3FEE666666666666)]%string.

Definition is_decimal (s : string) (n : Z) : bool :=
  (0 <=? n) && (n <? 2 ^ 63) && bool_decide (s = pretty n).

(** The built-in text of a directive gives the member the default it has already, or is
    refused. *)
Definition builtin_matches (d : config) (e : ini_entry) : bool :=
  let s := i_default e in
  match d !! i_member e with
  | None => false
  | Some v =>
      match i_kind e, v with
      | IniBool, CBool b => bool_decide (s = if b then "1" else "0")%string
      | IniLong, CLong n => is_decimal s n
      | IniPositive, CLong n => is_decimal s n && (0 <? n)
      | IniNonNegative, CLong n => is_decimal s n
      | IniRange lo hi, CLong n => is_decimal s n && (lo <=? n) && (n <=? hi)
      | IniReal, CDouble x => bool_decide ((s, x) ∈ real_texts)
      | IniRealRange lo hi, CDouble x =>
          bool_decide ((s, x) ∈ real_texts) && negb (double_ltb x lo || double_ltb hi x)
      | IniString, CString t => bool_decide (cstr s = t)
      | IniAllow l, CString t => existsb (strcasecmp_eq s) l && bool_decide (cstr s = t)
      | IniAllowSized l, CString t => negb (existsb (sized_equals s) l)
      | IniLiteral l, CString t => existsb (fun a => bool_decide (s = a)) l && bool_decide (cstr s = t)
      | IniReadable, CString t => bool_decide (s = EmptyString) && bool_decide (cstr s = t)
      | IniShards, CString t =>
          match scan_shards (cstr s) with
          | Some (data, d, parity, p) =>
              bool_decide (d = "d"%char) && bool_decide (p = "p"%char)
              && negb (data <=? 0) && negb (parity <=? 0) && bool_decide (cstr s = t)
          | None => false
          end
      | IniCors, CString t => strcmp_eq s "*" && bool_decide (cstr s = t)
      | IniConfused, _ => true
      | _, _ => false
      end
  end.

Section Builtin.
Context `{IniEnv} `{ValidationEnv}.
Hypothesis Hreal : Forall (fun '(s, x) => zend_strtod s = x) real_texts.

Lemma decimal_atol s n : is_decimal s n = true -> zend_atol s = n.
Proof.
  unfold is_decimal. rewrite !andb_true_iff, bool_decide_eq_true, Z.leb_le, Z.ltb_lt.
  intros [? ->]. by apply zend_atol_decimal.
Qed.

Lemma real_strtod s x : bool_decide ((s, x) ∈ real_texts) = true -> zend_strtod s = x.
Proof.
  rewrite bool_decide_eq_true. intros Hin. by apply (proj1 (Forall_forall _ _) Hreal (s, x)).
Qed.

Lemma builtin_ok d e : builtin_matches d e = true ->
  (i_kind e = IniConfused -> type_byte (i_default e) <> IS_STRING) ->
  (exists v, on_modify (i_kind e) (i_default e) = Done v /\ d !! i_member e = Some v) \/
  on_modify (i_kind e) (i_default e) = Failed tt.
Proof.
  unfold builtin_matches. intros Hm Hc. destruct (d !! i_member e) as [v|] eqn:Ev; [|done].
  destruct (i_kind e) eqn:Ek; try (right; specialize (Hc eq_refl); cbn; by apply Z.eqb_neq in Hc as ->);
    destruct v; try done; cbn -[pretty];
    repeat match goal with
    | Hx : _ && _ = true |- _ => apply andb_true_iff in Hx as [Hx ?]
    | Hx : is_decimal _ _ = true |- _ => rewrite (decimal_atol _ _ Hx); clear Hx
    | Hx : bool_decide (_ ∈ real_texts) = true |- _ => rewrite (real_strtod _ _ Hx); clear Hx
    | Hx : bool_decide (cstr _ = _) = true |- _ => apply bool_decide_eq_true in Hx; subst
    | Hx : existsb _ _ = true |- _ => rewrite Hx; clear Hx
    | Hx : negb (_ || _) = true |- _ => apply negb_true_iff in Hx; rewrite Hx; clear Hx
    | Hx : strcmp_eq _ _ = true |- _ => rewrite Hx; clear Hx
    end; try (left; eexists; split; [reflexivity|done]).
  - left. eexists. split; [reflexivity|]. apply bool_decide_eq_true in Hm as ->.
    destruct b; [by rewrite zend_ini_parse_bool_1|by rewrite zend_ini_parse_bool_0].
  - destruct (negb _); [left; eauto|by right].
  - destruct (negb _); [left; eauto|by right].
  - destruct (negb _); [left; eauto|by right].
  - apply negb_true_iff in Hm as ->. by right.
  - apply bool_decide_eq_true in Hm as ->. left. eauto.
  - destruct (scan_shards _) as [[[[? ?] ?] ?]|]; [|done]. rewrite !andb_true_iff in Hm.
    destruct Hm as [[[[-> ->] ->] ->] Hs]. apply bool_decide_eq_true in Hs as <-. left. eauto.
Qed.

(** Registering the directives without a php.ini changes nothing. *)
Lemma register_builtin d es : forallb (builtin_matches d) es = true ->
  (forall e, e ∈ es -> i_kind e = IniConfused -> type_byte (i_default e) <> IS_STRING) ->
  register_ini_entries (fun _ => None) es d = Done d.
Proof.
  intros Hm Hc. induction es as [|e es IH]; simpl in *; [done|]. apply andb_true_iff in Hm as [He Hm].
  assert (Hrest : register_ini_entries (fun _ => None) es d = Done d) by (apply IH; set_solver).
  unfold modify_entry. destruct (builtin_ok d e He (Hc e ltac:(by left))) as [(v & -> & Hv)| ->]; [by rewrite insert_id|done].
Qed.

End Builtin.

(** A table without a handler that calls itself. *)
Definition returns (es : list ini_entry) : bool :=
  forallb (fun e => match i_kind e with IniSelf => false | _ => true end) es.

Lemma builtin_tables :
  forallb (fun '(_, es, d) => negb (returns es) || forallb (builtin_matches d) es) ini_modules = true.
Proof. vm_compute. reflexivity. Qed.


(* ------------------------------------------------------------------------ *)
(** ** What php.ini can set *)

(** Every text the kind stores is within the check. *)
Definition kind_implies (k : ini_kind) (c : check) : bool :=
  let within l l' := forallb (fun a => existsb (fun b => bool_decide (lower (cstr a) = lower (cstr b))) l') l in
  match k, c with
  | (IniConfused | IniSelf), _ => true
  | IniBool, CkBool => true
  | IniPositive, (CkPositiveLong | CkNonNegativeLong) => true
  | IniNonNegative, CkNonNegativeLong => true
  | IniRange lo hi, CkLongRange a b => (a <=? lo) && (hi <=? b)
  | IniRange lo hi, CkPositiveLong => 0 <? lo
  | IniRange lo hi, CkNonNegativeLong => 0 <=? lo
  | IniRealRange lo hi, CkDoubleRange a b => (lo =? a) && (hi =? b)
  | IniAllow l, CkAllowlist l' | IniLiteral l, CkAllowlist l' => within l l'
  | IniReadable, CkReadableFilePath => true
  | IniShards, CkErasureCodingShardsString => true
  | IniCors, CkCorsOriginString => true
  | (IniString | IniAllow _ | IniAllowSized _ | IniLiteral _ | IniReadable | IniShards | IniCors),
    (CkString | CkGenericString | CkInlineString | CkInlineNonEmptyString) => true
  | _, _ => false
  end.

Section Checked.
Context `{IniEnv} `{ValidationEnv}.

Lemma within_spec s l l' :
  forallb (fun a => existsb (fun b => bool_decide (lower (cstr a) = lower (cstr b))) l') l = true ->
  (exists a, a ∈ l /\ lower s = lower (cstr a)) -> exists b, b ∈ l' /\ lower s = lower (cstr b).
Proof.
  intros Hw (a & Ha & Hs). rewrite forallb_forall in Hw. specialize (Hw a (proj1 (list_elem_of_In _ _) Ha)).
  apply existsb_exists in Hw as (b & Hb & He). apply bool_decide_eq_true in He.
  exists b. split; [by apply list_elem_of_In|congruence].
Qed.

(** A stored text is a C string that passed the test of its kind. *)
Lemma text_done (ok : bool) s v :
  (if ok then Done (CString (cstr s)) else Failed tt : outcome unit cvalue) = Done v ->
  v = CString (cstr s) /\ ok = true /\ nul_free (cstr s).
Proof. destruct ok; intros Hd; inv_done. split_and!; [done|done|apply nul_free_cstr]. Qed.

Lemma long_done (ok : bool) n v :
  (if ok then Done (CLong n) else Failed tt : outcome unit cvalue) = Done v -> v = CLong n /\ ok = true.
Proof. destruct ok; intros Hd; by inv_done. Qed.

(** The checks a kind can imply, one goal for each. *)
Ltac implied_checks c Hk := destruct c; try discriminate Hk; cbn [check_post]; eauto.

Ltac long_bounds Hk Hok :=
  rewrite ?andb_true_iff, ?Z.leb_le, ?Z.ltb_lt in Hk;
  rewrite ?negb_true_iff, ?orb_false_iff, ?Z.gtb_ltb, ?Z.leb_gt, ?Z.ltb_ge in Hok;
  eexists; split; [reflexivity|lia].

Lemma kind_implies_post k c s v : kind_implies k c = true -> on_modify k s = Done v -> check_post c v.
Proof.
  intros Hk Hd. destruct k; simpl in Hk, Hd.
  - inv_done. implied_checks c Hk.
  - inv_done. pose proof (nul_free_cstr s). implied_checks c Hk.
  - implied_checks c Hk.
  - implied_checks c Hk.
  - apply long_done in Hd as [-> Hok]. implied_checks c Hk; long_bounds Hk Hok.
  - apply long_done in Hd as [-> Hok]. implied_checks c Hk; long_bounds Hk Hok.
  - apply long_done in Hd as [-> Hok]. implied_checks c Hk; long_bounds Hk Hok.
  - destruct (_ || _) eqn:Ho in Hd; [done|]. inv_done. apply orb_false_iff in Ho. implied_checks c Hk.
    apply andb_true_iff in Hk as [->%Z.eqb_eq ->%Z.eqb_eq]. by eexists.
  - apply text_done in Hd as (-> & Hok & ?). implied_checks c Hk.
    apply allowlist_iff in Hok. destruct (within_spec (cstr s) _ _ Hk Hok) as (b & ? & ?). by eexists _, b.
  - apply text_done in Hd as (-> & _ & ?). implied_checks c Hk.
  - apply text_done in Hd as (-> & Hok & ?). implied_checks c Hk.
    apply existsb_exists in Hok as (a & Ha & He). apply bool_decide_eq_true in He. subst a.
    destruct (within_spec (cstr s) _ _ Hk) as (b & ? & ?); [|by eexists _, b].
    exists s. split; [by apply list_elem_of_In|done].
  - apply text_done in Hd as (-> & Hok & ?). implied_checks c Hk. eexists. split_and!; [done|done|].
    destruct s as [|a s]; [by left|]. simpl in Hok. rewrite negb_involutive in Hok. by right.
  - apply text_done in Hd as (-> & Hok & ?). implied_checks c Hk.
    destruct (scan_shards (cstr s)) as [[[[data d] parity] p]|] eqn:Es; [|done].
    rewrite !andb_true_iff, !bool_decide_eq_true, !negb_true_iff, !Z.leb_gt in Hok.
    destruct Hok as [[[-> ->] ?] ?]. by exists (cstr s), data, parity.
  - apply text_done in Hd as (-> & Hok & ?). implied_checks c Hk. exists (cstr s). split_and!; [done|done|].
    rewrite strtok_cstr. apply orb_true_iff in Hok as [Hs|Ho]; [left; by apply strcmp_iff in Hs|right].
    revert Ho. apply forallb_Forall. intros t. apply origin_token_iff.
  - by destruct (_ =? _).
  - done.
Qed.

(** A member with a value within the check of its key, or with none. *)
Definition member_ok (p : param) (cfg : config) : Prop :=
  forall v, cfg !! p_member p = Some v -> check_post (p_check p) v.

(** Every directive of the member is validated as strictly as its key. *)
Definition guarded (es : list ini_entry) (p : param) : bool :=
  forallb (fun e => negb (bool_decide (i_member e = p_member p)) || kind_implies (i_kind e) (p_check p)) es.

Lemma modify_entry_on_modify php_ini e v :
  modify_entry php_ini e = Done v -> exists s, on_modify (i_kind e) s = Done v.
Proof. unfold modify_entry. intros. repeat case_match; simplify_eq; eauto. Qed.

Lemma register_member_ok php_ini p es : forall cfg cfg', guarded es p = true -> member_ok p cfg ->
  register_ini_entries php_ini es cfg = Done cfg' -> member_ok p cfg'.
Proof.
  induction es as [|e es IH]; intros cfg cfg'; simpl; [by intros _ ? [= <-]|].
  intros [He Hg]%andb_true_iff Hok Hr.
  destruct (modify_entry php_ini e) as [v|[]| |] eqn:Em; try discriminate; [|by eapply IH].
  eapply IH; [done| |done]. intros w Hw. apply modify_entry_on_modify in Em as [s Hs].
  destruct (decide (i_member e = p_member p)) as [Heq|Hne].
  - rewrite bool_decide_eq_true_2 in He by done. rewrite Heq, lookup_insert_eq in Hw. simplify_eq.
    simpl in He. by eapply kind_implies_post.
  - rewrite lookup_insert_ne in Hw by done. by apply Hok.
Qed.

Lemma override_member_ok ps p cfg cfg' : table_wf ps -> p ∈ ps ->
  override_step ps cfg cfg' -> member_ok p cfg -> member_ok p cfg'.
Proof.
  intros Hwf Hp [allowed arr c c' err Ha] Hok. unfold apply_userland_config in Ha.
  destruct (negb allowed); [by simplify_eq|]. destruct arr as [| | | | | | |ht| | |]; simplify_eq; try done.
  intros v Hv. destruct (apply_entries_provenance ps ht c (p_member p))
    as [He|(q & z & w & Hq & Hm & _ & Hr & Hw)]; rewrite Ha in *; simpl in *.
  - apply Hok. congruence.
  - replace q with p in * by (symmetry; by apply (NoDup_map_inj p_member ps q p (tw_members _ Hwf))).
    simplify_eq. by eapply check_sound.
Qed.

Lemma overrides_member_ok ps p cfg cfg' : table_wf ps -> p ∈ ps ->
  rtc (override_step ps) cfg cfg' -> member_ok p cfg -> member_ok p cfg'.
Proof. intros Hwf Hp. induction 1; [done|]. eauto using override_member_ok. Qed.

(** The texts a directive may be given; none of them is taken for a [zval] string. *)
Definition unconfused (php_ini : string -> option string) (e : ini_entry) : Prop :=
  i_kind e = IniConfused ->
  type_byte (i_default e) <> IS_STRING /\
  forall s, php_ini (i_name e) = Some s -> type_byte s <> IS_STRING.

Lemma on_modify_total k s : k <> IniSelf -> (k = IniConfused -> type_byte s <> IS_STRING) ->
  (exists v, on_modify k s = Done v) \/ on_modify k s = Failed tt.
Proof.
  intros Hk Hc. destruct k; try done; simpl; repeat case_match; eauto.
  specialize (Hc eq_refl). lia.
Qed.

Lemma register_total php_ini es : forall cfg, returns es = true ->
  (forall e, e ∈ es -> unconfused php_ini e) ->
  exists cfg', register_ini_entries php_ini es cfg = Done cfg'.
Proof.
  induction es as [|e es IH]; intros cfg; simpl; [eauto|]. intros [He Hes]%andb_true_iff Hu.
  assert (Hrest : forall c, exists c', register_ini_entries php_ini es c = Done c')
    by (intros; apply IH; [done|]; intros; apply Hu; by right).
  assert (Hk : i_kind e <> IniSelf) by (by intros Hx; rewrite Hx in He).
  pose proof (Hu e ltac:(by left)) as Hue. unfold unconfused in Hue.
  destruct (on_modify_total (i_kind e) (i_default e) Hk) as [[v Hv]|Hv];
    [intros Hx; by destruct (Hue Hx)| |];
    unfold modify_entry; destruct (php_ini (i_name e)) as [t|]; rewrite ?Hv; try apply Hrest;
    (destruct (on_modify_total (i_kind e) t Hk) as [[w ->]| ->];
      [intros Hx; by apply (proj2 (Hue Hx))| |]); rewrite ?Hv; apply Hrest.
Qed.

(** An override that is defined does what the one without memory does. *)
Inductive freeing_step (ps : list param) (engine : list string) : config -> config -> Prop :=
| Freeing allowed arr cfg cfg' err :
    apply_userland_freeing ps engine allowed arr cfg = Done (cfg', err) -> freeing_step ps engine cfg cfg'.

Lemma freeing_entries ps engine ht : forall cfg r,
  apply_entries_freeing ps engine ht cfg = Done r -> apply_entries ps ht cfg = r.
Proof.
  induction ht as [|[[i|k] z] ht IH]; intros cfg r; simpl; [by intros [= <-]|apply IH|].
  destruct (find_param ps k) as [p|]; [|apply IH]. destruct (run_check (p_check p) z) as [[]|]; try apply IH.
  - case_bool_decide; [done|apply IH].
  - by intros [= <-].
Qed.

Lemma freeing_override ps engine cfg cfg' : freeing_step ps engine cfg cfg' -> override_step ps cfg cfg'.
Proof.
  intros [allowed arr c c' err Ha]. apply (Override ps allowed arr c c' err). revert Ha.
  unfold apply_userland_freeing, apply_userland_config. destruct (negb allowed); [by intros [= -> ->]|].
  destruct arr; try (by intros [= -> ->]). apply freeing_entries.
Qed.

Lemma freeing_undefined ps engine p z s cfg : table_wf ps -> p ∈ ps -> p_member p ∈ engine ->
  run_check (p_check p) z = Some (CString s) ->
  apply_userland_freeing ps engine true (ZArray [(KStr (p_key p), z)]) cfg = Undefined.
Proof.
  intros Hwf Hp He Hr. cbn [apply_userland_freeing negb apply_entries_freeing].
  rewrite (find_param_key ps p Hwf Hp), Hr. by rewrite bool_decide_eq_true_2.
Qed.
End Checked.

Lemma ini_modules_all ps es d : (ps, es, d) ∈ ini_modules -> (ps, d) ∈ all_modules.
Proof.
  intros Hin. replace all_modules with (map (fun '(ps, _, d) => (ps, d)) ini_modules) by reflexivity.
  change (ps, d) with ((fun '(ps, _, d) => (ps, d) : list param * config) (ps, es, d)).
  by apply list_elem_of_fmap_2.
Qed.

(** Most keys are guarded by their directives. *)
Lemma guarded_keys :
  list_sum (map (fun '(ps, es, _) => length (filter (fun p => guarded es p = true) ps)) ini_modules) = 221%nat /\
  list_sum (map (fun '(ps, _, _) => length ps) ini_modules) = 252%nat.
Proof. vm_compute. split; reflexivity. Qed.

(* ------------------------------------------------------------------------ *)
(** ** The override policy *)

Definition allow_override_text (php_ini : string -> option string) : string :=
  match php_ini "quicpro.security_allow_config_override"%string with Some v => v | None => "0"%string end.

Section Policy.
Context `{IniEnv} `{ValidationEnv}.

Lemma register_keeps php_ini m es : forall cfg cfg', forallb (fun e => negb (bool_decide (i_member e = m))) es = true ->
  register_ini_entries php_ini es cfg = Done cfg' -> cfg' !! m = cfg !! m.
Proof.
  induction es as [|e es IH]; intros cfg cfg'; simpl; [by intros _ [= <-]|].
  intros [He Hg]%andb_true_iff Hr. apply negb_true_iff, bool_decide_eq_false in He.
  destruct (modify_entry php_ini e) as [v|[]| |]; try discriminate; apply IH in Hr; try done.
  rewrite Hr. by apply lookup_insert_ne.
Qed.

Lemma register_cons php_ini e es cfg v : modify_entry php_ini e = Done v ->
  register_ini_entries php_ini (e :: es) cfg = register_ini_entries php_ini es (<[i_member e := v]> cfg).
Proof. simpl. by intros ->. Qed.

Lemma security_total php_ini d : exists cfg,
  register_ini_entries php_ini security_and_traffic_ini d = Done cfg /\
  cfg !! "allow_config_override"%string = Some (CBool (zend_ini_parse_bool (allow_override_text php_ini))).
Proof.
  destruct (register_total php_ini security_and_traffic_ini d) as [cfg Hr]; [reflexivity| |].
  { intros e He Hk. unfold security_and_traffic_ini in He. rewrite !elem_of_cons, elem_of_nil in He.
    destruct_or! He; subst; done. }
  exists cfg. split; [done|]. unfold security_and_traffic_ini in Hr.
  rewrite (register_cons _ _ _ _ (CBool (zend_ini_parse_bool (allow_override_text php_ini)))) in Hr.
  - apply (register_keeps _ "allow_config_override") in Hr; [|reflexivity].
    rewrite Hr. apply lookup_insert_eq.
  - unfold modify_entry, allow_override_text. cbn. by destruct (php_ini _).
Qed.
End Policy.

(* ------------------------------------------------------------------------ *)
(** ** The properties *)

(** Without settings in php.ini, registering the directives of a module leaves every
    member at its compiled-in default: the built-in texts of the directive tables and the
    [_defaults_load] functions agree (for the modules whose handlers return). *)
Theorem ini_defaults `{IniEnv} `{ValidationEnv} ps es d :
  (ps, es, d) ∈ ini_modules -> returns es = true ->
  Forall (fun '(s, x) => zend_strtod s = x) real_texts ->
  (forall e, e ∈ es -> unconfused (fun _ => None) e) ->
  register_ini_entries (fun _ => None) es d = Done d.
Proof.
  intros Hin Hret Hreal Hu. apply register_builtin; [done| |].
  - pose proof builtin_tables as Hb. rewrite forallb_forall in Hb.
    specialize (Hb _ (proj1 (list_elem_of_In _ _) Hin)). simpl in Hb. by rewrite Hret in Hb.
  - intros e He Hk. by destruct (Hu e He Hk).
Qed.


(** C23: Start-up of the security module always completes and makes the global override flag
    and the module's own member what php.ini says of
    [quicpro.security_allow_config_override], off when it says nothing; while the flag is
    off, every override call of every module fails and changes nothing. *)
Theorem override_policy `{IniEnv} `{ValidationEnv} php_ini g0 : exists g cfg,
  init_security php_ini g0 = Done g /\
  module_config g !! "security_and_traffic"%string = Some cfg /\
  is_userland_override_allowed g = zend_ini_parse_bool (allow_override_text php_ini) /\
  cfg !! "allow_config_override"%string = Some (CBool (is_userland_override_allowed g)) /\
  (is_userland_override_allowed g = false -> forall ps arr c,
     apply_userland_config ps (is_userland_override_allowed g) arr c = (c, Some EOverrideDisabled)).
Proof.
  destruct (security_total php_ini SecurityAndTraffic.qp_config_security_defaults_load) as (cfg & Hr & Hm).
  unfold init_security, qp_config_security_and_traffic_init. rewrite Hr. cbn [obind].
  eexists _, cfg. split; [reflexivity|]. cbn [module_config is_userland_override_allowed].
  split_and!; [apply lookup_insert_eq|done|done|]. by intros -> ps arr c.
Qed.

(** No directive with a sized comparison accepts a value of its own list. *)
Lemma sized_allowlists_dead :
  forallb (fun '(_, es, _) => forallb (fun e => match i_kind e with
    | IniAllowSized l => forallb (fun s => negb (existsb (sized_equals s) l)) l
    | _ => true end) es) ini_modules = true.
Proof. vm_compute. reflexivity. Qed.

Lemma register_cons_loop `{IniEnv} `{ValidationEnv} php_ini e es cfg : i_kind e = IniSelf ->
  register_ini_entries php_ini (e :: es) cfg = NoFuel.
Proof. intros He. simpl. unfold modify_entry. rewrite He. by destruct (php_ini _). Qed.

Lemma tls_diverges `{IniEnv} `{ValidationEnv} php_ini : qp_config_tls_crypto_init php_ini = NoFuel.
Proof. unfold qp_config_tls_crypto_init, tls_and_crypto_ini. by apply register_cons_loop. Qed.

(** Start-up never completes: the first handler of [tls_and_crypto] calls itself. *)
Lemma startup_never_completes `{IniEnv} `{ValidationEnv} php_ini : quicpro_init_modules php_ini = NoFuel.
Proof.
  unfold quicpro_init_modules. destruct (security_total php_ini SecurityAndTraffic.qp_config_security_defaults_load)
    as (cfg & Hr & _).
  unfold init_security, qp_config_security_and_traffic_init. rewrite Hr. cbn [obind].
  unfold init_module at 1, qp_config_cluster_and_process_init.
  destruct (register_total php_ini cluster_and_process_ini
    ClusterAndProcess.qp_config_cluster_and_process_defaults_load) as [c2 ->]; [reflexivity| |].
  { intros e He Hk. exfalso. revert Hk. apply (proj1 (Forall_forall _ _)
      (ltac:(repeat constructor; discriminate) : Forall (fun e => i_kind e <> IniConfused) cluster_and_process_ini) e He). }
  cbn [obind]. unfold init_module at 1. by rewrite tls_diverges.
Qed.

(* ------------------------------------------------------------------------ *)
(** ** Witnesses *)

Module IniDemo.
(** A decimal reader for [zend_atol]. *)
Fixpoint atol_from (acc : Z) (s : string) : Z :=
  match s with
  | EmptyString => acc
  | String c s' => atol_from (10 * acc + (Z.of_nat (nat_of_ascii c) - 48)) s'
  end.

Lemma pretty_digit d : (d < 10)%N -> Z.of_nat (nat_of_ascii (pretty_N_char d)) - 48 = Z.of_N d.
Proof. intros Hd. by repeat (destruct d as [|[d|d|]] || destruct d as [d|d|]; try lia). Qed.

Lemma atol_pretty_go x : forall s, atol_from 0 (pretty_N_go x s) = atol_from (Z.of_N x) s.
Proof.
  induction (N.lt_wf_0 x) as [x _ IH]. intros s. destruct (decide (x = 0%N)) as [-> |Hx].
  { by rewrite pretty_N_go_0. }
  rewrite pretty_N_go_step by lia. rewrite IH by (apply N.div_lt; lia). cbn [atol_from].
  rewrite pretty_digit by (apply N.mod_lt; lia). f_equal.
  pose proof (N.div_mod x 10 ltac:(lia)). lia.
Qed.

Lemma atol_pretty n : 0 <= n < 2 ^ 63 -> atol_from 0 (pretty n) = n.
Proof.
  intros [Hn _]. destruct n as [|p|p]; [reflexivity| |lia].
  change (pretty (Z.pos p)) with (pretty (N.pos p)). unfold pretty, pretty_N.
  rewrite decide_False by lia. by rewrite atol_pretty_go.
Qed.

Definition ini_env : IniEnv.
Proof.
  refine {|
    zend_atol := atol_from 0;
    zend_ini_parse_bool s := bool_decide (s = "1"%string);
    zend_strtod s := match List.find (fun '(t, _) => bool_decide (s = t)) real_texts with
                     | Some (_, x) => x | None => 0 end;
    type_byte s := 0;
  |}; [exact atol_pretty|reflexivity..].
Defined.
#[export] Existing Instance ini_env.
#[export] Existing Instance ConfigDemo.env.

Lemma quic_ini_module : (ConfigDemo.quic, quic_transport_ini, ConfigDemo.quic_defaults) ∈ ini_modules.
Proof. apply list_elem_of_In. unfold ini_modules. do 12 right. left. reflexivity. Qed.

Definition php_ini (name : string) : option string :=
  if decide (name = "quicpro.transport_cc_algorithm"%string) then Some "bbr"%string else None.
End IniDemo.
Import IniDemo.

Lemma ini_defaults_witness :
  register_ini_entries (fun _ => None) quic_transport_ini ConfigDemo.quic_defaults = Done ConfigDemo.quic_defaults.
Proof.
  apply (ini_defaults ConfigDemo.quic); [exact quic_ini_module|reflexivity|repeat constructor|].
  intros e _ _. split; [discriminate|intros; discriminate].
Defined.

