(* ===== verification/ConfigLayout.v ===== *)
(** * The structs of the configuration modules

    The member declarations of [extension/include/config/<module>/base_layer.h], against which
    the keys ([ConfigModules]), the directives ([IniModules]) and the compiled-in defaults of
    a module are type-checked.  In the other files a struct is a map from member names to
    values, which would accept any name and any type; here it is shown that for the modules
    whose three tables agree with the struct, every sequence of directive changes and
    overrides leaves each declared member with a value of its declared type and writes no
    other member.  The modules whose code and struct disagree are listed exactly. *)

From Stdlib Require Import ZArith String.
From stdpp Require Import base tactics relations list gmap strings.
From S2P Require Import Prelude Zend Validation Config ConfigModules ConfigProps Ini IniModules IniProps.
Import IniDemo.

Local Open Scope string_scope.

(** [bool], [zend_long], [double] and [char *], the types of the members. *)
Inductive ctype := TBool | TLong | TDouble | TString.
#[export] Instance ctype_eq_dec : EqDecision ctype.
Proof. solve_decision. Defined.

Abbreviation layout := (list (string * ctype)).

Definition qp_app_protocols_config_t : layout := [
  ("http_advertise_h3_alt_svc", TBool);
  ("http_auto_compress", TString);
  ("h3_max_header_list_size", TLong);
  ("h3_qpack_max_table_capacity", TLong);
  ("h3_qpack_blocked_streams", TLong);
  ("h3_server_push_enable", TBool);
  ("http_enable_early_hints", TBool);
  ("websocket_default_max_payload_size", TLong);
  ("websocket_default_ping_interval_ms", TLong);
  ("websocket_handshake_timeout_ms", TLong);
  ("webtransport_enable", TBool);
  ("webtransport_max_concurrent_sessions", TLong);
  ("webtransport_max_streams_per_session", TLong)].

Definition qp_bare_metal_config_t : layout := [
  ("io_engine_use_uring", TBool);
  ("io_uring_sq_poll_ms", TLong);
  ("io_max_batch_read_packets", TLong);
  ("io_max_batch_write_packets", TLong);
  ("socket_receive_buffer_size", TLong);
  ("socket_send_buffer_size", TLong);
  ("socket_enable_busy_poll_us", TLong);
  ("socket_enable_timestamping", TBool);
  ("io_thread_cpu_affinity", TString);
  ("io_thread_numa_node_policy", TString)].

Definition qp_cloud_autoscale_config_t : layout := [
  ("provider", TString);
  ("region", TString);
  ("credentials_path", TString);
  ("min_nodes", TLong);
  ("max_nodes", TLong);
  ("scale_up_cpu_threshold_percent", TLong);
  ("scale_down_cpu_threshold_percent", TLong);
  ("scale_up_policy", TString);
  ("cooldown_period_sec", TLong);
  ("idle_node_timeout_sec", TLong);
  ("instance_type", TString);
  ("instance_image_id", TString);
  ("network_config", TString);
  ("instance_tags", TString)].

Definition qp_cluster_config_t : layout := [
  ("cluster_workers", TLong);
  ("cluster_graceful_shutdown_ms", TLong);
  ("server_max_fd_per_worker", TLong);
  ("cluster_restart_crashed_workers", TBool);
  ("cluster_max_restarts_per_worker", TLong);
  ("cluster_restart_interval_sec", TLong);
  ("cluster_worker_niceness", TLong);
  ("cluster_worker_scheduler_policy", TString);
  ("cluster_worker_cpu_affinity_map", TString);
  ("cluster_worker_cgroup_path", TString);
  ("cluster_worker_user_id", TString);
  ("cluster_worker_group_id", TString)].

Definition qp_dynamic_admin_api_config_t : layout := [
  ("bind_host", TString);
  ("port", TLong);
  ("auth_mode", TString);
  ("ca_file", TString);
  ("cert_file", TString);
  ("key_file", TString)].

Definition qp_high_perf_compute_ai_config_t : layout := [
  ("dataframe_enable", TBool);
  ("dataframe_memory_limit_mb", TLong);
  ("dataframe_string_interning_enable", TBool);
  ("dataframe_cpu_parallelism_default", TLong);
  ("gpu_bindings_enable", TBool);
  ("gpu_default_backend", TString);
  ("worker_gpu_affinity_map", TString);
  ("gpu_memory_preallocation_mb", TLong);
  ("gpu_p2p_enable", TBool);
  ("storage_enable_directstorage", TBool);
  ("cuda_enable_tensor_cores", TBool);
  ("cuda_stream_pool_size", TLong);
  ("rocm_enable_gfx_optimizations", TBool);
  ("arc_enable_xmx_optimizations", TBool);
  ("arc_video_acceleration_enable", TBool)].

Definition qp_http2_config_t : layout := [
  ("enable", TBool);
  ("initial_window_size", TLong);
  ("max_concurrent_streams", TLong);
  ("max_header_list_size", TLong);
  ("enable_push", TBool);
  ("max_frame_size", TLong)].

Definition qp_iibin_config_t : layout := [
  ("max_schema_fields", TLong);
  ("max_recursion_depth", TLong);
  ("string_interning_enable", TBool);
  ("use_shared_memory_buffers", TBool);
  ("default_buffer_size_kb", TLong);
  ("shm_total_memory_mb", TLong);
  ("shm_path", TString)].

Definition qp_mcp_orchestrator_config_t : layout := [
  ("mcp_default_request_timeout_ms", TLong);
  ("mcp_max_message_size_bytes", TLong);
  ("mcp_default_retry_policy_enable", TBool);
  ("mcp_default_retry_max_attempts", TLong);
  ("mcp_default_retry_backoff_ms_initial", TLong);
  ("mcp_enable_request_caching", TBool);
  ("mcp_request_cache_ttl_sec", TLong);
  ("orchestrator_default_pipeline_timeout_ms", TLong);
  ("orchestrator_max_recursion_depth", TLong);
  ("orchestrator_loop_concurrency_default", TLong);
  ("orchestrator_enable_distributed_tracing", TBool)].

Definition qp_native_cdn_config_t : layout := [
  ("enable", TBool);
  ("cache_mode", TString);
  ("cache_memory_limit_mb", TLong);
  ("cache_disk_path", TString);
  ("cache_default_ttl_sec", TLong);
  ("cache_max_object_size_mb", TLong);
  ("cache_respect_origin_headers", TBool);
  ("cache_vary_on_headers", TString);
  ("origin_mcp_endpoint", TString);
  ("origin_http_endpoint", TString);
  ("origin_request_timeout_ms", TLong);
  ("serve_stale_on_error", TBool);
  ("response_headers_to_add", TString);
  ("allowed_http_methods", TString)].

Definition qp_native_object_store_config_t : layout := [
  ("enable", TBool);
  ("s3_api_compat_enable", TBool);
  ("versioning_enable", TBool);
  ("allow_anonymous_access", TBool);
  ("default_redundancy_mode", TString);
  ("erasure_coding_shards", TString);
  ("default_replication_factor", TLong);
  ("default_chunk_size_mb", TLong);
  ("metadata_agent_uri", TString);
  ("node_discovery_mode", TString);
  ("node_static_list", TString);
  ("metadata_cache_enable", TBool);
  ("metadata_cache_ttl_sec", TLong);
  ("enable_directstorage", TBool)].

Definition qp_open_telemetry_config_t : layout := [
  ("enable", TBool);
  ("service_name", TString);
  ("exporter_endpoint", TString);
  ("exporter_protocol", TString);
  ("exporter_timeout_ms", TLong);
  ("exporter_headers", TString);
  ("batch_processor_max_queue_size", TLong);
  ("batch_processor_schedule_delay_ms", TLong);
  ("traces_sampler_type", TString);
  ("traces_sampler_ratio", TDouble);
  ("traces_max_attributes_per_span", TLong);
  ("metrics_enable", TBool);
  ("metrics_export_interval_ms", TLong);
  ("metrics_default_histogram_boundaries", TString);
  ("logs_enable", TBool);
  ("logs_exporter_batch_size", TLong)].

Definition qp_quic_transport_config_t : layout := [
  ("cc_algorithm", TString);
  ("cc_initial_cwnd_packets", TLong);
  ("cc_min_cwnd_packets", TLong);
  ("cc_enable_hystart_plus_plus", TBool);
  ("pacing_enable", TBool);
  ("pacing_max_burst_packets", TLong);
  ("max_ack_delay_ms", TLong);
  ("ack_delay_exponent", TLong);
  ("pto_timeout_ms_initial", TLong);
  ("pto_timeout_ms_max", TLong);
  ("max_pto_probes", TLong);
  ("ping_interval_ms", TLong);
  ("initial_max_data", TLong);
  ("initial_max_stream_data_bidi_local", TLong);
  ("initial_max_stream_data_bidi_remote", TLong);
  ("initial_max_stream_data_uni", TLong);
  ("initial_max_streams_bidi", TLong);
  ("initial_max_streams_uni", TLong);
  ("active_connection_id_limit", TLong);
  ("stateless_retry_enable", TBool);
  ("grease_enable", TBool);
  ("datagrams_enable", TBool);
  ("dgram_recv_queue_len", TLong);
  ("dgram_send_queue_len", TLong)].

Definition qp_router_loadbalancer_config_t : layout := [
  ("router_mode_enable", TBool);
  ("hashing_algorithm", TString);
  ("connection_id_entropy_salt", TString);
  ("backend_discovery_mode", TString);
  ("backend_static_list", TString);
  ("backend_mcp_endpoint", TString);
  ("backend_mcp_poll_interval_sec", TLong);
  ("max_forwarding_pps", TLong)].

Definition qp_security_config_t : layout := [
  ("allow_config_override", TBool);
  ("admin_api_enable", TBool);
  ("rate_limiter_enable", TBool);
  ("rate_limiter_requests_per_sec", TLong);
  ("rate_limiter_burst", TLong);
  ("cors_allowed_origins", TString)].

Definition qp_semantic_geometry_config_t : layout := [
  ("default_vector_dimensions", TLong);
  ("calculation_precision", TString);
  ("convex_hull_algorithm", TString);
  ("point_in_polytope_algorithm", TString);
  ("hausdorff_distance_algorithm", TString);
  ("spiral_search_step_size", TDouble);
  ("core_consolidation_threshold", TDouble)].

Definition qp_smart_contracts_config_t : layout := [
  ("enable", TBool);
  ("registry_uri", TString);
  ("dlt_provider", TString);
  ("dlt_rpc_endpoint", TString);
  ("chain_id", TLong);
  ("default_gas_limit", TLong);
  ("default_gas_price_gwei", TLong);
  ("default_wallet_path", TString);
  ("default_wallet_password_env_var", TString);
  ("use_hardware_wallet", TBool);
  ("hsm_pkcs11_library_path", TString);
  ("abi_directory", TString);
  ("event_listener_enable", TBool)].

Definition qp_smart_dns_config_t : layout := [
  ("server_enable", TBool);
  ("server_bind_host", TString);
  ("server_port", TLong);
  ("server_enable_tcp", TBool);
  ("default_record_ttl_sec", TLong);
  ("mode", TString);
  ("static_zone_file_path", TString);
  ("recursive_forwarders", TString);
  ("health_agent_mcp_endpoint", TString);
  ("service_discovery_max_ips_per_response", TLong);
  ("enable_dnssec_validation", TBool);
  ("edns_udp_payload_size", TLong);
  ("semantic_mode_enable", TBool);
  ("mothernode_uri", TString);
  ("mothernode_sync_interval_sec", TLong)].

Definition qp_ssh_over_quic_config_t : layout := [
  ("gateway_enable", TBool);
  ("gateway_listen_host", TString);
  ("gateway_listen_port", TLong);
  ("gateway_default_target_host", TString);
  ("gateway_default_target_port", TLong);
  ("gateway_target_connect_timeout_ms", TLong);
  ("gateway_auth_mode", TString);
  ("gateway_mcp_auth_agent_uri", TString);
  ("gateway_target_mapping_mode", TString);
  ("gateway_user_profile_agent_uri", TString);
  ("gateway_idle_timeout_sec", TLong);
  ("gateway_log_session_activity", TBool)].

Definition qp_state_management_config_t : layout := [
  ("default_backend", TString);
  ("default_uri", TString)].

Definition qp_tcp_transport_config_t : layout := [
  ("enable", TBool);
  ("max_connections", TLong);
  ("connect_timeout_ms", TLong);
  ("listen_backlog", TLong);
  ("reuse_port_enable", TBool);
  ("nodelay_enable", TBool);
  ("cork_enable", TBool);
  ("keepalive_enable", TBool);
  ("keepalive_time_sec", TLong);
  ("keepalive_interval_sec", TLong);
  ("keepalive_probes", TLong);
  ("tls_min_version_allowed", TString);
  ("tls_ciphers_tls12", TString)].

Definition qp_tls_and_crypto_config_t : layout := [
  ("tls_verify_peer", TBool);
  ("tls_verify_depth", TLong);
  ("tls_default_ca_file", TString);
  ("tls_default_cert_file", TString);
  ("tls_default_key_file", TString);
  ("tls_ticket_key_file", TString);
  ("tls_ciphers_tls13", TString);
  ("tls_ciphers_tls12", TString);
  ("tls_curves", TString);
  ("tls_session_ticket_lifetime_sec", TLong);
  ("tls_enable_early_data", TBool);
  ("tls_server_0rtt_cache_size", TLong);
  ("tls_enable_ocsp_stapling", TBool);
  ("tcp_tls_min_version_allowed", TString);
  ("storage_encryption_at_rest_enable", TBool);
  ("storage_encryption_algorithm", TString);
  ("storage_encryption_key_path", TString);
  ("mcp_payload_encryption_enable", TBool);
  ("mcp_payload_encryption_psk_env_var", TString);
  ("tls_enable_ech", TBool);
  ("tls_require_ct_policy", TBool);
  ("tls_disable_sni_validation", TBool);
  ("transport_disable_encryption", TBool)].

Definition layouts : list layout := [
  qp_app_protocols_config_t;
  qp_bare_metal_config_t;
  qp_cloud_autoscale_config_t;
  qp_cluster_config_t;
  qp_dynamic_admin_api_config_t;
  qp_high_perf_compute_ai_config_t;
  qp_http2_config_t;
  qp_iibin_config_t;
  qp_mcp_orchestrator_config_t;
  qp_native_cdn_config_t;
  qp_native_object_store_config_t;
  qp_open_telemetry_config_t;
  qp_quic_transport_config_t;
  qp_router_loadbalancer_config_t;
  qp_security_config_t;
  qp_semantic_geometry_config_t;
  qp_smart_contracts_config_t;
  qp_smart_dns_config_t;
  qp_ssh_over_quic_config_t;
  qp_state_management_config_t;
  qp_tcp_transport_config_t;
  qp_tls_and_crypto_config_t].
(** The type of the member of a name. *)
Definition declared (l : layout) (member : string) : option ctype :=
  (list_to_map l : gmap string ctype) !! member.

Definition type_of (v : cvalue) : ctype :=
  match v with
  | CBool _ => TBool
  | CLong _ => TLong
  | CDouble _ => TDouble
  | CString _ => TString
  end.

(** The type a validator stores, and the type a handler stores; two handlers store nothing. *)
Definition check_type (c : check) : ctype :=
  match c with
  | CkBool => TBool
  | CkPositiveLong | CkNonNegativeLong | CkLongRange _ _ | CkNicenessValue => TLong
  | CkDoubleRange _ _ => TDouble
  | _ => TString
  end.

Definition kind_type (k : ini_kind) : option ctype :=
  match k with
  | IniBool => Some TBool
  | IniLong | IniPositive | IniNonNegative | IniRange _ _ => Some TLong
  | IniReal | IniRealRange _ _ => Some TDouble
  | IniConfused | IniSelf => None
  | _ => Some TString
  end.

(** A key, a directive, a default that the struct declares with its type. *)
Definition key_declared (l : layout) (p : param) : bool :=
  bool_decide (declared l (p_member p) = Some (check_type (p_check p))).

Definition directive_declared (l : layout) (e : ini_entry) : bool :=
  match kind_type (i_kind e) with
  | Some t => bool_decide (declared l (i_member e) = Some t)
  | None => true
  end.

Definition default_declared (l : layout) (mv : string * cvalue) : bool :=
  bool_decide (declared l mv.1 = Some (type_of mv.2)).

(** The code of the module agrees with its struct. *)
Definition declares (l : layout) (ps : list param) (es : list ini_entry) (d : config) : bool :=
  forallb (key_declared l) ps && forallb (directive_declared l) es
  && forallb (default_declared l) (map_to_list d).

(** A change of a module's struct: a directive's handler runs on a text, at start-up or at
    run time, or the keys of a PHP array are applied. *)
Inductive config_step `{IniEnv} `{ValidationEnv} (ps : list param) (es : list ini_entry)
  : config -> config -> Prop :=
| StepDirective e new_value v cfg : e ∈ es -> on_modify (i_kind e) new_value = Done v ->
    config_step ps es cfg (<[i_member e := v]> cfg)
| StepOverride cfg cfg' : override_step ps cfg cfg' -> config_step ps es cfg cfg'.

(** Only declared members, each with a value of its type. *)
Definition well_typed (l : layout) (cfg : config) : Prop :=
  forall member v, cfg !! member = Some v -> declared l member = Some (type_of v).

Lemma well_typed_insert l cfg member v :
  well_typed l cfg -> declared l member = Some (type_of v) -> well_typed l (<[member := v]> cfg).
Proof. intros Hw Hd m w [[-> <-]|[_ Hl]]%lookup_insert_Some; eauto. Qed.

Section Typing.
Context `{IniEnv} `{ValidationEnv}.

Lemma check_type_post c v : check_post c v -> type_of v = check_type c.
Proof.
  destruct c; simpl; repeat match goal with
    | |- (exists _, _) -> _ => let x := fresh in let Hx := fresh in intros [x Hx]; revert Hx
    end; by first [intros [-> _]|intros ->].
Qed.

Lemma on_modify_type k s v : on_modify k s = Done v -> kind_type k = Some (type_of v).
Proof.
  unfold on_modify; cbv zeta beta; destruct k; cbn [kind_type]; try done;
    match goal with
    | |- Done _ = Done _ -> _ => idtac
    | |- (if ?b then _ else _) = _ -> _ => destruct b
    end; by intros [= <-].
Qed.

Lemma apply_entries_typed l ps ht : forallb (key_declared l) ps = true ->
  forall cfg, well_typed l cfg -> well_typed l (apply_entries ps ht cfg).1.
Proof.
  intros Hps. induction ht as [|[[i|key] value] ht IH]; intros cfg Hw; simpl; [done|by apply IH|].
  destruct (find_param ps key) as [p|] eqn:Ef; [|by apply IH].
  destruct (run_check (p_check p) value) as [v|] eqn:Er; [|done]. apply IH, well_typed_insert; [done|].
  apply List.find_some in Ef as [Hin _]. rewrite forallb_forall in Hps. apply Hps, bool_decide_eq_true in Hin.
  rewrite Hin. f_equal. symmetry. by eapply check_type_post, check_sound.
Qed.

Lemma apply_entries_dom ps ht : forall cfg member,
  is_Some (cfg !! member) -> is_Some ((apply_entries ps ht cfg).1 !! member).
Proof.
  induction ht as [|[[i|key] value] ht IH]; intros cfg member Hm; simpl; [done|by apply IH|].
  repeat case_match; eauto. apply IH, lookup_insert_is_Some'. eauto.
Qed.

Lemma config_step_typed l ps es d cfg cfg' : declares l ps es d = true ->
  config_step ps es cfg cfg' -> well_typed l cfg ->
  well_typed l cfg' /\ forall member, is_Some (cfg !! member) -> is_Some (cfg' !! member).
Proof.
  intros [[Hk Hd]%andb_true_iff _]%andb_true_iff [e s v c He Hv|c c' [allowed arr c1 c2 err Ha]] Hw.
  - split; [apply well_typed_insert; [done|]|intros m Hm; apply lookup_insert_is_Some'; eauto].
    rewrite forallb_forall in Hd. apply list_elem_of_In, Hd in He. unfold directive_declared in He.
    rewrite (on_modify_type _ _ _ Hv) in He. by apply bool_decide_eq_true in He.
  - unfold apply_userland_config in Ha. destruct (negb allowed); [by simplify_eq|].
    destruct arr; simplify_eq; try done. pose proof (apply_entries_typed l ps ht Hk c1 Hw).
    pose proof (apply_entries_dom ps ht c1). by rewrite Ha in *.
Qed.

Lemma config_steps_typed l ps es d cfg cfg' : declares l ps es d = true ->
  rtc (config_step ps es) cfg cfg' -> well_typed l cfg ->
  well_typed l cfg' /\ forall member, is_Some (cfg !! member) -> is_Some (cfg' !! member).
Proof.
  intros Hok. induction 1 as [c|c c' c'' Hs _ IH]; intros Hc; [done|].
  destruct (config_step_typed l ps es d c c' Hok Hs Hc) as [Hw Hm]. destruct (IH Hw). auto.
Qed.

Lemma register_steps php_ini ps es es' : forall cfg cfg', es' ⊆ es ->
  register_ini_entries php_ini es' cfg = Done cfg' -> rtc (config_step ps es) cfg cfg'.
Proof.
  induction es' as [|e es' IH]; intros cfg cfg' Hin; simpl; [by intros [= <-]|].
  destruct (modify_entry php_ini e) as [v|[]| |] eqn:Em; intros Hr; try discriminate; [|by apply IH; set_solver].
  apply modify_entry_on_modify in Em as [s Hs].
  eapply rtc_l; [eapply StepDirective; [|exact Hs]; set_solver|]. apply IH; [set_solver|done].
Qed.
End Typing.

(** The struct of every module beside its tables. *)
Definition laid_out : list (layout * (list param * list ini_entry * config)) := zip layouts ini_modules.

(** Which modules agree with their struct, in the order of [layouts]: all but
    [smart_contracts], [smart_dns], [ssh_over_quic] and [tcp_transport]; and how many of their
    keys, directives and defaults name no member of the struct. *)
Lemma layouts_agree :
  map (fun '(l, (ps, es, d)) => declares l ps es d) laid_out =
    (repeat true 16 ++ [false; false; false; true; false; true])%list /\
  map (fun '(l, (ps, es, d)) =>
         (length (filter (fun p => key_declared l p = false) ps),
          length (filter (fun e => directive_declared l e = false) es),
          length (filter (fun mv => default_declared l mv = false) (map_to_list d))))
      (drop 16 laid_out) =
    [(1, 1, 1); (15, 15, 15); (11, 10, 10); (0, 0, 0); (13, 12, 13); (0, 0, 0)]%nat.
Proof. split; vm_compute; reflexivity. Qed.

(** The members no default, key or directive of their module ever sets. *)
Lemma members_never_set :
  map (fun '(l, (ps, es, d)) => length (filter (fun mt =>
         (d : config) !! mt.1 = None /\ (mt.1 ∉ map p_member ps) /\ (mt.1 ∉ map i_member es)) l)) laid_out =
    ((repeat 0 16 ++ [1; 15; 10; 0; 13; 7])%list)%nat.
Proof. vm_compute. reflexivity. Qed.

(** In the modules that agree, every declared member has a compiled-in default, those of
    [tls_and_crypto] apart (seven of its members are never set at all). *)
Lemma defaults_cover l ps es d member t : (l, (ps, es, d)) ∈ laid_out -> declares l ps es d = true ->
  l <> qp_tls_and_crypto_config_t -> declared l member = Some t -> is_Some (d !! member).
Proof.
  intros Hin Hok Hl Hm.
  assert (Hall : forallb (fun '(l, (ps, es, d)) => negb (declares l ps es d)
      || bool_decide (l = qp_tls_and_crypto_config_t)
      || forallb (fun mt => bool_decide (is_Some ((d : config) !! mt.1))) l) laid_out = true) by (vm_compute; reflexivity).
  rewrite forallb_forall in Hall. apply list_elem_of_In, Hall in Hin.
  rewrite Hok, (bool_decide_eq_false_2 _ Hl) in Hin. simpl in Hin. rewrite forallb_forall in Hin.
  unfold declared in Hm. apply elem_of_list_to_map_2, list_elem_of_In, Hin, bool_decide_eq_true in Hm. done.
Qed.

(** C15: The modules whose tables agree with the struct of their header are type-safe:
    whatever texts the directives are given and whatever arrays PHP passes, in any order, the
    struct only ever has declared members written, each with a value of its declared type;
    and, [tls_and_crypto] apart, every declared member always has a value.  Start-up is such
    a sequence, and eighteen of the twenty-two modules agree. *)
Theorem config_well_typed `{IniEnv} `{ValidationEnv} l ps es d :
  (l, (ps, es, d)) ∈ laid_out -> declares l ps es d = true ->
  (forall cfg, rtc (config_step ps es) d cfg -> well_typed l cfg /\
     forall member t, l <> qp_tls_and_crypto_config_t -> declared l member = Some t ->
       exists v, cfg !! member = Some v /\ type_of v = t) /\
  (forall php_ini cfg, register_ini_entries php_ini es d = Done cfg -> rtc (config_step ps es) d cfg) /\
  length (filter (fun '(l, (ps, es, d)) => declares l ps es d = true) laid_out) = 18%nat.
Proof.
  intros Hin Hok. split_and!; [|intros; by eapply register_steps|by vm_compute].
  intros cfg Hr. assert (Hd : well_typed l d).
  { intros m v Hl. apply andb_true_iff in Hok as [_ Hd]. rewrite forallb_forall in Hd.
    apply elem_of_map_to_list, list_elem_of_In, Hd, bool_decide_eq_true in Hl. done. }
  destruct (config_steps_typed l ps es d d cfg Hok Hr Hd) as [Hw Hm]. split; [done|].
  intros m t Hl Ht. destruct (Hm m) as [v Hv]; [by eapply defaults_cover|].
  exists v. split; [done|]. apply Hw in Hv. congruence.
Qed.

(** The congestion-control directive of the QUIC transport module is set to [bbr]. *)
Lemma config_well_typed_witness :
  well_typed qp_quic_transport_config_t (<["cc_algorithm" := CString "bbr"]> ConfigDemo.quic_defaults).
Proof.
  refine (proj1 (proj1 (config_well_typed qp_quic_transport_config_t ConfigDemo.quic quic_transport_ini
    ConfigDemo.quic_defaults _ _) _ _)).
  - apply list_elem_of_In. do 12 right. left. reflexivity.
  - vm_compute. reflexivity.
  - eapply rtc_l; [|apply rtc_refl].
    apply (StepDirective _ _ (Ini "quicpro.transport_cc_algorithm" "cubic" "cc_algorithm" (IniAllow ["cubic"; "bbr"])) "bbr").
    + by left.
    + vm_compute. reflexivity.
Defined.
