(* ===== verification/Lifecycle.v ===== *)
(** * The directive table of the engine

    The names the engine's directive table holds for this extension across
    [quicpro_init_modules] and [quicpro_shutdown_modules] of [extension/src/quicpro_init.c]: the
    [_ini_register] and [_ini_unregister] functions of the modules' [ini.c], reached through
    their [index.c].  What the handlers of the directives store, and that the start-up of the
    TLS module never returns from one of them, is in [IniModules] and [IniProps]; this file is
    about the names, so it supposes that the handlers return.

    [REGISTER_INI_ENTRIES] adds the entries of a module one by one under the extension's module
    number; a name that is taken makes the engine drop every entry with that number and stop.
    [UNREGISTER_INI_ENTRIES] drops every entry with the number. *)

From Stdlib Require Import ZArith String.
From stdpp Require Import base tactics list gmap strings.
From S2P Require Import Prelude Zend Validation Config Ini IniModules.

Local Open Scope string_scope.
Set Warnings "-clear-no-such-hyp".

(** The engine's table: the module number of each registered name. *)
Abbreviation directives := (gmap string Z).

Definition zend_unregister_ini_entries (module_number : Z) (dirs : directives) : directives :=
  filter (fun '(_, n) => n <> module_number) dirs.

(** The table and whether the engine returned [SUCCESS]; the modules ignore the result. *)
Fixpoint zend_register_ini_entries (module_number : Z) (entries : list ini_entry) (dirs : directives)
  : directives * bool :=
  match entries with
  | [] => (dirs, true)
  | e :: entries' =>
      match dirs !! i_name e with
      | Some _ => (zend_unregister_ini_entries module_number dirs, false)
      | None => zend_register_ini_entries module_number entries' (<[i_name e := module_number]> dirs)
      end
  end.

(** The modules in the order of [quicpro_init_modules]. *)
Definition init_order : list (string * list ini_entry) := [
  ("security_and_traffic", security_and_traffic_ini);
  ("cluster_and_process", cluster_and_process_ini);
  ("tls_and_crypto", tls_and_crypto_ini);
  ("bare_metal_tuning", bare_metal_tuning_ini);
  ("quic_transport", quic_transport_ini);
  ("tcp_transport", tcp_transport_ini);
  ("app_http3_websockets_webtransport", app_http3_websockets_webtransport_ini);
  ("mcp_and_orchestrator", mcp_and_orchestrator_ini);
  ("iibin", iibin_ini);
  ("state_management", state_management_ini);
  ("native_object_store", native_object_store_ini);
  ("high_perf_compute_and_ai", high_perf_compute_and_ai_ini);
  ("cloud_autoscale", cloud_autoscale_ini);
  ("open_telemetry", open_telemetry_ini);
  ("native_cdn", native_cdn_ini);
  ("smart_dns", smart_dns_ini);
  ("ssh_over_quic", ssh_over_quic_ini);
  ("router_and_loadbalancer", router_and_loadbalancer_ini);
  ("smart_contracts", smart_contracts_ini);
  ("dynamic_admin_api", dynamic_admin_api_ini)].

(** The calls of [quicpro_shutdown_modules], in order. *)
Definition shutdown_order : list string := [
  "dynamic_admin_api";
  "smart_contracts";
  "router_and_loadbalancer";
  "ssh_over_quic";
  "smart_dns";
  "native_cdn";
  "open_telemetry";
  "cloud_autoscale";
  "high_perf_compute_and_ai";
  "native_object_store";
  "state_management";
  "iibin";
  "mcp_and_orchestrator";
  "app_http3_websockets_webtransport";
  "tcp_transport";
  "quic_transport";
  "bare_metal_tuning";
  "tls_and_crypto";
  "cluster_and_process";
  "security_and_traffic"].

Definition register_modules (module_number : Z) (ms : list (string * list ini_entry)) (dirs : directives) : directives :=
  fold_left (fun d '(_, entries) => (zend_register_ini_entries module_number entries d).1) ms dirs.

(** [quicpro_init_modules], the names. *)
Definition init_names (module_number : Z) : directives -> directives :=
  register_modules module_number init_order.

Definition quicpro_shutdown_modules (module_number : Z) (dirs : directives) : directives :=
  fold_left (fun d _ => zend_unregister_ini_entries module_number d) shutdown_order dirs.

Definition names (ms : list (string * list ini_entry)) : list string :=
  concat (map (fun '(_, es) => map i_name es) ms).

(** The shutdown sequence is the exact reverse of the initialisation sequence. *)
Lemma shutdown_reverses_init : shutdown_order = rev (map fst init_order).
Proof. reflexivity. Qed.

(** One name is registered twice: by the object store and, after it, by the compute module. *)
Lemma one_name_twice :
  NoDup (names (take 11 init_order)) /\ NoDup (names (drop 11 init_order)) /\
  filter (fun n => n ∈ names (drop 11 init_order)) (names (take 11 init_order)) =
    ["quicpro.storage_enable_directstorage"].
Proof. split_and!; [apply (bool_decide_unpack _); vm_compute; exact I..|vm_compute; reflexivity]. Qed.

Lemma unregister_lookup mn dirs n k :
  zend_unregister_ini_entries mn dirs !! n = Some k <-> dirs !! n = Some k /\ k <> mn.
Proof. apply map_lookup_filter_Some. Qed.

Lemma unregister_twice mn dirs :
  zend_unregister_ini_entries mn (zend_unregister_ini_entries mn dirs) = zend_unregister_ini_entries mn dirs.
Proof. apply map_eq. intros n. apply option_eq. intros k. rewrite !unregister_lookup. naive_solver. Qed.

Lemma unregister_all mn (l : list string) dirs :
  fold_left (fun d _ => zend_unregister_ini_entries mn d) l (zend_unregister_ini_entries mn dirs)
  = zend_unregister_ini_entries mn dirs.
Proof. induction l as [|x l IH]; simpl; [done|]. by rewrite unregister_twice. Qed.

Lemma shutdown_unregisters mn dirs :
  quicpro_shutdown_modules mn dirs = zend_unregister_ini_entries mn dirs.
Proof.
  unfold quicpro_shutdown_modules. change shutdown_order with ("dynamic_admin_api" :: tail shutdown_order).
  apply unregister_all.
Qed.

(** Registration writes only entries with the module's own number. *)
Lemma register_foreign mn es : forall dirs, zend_unregister_ini_entries mn (zend_register_ini_entries mn es dirs).1
  = zend_unregister_ini_entries mn dirs.
Proof.
  induction es as [|e es IH]; intros dirs; simpl; [done|].
  destruct (dirs !! i_name e) eqn:El; simpl; [apply unregister_twice|]. rewrite IH.
  apply map_eq. intros n. apply option_eq. intros k. rewrite !unregister_lookup, lookup_insert_Some.
  naive_solver.
Qed.

Lemma register_modules_cons mn m es ms dirs : register_modules mn ((m, es) :: ms) dirs =
  register_modules mn ms (zend_register_ini_entries mn es dirs).1.
Proof. reflexivity. Qed.

Lemma register_modules_foreign mn ms : forall dirs,
  zend_unregister_ini_entries mn (register_modules mn ms dirs) = zend_unregister_ini_entries mn dirs.
Proof.
  induction ms as [|[m es] ms IH]; intros dirs; [done|].
  by rewrite register_modules_cons, IH, register_foreign.
Qed.

(** From a table where the extension has no entry, start-up followed
    by shutdown restores the table. *)
Theorem startup_shutdown mn dirs : (forall n, dirs !! n <> Some mn) ->
  quicpro_shutdown_modules mn (init_names mn dirs) = dirs.
Proof.
  intros Hfree. rewrite shutdown_unregisters. unfold init_names. rewrite register_modules_foreign.
  apply map_eq. intros n. apply option_eq. intros k. rewrite unregister_lookup. naive_solver.
Qed.

(** The names alone, for a table that holds only the extension's entries. *)
Fixpoint register_names (ns taken : list string) : list string :=
  match ns with
  | [] => taken
  | n :: ns' => if decide (n ∈ taken) then [] else register_names ns' (n :: taken)
  end.

Definition own (mn : Z) (dirs : directives) : Prop := forall n k, dirs !! n = Some k -> k = mn.

Lemma unregister_own mn dirs : own mn dirs -> zend_unregister_ini_entries mn dirs = ∅.
Proof.
  intros Ho. apply map_eq. intros n. rewrite lookup_empty. apply eq_None_not_Some. intros [k Hk].
  apply unregister_lookup in Hk as [Hk Hn]. naive_solver.
Qed.

Lemma register_own mn es : forall dirs taken, own mn dirs -> dom dirs = list_to_set taken ->
  own mn (zend_register_ini_entries mn es dirs).1 /\
  dom (zend_register_ini_entries mn es dirs).1 = list_to_set (register_names (map i_name es) taken).
Proof.
  induction es as [|e es IH]; intros dirs taken Ho Hd; simpl; [done|].
  assert (i_name e ∈ taken <-> is_Some (dirs !! i_name e)) as Hin
    by (rewrite <-elem_of_dom, Hd; symmetry; apply elem_of_list_to_set).
  destruct (dirs !! i_name e) eqn:El; simpl.
  - rewrite decide_True by (apply Hin; eauto). rewrite unregister_own by done.
    split; [by intros n k Hk|by rewrite dom_empty_L].
  - rewrite decide_False by (rewrite Hin; intros [? [=]]). apply IH; [|by rewrite dom_insert_L, Hd].
    intros n k [[_ <-]|[_ Hk]]%lookup_insert_Some; [done|by eapply Ho].
Qed.

Lemma register_modules_own mn ms : forall dirs taken, own mn dirs -> dom dirs = list_to_set taken ->
  dom (register_modules mn ms dirs) =
  list_to_set (fold_left (fun s '(_, es) => register_names (map i_name es) s) ms taken).
Proof.
  induction ms as [|[m es] ms IH]; intros dirs taken Ho Hd; [done|]. cbn [fold_left].
  destruct (register_own mn es dirs taken Ho Hd) as [Ho' Hd'].
  rewrite register_modules_cons. by apply IH.
Qed.

Lemma names_computed :
  fold_left (fun s '(_, es) => register_names (map i_name es) s) init_order [] =
  reverse (names (drop 12 init_order)).
Proof. vm_compute. reflexivity. Qed.

(** From the empty table, the second registration of the name drops the entries of the
    modules before it and stops in the compute module: what is left is the directives of the
    eight modules that follow, 98 of the 241. *)
Theorem startup_names mn :
  dom (init_names mn ∅) = list_to_set (names (drop 12 init_order)) /\
  length (names (drop 12 init_order)) = 98%nat /\ length (names init_order) = 241%nat.
Proof.
  split_and!; [|reflexivity..]. unfold init_names.
  rewrite (register_modules_own mn init_order ∅ []), names_computed; [|by intros n k Hk|by rewrite dom_empty_L].
  apply list_to_set_perm_L, reverse_Permutation.
Qed.
