(* ===== verification/Cluster.v ===== *)
(** * The worker supervisor

    [extension/src/cluster/cluster.c]: the master process forks a pool of workers,
    reaps them, restarts the crashed ones within a limit, and shuts the pool down.

    What the operating system answers is an input of the model: the result of a
    [fork], of a [waitpid(-1, &status, WNOHANG)], the clock and the signals that arrive.
    What the master does to the outside is a list of events.  Signals set their flags
    where the input says so: before the test of the [while] loop, or between
    [waitpid] and the restart decision (the flag is read again there). *)

From Stdlib Require Import ZArith Lia String.
From stdpp Require Import base tactics list strings.
From S2P Require Import Prelude Zend.

Local Open Scope Z_scope.

Record quicpro_worker_info_t := mkWorker {
  pid : Z;
  worker_id : Z;
  start_time : Z;
  restart_count : Z;
  last_restart_time : Z;
  is_exiting : bool;
}.

(** The options the master uses ([extension/include/cluster/cluster.h]). *)
Record quicpro_cluster_options_t := mkOptions {
  num_workers : Z;
  enable_cpu_affinity : bool;
  worker_niceness : Z;
  worker_scheduler_policy : Z;
  worker_max_open_files : Z;
  worker_cgroup_path : option string;
  worker_uid : Z;
  worker_gid : Z;
  worker_loop_usleep_usec : Z;
  worker_main_callable : zval;
  on_worker_start_callable : zval;
  on_worker_exit_callable : zval;
  restart_crashed_workers : bool;
  max_restarts_per_worker : Z;
  restart_interval_sec : Z;
  graceful_shutdown_timeout_sec : Z;
  master_pid_file_path : option string;
}.

Inductive signal := SIGHUP | SIGINT | SIGTERM | SIGKILL.
#[export] Instance signal_eq_dec : EqDecision signal.
Proof. solve_decision. Defined.

(** What the master does. *)
Inductive event :=
| Kill (target : Z) (s : signal)
| Fork (worker : Z) (result : Z)
| OnWorkerStart (worker child : Z)
| OnWorkerExit (worker child exit_code term_signal : Z)
| WritePidFile (path : string)
| RemovePidFile (path : string).

Definition is_undef (v : zval) : bool := match v with ZUndef => true | _ => false end.

(* ------------------------------------------------------------------------ *)
(** ** Options *)

Inductive cluster_error :=
| EMainCallableMissing
| EMainCallableInvalid
| EForkFailed (worker : Z).

Section Options.
(** [zend_is_callable] and the number of processors. *)
Variable zend_is_callable : zval -> bool.
Variable nprocessors : Z.

Definition callable_option (k : string) (ht : hashtable) : zval :=
  match ht_find (KStr k) ht with
  | Some zv => if zend_is_callable zv then zv else ZUndef
  | None => ZUndef
  end.

(** The struct is zero-initialised by the caller; the members that are not
    listed in the source keep their zero. *)
Definition parse_options_from_php (ht : hashtable) : outcome cluster_error quicpro_cluster_options_t :=
  match ht_find (KStr "worker_main_callable") ht with
  | None => Failed EMainCallableMissing
  | Some main =>
      if negb (zend_is_callable main) then Failed EMainCallableInvalid
      else Done {|
        num_workers := match ht_find (KStr "num_workers") ht with
                       | Some (ZLong n) => if n >? 0 then s32 n else nprocessors
                       | _ => nprocessors
                       end;
        enable_cpu_affinity := false; worker_niceness := 0; worker_scheduler_policy := 0;
        worker_max_open_files := 0; worker_cgroup_path := None; worker_uid := 0; worker_gid := 0;
        worker_loop_usleep_usec := 10000;
        worker_main_callable := main;
        on_worker_start_callable := callable_option "on_worker_start_callable" ht;
        on_worker_exit_callable := callable_option "on_worker_exit_callable" ht;
        restart_crashed_workers := true; max_restarts_per_worker := 5; restart_interval_sec := 60;
        graceful_shutdown_timeout_sec := 30;
        master_pid_file_path := match ht_find (KStr "master_pid_file_path") ht with
                                | Some (ZString s) => Some (cstr s)
                                | _ => None
                                end |}
  end.
End Options.

(* ------------------------------------------------------------------------ *)
(** ** The master's state *)

Record master := mkMaster {
  g_worker_pool : list quicpro_worker_info_t;
  g_shutdown_request : bool;
  g_reload_request : bool;
}.

Definition cluster_signal_handler (signo : signal) (m : master) : master :=
  match signo with
  | SIGINT | SIGTERM => mkMaster (g_worker_pool m) true (g_reload_request m)
  | SIGHUP => mkMaster (g_worker_pool m) (g_shutdown_request m) true
  | SIGKILL => m
  end.

Definition deliver (sigs : list signal) (m : master) : master :=
  foldl (fun m s => cluster_signal_handler s m) m sigs.

Definition set_pool (f : list quicpro_worker_info_t -> list quicpro_worker_info_t) (m : master) : master :=
  mkMaster (f (g_worker_pool m)) (g_shutdown_request m) (g_reload_request m).

(* ------------------------------------------------------------------------ *)
(** ** Reload *)

Definition mark_exiting (w : quicpro_worker_info_t) : quicpro_worker_info_t :=
  if pid w >? 0 then
    mkWorker (pid w) (worker_id w) (start_time w) (restart_count w) (last_restart_time w) true
  else w.

Definition kill_live (s : signal) (pool : list quicpro_worker_info_t) : list event :=
  flat_map (fun w => if pid w >? 0 then [Kill (pid w) s] else []) pool.

Definition handle_reload (m : master) : master * list event :=
  if g_reload_request m then
    (mkMaster (map mark_exiting (g_worker_pool m)) (g_shutdown_request m) false,
     kill_live SIGTERM (g_worker_pool m))
  else (m, []).

(* ------------------------------------------------------------------------ *)
(** ** A worker has exited *)

(** [WIFEXITED]/[WIFSIGNALED] of the status word. *)
Inductive wait_status := Exited (code : Z) | Signaled (sig : Z) | OtherStatus.

Definition status_codes (st : wait_status) : Z * Z :=
  match st with Exited c => (c, 0) | Signaled s => (0, s) | OtherStatus => (0, 0) end.

(** The slot of a pid: the first index whose [pid] is it. *)
Fixpoint find_worker (pool : list quicpro_worker_info_t) (child_pid : Z) : option nat :=
  match pool with
  | [] => None
  | w :: pool' => if pid w =? child_pid then Some O else S <$> find_worker pool' child_pid
  end.

(** The restart decision for one slot: the new slot and the forks.  [fork_result] is
    what [fork()] returns to the parent ([-1] on failure); [restart_count] is an [int]. *)
Definition restart_worker (o : quicpro_cluster_options_t) (shutdown : bool) (now fork_result : Z)
    (i : nat) (w : quicpro_worker_info_t) : quicpro_worker_info_t * list event :=
  if restart_crashed_workers o && negb (is_exiting w) && negb shutdown then
    let count := s32 ((if now - last_restart_time w >? restart_interval_sec o then 0
                       else restart_count w) + 1) in
    if (max_restarts_per_worker o <? 0) || (count <=? max_restarts_per_worker o) then
      if fork_result >? 0 then
        (mkWorker fork_result (worker_id w) now count now (is_exiting w), [Fork (Z.of_nat i) fork_result])
      else
        (mkWorker 0 (worker_id w) (start_time w) count now (is_exiting w), [Fork (Z.of_nat i) fork_result])
    else (mkWorker 0 (worker_id w) (start_time w) count now (is_exiting w), [])
  else (mkWorker 0 (worker_id w) (start_time w) (restart_count w) (last_restart_time w) (is_exiting w), []).

(* ------------------------------------------------------------------------ *)
(** ** The supervision loop *)

(** What happens around one iteration. *)
Record tick := mkTick {
  t_before : list signal;                       (** before the loop test *)
  t_wait : Z * wait_status;                     (** what [waitpid] returns *)
  t_during : list signal;                       (** before the restart decision *)
  t_now : Z;                                    (** [time(NULL)] *)
  t_fork : Z;                                   (** what a [fork()] would return *)
}.

(** The loop body, after the test of [g_shutdown_request]. *)
Definition supervise_once (o : quicpro_cluster_options_t) (t : tick) (m : master)
  : master * list event :=
  let '(m, ev1) := handle_reload m in
  let '(child_pid, status) := t_wait t in
  if child_pid <=? 0 then (deliver (t_during t) m, ev1)
  else
    match find_worker (g_worker_pool m) child_pid with
    | None => (deliver (t_during t) m, ev1)
    | Some i =>
        let '(exit_code, term_signal) := status_codes status in
        let ev2 := if is_undef (on_worker_exit_callable o) then []
                   else [OnWorkerExit (Z.of_nat i) child_pid exit_code term_signal] in
        let m := deliver (t_during t) m in
        match g_worker_pool m !! i with
        | None => (m, ev1 ++ ev2)
        | Some w =>
            let '(w', ev3) := restart_worker o (g_shutdown_request m) (t_now t) (t_fork t) i w in
            (set_pool (<[i := w']>) m, ev1 ++ ev2 ++ ev3)
        end
    end.

(** The loop over a finite history; [true] when it was left because of a shutdown. *)
Fixpoint master_supervisor_loop (o : quicpro_cluster_options_t) (ts : list tick) (m : master)
  : master * list event * bool :=
  match ts with
  | [] => (m, [], false)
  | t :: ts' =>
      let m := deliver (t_before t) m in
      if g_shutdown_request m then (m, [], true)
      else
        let '(m, ev) := supervise_once o t m in
        let '(m, evs, fin) := master_supervisor_loop o ts' m in
        (m, ev ++ evs, fin)
  end.

(* ------------------------------------------------------------------------ *)
(** ** Start and shutdown *)

(** Forking the initial pool, [n] workers from index [i] on: [fork_result] and [now] are
    what [fork()] returns for each index and the clock at that time.  The second component
    is the failure, if a fork fails. *)
Fixpoint start_workers (o : quicpro_cluster_options_t) (fork_result now : Z -> Z) (n : nat) (i : Z)
    (pool : list quicpro_worker_info_t)
  : list quicpro_worker_info_t * list event * option cluster_error :=
  match n with
  | O => (pool, [], None)
  | S n' =>
      let f := fork_result i in
      if f <? 0 then (pool, Fork i f :: kill_live SIGKILL pool, Some (EForkFailed i))
      else
        let w := mkWorker f i (now i) 0 (now i) false in
        let ev := Fork i f :: (if is_undef (on_worker_start_callable o) then []
                               else [OnWorkerStart i f]) in
        let '(pool, evs, err) := start_workers o fork_result now n' (i + 1) (pool ++ [w]) in
        (pool, ev ++ evs, err)
  end.

(** [for (i...) if (pool[i].pid == exited_pid) pool[i].pid = 0;] and whether no live
    worker is left. *)
Definition clear_pid (exited_pid : Z) (w : quicpro_worker_info_t) : quicpro_worker_info_t :=
  if pid w =? exited_pid then
    mkWorker 0 (worker_id w) (start_time w) (restart_count w) (last_restart_time w) (is_exiting w)
  else w.

Definition all_exited (pool : list quicpro_worker_info_t) : bool :=
  forallb (fun w => negb (pid w >? 0)) pool.

(** The grace period: what [waitpid] returns until the deadline, in order. *)
Fixpoint await_exits (waits : list Z) (pool : list quicpro_worker_info_t)
  : list quicpro_worker_info_t :=
  match waits with
  | [] => pool
  | exited_pid :: waits' =>
      if exited_pid <=? 0 then await_exits waits' pool
      else
        let pool := map (clear_pid exited_pid) pool in
        if all_exited pool then pool else await_exits waits' pool
  end.

Definition shutdown_workers (waits : list Z) (pool : list quicpro_worker_info_t)
  : list quicpro_worker_info_t * list event :=
  let pool' := await_exits waits pool in
  (pool', kill_live SIGTERM pool ++ kill_live SIGKILL pool').

(** What the operating system does during a whole run.  The two flags are globals that the
    code sets to zero nowhere but at load time (and [g_reload_request] in the loop): their
    values when the loop starts may come from signals during the start-up or from an earlier
    call. *)
Record run := mkRun {
  r_fork : Z -> Z;
  r_now : Z -> Z;
  r_shutdown : bool;
  r_reload : bool;
  r_ticks : list tick;
  r_waits : list Z;
}.

(** The run once the options are parsed: the events, and [true] when the function has
    returned, which it does with [true] also after a failed fork.  The count of workers is
    an [int]; [ecalloc] of a negative one is a fatal error. *)
Definition run_cluster (o : quicpro_cluster_options_t) (u : run) : list event * option bool :=
  let pidf := match master_pid_file_path o with Some p => [WritePidFile p] | None => [] end in
  let rmf := match master_pid_file_path o with Some p => [RemovePidFile p] | None => [] end in
  if num_workers o <? 0 then (pidf, None)
  else
  let '(pool, ev1, err) := start_workers o (r_fork u) (r_now u) (Z.to_nat (num_workers o)) 0 [] in
  match err with
  | Some _ => (pidf ++ ev1 ++ rmf, Some true)
  | None =>
      let '(m, ev2, fin) :=
        master_supervisor_loop o (r_ticks u) (mkMaster pool (r_shutdown u) (r_reload u)) in
      if fin then
        let '(_, ev3) := shutdown_workers (r_waits u) (g_worker_pool m) in
        (pidf ++ ev1 ++ ev2 ++ ev3 ++ rmf, Some true)
      else (pidf ++ ev1 ++ ev2, None)
  end.

(** [quicpro_cluster_orchestrate(array $options)]. *)
Definition quicpro_cluster_orchestrate (zend_is_callable : zval -> bool) (nprocessors : Z)
    (php_options_array : hashtable) (u : run) : list event * option bool :=
  match parse_options_from_php zend_is_callable nprocessors php_options_array with
  | Done c_options => run_cluster c_options u
  | _ => ([], Some false)
  end.

(* ------------------------------------------------------------------------ *)
(** ** The worker process *)

Inductive syscall :=
| SetAffinity (cpu : Z)
| SetScheduler (policy : Z)
| SetPriority (nice : Z)
| SetNofile (limit : Z)
| SetGid (gid : Z)
| SetUid (uid : Z)
| WriteCgroup (path : string)
| CallMain.

(** The set-up of a worker: the calls it makes and its exit code; [ok c] is whether
    call [c] succeeds.  Only a failed [setgid], [setuid] or main call is fatal. *)
Definition worker_process_main (nprocessors : Z) (ok : syscall -> bool)
    (o : quicpro_cluster_options_t) (id : Z) : list syscall * Z :=
  let pre :=
    (if enable_cpu_affinity o then [SetAffinity (Z.rem id nprocessors)] else [])
    ++ (if worker_scheduler_policy o =? 0 then [] else [SetScheduler (worker_scheduler_policy o)])
    ++ (if worker_niceness o =? 0 then [] else [SetPriority (worker_niceness o)])
    ++ (if worker_max_open_files o >? 0 then [SetNofile (worker_max_open_files o)] else []) in
  let main cs :=
    let cs := cs ++ (match worker_cgroup_path o with Some p => [WriteCgroup p] | None => [] end) in
    (cs ++ [CallMain], if ok CallMain then 0 else 1) in
  let uid cs :=
    if worker_uid o >? 0 then
      let cs := cs ++ [SetUid (worker_uid o)] in
      if ok (SetUid (worker_uid o)) then main cs else (cs, 1)
    else main cs in
  if worker_gid o >? 0 then
    let cs := pre ++ [SetGid (worker_gid o)] in
    if ok (SetGid (worker_gid o)) then uid cs else (cs, 1)
  else uid pre.
