(* ===== verification/ClusterProps.v ===== *)
(** * The supervisor's guarantees

    The restart budget of a slot, who gets signalled, what a shutdown and a reload do,
    and the order of the privilege drop. *)

From Stdlib Require Import ZArith Lia String.
From stdpp Require Import base tactics list strings.
From S2P Require Import Prelude Zend Cluster.

Local Open Scope Z_scope.

(* ------------------------------------------------------------------------ *)
(** ** Helpers *)

Lemma deliver_pool sigs m : g_worker_pool (deliver sigs m) = g_worker_pool m.
Proof.
  unfold deliver. revert m. induction sigs as [|s sigs IH]; intros m; simpl; [done|].
  rewrite IH. by destruct s.
Qed.

Lemma handle_reload_pool m :
  g_worker_pool (handle_reload m).1 = g_worker_pool m \/
  g_worker_pool (handle_reload m).1 = map mark_exiting (g_worker_pool m).
Proof. unfold handle_reload. destruct (g_reload_request m); simpl; auto. Qed.

Definition is_fork_of (i : nat) (e : event) : bool :=
  match e with Fork j _ => j =? Z.of_nat i | _ => false end.

(** The restarts of slot [i] in a list of events. *)
Definition forks_of (i : nat) (evs : list event) : nat := length (List.filter (is_fork_of i) evs).

Lemma forks_of_app i a b : forks_of i (a ++ b) = (forks_of i a + forks_of i b)%nat.
Proof. unfold forks_of. by rewrite List.filter_app, length_app. Qed.

Lemma forks_of_kill i s pool : forks_of i (kill_live s pool) = 0%nat.
Proof.
  unfold forks_of, kill_live. induction pool as [|w pool IH]; simpl; [done|].
  by destruct (pid w >? 0).
Qed.

Lemma handle_reload_forks i m : forks_of i (handle_reload m).2 = 0%nat.
Proof. unfold handle_reload. destruct (g_reload_request m); simpl; [apply forks_of_kill|done]. Qed.

Lemma find_worker_Some pool p i : find_worker pool p = Some i ->
  exists w, pool !! i = Some w /\ pid w = p.
Proof.
  revert i. induction pool as [|w pool IH]; intros i; simpl; [done|].
  destruct (Z.eqb_spec (pid w) p) as [Hp|]; [intros [= <-]; eauto|].
  intros (j & Hj & ->)%fmap_Some. by apply IH.
Qed.

Lemma restart_worker_forks o sd now fr i w :
  (restart_worker o sd now fr i w).2 = [] \/ (restart_worker o sd now fr i w).2 = [Fork (Z.of_nat i) fr].
Proof. unfold restart_worker. repeat case_match; auto. Qed.

(** What an iteration does to slot [i]: nothing but a reload mark, or, when its worker
    has exited, the restart decision. *)
Lemma supervise_slot o t m i w : g_worker_pool m !! i = Some w ->
  exists w1, (w1 = w \/ w1 = mark_exiting w) /\
  ((g_worker_pool (supervise_once o t m).1 !! i = Some w1 /\
    forks_of i (supervise_once o t m).2 = 0%nat) \/
   (0 < pid w1 /\ exists sd w' ev, restart_worker o sd (t_now t) (t_fork t) i w1 = (w', ev) /\
    g_worker_pool (supervise_once o t m).1 !! i = Some w' /\
    forks_of i (supervise_once o t m).2 = forks_of i ev)).
Proof.
  intros Hw. unfold supervise_once.
  destruct (handle_reload m) as [m1 ev1] eqn:Hr.
  assert (Hev1 : forks_of i ev1 = 0%nat)
    by (change ev1 with (m1, ev1).2; rewrite <- Hr; apply handle_reload_forks).
  assert (exists w1, (w1 = w \/ w1 = mark_exiting w) /\ g_worker_pool m1 !! i = Some w1)
    as (w1 & Hw1 & Hi).
  { destruct (handle_reload_pool m) as [Hp|Hp]; rewrite Hr in Hp; simpl in Hp; rewrite Hp; [by eauto|].
    exists (mark_exiting w). rewrite list_lookup_fmap, Hw. auto. }
  exists w1. split; [done|]. destruct (t_wait t) as [child st].
  destruct (Z.leb_spec child 0); [left; simpl; by rewrite deliver_pool|].
  destruct (find_worker (g_worker_pool m1) child) as [j|] eqn:Hf; [|left; simpl; by rewrite deliver_pool].
  apply find_worker_Some in Hf as (wj & Hj & Hpid). destruct (status_codes st) as [code sig].
  rewrite deliver_pool, Hj.
  destruct (restart_worker o (g_shutdown_request (deliver (t_during t) m1)) (t_now t) (t_fork t) j wj)
    as [w' ev3] eqn:Hrw.
  simpl. rewrite deliver_pool, !forks_of_app, Hev1.
  assert (Hev2 : forks_of i (if is_undef (on_worker_exit_callable o) then []
    else [OnWorkerExit (Z.of_nat j) child code sig]) = 0%nat) by (by destruct (is_undef _)).
  rewrite Hev2. destruct (decide (i = j)) as [->|Hne].
  - right. rewrite Hi in Hj. simplify_eq. split; [lia|]. do 3 eexists. split; [exact Hrw|].
    split; [|done]. apply list_lookup_insert_eq. by eapply lookup_lt_Some.
  - left. split; [by rewrite list_lookup_insert_ne|]. simpl.
    pose proof (restart_worker_forks o (g_shutdown_request (deliver (t_during t) m1)) (t_now t) (t_fork t) j wj)
      as [He|He]; rewrite Hrw in He; simpl in He; subst ev3; [done|].
    unfold forks_of. simpl. destruct (Z.eqb_spec (Z.of_nat j) (Z.of_nat i)); [lia|done].
Qed.

(* ------------------------------------------------------------------------ *)
(** ** The restart budget *)

Section Budget.
Variable o : quicpro_cluster_options_t.
Hypothesis Hmax : 0 <= max_restarts_per_worker o < 2 ^ 31 - 1.

(** A live slot has not used up its restarts. *)
Definition slot_ok (w : quicpro_worker_info_t) : Prop :=
  0 <= restart_count w <= max_restarts_per_worker o + 1 /\
  (0 < pid w -> restart_count w <= max_restarts_per_worker o).

Lemma mark_exiting_same w : restart_count (mark_exiting w) = restart_count w /\
  last_restart_time (mark_exiting w) = last_restart_time w /\ pid (mark_exiting w) = pid w.
Proof. unfold mark_exiting. by destruct (pid w >? 0). Qed.

Lemma slot_ok_marked w w1 : w1 = w \/ w1 = mark_exiting w -> slot_ok w ->
  slot_ok w1 /\ restart_count w1 = restart_count w /\ last_restart_time w1 = last_restart_time w.
Proof.
  destruct (mark_exiting_same w) as (Hc & Hl & Hp). unfold slot_ok.
  intros [-> | ->]; [done|]. by rewrite Hc, Hl, Hp.
Qed.

(** A fork uses up one unit of the budget, or starts a new interval. *)
Lemma restart_worker_budget sd now fr i w w' ev : slot_ok w -> 0 < pid w ->
  restart_worker o sd now fr i w = (w', ev) -> slot_ok w' /\
  ((forks_of i ev = 0%nat /\ restart_count w' = restart_count w /\
    last_restart_time w' = last_restart_time w) \/
   (last_restart_time w' = now /\
    (restart_count w' = 1 /\ restart_interval_sec o < now - last_restart_time w \/
     restart_count w' = restart_count w + 1) /\
    (forks_of i ev = 0%nat \/
     forks_of i ev = 1%nat /\ restart_count w' <= max_restarts_per_worker o))).
Proof.
  unfold slot_ok, restart_worker. intros [Hc Hp] Hpid Hr. specialize (Hp Hpid).
  destruct (_ && _ && _); [|simplify_eq; simpl; split; [lia|by left]].
  destruct (Z.ltb_spec (max_restarts_per_worker o) 0); [lia|]. cbn [orb] in Hr.
  set (cnt := (if now - last_restart_time w >? restart_interval_sec o then 0
               else restart_count w) + 1) in Hr.
  assert (Hcnt : cnt = 1 /\ restart_interval_sec o < now - last_restart_time w \/
                 cnt = restart_count w + 1)
    by (subst cnt; destruct (Z.gtb_spec (now - last_restart_time w) (restart_interval_sec o)); auto).
  rewrite s32_small in Hr by lia. clearbody cnt.
  assert (Hfork : forks_of i [Fork (Z.of_nat i) fr] = 1%nat)
    by (unfold forks_of; simpl; by rewrite Z.eqb_refl).
  destruct (Z.leb_spec cnt (max_restarts_per_worker o)); [destruct (Z.gtb_spec fr 0)|];
    simplify_eq; simpl; rewrite ?Hfork; (split; [lia|]); right; auto.
Qed.

Abbreviation in_window T0 := (fun t => T0 <= t_now t <= T0 + restart_interval_sec o).

(** Once a restart lies in the window, the count is the number of restarts. *)
Lemma budget_after T0 i ts : Forall (in_window T0) ts -> forall m w,
  g_worker_pool m !! i = Some w -> slot_ok w -> T0 <= last_restart_time w ->
  Z.of_nat (forks_of i (master_supervisor_loop o ts m).1.2)
  <= Z.max 0 (max_restarts_per_worker o - restart_count w).
Proof.
  induction 1 as [|t ts Ht Hts IH]; intros m w Hw Hok Hl; [unfold forks_of; simpl; lia|].
  cbn [master_supervisor_loop]. destruct (g_shutdown_request _); [unfold forks_of; simpl; lia|].
  destruct (supervise_slot o t (deliver (t_before t) m) i w ltac:(by rewrite deliver_pool))
    as (w1 & Hw1 & Hcase).
  destruct (supervise_once o t _) as [m2 ev]. simpl in Hcase.
  destruct (master_supervisor_loop o ts m2) as [[m3 evs] fin] eqn:Eloop. cbn [fst snd].
  rewrite forks_of_app, Nat2Z.inj_add.
  destruct (slot_ok_marked w w1 Hw1 Hok) as (Hok1 & Hc1 & Hl1).
  destruct Hcase as [[Hi ->]|(Hpid & sd & w' & ev' & Hr & Hi & ->)].
  - specialize (IH m2 w1 Hi Hok1 ltac:(lia)). rewrite Eloop in IH. simpl in IH. lia.
  - destruct (restart_worker_budget sd _ _ i w1 w' ev' Hok1 Hpid Hr) as [Hok' Hb].
    specialize (IH m2 w' Hi Hok'). rewrite Eloop in IH. simpl in IH.
    destruct Hb as [(-> & Hc & Hl')|(Hl' & Hc & Hfk)]; [specialize (IH ltac:(lia)); lia|].
    specialize (IH ltac:(lia)). lia.
Qed.

(** In any window of the restart interval, from any state. *)
Lemma budget_window T0 i ts : Forall (in_window T0) ts -> forall m w,
  g_worker_pool m !! i = Some w -> slot_ok w ->
  Z.of_nat (forks_of i (master_supervisor_loop o ts m).1.2) <= max_restarts_per_worker o.
Proof.
  induction 1 as [|t ts Ht Hts IH]; intros m w Hw Hok; [unfold forks_of; simpl; lia|].
  cbn [master_supervisor_loop]. destruct (g_shutdown_request _); [unfold forks_of; simpl; lia|].
  destruct (supervise_slot o t (deliver (t_before t) m) i w ltac:(by rewrite deliver_pool))
    as (w1 & Hw1 & Hcase).
  destruct (supervise_once o t _) as [m2 ev]. simpl in Hcase.
  destruct (master_supervisor_loop o ts m2) as [[m3 evs] fin] eqn:Eloop. cbn [fst snd].
  rewrite forks_of_app, Nat2Z.inj_add.
  destruct (slot_ok_marked w w1 Hw1 Hok) as (Hok1 & Hc1 & Hl1).
  destruct Hcase as [[Hi ->]|(Hpid & sd & w' & ev' & Hr & Hi & ->)].
  - specialize (IH m2 w1 Hi Hok1). rewrite Eloop in IH. simpl in IH. lia.
  - destruct (restart_worker_budget sd _ _ i w1 w' ev' Hok1 Hpid Hr) as [Hok' Hb].
    destruct Hb as [(-> & Hc & Hl')|(Hl' & Hc & Hfk)].
    + specialize (IH m2 w' Hi Hok'). rewrite Eloop in IH. simpl in IH. lia.
    + pose proof (budget_after T0 i ts Hts m2 w' Hi Hok' ltac:(lia)) as Ha.
      rewrite Eloop in Ha. simpl in Ha. destruct Hok1. lia.
Qed.
End Budget.

(* ------------------------------------------------------------------------ *)
(** ** Who is signalled *)

(** Every live pid of the pool comes from a fork of the history. *)
Definition owned (evs : list event) (pool : list quicpro_worker_info_t) : Prop :=
  forall w, w ∈ pool -> 0 < pid w -> exists i, Fork i (pid w) ∈ evs.

Definition kills_owned (evs kills : list event) : Prop :=
  forall p s, Kill p s ∈ kills -> 0 < p /\ exists i, Fork i p ∈ evs.

Lemma owned_mono a b pool : (forall e, e ∈ a -> e ∈ b) -> owned a pool -> owned b pool.
Proof. intros Hs Ho w Hw Hp. destruct (Ho w Hw Hp) as [i Hi]. eauto. Qed.

Lemma kill_live_target s pool p s' : Kill p s' ∈ kill_live s pool ->
  s' = s /\ exists w, w ∈ pool /\ pid w = p /\ 0 < p.
Proof.
  unfold kill_live. intros Hk. apply list_elem_of_In, in_flat_map in Hk as (w & Hw & Hk).
  destruct (Z.gtb_spec (pid w) 0); [|done]. destruct Hk as [[= <- <-]|[]]. split; [done|].
  exists w. split; [by apply list_elem_of_In|lia].
Qed.

Lemma kill_live_owned evs s pool : owned evs pool -> kills_owned evs (kill_live s pool).
Proof.
  intros Ho p s' Hk. apply kill_live_target in Hk as (_ & w & Hw & <- & Hp). split; [done|]. by apply Ho.
Qed.

Lemma owned_mark evs pool : owned evs pool -> owned evs (map mark_exiting pool).
Proof.
  intros Ho w (w0 & -> & Hw0)%list_elem_of_fmap Hp. destruct (mark_exiting_same w0) as (_ & _ & Hpid).
  rewrite Hpid in *. by apply Ho.
Qed.

Lemma handle_reload_owned evs m : owned evs (g_worker_pool m) ->
  owned evs (g_worker_pool (handle_reload m).1) /\ kills_owned evs (handle_reload m).2.
Proof.
  intros Ho. unfold handle_reload. destruct (g_reload_request m); simpl.
  - split; [by apply owned_mark|by apply kill_live_owned].
  - split; [done|]. intros p s Hk. by apply elem_of_nil in Hk.
Qed.

Lemma restart_worker_owned o sd now fr i w w' ev evs : restart_worker o sd now fr i w = (w', ev) ->
  0 < pid w' -> exists j, Fork j (pid w') ∈ evs ++ ev.
Proof.
  unfold restart_worker. intros Hr Hp. repeat case_match; simplify_eq/=; try lia;
    (eexists; apply elem_of_app; right; by apply list_elem_of_singleton).
Qed.

Lemma insert_owned evs i w pool : owned evs pool ->
  (0 < pid w -> exists j, Fork j (pid w) ∈ evs) -> owned evs (<[i := w]> pool).
Proof.
  intros Ho Hw v Hv Hp. apply list_elem_of_lookup in Hv as [k Hk].
  apply list_lookup_insert_Some in Hk as [(_ & -> & _)|(_ & Hk)]; [by apply Hw|].
  apply Ho; [|done]. by eapply list_elem_of_lookup_2.
Qed.

Lemma supervise_owned o t m evs : owned evs (g_worker_pool m) ->
  owned (evs ++ (supervise_once o t m).2) (g_worker_pool (supervise_once o t m).1) /\
  kills_owned evs (supervise_once o t m).2.
Proof.
  intros Ho. destruct (handle_reload_owned evs m Ho) as [Ho1 Hk1]. unfold supervise_once.
  destruct (handle_reload m) as [m1 ev1]. simpl in Ho1, Hk1.
  assert (Hmono : forall b, owned (evs ++ b) (g_worker_pool m1))
    by (intros b; eapply owned_mono; [|exact Ho1]; intros e He; apply elem_of_app; by left).
  destruct (t_wait t) as [child st]. destruct (child <=? 0); simpl; [by rewrite deliver_pool|].
  destruct (find_worker _ _) as [j|]; simpl; [|by rewrite deliver_pool].
  destruct (status_codes st) as [code sig]. rewrite deliver_pool.
  set (ev2 := if is_undef _ then [] else _).
  assert (Hk2 : forall tail, (forall p s, Kill p s ∉ tail) -> kills_owned evs (ev1 ++ ev2 ++ tail)).
  { intros tail Hno p s [Hk|[Hk|Hk]%elem_of_app]%elem_of_app; [by apply (Hk1 p s)| |by apply Hno in Hk].
    subst ev2. destruct (is_undef _); [by apply elem_of_nil in Hk|].
    by apply list_elem_of_singleton in Hk. }
  destruct (g_worker_pool m1 !! j) as [wj|].
  - destruct (restart_worker _ _ _ _ _ _) as [w' ev3] eqn:Hr. simpl. rewrite deliver_pool. split.
    + apply insert_owned; [apply Hmono|]. intros Hp. rewrite !app_assoc.
      by eapply restart_worker_owned.
    + apply Hk2. intros p s Hk. pose proof (restart_worker_forks o (g_shutdown_request (deliver (t_during t) m1))
        (t_now t) (t_fork t) j wj) as [He|He]; rewrite Hr in He; simpl in He; subst ev3.
      * by apply elem_of_nil in Hk.
      * by apply list_elem_of_singleton in Hk.
  - simpl. rewrite deliver_pool. split; [apply Hmono|]. rewrite <- (app_nil_r ev2).
    apply Hk2. intros p s Hk. by apply elem_of_nil in Hk.
Qed.

Lemma loop_owned o ts : forall m evs, owned evs (g_worker_pool m) ->
  owned (evs ++ (master_supervisor_loop o ts m).1.2) (g_worker_pool (master_supervisor_loop o ts m).1.1) /\
  kills_owned (evs ++ (master_supervisor_loop o ts m).1.2) (master_supervisor_loop o ts m).1.2.
Proof.
  assert (Hnil : forall evs, kills_owned evs []) by (intros evs p s Hk; by apply elem_of_nil in Hk).
  induction ts as [|t ts IH]; intros m evs Ho; cbn [master_supervisor_loop].
  { cbn [fst snd]. rewrite app_nil_r. done. }
  rewrite <- (deliver_pool (t_before t)) in Ho.
  destruct (g_shutdown_request _); [cbn [fst snd]; rewrite app_nil_r; done|].
  destruct (supervise_owned o t _ evs Ho) as [Ho2 Hk2].
  destruct (supervise_once o t _) as [m2 ev]. cbn [fst snd] in Ho2, Hk2.
  destruct (IH m2 (evs ++ ev) Ho2) as [Ho3 Hk3].
  destruct (master_supervisor_loop o ts m2) as [[m3 evs3] fin]. cbn [fst snd] in *.
  rewrite app_assoc. split; [done|].
  intros p s [Hk|Hk]%elem_of_app; [|by apply (Hk3 p s)].
  destruct (Hk2 p s Hk) as [? [i Hi]]. split; [done|]. exists i. rewrite !elem_of_app. auto.
Qed.

Lemma start_workers_owned o fr now n : forall i pool evs, owned evs pool ->
  let '(pool', ev, _) := start_workers o fr now n i pool in
  owned (evs ++ ev) pool' /\ kills_owned (evs ++ ev) ev.
Proof.
  induction n as [|n IH]; intros i pool evs Ho; cbn [start_workers].
  { rewrite app_nil_r. split; [done|]. intros p s Hk. by apply elem_of_nil in Hk. }
  set (f := fr i). destruct (Z.ltb_spec f 0).
  - assert (Ho' : owned (evs ++ Fork i f :: kill_live SIGKILL pool) pool)
      by (eapply owned_mono; [|exact Ho]; intros e He; apply elem_of_app; by left).
    split; [done|]. intros p s [?|Hk]%elem_of_cons; [done|]. by eapply kill_live_owned.
  - set (ev := Fork i f :: if is_undef (on_worker_start_callable o) then [] else [OnWorkerStart i f]).
    assert (Ho' : owned (evs ++ ev) (pool ++ [mkWorker f i (now i) 0 (now i) false])).
    { intros w [Hw|Hw%list_elem_of_singleton]%elem_of_app Hp.
      - destruct (Ho w Hw Hp) as [j Hj]. exists j. apply elem_of_app. by left.
      - subst w. exists i. apply elem_of_app. right. by left. }
    specialize (IH (i + 1) _ _ Ho').
    destruct (start_workers o fr now n (i + 1) _) as [[pool' ev'] err].
    rewrite <- app_assoc in IH. destruct IH as [Ho2 Hk2]. split; [done|].
    intros p s [Hk|Hk]%elem_of_app; [|by apply (Hk2 p s)].
    exfalso. subst ev. apply elem_of_cons in Hk as [?|Hk]; [done|].
    destruct (is_undef _); [by apply elem_of_nil in Hk|by apply list_elem_of_singleton in Hk].
Qed.

Lemma await_exits_owned evs waits : forall pool, owned evs pool -> owned evs (await_exits waits pool).
Proof.
  induction waits as [|p waits IH]; intros pool Ho; simpl; [done|].
  destruct (p <=? 0); [by apply IH|].
  assert (owned evs (map (clear_pid p) pool)) as Ho'.
  { intros w (w0 & -> & Hw0)%list_elem_of_fmap. unfold clear_pid.
    destruct (pid w0 =? p); simpl; [lia|]. by apply Ho. }
  destruct (all_exited _); auto.
Qed.

(* ------------------------------------------------------------------------ *)
(** ** Shutdown *)

Lemma kill_live_in s pool w : w ∈ pool -> 0 < pid w -> Kill (pid w) s ∈ kill_live s pool.
Proof.
  intros Hw Hp. apply list_elem_of_In, in_flat_map. exists w. split; [by apply list_elem_of_In|].
  destruct (Z.gtb_spec (pid w) 0); [by left|lia].
Qed.

(** A worker leaves the pool only by being reaped. *)
Lemma await_exits_keeps waits : forall pool w, w ∈ pool -> 0 < pid w -> pid w ∉ waits ->
  w ∈ await_exits waits pool.
Proof.
  induction waits as [|p waits IH]; intros pool w Hw Hp Hn; simpl; [done|].
  rewrite not_elem_of_cons in Hn. destruct Hn as [Hne Hn].
  destruct (p <=? 0); [by apply IH|].
  assert (w ∈ map (clear_pid p) pool) as Hw'.
  { apply list_elem_of_fmap. exists w. split; [|done]. unfold clear_pid.
    destruct (Z.eqb_spec (pid w) p); done. }
  destruct (all_exited _); [done|]. by apply IH.
Qed.

(* ------------------------------------------------------------------------ *)
(** ** Reload *)

(** No slot can be restarted any more. *)
Definition draining (pool : list quicpro_worker_info_t) : Prop :=
  Forall (fun w => is_exiting w = true \/ pid w <= 0) pool.

Definition no_forks (evs : list event) : Prop := forall i p, Fork i p ∉ evs.

Lemma kill_live_no_forks s pool : no_forks (kill_live s pool).
Proof.
  intros i p Hf. apply list_elem_of_In, in_flat_map in Hf as (w & _ & Hf).
  destruct (pid w >? 0); [|done]. by destruct Hf as [?|[]].
Qed.

Lemma draining_mark pool : draining (map mark_exiting pool).
Proof.
  apply Forall_forall. intros w (w0 & -> & _)%list_elem_of_fmap. unfold mark_exiting.
  destruct (Z.gtb_spec (pid w0) 0); simpl; auto.
Qed.

Lemma handle_reload_draining m : draining (g_worker_pool m) ->
  draining (g_worker_pool (handle_reload m).1) /\ no_forks (handle_reload m).2.
Proof.
  intros Hd. unfold handle_reload. destruct (g_reload_request m); simpl.
  - split; [apply draining_mark|apply kill_live_no_forks].
  - split; [done|]. intros i p. apply not_elem_of_nil.
Qed.

Lemma restart_worker_exiting o sd now fr i w : is_exiting w = true ->
  exists w', restart_worker o sd now fr i w = (w', []) /\ pid w' = 0.
Proof. intros He. unfold restart_worker. rewrite He, andb_false_r. simpl. eauto. Qed.

Lemma supervise_draining o t m : draining (g_worker_pool m) ->
  draining (g_worker_pool (supervise_once o t m).1) /\ no_forks (supervise_once o t m).2.
Proof.
  intros Hd. destruct (handle_reload_draining m Hd) as [Hd1 Hn1]. unfold supervise_once.
  destruct (handle_reload m) as [m1 ev1]. simpl in Hd1, Hn1. destruct (t_wait t) as [child st].
  destruct (Z.leb_spec child 0); simpl; [by rewrite deliver_pool|].
  destruct (find_worker _ _) as [j|] eqn:Hf; simpl; [|by rewrite deliver_pool].
  apply find_worker_Some in Hf as (wj & Hj & Hpid). destruct (status_codes st) as [code sig].
  rewrite deliver_pool, Hj.
  assert (is_exiting wj = true) as He.
  { destruct (proj1 (Forall_lookup _ _) Hd1 j wj Hj); [done|lia]. }
  destruct (restart_worker_exiting o (g_shutdown_request (deliver (t_during t) m1)) (t_now t) (t_fork t) j wj He)
    as (w' & -> & Hp'). simpl. rewrite deliver_pool. split.
  - apply Forall_insert; [done|]. right. lia.
  - rewrite app_nil_r. intros i p [Hk|Hk]%elem_of_app; [by apply (Hn1 i p)|].
    destruct (is_undef _); [by apply elem_of_nil in Hk|by apply list_elem_of_singleton in Hk].
Qed.

Lemma loop_draining o ts : forall m, draining (g_worker_pool m) ->
  no_forks (master_supervisor_loop o ts m).1.2.
Proof.
  induction ts as [|t ts IH]; intros m Hd i p; cbn [master_supervisor_loop].
  { apply not_elem_of_nil. }
  rewrite <- (deliver_pool (t_before t)) in Hd.
  destruct (g_shutdown_request _); [apply not_elem_of_nil|].
  destruct (supervise_draining o t _ Hd) as [Hd2 Hn]. destruct (supervise_once o t _) as [m2 ev].
  specialize (IH m2 Hd2 i p). destruct (master_supervisor_loop o ts m2) as [[m3 evs] fin].
  cbn [fst snd] in *. rewrite not_elem_of_app. split; [apply (Hn i p)|done].
Qed.

(* ------------------------------------------------------------------------ *)
(** ** The properties *)

(** An event that is not in a list of at most one other event. *)
Ltac absent := first [by intros ?%list_elem_of_singleton | by intros ?%elem_of_nil].

(** C12: In any period of [restart_interval_sec] seconds, whatever the workers and the
    operating system do, the supervisor restarts a worker slot at most
    [max_restarts_per_worker] times. *)
Theorem restart_budget o m ts i w T0 :
  0 <= max_restarts_per_worker o < 2 ^ 31 - 1 ->
  g_worker_pool m !! i = Some w -> slot_ok o w ->
  Forall (fun t => T0 <= t_now t <= T0 + restart_interval_sec o) ts ->
  Z.of_nat (forks_of i (master_supervisor_loop o ts m).1.2) <= max_restarts_per_worker o.
Proof. intros Hmax Hw Hok Hts. by eapply budget_window. Qed.

Lemma run_cluster_owned o u : kills_owned (run_cluster o u).1 (run_cluster o u).1.
Proof.
  unfold run_cluster.
  set (pidf := match master_pid_file_path o with Some p => [WritePidFile p] | None => [] end).
  set (rmf := match master_pid_file_path o with Some p => [RemovePidFile p] | None => [] end).
  intros p s.
  assert (Hpidf : Kill p s ∉ pidf) by (subst pidf; case_match; absent).
  assert (Hrmf : Kill p s ∉ rmf) by (subst rmf; case_match; absent).
  destruct (num_workers o <? 0); [done|].
  pose proof (start_workers_owned o (r_fork u) (r_now u) (Z.to_nat (num_workers o)) 0 [] []
    ltac:(intros w Hw; by apply elem_of_nil in Hw)) as Hst.
  destruct (start_workers _ _ _ _ _ _) as [[pool ev1] err]. destruct Hst as [Ho1 Hk1]. simpl in Ho1, Hk1.
  assert (Hev1 : Kill p s ∈ ev1 -> forall ev2, 0 < p /\ exists i, Fork i p ∈ ev1 ++ ev2).
  { intros Hk ev2. destruct (Hk1 p s Hk) as [? [i Hi]]. split; [done|]. exists i. rewrite elem_of_app. auto. }
  destruct err; simpl.
  { rewrite !elem_of_app. intros [?|[Hk|?]]; try done.
    destruct (Hk1 p s Hk) as [? [i Hi]]. split; [done|]. exists i. rewrite !elem_of_app. auto. }
  destruct (loop_owned o (r_ticks u) (mkMaster pool (r_shutdown u) (r_reload u)) ev1 Ho1) as [Ho2 Hk2].
  destruct (master_supervisor_loop _ _ _) as [[m ev2] fin]. simpl in Ho2, Hk2.
  pose proof (kill_live_owned _ SIGTERM _ Ho2) as Hk3.
  pose proof (kill_live_owned _ SIGKILL _ (await_exits_owned _ (r_waits u) _ Ho2)) as Hk4.
  specialize (fun Hk => Hev1 Hk ev2).
  destruct fin; simpl; rewrite !elem_of_app.
  - intros Hk. assert (0 < p /\ exists i, Fork i p ∈ ev1 ++ ev2) as [? [i Hi]].
    { destruct Hk as [?|[?|[?|[[?|?]|?]]]]; try done; auto.
      - by apply (Hk2 p s). - by apply (Hk3 p s). - by apply (Hk4 p s). }
    split; [done|]. exists i. rewrite !elem_of_app in *. tauto.
  - intros Hk. assert (0 < p /\ exists i, Fork i p ∈ ev1 ++ ev2) as [? [i Hi]].
    { destruct Hk as [?|[?|?]]; try done; auto. by apply (Hk2 p s). }
    split; [done|]. exists i. rewrite !elem_of_app in *. tauto.
Qed.

(** C33: The master only ever signals its own workers: every target of a signal, in the
    start-up, reload and shutdown paths alike, is a positive pid that one of its forks
    has returned; never a process group. *)
Theorem only_workers_signalled callable n opts u p s :
  Kill p s ∈ (quicpro_cluster_orchestrate callable n opts u).1 ->
  0 < p /\ exists i, Fork i p ∈ (quicpro_cluster_orchestrate callable n opts u).1.
Proof.
  unfold quicpro_cluster_orchestrate. destruct (parse_options_from_php _ _ _); simpl;
    [apply run_cluster_owned|intros ?%elem_of_nil; done..].
Qed.

(** Shutdown leaves no worker behind: every live worker gets SIGTERM, and every
    one that is not reaped within the grace period gets SIGKILL. *)
Theorem shutdown_complete waits pool w :
  w ∈ pool -> 0 < pid w ->
  Kill (pid w) SIGTERM ∈ (shutdown_workers waits pool).2 /\
  (pid w ∈ waits \/ Kill (pid w) SIGKILL ∈ (shutdown_workers waits pool).2).
Proof.
  intros Hw Hp. simpl. split; [apply elem_of_app; left; by apply kill_live_in|].
  destruct (decide (pid w ∈ waits)) as [?|Hn]; [by left|right].
  apply elem_of_app. right. apply kill_live_in; [|done]. by apply await_exits_keeps.
Qed.

(** A reload (SIGHUP) ends all restarts: from then on, whatever happens, the
    supervisor never forks a worker again, so the pool drains instead of being reloaded. *)
Theorem reload_never_restarts o m ts :
  g_reload_request m = true ->
  no_forks (handle_reload m).2 /\
  no_forks (master_supervisor_loop o ts (handle_reload m).1).1.2.
Proof.
  intros Hr. unfold handle_reload. rewrite Hr. simpl.
  split; [apply kill_live_no_forks|]. apply loop_draining, draining_mark.
Qed.


(* ------------------------------------------------------------------------ *)
(** ** Witnesses *)

Module ClusterDemo.
Definition php_options : hashtable :=
  [(KStr "worker_main_callable", ZString "main"); (KStr "num_workers", ZLong 2)].

Definition options : quicpro_cluster_options_t :=
  match parse_options_from_php (fun _ => true) 4 php_options with
  | Done o => o
  | _ => mkOptions 0 false 0 0 0 None 0 0 0 ZNull ZNull ZNull false 0 0 0 None
  end.

Definition pool : list quicpro_worker_info_t := [mkWorker 100 0 0 0 0 false; mkWorker 101 1 0 0 0 false].
Definition running := mkMaster pool false false.
Definition reloading := mkMaster pool false true.
Definition crash (p now fork : Z) : tick := mkTick [] (p, Signaled 11) [] now fork.

(** Worker 0 crashes eight times within a minute. *)
Definition crashes : list tick :=
  [crash 100 1 200; crash 200 2 201; crash 201 3 202; crash 202 4 203;
   crash 203 5 204; crash 204 6 205; crash 205 7 206; crash 206 8 207].

Definition stop : tick := mkTick [SIGTERM] (0, OtherStatus) [] 10 0.

(** Workers 100 and 101 start, 100 crashes and is replaced by 200, the master stops,
    and only 200 exits in time. *)
Definition demo_run : run :=
  mkRun (fun i => 100 + i) (fun _ => 0) false false [crash 100 1 200; stop] [200].

Example five_restarts : forks_of 0 (master_supervisor_loop options crashes running).1.2 = 5%nat.
Proof. reflexivity. Qed.
End ClusterDemo.
Import ClusterDemo.

Lemma restart_budget_witness :
  Z.of_nat (forks_of 0 (master_supervisor_loop options crashes running).1.2) <= 5.
Proof.
  apply (restart_budget options running crashes 0 (mkWorker 100 0 0 0 0 false) 0).
  - vm_compute. split; [discriminate|reflexivity].
  - reflexivity.
  - split; simpl; [lia|intros; lia].
  - repeat constructor; simpl; lia.
Defined.

Lemma only_workers_signalled_witness :
  0 < 101 /\ exists i, Fork i 101 ∈
    (quicpro_cluster_orchestrate (fun _ => true) 4 php_options demo_run).1.
Proof.
  apply (only_workers_signalled (fun _ => true) 4 php_options demo_run 101 SIGKILL).
  apply list_elem_of_In. vm_compute. tauto.
Defined.

Lemma shutdown_complete_witness :
  Kill 101 SIGTERM ∈ (shutdown_workers [100] pool).2 /\
  (101 ∈ [100] \/ Kill 101 SIGKILL ∈ (shutdown_workers [100] pool).2).
Proof.
  apply (shutdown_complete [100] pool (mkWorker 101 1 0 0 0 false));
    [apply list_elem_of_In; right; left; reflexivity|reflexivity].
Defined.

Lemma reload_never_restarts_witness :
  no_forks (master_supervisor_loop options crashes (handle_reload reloading).1).1.2.
Proof. apply (reload_never_restarts options reloading crashes). reflexivity. Defined.

Definition confined : quicpro_cluster_options_t :=
  mkOptions 1 false 0 0 0 None 1000 1000 0 ZNull ZUndef ZUndef true 5 60 30 None.

