(* ===== verification/ClusterControl.v ===== *)
(** * Reaching a running master through its PID file

    The rest of [extension/src/cluster/cluster.c]: [write_pid_file], [remove_pid_file] and
    [quicpro_cluster_signal_workers], over the files by path, and what a whole run of the
    supervisor does to the PID file. *)

From Stdlib Require Import ZArith Lia String Ascii.
From stdpp Require Import base tactics sets list gmap strings pretty.
From S2P Require Import Prelude Zend Cluster.

Local Open Scope Z_scope.

Abbreviation files := (gmap string string).

(** A file that cannot be opened for writing stays as it is. *)
Definition write_pid_file (writable : bool) (getpid : Z) (path : string) (fs : files) : files :=
  if writable then <[cstr path := pretty getpid]> fs else fs.

Definition remove_pid_file (path : string) (fs : files) : files := delete (cstr path) fs.

(** [fscanf(f, "%d", &master_pid)]: [None] when there is no number; a number that is not an
    [int] is undefined. *)
Definition scan_int (text : string) : outcome unit (option Z) :=
  let number (sign : Z) (s : string) :=
    match s with
    | String c _ =>
        if digit_of c is Some _ then
          let n := sign * leading_digits 0 s in
          if (- 2 ^ 31 <=? n) && (n <? 2 ^ 31) then Done (Some n) else Undefined
        else Done None
    | EmptyString => Done None
    end in
  match skip_spaces text with
  | String "-" s => number (-1) s
  | String "+" s => number 1 s
  | s => number 1 s
  end.

(** The [kill] it makes, target and signal, and the value returned to PHP; [false] comes
    with an exception. *)
Definition quicpro_cluster_signal_workers (kill_ok : Z -> Z -> bool) (fs : files) (sig : Z)
    (pid_file_path : option string) : outcome unit (option (Z * Z) * bool) :=
  match pid_file_path with
  | None => Done (None, false)
  | Some path =>
      match fs !! cstr path with
      | None => Done (None, false)
      | Some text =>
          let! r := scan_int text in
          match r with
          | None => Done (None, false)
          | Some master_pid => let s := s32 sig in Done (Some (master_pid, s), kill_ok master_pid s)
          end
      end
  end.

(** The files after what a master has done, in the order of its events. *)
Definition file_event (writable : bool) (getpid : Z) (fs : files) (e : event) : files :=
  match e with
  | WritePidFile p => write_pid_file writable getpid p fs
  | RemovePidFile p => remove_pid_file p fs
  | _ => fs
  end.
Definition files_after (writable : bool) (getpid : Z) (evs : list event) (fs : files) : files :=
  foldl (file_event writable getpid) fs evs.

(* ------------------------------------------------------------------------ *)
(** ** Decimal texts *)

Lemma pretty_char_digit d : (d < 10)%N -> digit_of (pretty_N_char d) = Some (Z.of_N d).
Proof. intros Hd. by repeat (destruct d as [|[d|d|]] || destruct d as [d|d|]; try lia). Qed.

Lemma leading_digits_go x : forall s, leading_digits 0 (pretty_N_go x s) = leading_digits (Z.of_N x) s.
Proof.
  induction (N.lt_wf_0 x) as [x _ IH]. intros s. destruct (decide (x = 0%N)) as [-> |Hx]; [by rewrite pretty_N_go_0|].
  rewrite pretty_N_go_step by lia. rewrite IH by (apply N.div_lt; lia). cbn [leading_digits].
  rewrite pretty_char_digit by (apply N.mod_lt; lia). f_equal.
  pose proof (N.div_mod x 10 ltac:(lia)). lia.
Qed.

Lemma pretty_go_head x : (0 < x)%N -> forall s, exists d s', (d < 10)%N /\ pretty_N_go x s = String (pretty_N_char d) s'.
Proof.
  induction (N.lt_wf_0 x) as [x _ IH]. intros Hx s. rewrite pretty_N_go_step by lia.
  destruct (decide (x `div` 10 = 0)%N) as [E|E].
  - rewrite E, pretty_N_go_0. exists (x `mod` 10)%N. eexists. split; [apply N.mod_lt; lia|done].
  - apply IH; [apply N.div_lt; lia|by apply N.neq_0_lt_0].
Qed.

Lemma char_plain d : (d < 10)%N -> is_space (pretty_N_char d) = false /\ pretty_N_char d <> "-"%char /\ pretty_N_char d <> "+"%char.
Proof. intros Hd. by repeat (destruct d as [|[d|d|]] || destruct d as [d|d|]; try lia). Qed.

(** What [write_pid_file] writes is read back. *)
Lemma scan_pretty n : 0 < n < 2 ^ 31 -> scan_int (pretty n) = Done (Some n).
Proof.
  intros Hn. destruct n as [|p|p]; [lia| |lia]. change (pretty (Z.pos p)) with (pretty (N.pos p)).
  assert (E : pretty (N.pos p) = pretty_N_go (N.pos p) EmptyString) by (unfold pretty, pretty_N; by rewrite decide_False by lia).
  assert (Hl : leading_digits 0 (pretty (N.pos p)) = Z.pos p) by (rewrite E, leading_digits_go; done).
  destruct (pretty_go_head (N.pos p) ltac:(lia) EmptyString) as (d & s & Hd & Hs). rewrite <- E in Hs. rewrite Hs in Hl |- *.
  destruct (char_plain d Hd) as (Hsp & Hm & Hp). unfold scan_int. cbn [skip_spaces]. rewrite Hsp.
  pose proof (pretty_char_digit d Hd) as Hdg. revert Hl Hm Hp Hdg. generalize (pretty_N_char d) as c. intros c Hl Hm Hp Hdg.
  assert (Hnum : (let n := 1 * leading_digits 0 (String c s) in
    if (- 2 ^ 31 <=? n) && (n <? 2 ^ 31) then Done (Some n) else @Undefined unit _) = Done (Some (Z.pos p))).
  { cbv zeta. rewrite Hl, Z.mul_1_l. by rewrite (proj2 (Z.leb_le _ _)), (proj2 (Z.ltb_lt _ _)) by lia. }
  destruct c as [[] [] [] [] [] [] [] []]; try done; by rewrite Hdg.
Qed.

(* ------------------------------------------------------------------------ *)
(** ** A run and its PID file *)

Definition no_file (e : event) : Prop := match e with WritePidFile _ | RemovePidFile _ => False | _ => True end.

Lemma kill_live_no_file s pool : Forall no_file (kill_live s pool).
Proof.
  unfold kill_live. induction pool as [|w pool IH]; simpl; [done|]. apply Forall_app. split; [|done].
  destruct (pid w >? 0); [by repeat constructor|done].
Qed.

Lemma supervise_no_file o t m : Forall no_file (supervise_once o t m).2.
Proof.
  unfold supervise_once. destruct (handle_reload m) as [m1 ev1] eqn:Er.
  assert (H1 : Forall no_file ev1).
  { unfold handle_reload in Er. destruct (g_reload_request m); simplify_eq; [apply kill_live_no_file|done]. }
  destruct (t_wait t) as [child st]. destruct (child <=? 0); [done|].
  destruct (find_worker _ child) as [i|]; [|done]. destruct (status_codes st) as [code sig].
  assert (H2 : Forall no_file (if is_undef (on_worker_exit_callable o) then [] else [OnWorkerExit (Z.of_nat i) child code sig]))
    by (destruct (is_undef _); by repeat constructor).
  destruct (_ !! i) as [w|]; [|by apply Forall_app].
  destruct (restart_worker _ _ _ _ i w) as [w' ev3] eqn:Ew. simpl. rewrite !Forall_app. split_and!; [done|done|].
  unfold restart_worker in Ew. repeat case_match; simplify_eq; by repeat constructor.
Qed.

Lemma loop_no_file o ts : forall m, Forall no_file (master_supervisor_loop o ts m).1.2.
Proof.
  induction ts as [|t ts IH]; intros m; simpl; [done|]. destruct (g_shutdown_request _); [done|].
  destruct (supervise_once o t _) as [m1 ev] eqn:Es. specialize (IH m1).
  destruct (master_supervisor_loop o ts m1) as [[m2 evs] fin]. simpl in *. apply Forall_app. split; [|done].
  change ev with (m1, ev).2. rewrite <- Es. apply supervise_no_file.
Qed.

Lemma start_no_file o fork now n : forall i pool, Forall no_file (start_workers o fork now n i pool).1.2.
Proof.
  induction n as [|n IH]; intros i pool; simpl; [done|]. destruct (fork i <? 0); simpl.
  { constructor; [done|apply kill_live_no_file]. }
  specialize (IH (i + 1) (pool ++ [mkWorker (fork i) i (now i) 0 (now i) false])).
  destruct (start_workers _ _ _ n _ _) as [[p evs] err]. simpl in *. constructor; [done|]. apply Forall_app.
  split; [destruct (is_undef _); by repeat constructor|done].
Qed.

(** The PID file is written first and, when the run comes back, removed last. *)
Lemma run_cluster_shape o u path : master_pid_file_path o = Some path ->
  exists mid, Forall no_file mid /\ (run_cluster o u).1 =
    WritePidFile path :: mid ++ match (run_cluster o u).2 with Some _ => [RemovePidFile path] | None => [] end.
Proof.
  intros Hp. unfold run_cluster. rewrite Hp. destruct (num_workers o <? 0); [by exists []|].
  pose proof (start_no_file o (r_fork u) (r_now u) (Z.to_nat (num_workers o)) 0 []) as H1.
  destruct (start_workers _ _ _ _ _ _) as [[pool ev1] err]. simpl in H1. destruct err; [by exists ev1|].
  pose proof (loop_no_file o (r_ticks u) (mkMaster pool (r_shutdown u) (r_reload u))) as H2.
  destruct (master_supervisor_loop _ _ _) as [[m ev2] fin]. simpl in H2. destruct fin.
  - unfold shutdown_workers. exists (ev1 ++ ev2 ++ kill_live SIGTERM (g_worker_pool m) ++ kill_live SIGKILL (await_exits (r_waits u) (g_worker_pool m))).
    split; [rewrite !Forall_app; split_and!; auto using kill_live_no_file|]. simpl. by rewrite <- !app_assoc.
  - exists (ev1 ++ ev2). split; [by apply Forall_app|]. simpl. by rewrite app_nil_r.
Qed.

Lemma files_after_quiet writable getpid evs : Forall no_file evs -> forall fs, files_after writable getpid evs fs = fs.
Proof. induction 1 as [|e evs He _ IH]; intros fs; [done|]. unfold files_after in *. simpl. rewrite IH. by destruct e. Qed.

Lemma files_after_app writable getpid e1 e2 fs :
  files_after writable getpid (e1 ++ e2) fs = files_after writable getpid e2 (files_after writable getpid e1 fs).
Proof. apply foldl_app. Qed.

(** As long as a master runs, a signal sent through its PID file goes to it and to nobody
    else; once its run has come back, no signal is sent at all. *)
Theorem pid_file_names_master o u path getpid fs kill_ok sig evs1 evs2 :
  master_pid_file_path o = Some path -> 0 < getpid < 2 ^ 31 -> (run_cluster o u).1 = evs1 ++ evs2 -> evs1 <> [] ->
  quicpro_cluster_signal_workers kill_ok (files_after true getpid evs1 fs) sig (Some path) =
  Done (if bool_decide (evs2 = []) && bool_decide (is_Some (run_cluster o u).2) then (None, false)
        else (Some (getpid, s32 sig), kill_ok getpid (s32 sig))).
Proof.
  intros Hp Hpid Hev Hne. destruct (run_cluster_shape o u path Hp) as (mid & Hmid & Hs). rewrite Hev in Hs.
  destruct evs1 as [|e evs1]; [done|]. injection Hs as -> Hs.
  assert (Hread : forall evs, Forall no_file evs ->
    quicpro_cluster_signal_workers kill_ok (files_after true getpid (WritePidFile path :: evs) fs) sig (Some path) =
    Done (Some (getpid, s32 sig), kill_ok getpid (s32 sig))).
  { intros evs Hq. change (WritePidFile path :: evs) with ([WritePidFile path] ++ evs). rewrite files_after_app, files_after_quiet by done.
    unfold quicpro_cluster_signal_workers, files_after. simpl. by rewrite lookup_insert_eq, scan_pretty. }
  destruct (run_cluster o u).2 as [b|] eqn:Er.
  - destruct evs2 as [|e2 evs2] using rev_ind.
    + rewrite app_nil_r in Hs. subst evs1. rewrite !bool_decide_eq_true_2 by done. simpl.
      change (WritePidFile path :: mid ++ [RemovePidFile path]) with ((WritePidFile path :: mid) ++ [RemovePidFile path]).
      rewrite files_after_app. unfold quicpro_cluster_signal_workers. simpl. unfold remove_pid_file. by rewrite lookup_delete_eq.
    + clear IHevs2. rewrite app_assoc in Hs. apply app_inj_tail in Hs as [<- _]. apply Forall_app in Hmid as [Hq _].
      rewrite bool_decide_eq_false_2 by (by destruct evs2). by apply Hread.
  - rewrite app_nil_r in Hs. subst mid. apply Forall_app in Hmid as [Hq _].
    rewrite (bool_decide_eq_false_2 (is_Some None)), andb_false_r by (by intros []). by apply Hread.
Qed.

(* ------------------------------------------------------------------------ *)
(** ** A run with one worker *)

Definition demo_options : quicpro_cluster_options_t :=
  mkOptions 1 false 0 0 0 None (-1) (-1) 0 (ZString "main") ZUndef ZUndef true 5 60 5 (Some "/run/master.pid"%string).
Definition demo_run : run := mkRun (fun _ => 100) (fun _ => 7) true false [mkTick [] (0, OtherStatus) [] 8 0] [100].

Lemma pid_file_names_master_witness : exists evs1 evs2, (run_cluster demo_options demo_run).1 = evs1 ++ evs2 /\ evs2 <> [] /\
  quicpro_cluster_signal_workers (fun _ _ => true) (files_after true 4242 evs1 ∅) 15 (Some "/run/master.pid"%string) =
  Done (Some (4242, 15), true).
Proof.
  exists [WritePidFile "/run/master.pid"; Fork 0 100], [Kill 100 SIGTERM; RemovePidFile "/run/master.pid"].
  split; [reflexivity|]. split; [discriminate|].
  rewrite (pid_file_names_master demo_options demo_run "/run/master.pid" 4242 ∅ (fun _ _ => true) 15 _
    [Kill 100 SIGTERM; RemovePidFile "/run/master.pid"]); [reflexivity|reflexivity|lia|reflexivity|discriminate].
Defined.
