(* ===== verification/ClusterFork.v ===== *)
(** * A worker between [fork] and its main function

    [fork_and_start_worker] and the beginning of [worker_process_main] of
    [extension/src/cluster/cluster.c], with the signals.  A child starts as a copy of the
    master: it has the master's handlers and flags until it resets three of the handlers,
    one call at a time.  Signals may arrive between any two calls.  A disposition is what a
    process does with a signal: run the master's handler, or the default, which for the
    four signals here is to die. *)

From Stdlib Require Import ZArith Lia String.
From stdpp Require Import base tactics list strings.
From S2P Require Import Prelude Zend Cluster.

Local Open Scope nat_scope.

Inductive disposition := Handler | Default.

(** A process: its own copy of the globals, its dispositions, and what it still has to do. *)
Inductive child_call := ResetHandler (s : signal) | Setup (c : syscall).
Inductive status := Running (rest : list child_call) (code : Z) | Exited (code : Z) | KilledBy (s : signal).

Record process := mkProcess {
  globals : master;
  disposition_of : signal -> disposition;
  doing : status;
}.

(** [signal(s, ...)]; [SIGKILL] cannot be handled. *)
Definition set_disposition (s : signal) (d : disposition) (f : signal -> disposition) (s' : signal) : disposition :=
  if decide (s = s') then match s with SIGKILL => Default | _ => d end else f s'.

(** The handlers of the master, as [quicpro_cluster_orchestrate] installs them. *)
Definition install_handlers (f : signal -> disposition) : signal -> disposition :=
  set_disposition SIGHUP Handler (set_disposition SIGINT Handler (set_disposition SIGTERM Handler f)).

(** What the child does: the three resets, then the set-up and the main function. *)
Definition child_calls (nprocessors : Z) (ok : syscall -> bool) (o : quicpro_cluster_options_t) (id : Z)
  : list child_call * Z :=
  let '(calls, code) := worker_process_main nprocessors ok o id in
  ([ResetHandler SIGTERM; ResetHandler SIGINT; ResetHandler SIGHUP] ++ map Setup calls, code).

(** The result in the master and, when the fork succeeds, the child. *)
Definition fork_and_start_worker (nprocessors : Z) (ok : syscall -> bool) (o : quicpro_cluster_options_t)
    (fork_result : Z) (p : process) (id : Z) : Z * option process :=
  if (fork_result <? 0)%Z then ((-1)%Z, None)
  else
    let '(calls, code) := child_calls nprocessors ok o id in
    (fork_result, Some (mkProcess (globals p) (disposition_of p) (Running calls code))).

(** One call of the child. *)
Definition child_step (p : process) : process :=
  match doing p with
  | Running (ResetHandler s :: rest) code =>
      mkProcess (globals p) (set_disposition s Default (disposition_of p)) (Running rest code)
  | Running (Setup _ :: rest) code => mkProcess (globals p) (disposition_of p) (Running rest code)
  | Running [] code => mkProcess (globals p) (disposition_of p) (Exited code)
  | _ => p
  end.

(** A signal that arrives. *)
Definition receive (s : signal) (p : process) : process :=
  match doing p with
  | Running _ _ =>
      match s, disposition_of p s with
      | SIGKILL, _ => mkProcess (globals p) (disposition_of p) (KilledBy SIGKILL)
      | _, Handler => mkProcess (cluster_signal_handler s (globals p)) (disposition_of p) (doing p)
      | _, Default => mkProcess (globals p) (disposition_of p) (KilledBy s)
      end
  | _ => p
  end.

(** An order of the child's own calls and of signals. *)
Inductive child_event := Step | Signal (s : signal).
Definition child_event_step (p : process) (e : child_event) : process :=
  match e with Step => child_step p | Signal s => receive s p end.
Definition child_after (p : process) (es : list child_event) : process := foldl child_event_step p es.

(* ------------------------------------------------------------------------ *)
(** ** Which signals count *)

(** How many calls a child has made before it dies of a signal. *)
Definition reset_index (s : signal) : nat :=
  match s with SIGKILL => 0 | SIGTERM => 1 | SIGINT => 2 | SIGHUP => 3 end.

Definition steps (es : list child_event) : nat :=
  length (List.filter (fun e => match e with Step => true | Signal _ => false end) es).

(** The reference: a signal kills if the child has got far enough when it comes. *)
Fixpoint fatal_signal (n : nat) (es : list child_event) : option signal :=
  match es with
  | [] => None
  | Step :: es' => fatal_signal (S n) es'
  | Signal s :: es' => if reset_index s <=? n then Some s else fatal_signal n es'
  end.

(** A child with [n] calls behind it: the dispositions that are left of the master's. *)
Definition child_at (calls : list child_call) (code : Z) (n : nat) (p : process) : Prop :=
  doing p = Running (drop n calls) code /\
  (forall s, s <> SIGKILL -> disposition_of p s = if reset_index s <=? n then Default else Handler).

Section Child.
Variables (nprocessors : Z) (ok : syscall -> bool) (o : quicpro_cluster_options_t) (id : Z).
Let calls := (child_calls nprocessors ok o id).1.
Let code := (child_calls nprocessors ok o id).2.

Lemma calls_shape : exists cs, calls = [ResetHandler SIGTERM; ResetHandler SIGINT; ResetHandler SIGHUP] ++ map Setup cs.
Proof. unfold calls, child_calls. destruct (worker_process_main nprocessors ok o id) as [cs c]. by exists cs. Qed.

Lemma child_at_fork f p r c : (forall s, s <> SIGKILL -> disposition_of p s = Handler) ->
  fork_and_start_worker nprocessors ok o f p id = (r, Some c) -> child_at calls code 0 c /\ globals c = globals p.
Proof.
  intros Hp. unfold fork_and_start_worker. destruct (f <? 0)%Z; [done|]. unfold calls, code.
  destruct (child_calls nprocessors ok o id) as [cs c0]. intros [= <- <-]. split; [|done]. split; [by rewrite drop_0|].
  intros s Hs. cbn [disposition_of]. rewrite (Hp s Hs). by destruct s.
Qed.

Lemma child_at_step n p : n < length calls -> child_at calls code n p -> child_at calls code (S n) (child_step p).
Proof.
  intros Hn [Hd Hs]. destruct (lookup_lt_is_Some_2 calls n Hn) as [c Hc].
  rewrite (drop_S calls c n Hc) in Hd. unfold child_step. rewrite Hd.
  destruct calls_shape as [cs Hcs]. destruct c as [s|c].
  - split; [done|]. intros s' Hs'. cbn [disposition_of]. unfold set_disposition.
    rewrite Hcs in Hc. assert (reset_index s = S n /\ s <> SIGKILL) as [Hi Hk].
    { destruct n as [|[|[|n]]]; cbn in Hc; try (by injection Hc as <-).
      apply list_lookup_fmap_Some in Hc as (? & ? & ?). done. }
    destruct (decide (s = s')) as [<-|Hne].
    + rewrite Hi. rewrite (proj2 (Nat.leb_le _ _)) by lia. by destruct s.
    + rewrite (Hs s' Hs'). destruct (Nat.leb_spec (reset_index s') n), (Nat.leb_spec (reset_index s') (S n)); try done; [lia|].
      exfalso. apply Hne. assert (reset_index s' = reset_index s) as E by lia. by destruct s, s'.
  - split; [done|]. intros s' Hs'. cbn [disposition_of]. rewrite (Hs s' Hs').
    rewrite Hcs in Hc. destruct n as [|[|[|n]]]; [done|done|done|]. by destruct s'.
Qed.

(** A signal kills now, or is as if it had not come. *)
Lemma child_at_signal n p s : child_at calls code n p ->
  (reset_index s <= n /\ doing (receive s p) = KilledBy s) \/
  (n < reset_index s /\ child_at calls code n (receive s p)).
Proof.
  intros [Hd Hs]. unfold receive. rewrite Hd. destruct (decide (s = SIGKILL)) as [->|Hk]; [left; split; [cbn; lia|done]|].
  pose proof (Hs s Hk) as E. destruct (Nat.leb_spec (reset_index s) n) as [Hle|Hlt].
  - left. split; [done|]. destruct s; try done; by rewrite E.
  - right. split; [done|]. destruct s; try done; rewrite E; by split.
Qed.

Lemma dead_stays p es : (forall rest c, doing p <> Running rest c) -> doing (child_after p es) = doing p.
Proof.
  revert p. induction es as [|e es IH]; intros p Hp; [done|]. change (child_after p (e :: es)) with (child_after (child_event_step p e) es).
  assert (child_event_step p e = p) as ->; [|by apply IH].
  destruct e; cbn; unfold child_step, receive; destruct (doing p) as [rest c| |] eqn:E; try done; by destruct (Hp rest c).
Qed.

Lemma child_after_spec es : forall n p, child_at calls code n p -> n + steps es <= length calls ->
  match fatal_signal n es with
  | Some s => doing (child_after p es) = KilledBy s
  | None => child_at calls code (n + steps es) (child_after p es)
  end.
Proof.
  induction es as [|[|s] es IH]; intros n p Hp Hn.
  - cbn. by rewrite Nat.add_0_r.
  - cbn [fatal_signal]. change (steps (Step :: es)) with (S (steps es)) in *.
    change (child_after p (Step :: es)) with (child_after (child_step p) es).
    rewrite <- Nat.add_succ_comm. apply IH; [|lia]. apply child_at_step; [lia|done].
  - cbn [fatal_signal]. change (steps (Signal s :: es)) with (steps es) in *.
    change (child_after p (Signal s :: es)) with (child_after (receive s p) es).
    destruct (child_at_signal n p s Hp) as [[H1 H2]|[H1 H2]].
    + rewrite (proj2 (Nat.leb_le _ _) H1), dead_stays; [done|]. intros rest c. by rewrite H2.
    + rewrite (proj2 (Nat.leb_gt _ _) H1). by apply IH.
Qed.
End Child.

(* ------------------------------------------------------------------------ *)
(** ** In any order of calls and signals *)

(** C34: Which signals end a worker, exactly, for every order of its calls up to its main
    function and of signals.  The first signal that comes after the reset of its handler
    kills the worker at once; one that comes before is lost: the worker goes on exactly as
    without it.  [SIGKILL] always ends it, so that the master's last round leaves none. *)
Theorem worker_signals_exact nprocessors ok o id f p r c es :
  (forall s, s <> SIGKILL -> disposition_of p s = Handler) ->
  fork_and_start_worker nprocessors ok o f p id = (r, Some c) ->
  let calls := (child_calls nprocessors ok o id).1 in
  steps es <= length calls ->
  match fatal_signal 0 es with
  | Some s => doing (child_after c es) = KilledBy s
  | None => doing (child_after c es) = Running (drop (steps es) calls) (child_calls nprocessors ok o id).2
  end /\
  forall rest code, doing (child_after c (es ++ [Signal SIGKILL])) <> Running rest code.
Proof.
  intros Hp Hf calls Hn. destruct (child_at_fork _ _ _ _ _ _ _ _ Hp Hf) as [H0 _].
  pose proof (child_after_spec nprocessors ok o id es 0 c H0 Hn) as H. split.
  - destruct (fatal_signal 0 es); [done|]. exact (proj1 H).
  - intros rest code. unfold child_after. rewrite foldl_app. cbn [foldl child_event_step]. unfold receive.
    fold (child_after c es). by destruct (doing (child_after c es)) eqn:E; cbn; rewrite ?E.
Qed.

(** A [SIGTERM] that the master sends before the child's first call does not end the worker,
    which reaches its main function: the flag it sets is the child's own copy, which nobody
    reads. *)
Lemma early_sigterm_lost nprocessors o id f p r c :
  (forall s, s <> SIGKILL -> disposition_of p s = Handler) ->
  fork_and_start_worker nprocessors (fun _ => true) o f p id = (r, Some c) ->
  let calls := (child_calls nprocessors (fun _ => true) o id).1 in
  last calls = Some (Setup CallMain) /\
  doing (child_after c (Signal SIGTERM :: replicate (length calls - 1) Step)) = Running [Setup CallMain] 0%Z.
Proof.
  intros Hp Hf calls.
  assert (Hs : forall n, steps (replicate n Step) = n) by (induction n as [|n IH]; cbn; [done|by rewrite <- IH at 2]).
  assert (Hnf : forall n k, fatal_signal k (replicate n Step) = None) by (induction n; intros; cbn; auto).
  assert (exists l, calls = l ++ [Setup CallMain] /\ (child_calls nprocessors (fun _ => true) o id).2 = 0%Z) as (l & Hl & Hc).
  { unfold calls, child_calls, worker_process_main. set (pre := _ ++ _ ++ _ ++ _).
    destruct (worker_gid o >? 0)%Z, (worker_uid o >? 0)%Z; cbn [fst snd]; rewrite !map_app;
      (eexists; split; [by rewrite ?app_assoc|done]). }
  split; [by rewrite Hl, last_snoc|].
  destruct (child_at_fork _ _ _ _ _ _ _ _ Hp Hf) as [H0 _].
  pose proof (child_after_spec nprocessors _ o id (Signal SIGTERM :: replicate (length calls - 1) Step) 0 c H0) as H.
  change (steps (Signal SIGTERM :: replicate (length calls - 1) Step)) with (steps (replicate (length calls - 1) Step)) in H.
  rewrite Hs in H. cbn [fatal_signal reset_index Nat.leb] in H. rewrite Hnf in H.
  destruct H as [-> _]; [fold calls; lia|]. fold calls. rewrite Hc, Hl, length_app. cbn.
  rewrite drop_app_length'; [done|lia].
Qed.

Lemma worker_signals_exact_witness :
  let c := mkProcess (mkMaster [] false false) (install_handlers (fun _ => Default))
             (Running [ResetHandler SIGTERM; ResetHandler SIGINT; ResetHandler SIGHUP; Setup CallMain] 0) in
  doing (child_after c [Signal SIGINT; Step; Signal SIGHUP; Signal SIGTERM; Step]) = KilledBy SIGTERM.
Proof.
  set (o := mkOptions 1 false 0 0 0 None 0 0 0 ZUndef ZUndef ZUndef false 0 0 0 None).
  pose (p := mkProcess (mkMaster [] false false) (install_handlers (fun _ => Default)) (Running [] 0%Z)).
  destruct (worker_signals_exact 4 (fun _ => true) o 0 100 p 100
    (mkProcess (mkMaster [] false false) (install_handlers (fun _ => Default))
       (Running [ResetHandler SIGTERM; ResetHandler SIGINT; ResetHandler SIGHUP; Setup CallMain] 0))
    [Signal SIGINT; Step; Signal SIGHUP; Signal SIGTERM; Step]) as [H _].
  - intros []; vm_compute; intros Hs; [reflexivity..|]. by destruct Hs.
  - vm_compute. reflexivity.
  - vm_compute. lia.
  - exact H.
Defined.
