(* ===== verification/ClusterMemory.v ===== *)
(** * The memory of the cluster supervisor

    [extension/src/cluster/cluster.c]: what parsing the options takes, [cleanup_c_options],
    and the ends of [quicpro_cluster_orchestrate] that release the worker pool and the
    callback kept for the signal handlers. *)

From Stdlib Require Import ZArith Lia String.
From stdpp Require Import base tactics list gmap strings.
From S2P Require Import Prelude Zend Cluster Heap.

Local Open Scope Z_scope.

(** The references and the string; the other pointers of the struct stay null. *)
Record options_mem := mkOM { om_pid_file : option Z; om_main : option Z; om_start : option Z; om_exit : option Z }.
Definition options_ptrs (o : options_mem) : list Z := ptr (om_pid_file o) ++ ptr (om_main o) ++ ptr (om_start o) ++ ptr (om_exit o).

Definition cleanup_c_options (o : options_mem) : mem unit :=
  let$ _ := efree_if (om_pid_file o) in
  let$ _ := efree_if (om_main o) in
  let$ _ := efree_if (om_start o) in
  efree_if (om_exit o).

Section Options.
Variable zend_is_callable : zval -> bool.
Variable nprocessors : Z.

Definition callable_set (k : string) (ht : hashtable) : bool :=
  match ht_find (KStr k) ht with Some zv => zend_is_callable zv | None => false end.

(** [parse_options_from_php] on a zeroed struct. *)
Definition take_options (ht : hashtable) : mem (outcome cluster_error quicpro_cluster_options_t * options_mem) :=
  let value := parse_options_from_php zend_is_callable nprocessors ht in
  match ht_find (KStr "worker_main_callable") ht with
  | None => mret (value, mkOM None None None None)
  | Some main =>
      let$ pm := emalloc in
      if negb (zend_is_callable main) then mret (value, mkOM None (Some pm) None None)
      else
        let$ ps := emalloc_if (callable_set "on_worker_start_callable" ht) in
        let$ pe := emalloc_if (callable_set "on_worker_exit_callable" ht) in
        let$ pp := emalloc_if (match ht_find (KStr "master_pid_file_path") ht with Some (ZString _) => true | _ => false end) in
        mret (value, mkOM pp (Some pm) ps pe)
  end.

(** The function with what happens between start and end left out: whatever the fork or the
    loop comes to, the end is the same.  A negative number of workers asks for more memory
    than there is, which ends the process. *)
Definition orchestrate (php_options_array : hashtable) : mem (option bool) :=
  let$ '(o, om) := take_options php_options_array in
  match o with
  | Done c_options =>
      if num_workers c_options <? 0 then mret None
      else
        let$ pool := emalloc in
        let$ g_exit := emalloc_if (is_some (om_exit om)) in
        let$ _ := cleanup_c_options om in
        let$ _ := efree pool in
        let$ _ := efree_if g_exit in
        mret (Some true)
  | _ => let$ _ := cleanup_c_options om in mret (Some false)
  end.

Lemma destroys_options o : destroys (cleanup_c_options o) (options_ptrs o).
Proof. unfold cleanup_c_options, options_ptrs. auto with mem. Qed.

Lemma take_options_spec ht : triple [] (take_options ht) (fun x S =>
  x.1 = parse_options_from_php zend_is_callable nprocessors ht /\ S ≡ₚ options_ptrs x.2).
Proof.
  unfold take_options. cbv zeta. destruct (ht_find (KStr "worker_main_callable") ht) as [main|]; [|by apply triple_ret].
  apply triple_alloc. intros pm. destruct (negb (zend_is_callable main)); [by apply triple_ret|].
  do 3 (apply triple_alloc_if; intros ?). apply triple_ret. split; [done|]. unfold options_ptrs. cbn. solve_Permutation.
Qed.

(** Whatever the options are and however the run goes, an orchestration that returns has
    released its options, its pool and its callbacks, each once. *)
Theorem orchestrate_memory ht n : exists r n' L, orchestrate ht (n, []) = Done (r, (n', L)) /\ (is_some r = true -> L = []).
Proof.
  destruct (triple_run (orchestrate ht) (fun r S => is_some r = true -> S ≡ₚ []) n) as (r & n' & L & E & S & HL & HS).
  - unfold orchestrate. eapply triple_call; [apply take_options_spec|]. intros [o om] S [_ HS]. cbn [fst snd] in *.
    rewrite HS. assert (Hfail : triple (options_ptrs om ++ []) (let$ _ := cleanup_c_options om in mret (Some false))
      (fun r S => is_some r = true -> S ≡ₚ [])).
    { eapply triple_release; [apply destroys_options|reflexivity|by apply triple_ret]. }
    destruct o as [c| | |]; [|exact Hfail..]. destruct (num_workers c <? 0); [by apply triple_ret|].
    apply triple_alloc. intros pool. apply triple_alloc_if. intros g.
    apply (triple_release _ (options_ptrs om) (pool :: ptr g)); [apply destroys_options|solve_Permutation|].
    apply (triple_release _ [pool] (ptr g)); [apply destroys_efree|done|].
    eapply (triple_release _ (ptr g) []); [apply destroys_efree_if|by rewrite app_nil_r|by apply triple_ret].
  - exists r, n', L. split; [done|]. intros Hr. apply Permutation_nil. by rewrite HL, (HS Hr).
Qed.
End Options.
