(* ===== verification/ToolRegistry.v ===== *)
(** * Tool handlers of the pipeline orchestrator

    [extension/src/pipeline_orchestrator/tool_handler_registry.c]: a handler
    configuration parsed from a PHP array, and the registry of handlers by tool name.
    Names reach the registry as C strings ([strlen]); the values copied with
    [estrndup] are later read as C strings too, so [cstr] is what they hold.  (The
    members of the retrieval struct have the names the [.c] file uses; the header
    declares three of them differently.) *)

From Stdlib Require Import ZArith Lia String.
From stdpp Require Import base tactics list gmap strings.
From S2P Require Import Prelude Zend.

Local Open Scope Z_scope.

Record quicpro_mcp_target_config_t := mkTarget {
  host : string;
  port : Z;
  service_name : string;
  method_name : string;
  mcp_client_options_php_array : zval;
}.

Record quicpro_rag_config_t := mkRag {
  enabled_by_default : bool;
  enabled_param_key : string;
  rag_agent_target : quicpro_mcp_target_config_t;
  request_proto_schema : string;
  response_proto_schema : string;
  context_output_field_in_rag_response : string;
  target_context_field_in_llm_request : string;
  topics_from_param_key : option string;
  topics_from_previous_step : option (string * string);
  rag_param_map : option hashtable;
}.

Record quicpro_tool_handler_config_t := mkHandler {
  tool_name : string;
  mcp_target : quicpro_mcp_target_config_t;
  input_proto_schema : string;
  output_proto_schema : string;
  param_map : option hashtable;
  output_map : option hashtable;
  rag_config : option quicpro_rag_config_t;
}.

(** The exceptions, by the key they name. *)
Inductive pipeline_error :=
| ERegistryNotInitialized
| EAlreadyRegistered (tool : string)
| EMissingKey (context key : string)
| EStepNotArray
| EStepToolMissing
| ENoHandler (tool : string)
| EMcpCall.

Record tool_registry := mkRegistry {
  quicpro_tool_registry_initialized : bool;
  quicpro_tool_handler_registry : gmap string quicpro_tool_handler_config_t;
}.

Definition quicpro_tool_handler_registry_init (r : tool_registry) : tool_registry :=
  if quicpro_tool_registry_initialized r then r else mkRegistry true ∅.

Definition quicpro_tool_handler_registry_shutdown (r : tool_registry) : tool_registry :=
  if quicpro_tool_registry_initialized r then mkRegistry false ∅ else r.

Definition quicpro_tool_handler_get (r : tool_registry) (tool : string)
  : option quicpro_tool_handler_config_t :=
  if quicpro_tool_registry_initialized r then quicpro_tool_handler_registry r !! cstr tool else None.

(* ------------------------------------------------------------------------ *)
(** ** Parsing *)

(** A key that must be there with the type of [get]. *)
Definition need {A} (context key : string) (get : zval -> option A) (ht : hashtable)
  : outcome pipeline_error A :=
  match ht_find (KStr key) ht ≫= get with
  | Some a => Done a
  | None => Failed (EMissingKey context key)
  end.

Definition as_string (v : zval) : option string :=
  match v with ZString s => Some (cstr s) | _ => None end.
Definition as_long (v : zval) : option Z := match v with ZLong n => Some n | _ => None end.
Definition as_array (v : zval) : option hashtable := match v with ZArray ht => Some ht | _ => None end.

Definition optional {A} (key : string) (get : zval -> option A) (ht : hashtable) : option A :=
  ht_find (KStr key) ht ≫= get.

Definition parse_mcp_target_config_from_php (php_ht : hashtable) (context_for_error : string)
  : outcome pipeline_error quicpro_mcp_target_config_t :=
  let! h := need context_for_error "host" as_string php_ht in
  let! p := need context_for_error "port" as_long php_ht in
  let! s := need context_for_error "service_name" as_string php_ht in
  let! n := need context_for_error "method_name" as_string php_ht in
  Done (mkTarget h p s n
    (match optional "mcp_options" as_array php_ht with Some o => ZArray o | None => ZUndef end)).

(** [topics_from_previous_step_output] counts only with both of its strings. *)
Definition parse_topics (php_ht : hashtable) : option (string * string) :=
  match optional "topics_from_previous_step_output" as_array php_ht with
  | Some t =>
      match optional "tool_name" as_string t, optional "field_name" as_string t with
      | Some tool, Some field => Some (tool, field)
      | _, _ => None
      end
  | None => None
  end.

Definition parse_rag_config_from_php (php_ht : hashtable) (tool_name_for_error : string)
  : outcome pipeline_error quicpro_rag_config_t :=
  let! t := need tool_name_for_error "mcp_target" as_array php_ht in
  let! target := parse_mcp_target_config_from_php t "RAG agent" in
  let! k1 := need tool_name_for_error "enabled_param_key" as_string php_ht in
  let! k2 := need tool_name_for_error "request_proto_schema" as_string php_ht in
  let! k3 := need tool_name_for_error "response_proto_schema" as_string php_ht in
  let! k4 := need tool_name_for_error "context_output_field_in_rag_response" as_string php_ht in
  let! k5 := need tool_name_for_error "target_context_field_in_llm_request" as_string php_ht in
  Done (mkRag false k1 target k2 k3 k4 k5 (optional "topics_from_param_key" as_string php_ht)
          (parse_topics php_ht) (optional "rag_param_map" as_array php_ht)).

Definition create_tool_handler_from_php (tool : string) (config_ht : hashtable)
  : outcome pipeline_error quicpro_tool_handler_config_t :=
  let! t := need tool "mcp_target" as_array config_ht in
  let! target := parse_mcp_target_config_from_php t tool in
  let! i := need tool "input_proto_schema" as_string config_ht in
  let! o := need tool "output_proto_schema" as_string config_ht in
  let! rag :=
    match optional "rag_config" as_array config_ht with
    | Some r => let! rc := parse_rag_config_from_php r tool in Done (Some rc)
    | None => Done None
    end in
  Done (mkHandler (cstr tool) target i o (optional "param_map" as_array config_ht)
          (optional "output_map" as_array config_ht) rag).

Definition quicpro_tool_handler_register_from_php (r : tool_registry) (tool : string)
    (config_php_array : hashtable) : outcome pipeline_error tool_registry :=
  if negb (quicpro_tool_registry_initialized r) then Failed ERegistryNotInitialized
  else
    match quicpro_tool_handler_registry r !! cstr tool with
    | Some _ => Failed (EAlreadyRegistered tool)
    | None =>
        let! handler := create_tool_handler_from_php tool config_php_array in
        Done (mkRegistry true (<[cstr tool := handler]> (quicpro_tool_handler_registry r)))
    end.
