(* ===== verification/ToolMemory.v ===== *)
(** * The memory of tool handlers

    [extension/src/pipeline_orchestrator/tool_handler_registry.c] at the level of single
    allocations: the parsers with what they allocate, the cleanup of a handler that could
    not be finished, and the destructors.  The values are those of [ToolRegistry]; a struct
    here has the pointers of the C struct, null at first. *)

From Stdlib Require Import ZArith Lia String.
From stdpp Require Import base tactics list gmap strings.
From S2P Require Import Prelude Zend ToolRegistry Heap.

Local Open Scope Z_scope.
Set Warnings "-clear-no-such-hyp,-missing-scheme".

Abbreviation result A := (outcome pipeline_error A).

(** A copied hash table: the struct and its storage. *)
Definition map_mem : Type := option (Z * Z).
Definition map_ptrs (m : map_mem) : list Z := match m with Some (p, q) => [p; q] | None => [] end.
Definition copy_map (ht : option hashtable) : mem map_mem :=
  match ht with
  | Some _ => let$ p := emalloc in let$ q := emalloc in mret (Some (p, q))
  | None => mret None
  end.
Definition destroy_map (m : map_mem) : mem unit :=
  match m with Some (p, q) => let$ _ := efree q in efree p | None => mret tt end.

(* ------------------------------------------------------------------------ *)
(** ** Targets *)

Record target_mem := mkTM { tm_host : option Z; tm_service : option Z; tm_method : option Z; tm_options : option Z }.
Definition target_ptrs (t : target_mem) : list Z := ptr (tm_host t) ++ ptr (tm_service t) ++ ptr (tm_method t) ++ ptr (tm_options t).
Definition no_target : target_mem := mkTM None None None None.

Definition parse_target (php_ht : hashtable) (context : string) : mem (result quicpro_mcp_target_config_t * target_mem) :=
  unless (need context "host" as_string php_ht) no_target (fun h =>
  let$ p1 := emalloc in
  let tm := mkTM (Some p1) None None None in
  unless (need context "port" as_long php_ht) tm (fun p =>
  unless (need context "service_name" as_string php_ht) tm (fun s =>
  let$ p2 := emalloc in
  let tm := mkTM (Some p1) (Some p2) None None in
  unless (need context "method_name" as_string php_ht) tm (fun n =>
  let$ p3 := emalloc in
  let opts := optional "mcp_options" as_array php_ht in
  let$ p4 := emalloc_if (is_some opts) in
  mret (Done (mkTarget h p s n (match opts with Some o => ZArray o | None => ZUndef end)),
        mkTM (Some p1) (Some p2) (Some p3) p4))))).

Definition destroy_mcp_target_config_contents (t : target_mem) : mem unit :=
  let$ _ := efree_if (tm_host t) in
  let$ _ := efree_if (tm_service t) in
  let$ _ := efree_if (tm_method t) in
  efree_if (tm_options t).

(* ------------------------------------------------------------------------ *)
(** ** Retrieval *)

Record rag_mem := mkRM {
  rm_target : target_mem;
  rm_keys : list Z;                        (** the five required strings, as far as they are set *)
  rm_topics_key : option Z;
  rm_source : option (Z * Z);
  rm_map : map_mem;
}.
Definition pair_ptrs (p : option (Z * Z)) : list Z := match p with Some (a, b) => [a; b] | None => [] end.
Definition rag_ptrs (r : rag_mem) : list Z :=
  target_ptrs (rm_target r) ++ rm_keys r ++ ptr (rm_topics_key r) ++ pair_ptrs (rm_source r) ++ map_ptrs (rm_map r).

Definition copy_topics (topics : option (string * string)) : mem (option (Z * Z)) :=
  match topics with
  | Some _ => let$ a := emalloc in let$ b := emalloc in mret (Some (a, b))
  | None => mret None
  end.

Definition rag_strings (t : target_mem) (keys : list Z) : rag_mem := mkRM t keys None None None.

Definition parse_rag (php_ht : hashtable) (tool : string) : mem (result quicpro_rag_config_t * rag_mem) :=
  unless (need tool "mcp_target" as_array php_ht) (rag_strings no_target []) (fun t =>
  let$ '(rt, tm) := parse_target t "RAG agent" in
  unless rt (rag_strings tm []) (fun target =>
  unless (need tool "enabled_param_key" as_string php_ht) (rag_strings tm []) (fun k1 => let$ q1 := emalloc in
  unless (need tool "request_proto_schema" as_string php_ht) (rag_strings tm [q1]) (fun k2 => let$ q2 := emalloc in
  unless (need tool "response_proto_schema" as_string php_ht) (rag_strings tm [q1; q2]) (fun k3 => let$ q3 := emalloc in
  unless (need tool "context_output_field_in_rag_response" as_string php_ht) (rag_strings tm [q1; q2; q3]) (fun k4 => let$ q4 := emalloc in
  unless (need tool "target_context_field_in_llm_request" as_string php_ht) (rag_strings tm [q1; q2; q3; q4]) (fun k5 => let$ q5 := emalloc in
  let topics_key := optional "topics_from_param_key" as_string php_ht in
  let$ q6 := emalloc_if (is_some topics_key) in
  let topics := parse_topics php_ht in
  let$ q7 := copy_topics topics in
  let pmap := optional "rag_param_map" as_array php_ht in
  let$ q8 := copy_map pmap in
  mret (Done (mkRag false k1 target k2 k3 k4 k5 topics_key topics pmap),
        mkRM tm [q1; q2; q3; q4; q5] q6 q7 q8)))))))).

Definition destroy_rag_config_contents (r : rag_mem) : mem unit :=
  let$ _ := destroy_mcp_target_config_contents (rm_target r) in
  let$ _ := each efree (rm_keys r) in
  let$ _ := efree_if (rm_topics_key r) in
  let$ _ := match rm_source r with Some (a, b) => let$ _ := efree a in efree b | None => mret tt end in
  destroy_map (rm_map r).

(* ------------------------------------------------------------------------ *)
(** ** Handlers *)

Record handler_mem := mkHM {
  hm_self : Z;
  hm_name : Z;
  hm_target : target_mem;
  hm_input : option Z;
  hm_output : option Z;
  hm_param_map : map_mem;
  hm_output_map : map_mem;
  hm_rag : option (Z * rag_mem);
}.
Definition rag_block (r : option (Z * rag_mem)) : list Z := match r with Some (p, r) => rag_ptrs r ++ [p] | None => [] end.
Definition handler_ptrs (h : handler_mem) : list Z :=
  [hm_name h] ++ target_ptrs (hm_target h) ++ ptr (hm_input h) ++ ptr (hm_output h)
  ++ map_ptrs (hm_param_map h) ++ map_ptrs (hm_output_map h) ++ rag_block (hm_rag h) ++ [hm_self h].

(** [tool_handler_config_dtor_internal], and the same statements after [error:]. *)
Definition tool_handler_config_dtor_internal (h : handler_mem) : mem unit :=
  let$ _ := efree (hm_name h) in
  let$ _ := destroy_mcp_target_config_contents (hm_target h) in
  let$ _ := efree_if (hm_input h) in
  let$ _ := efree_if (hm_output h) in
  let$ _ := destroy_map (hm_param_map h) in
  let$ _ := destroy_map (hm_output_map h) in
  let$ _ := match hm_rag h with
            | Some (p, r) => let$ _ := destroy_rag_config_contents r in efree p
            | None => mret tt
            end in
  efree (hm_self h).

Definition fill_handler (self name : Z) (tool : string) (config_ht : hashtable)
  : mem (result quicpro_tool_handler_config_t * handler_mem) :=
  let h0 := mkHM self name no_target None None None None None in
  unless (need tool "mcp_target" as_array config_ht) h0 (fun t =>
  let$ '(rt, tm) := parse_target t tool in
  unless rt (mkHM self name tm None None None None None) (fun target =>
  unless (need tool "input_proto_schema" as_string config_ht) (mkHM self name tm None None None None None) (fun i =>
  let$ pi := emalloc in
  unless (need tool "output_proto_schema" as_string config_ht) (mkHM self name tm (Some pi) None None None None) (fun o =>
  let$ po := emalloc in
  let pmap := optional "param_map" as_array config_ht in
  let$ mp := copy_map pmap in
  let omap := optional "output_map" as_array config_ht in
  let$ mo := copy_map omap in
  match optional "rag_config" as_array config_ht with
  | Some r =>
      let$ pr := emalloc in
      let$ '(rr, rm) := parse_rag r tool in
      let h := mkHM self name tm (Some pi) (Some po) mp mo (Some (pr, rm)) in
      unless rr h (fun rc => mret (Done (mkHandler (cstr tool) target i o pmap omap (Some rc)), h))
  | None =>
      mret (Done (mkHandler (cstr tool) target i o pmap omap None), mkHM self name tm (Some pi) (Some po) mp mo None)
  end)))).

(** [None]: null, after the cleanup. *)
Definition create_handler (tool : string) (config_ht : hashtable)
  : mem (result (quicpro_tool_handler_config_t * handler_mem)) :=
  let$ self := emalloc in
  let$ name := emalloc in
  let$ '(r, h) := fill_handler self name tool config_ht in
  match r with
  | Done v => mret (Done (v, h))
  | Failed e => let$ _ := tool_handler_config_dtor_internal h in mret (Failed e)
  | Undefined => mret Undefined
  | NoFuel => mret NoFuel
  end.

(** The registry's table with the memory of its entries; registering, and the destruction
    of the table, which calls the destructor of every entry. *)
Definition table : Type := list (string * handler_mem).

Definition register_handler (r : tool_registry) (tb : table) (tool : string) (config : hashtable)
  : mem (result tool_registry * table) :=
  if negb (quicpro_tool_registry_initialized r) then mret (Failed ERegistryNotInitialized, tb)
  else
    match quicpro_tool_handler_registry r !! cstr tool with
    | Some _ => mret (Failed (EAlreadyRegistered tool), tb)
    | None =>
        let$ o := create_handler tool config in
        match o with
        | Done (v, h) => mret (Done (mkRegistry true (<[cstr tool := v]> (quicpro_tool_handler_registry r))), tb ++ [(cstr tool, h)])
        | Failed e => mret (Failed e, tb)
        | Undefined => mret (Undefined, tb)
        | NoFuel => mret (NoFuel, tb)
        end
    end.

Definition destroy_table (tb : table) : mem unit := each (fun e => tool_handler_config_dtor_internal e.2) tb.
Definition table_ptrs (tb : table) : list Z := concat (map (fun e => handler_ptrs e.2) tb).

(** A history of registrations, each of which may fail, and the end. *)
Fixpoint register_all (r : tool_registry) (tb : table) (calls : list (string * hashtable)) : mem (tool_registry * table) :=
  match calls with
  | [] => mret (r, tb)
  | (tool, config) :: calls' =>
      let$ '(o, tb) := register_handler r tb tool config in
      register_all (match o with Done r' => r' | _ => r end) tb calls'
  end.

(** The end of a request: the engine takes back all memory of the request. *)
Definition request_end : mem unit := fun h => Done (tt, (h.1, [])).

(** Requests, each with its registrations; the table and its keys are persistent memory. *)
Fixpoint requests (r : tool_registry) (tb : table) (reqs : list (list (string * hashtable))) : mem (tool_registry * table) :=
  match reqs with
  | [] => mret (r, tb)
  | calls :: reqs' =>
      let$ '(r, tb) := register_all r tb calls in
      let$ _ := request_end in
      requests r tb reqs'
  end.

(* ------------------------------------------------------------------------ *)
(** ** Destructors *)

Lemma destroys_map m : destroys (destroy_map m) (map_ptrs m).
Proof.
  destruct m as [[p q]|]; cbn [destroy_map map_ptrs]; [|apply destroys_ret].
  rewrite (Permutation_swap q p). apply (destroys_bind (efree q) (efree p) [q] [p]); apply destroys_efree.
Qed.

Lemma destroys_target t : destroys (destroy_mcp_target_config_contents t) (target_ptrs t).
Proof. unfold destroy_mcp_target_config_contents, target_ptrs. auto with mem. Qed.

Lemma destroys_all l : destroys (each efree l) l.
Proof.
  induction l as [|p l IH]; [apply destroys_ret|]. apply (destroys_bind _ _ [p] l); auto with mem.
Qed.
#[local] Hint Resolve destroys_map destroys_target destroys_all : mem.

Lemma destroys_rag r : destroys (destroy_rag_config_contents r) (rag_ptrs r).
Proof.
  unfold destroy_rag_config_contents, rag_ptrs. repeat (apply destroys_bind; [auto with mem|]); [|auto with mem].
  destruct (rm_source r) as [[a b]|]; [|auto with mem]. apply (destroys_bind _ _ [a] [b]); auto with mem.
Qed.
#[local] Hint Resolve destroys_rag : mem.

Lemma destroys_handler h : destroys (tool_handler_config_dtor_internal h) (handler_ptrs h).
Proof.
  unfold tool_handler_config_dtor_internal, handler_ptrs. repeat (apply destroys_bind; [auto with mem|]); [|auto with mem].
  destruct (hm_rag h) as [[p r]|]; cbn [rag_block]; auto with mem.
Qed.
#[local] Hint Resolve destroys_handler : mem.

Lemma destroys_table tb : destroys (destroy_table tb) (table_ptrs tb).
Proof. apply (destroys_each _ (fun e => handler_ptrs e.2)). auto with mem. Qed.

(* ------------------------------------------------------------------------ *)
(** ** Constructors *)

(** One step of a constructor. *)
Ltac mem_step :=
  match goal with
  | |- triple _ (unless (need ?c ?k ?g ?ht) _ _) _ => destruct (need c k g ht) eqn:?; cbn [unless]
  | |- triple _ (unless (Done _) _ _) _ => cbn [unless]
  | |- triple _ (mbind emalloc _) _ => apply triple_alloc; intros ?
  | |- triple _ (mbind (emalloc_if _) _) _ => apply triple_alloc_if; intros ?
  | |- triple _ (mret _) _ => apply triple_ret
  end.

Lemma parse_target_spec ht ctx :
  triple [] (parse_target ht ctx) (fun r S => r.1 = parse_mcp_target_config_from_php ht ctx /\ S ≡ₚ target_ptrs r.2).
Proof.
  unfold parse_target, parse_mcp_target_config_from_php. repeat mem_step; cbn [fst snd obind].
  all: repeat match goal with H : need _ _ _ _ = _ |- _ => rewrite H end; cbn [obind]; split; [reflexivity|].
  all: unfold target_ptrs; cbn [tm_host tm_service tm_method tm_options no_target ptr]; solve_Permutation.
Qed.

Lemma copy_map_spec {A} P ht (k : map_mem -> mem A) phi :
  (forall m, triple (map_ptrs m ++ P) (k m) phi) -> triple P (mbind (copy_map ht) k) phi.
Proof.
  intros Hk. eapply (triple_bind _ _ _ (fun m S => S ≡ₚ map_ptrs m ++ P)); [|by intros m S ->].
  destruct ht; cbn [copy_map]; repeat mem_step; cbn [map_ptrs]; [solve_Permutation|done].
Qed.

Lemma copy_topics_spec {A} P topics (k : option (Z * Z) -> mem A) phi :
  (forall q, triple (pair_ptrs q ++ P) (k q) phi) -> triple P (mbind (copy_topics topics) k) phi.
Proof.
  intros Hk. eapply (triple_bind _ _ _ (fun q S => S ≡ₚ pair_ptrs q ++ P)); [|by intros q S ->].
  destruct topics; cbn [copy_topics]; repeat mem_step; cbn [pair_ptrs]; [solve_Permutation|done].
Qed.

(** Collecting the equations of the pure parser. *)
Ltac pure_steps :=
  cbn [fst snd obind];
  repeat match goal with H : need _ _ _ _ = _ |- _ => rewrite H end; cbn [obind];
  repeat match goal with H : _ = parse_mcp_target_config_from_php _ _ |- _ => rewrite <- H end; cbn [obind];
  repeat match goal with H : _ = parse_rag_config_from_php _ _ |- _ => rewrite <- H end; cbn [obind].
Ltac ptrs_perm :=
  unfold rag_ptrs, handler_ptrs, rag_block, rag_strings, target_ptrs in *;
  cbn [rm_target rm_keys rm_topics_key rm_source rm_map pair_ptrs map_ptrs ptr tm_host tm_service tm_method tm_options
       no_target hm_self hm_name hm_target hm_input hm_output hm_param_map hm_output_map hm_rag fst snd] in *;
  repeat match goal with H : _ ≡ₚ _ |- _ => rewrite H; clear H end; solve_Permutation.

Lemma parse_rag_spec ht tool :
  triple [] (parse_rag ht tool) (fun r S => r.1 = parse_rag_config_from_php ht tool /\ S ≡ₚ rag_ptrs r.2).
Proof.
  unfold parse_rag, parse_rag_config_from_php. mem_step; [|mem_step; pure_steps; split; [done|ptrs_perm]..].
  eapply triple_call; [apply parse_target_spec|]. intros [rt tm] S [Hr HS]. cbn [fst snd] in *.
  destruct rt as [target| | |]; cbn [unless]; [|mem_step; pure_steps; split; [done|ptrs_perm]..].
  do 11 (first [mem_step; [|mem_step; pure_steps; split; [done|ptrs_perm]..] | mem_step]).
  apply copy_topics_spec. intros q. apply copy_map_spec. intros m. mem_step. pure_steps. split; [done|ptrs_perm].
Qed.

(** The parsers come back with a value or an exception. *)
Lemma need_total {A} c k (g : zval -> option A) ht : returns (fun _ => True) (need c k g ht).
Proof. unfold need. by destruct (_ ≫= g). Qed.

Ltac total_step := eapply returns_bind; [apply need_total|intros ? _].
Lemma parse_target_total ht ctx : returns (fun _ => True) (parse_mcp_target_config_from_php ht ctx).
Proof. unfold parse_mcp_target_config_from_php. repeat total_step. done. Qed.
Lemma parse_rag_total ht tool : returns (fun _ => True) (parse_rag_config_from_php ht tool).
Proof.
  unfold parse_rag_config_from_php. total_step. eapply returns_bind; [apply parse_target_total|intros ? _].
  repeat total_step. done.
Qed.
Lemma create_tool_handler_total tool ht : returns (fun _ => True) (create_tool_handler_from_php tool ht).
Proof.
  unfold create_tool_handler_from_php. total_step. eapply returns_bind; [apply parse_target_total|intros ? _].
  do 2 total_step. eapply (returns_bind (fun _ => True)); [|done].
  case_match; [|done]. eapply returns_bind; [apply parse_rag_total|done].
Qed.

Lemma fill_handler_spec self name tool ht :
  triple [self; name] (fill_handler self name tool ht)
    (fun r S => r.1 = create_tool_handler_from_php tool ht /\ S ≡ₚ handler_ptrs r.2).
Proof.
  unfold fill_handler, create_tool_handler_from_php. cbv zeta. mem_step; [|mem_step; pure_steps; split; [done|ptrs_perm]..].
  eapply triple_call; [apply parse_target_spec|]. intros [rt tm] S [Hr HS]. cbn [fst snd] in *.
  destruct rt as [target| | |]; cbn [unless]; [|mem_step; pure_steps; split; [done|ptrs_perm]..].
  do 4 (first [mem_step; [|mem_step; pure_steps; split; [done|ptrs_perm]..] | mem_step]).
  do 2 (apply copy_map_spec; intros ?).
  destruct (optional "rag_config" as_array ht) as [rht|]; [|mem_step; pure_steps; split; [done|ptrs_perm]].
  mem_step. eapply triple_call; [apply parse_rag_spec|]. intros [rr rm] T [Hr' HT]. cbn [fst snd] in *.
  destruct rr as [rc| | |]; cbn [unless]; mem_step; pure_steps; (split; [done|ptrs_perm]).
Qed.

(** A handler that is created owns its blocks and is the one of [ToolRegistry]; one that
    cannot be created leaves none. *)
Lemma create_handler_spec tool ht :
  triple [] (create_handler tool ht) (fun o S =>
    match o with
    | Done (v, h) => create_tool_handler_from_php tool ht = Done v /\ S ≡ₚ handler_ptrs h
    | Failed e => create_tool_handler_from_php tool ht = Failed e /\ S ≡ₚ []
    | _ => False
    end).
Proof.
  unfold create_handler. do 2 (apply triple_alloc; intros ?).
  eapply triple_bind; [rewrite (Permutation_swap); apply fill_handler_spec|]. intros [r h] S [Hr HS]. cbn [fst snd] in *.
  pose proof (create_tool_handler_total tool ht) as Ht. rewrite <- Hr in Ht. destruct r as [v|e| |]; try done.
  - apply triple_ret. done.
  - eapply triple_bind; [rewrite HS; apply destroys_handler|]. intros [] T HT. by apply triple_ret.
Qed.

(* ------------------------------------------------------------------------ *)
(** ** The registry *)

Definition register_seq (r : tool_registry) (calls : list (string * hashtable)) : tool_registry :=
  foldl (fun r c => match quicpro_tool_handler_register_from_php r c.1 c.2 with Done r' => r' | _ => r end) r calls.

Lemma table_ptrs_snoc tb name h : table_ptrs (tb ++ [(name, h)]) = table_ptrs tb ++ handler_ptrs h.
Proof. unfold table_ptrs. rewrite map_app, concat_app. cbn. by rewrite app_nil_r. Qed.

(** A registration adds the handler's blocks, or none; the blocks of the others are not
    touched, whether they are still there or not. *)
Lemma register_handler_spec r tb tool config :
  triple [] (register_handler r tb tool config)
    (fun x S => x.1 = quicpro_tool_handler_register_from_php r tool config /\
       exists new, x.2 = tb ++ new /\ S ≡ₚ table_ptrs new).
Proof.
  assert (Hno : forall o : result tool_registry, (o, tb).1 = o /\ exists new, (o, tb).2 = tb ++ new /\ [] ≡ₚ table_ptrs new)
    by (intros o; split; [done|]; exists []; by rewrite app_nil_r).
  unfold register_handler, quicpro_tool_handler_register_from_php.
  destruct (negb _); [by apply triple_ret|]. destruct (_ !! cstr tool); [by apply triple_ret|].
  eapply triple_bind; [apply create_handler_spec|]. intros o S Ho. destruct o as [[v h]|e| |]; try done; destruct Ho as [-> HS].
  - apply triple_ret. split; [done|]. exists [(cstr tool, h)]. split; [done|]. rewrite HS. unfold table_ptrs. cbn. by rewrite app_nil_r.
  - rewrite HS. by apply triple_ret.
Qed.

Lemma table_ptrs_app t1 t2 : table_ptrs (t1 ++ t2) = table_ptrs t1 ++ table_ptrs t2.
Proof. unfold table_ptrs. by rewrite map_app, concat_app. Qed.

Lemma register_all_spec calls : forall r tb,
  triple [] (register_all r tb calls)
    (fun x S => x.1 = register_seq r calls /\ exists new, x.2 = tb ++ new /\ S ≡ₚ table_ptrs new).
Proof.
  induction calls as [|[tool config] calls IH]; intros r tb; cbn [register_all].
  { apply triple_ret. split; [done|]. exists []. by rewrite app_nil_r. }
  eapply triple_bind; [apply register_handler_spec|]. intros [o tb'] S [Ho (new & Htb & HS)]. cbn [fst snd] in *. subst tb'.
  rewrite HS. cbn [register_seq foldl fst snd]. rewrite <- Ho.
  eapply triple_mono; [apply (triple_frame [] (table_ptrs new)), IH|].
  intros [r' tb'] S' (S2 & HS' & Hr & new' & Htb & HS2). cbn [fst snd] in *. split; [done|].
  exists (new ++ new'). rewrite Htb, app_assoc. split; [done|]. rewrite table_ptrs_app, HS', HS2. apply Permutation_app_comm.
Qed.

Lemma register_seq_app r l1 l2 : register_seq r (l1 ++ l2) = register_seq (register_seq r l1) l2.
Proof. apply foldl_app. Qed.

Lemma requests_spec reqs : forall r tb n L, L = [] -> exists new n',
  requests r tb reqs (n, L) = Done ((register_seq r (concat reqs), tb ++ new), (n', [])).
Proof.
  induction reqs as [|calls reqs IH]; intros r tb n L ->; cbn [requests concat].
  { exists [], n. by rewrite app_nil_r. }
  destruct (register_all_spec calls r tb n [] []) as ([r' tb'] & n' & L & S & E & _ & Hr & new & Htb & _); [done|].
  cbn [fst snd] in *. subst. destruct (IH (register_seq r calls) (tb ++ new) n' [] eq_refl) as (new' & n2 & E2).
  exists (new ++ new'), n2. unfold mbind at 1. rewrite E. cbn [obind]. unfold mbind, request_end. cbn [obind fst].
  by rewrite E2, register_seq_app, app_assoc.
Qed.

(** *** The logger target of the orchestrator

    [quicpro_pipeline_orchestrator_shutdown_settings] of [pipeline_orchestrator.c] on the global
    [g_logger_agent_target], which nothing sets; freeing a null pointer does nothing. *)
Definition quicpro_pipeline_orchestrator_shutdown_settings (g_logger_agent_target : option (Z * target_mem))
  : mem (option (Z * target_mem)) :=
  match g_logger_agent_target with
  | None => mret None
  | Some (self, t) =>
      let$ _ := efree_if (tm_host t) in
      let$ _ := efree_if (tm_service t) in
      let$ _ := efree_if (tm_method t) in
      let$ _ := efree_if (tm_options t) in
      let$ _ := efree self in
      mret None
  end.

Lemma shutdown_settings_releases self t :
  triple (target_ptrs t ++ [self]) (quicpro_pipeline_orchestrator_shutdown_settings (Some (self, t)))
    (fun g S => g = None /\ S ≡ₚ []).
Proof.
  assert (destroys (let$ _ := efree_if (tm_host t) in let$ _ := efree_if (tm_service t) in
    let$ _ := efree_if (tm_method t) in let$ _ := efree_if (tm_options t) in efree self) (target_ptrs t ++ [self])) as Hd.
  { unfold target_ptrs. rewrite <- !app_assoc. auto 10 with mem. }
  intros n L F HL. destruct (Hd n L F HL) as ([] & n' & L' & S & E & HS & Hn).
  exists None, n', L', S. split; [|done]. revert E. cbn [quicpro_pipeline_orchestrator_shutdown_settings]. unfold mbind, mret.
  repeat (destruct (efree_if _ _) as [[[] ?]| | |]; cbn [obind]; try discriminate).
  destruct (efree self _) as [[[] ?]| | |]; cbn; by intros [=]; subst.
Qed.

(** The table is kept across requests, its handlers are memory of the request that
    registered them: destroying it after that request has ended is undefined. *)
Lemma table_after_request tb n : tb <> [] -> destroy_table tb (n, []) = Undefined.
Proof. destruct tb as [|[name h] tb]; [done|]. intros _. reflexivity. Qed.

(** C16: The memory of the tool registry over any number of requests [reqs] and one more with
    the registrations [calls].  Registering does what the abstract registry does.  In each
    request the blocks live are exactly those of the handlers it has registered, and a
    configuration that is refused, at whatever point, leaves none; the destructor of the
    table would release them, each once, while the request lasts.  But the table outlives
    the request and the handlers do not: after its end, destroying a table with any handler
    in it is undefined. *)
Theorem tool_registry_memory r reqs calls n : exists tb new n1 n2 L,
  requests r [] reqs (n, []) = Done ((register_seq r (concat reqs), tb), (n1, [])) /\
  register_all (register_seq r (concat reqs)) tb calls (n1, []) =
    Done ((register_seq r (concat reqs ++ calls), tb ++ new), (n2, L)) /\
  L ≡ₚ table_ptrs new /\ (exists n3, destroy_table new (n2, L) = Done (tt, (n3, []))) /\
  request_end (n2, L) = Done (tt, (n2, [])) /\
  (tb ++ new <> [] -> destroy_table (tb ++ new) (n2, []) = Undefined).
Proof.
  destruct (requests_spec reqs r [] n [] eq_refl) as (tb & n1 & E1). cbn [app] in E1.
  destruct (register_all_spec calls (register_seq r (concat reqs)) tb n1 [] [])
    as ([r' tb'] & n2 & L & S & E2 & HL & Hr & new & Htb & HS); [done|].
  cbn [fst snd] in *. subst. rewrite app_nil_r in HL. rewrite HS in HL.
  exists tb, new, n1, n2, L. rewrite register_seq_app. split_and!; [done|done|done| |done|apply table_after_request].
  destruct (destroys_table new n2 L []) as ([] & n3 & L' & T & E3 & HL' & HT); [by rewrite app_nil_r|].
  exists n3. rewrite E3. do 3 f_equal. apply Permutation_nil. by rewrite HL', HT.
Qed.
