(* ===== verification/Pipeline.v ===== *)
(** * The pipeline orchestrator

    [extension/src/pipeline_orchestrator/pipeline_orchestrator.c]: a pipeline is a PHP
    array of steps; each step names a tool, is skipped when it is conditional and the last
    condition failed, calls the tool's MCP target and stores the response under the tool's
    name.  The call itself is the class [McpCall]: the engine is defined for any of them,
    and [execute_mcp_call] is the one of the source, which echoes its request.  The state
    has a ghost member, the list of tools called so far.

    [execute_pipeline_c] ends with [ZVAL_ARR(return_value, zend_hash_copy(execution_context,
    ...))].  The target of the copy is the context, and the array that was to be returned is
    its source; [zend_hash_copy] itself returns nothing.  Read as returning its target, which
    is the only reading that compiles, the value returned is the context, and the context is
    destroyed and freed two lines further down: what PHP gets after a run that completes is a
    freed table ([PFreed]), with nothing that can be read from it. *)

From Stdlib Require Import ZArith Lia String.
From stdpp Require Import base tactics list gmap strings.
From S2P Require Import Prelude Zend ToolRegistry.

Local Open Scope Z_scope.

(** Target, request payload, input and output schema names. *)
Class McpCall :=
  mcp_call : quicpro_mcp_target_config_t -> zval -> string -> string -> outcome pipeline_error zval.

Definition execute_mcp_call : McpCall := fun target request_payload input_schema output_schema =>
  Done request_payload.

(** Always succeeds with a fixed text. *)
Definition execute_rag_sub_call (tool_handler : quicpro_tool_handler_config_t) (step_params : hashtable)
  : outcome pipeline_error zval := Done (ZString "/* Retrieved RAG context would be here */").

Record pstate := mkPState {
  execution_context : hashtable;
  last_condition_result : bool;
  calls : list string;
}.

Section Engine.
Context `{McpCall}.
Variable reg : tool_registry.

Definition condition_true_only (step : hashtable) : bool :=
  match ht_find (KStr "condition_true_only") step with Some v => zend_is_true v | None => false end.

(** Retrieval, when the tool has it and the step's parameters ask for it; [params] is used
    as an array without a test. *)
Definition rag_context (h : quicpro_tool_handler_config_t) (step : hashtable)
  : outcome pipeline_error zval :=
  match rag_config h with
  | None => Done ZNull
  | Some rc =>
      match ht_find (KStr "params") step with
      | None => Done ZNull
      | Some (ZArray params) =>
          match ht_find (KStr (enabled_param_key rc)) params with
          | Some v => if zend_is_true v then execute_rag_sub_call h params else Done ZNull
          | None => Done ZNull
          end
      | Some _ => Undefined
      end
  end.

(** The condition a response of [ConditionalLogic] reports. *)
Definition condition_met (response : zval) : bool :=
  match response with
  | ZArray ht => match ht_find (KStr "condition_met") ht with Some v => zend_is_true v | None => false end
  | _ => false
  end.

Definition conditional_logic (tool : string) : bool := bool_decide (cstr tool = "ConditionalLogic"%string).

Definition execute_step_c (step : hashtable) (st : pstate) : pstate * outcome pipeline_error unit :=
  if condition_true_only step && negb (last_condition_result st) then (st, Done tt)
  else
    match ht_find (KStr "tool") step with
    | Some (ZString tool) =>
        match quicpro_tool_handler_get reg tool with
        | None => (st, Failed (ENoHandler tool))
        | Some h =>
            match rag_context h step with
            | Done _ =>
                let st := mkPState (execution_context st) (last_condition_result st)
                                   (calls st ++ [cstr tool]) in
                match mcp_call (mcp_target h) (ZArray []) (input_proto_schema h) (output_proto_schema h) with
                | Done response =>
                    (mkPState (ht_update (KStr (cstr tool)) response (execution_context st))
                              (if conditional_logic tool then condition_met response else true)
                              (calls st), Done tt)
                | Failed e => (st, Failed e)
                | Undefined => (st, Undefined)
                | NoFuel => (st, NoFuel)
                end
            | Failed e => (st, Failed e)
            | Undefined => (st, Undefined)
            | NoFuel => (st, NoFuel)
            end
        end
    | _ => (st, Failed EStepToolMissing)
    end.

(** The loop over the steps. *)
Fixpoint execute_steps (steps : list zval) (st : pstate) : pstate * outcome pipeline_error unit :=
  match steps with
  | [] => (st, Done tt)
  | ZArray step :: steps' =>
      match execute_step_c step st with
      | (st, Done _) => execute_steps steps' st
      | failed => failed
      end
  | _ :: _ => (st, Failed EStepNotArray)
  end.

(** What the caller finds in [return_value]. *)
Inductive pipeline_value := PFalse | PFreed.

Definition execute_pipeline_c (pipeline : hashtable) : outcome pipeline_error pipeline_value * list string :=
  let '(st, res) := execute_steps (ht_values pipeline) (mkPState [] true []) in
  ((let! _ := res in Done PFreed), calls st).

(** The value PHP sees ([false] with an exception pending on failure), and the tools called. *)
Definition quicpro_pipeline_orchestrator_run (pipeline : hashtable)
  : outcome pipeline_error pipeline_value * list string :=
  match execute_pipeline_c pipeline with
  | (Done v, called) => (Done v, called)
  | (Failed _, called) => (Done PFalse, called)
  | (Undefined, called) => (Undefined, called)
  | (NoFuel, called) => (NoFuel, called)
  end.
End Engine.

(** [quicpro_pipeline_orchestrator_register_tool]. *)
Definition quicpro_pipeline_orchestrator_register_tool (reg : tool_registry) (tool : string)
    (config_array : hashtable) : tool_registry * bool :=
  match quicpro_tool_handler_register_from_php reg tool config_array with
  | Done reg' => (reg', true)
  | _ => (reg, false)
  end.

(** The two settings functions; the logger target is never set. *)
Definition quicpro_pipeline_orchestrator_init_settings (g_auto_logging_enabled : bool) : bool := false.
Definition quicpro_pipeline_orchestrator_configure_auto_logging_from_php (logger_config : hashtable) : bool :=
  match ht_find (KStr "enable_auto_log") logger_config with Some v => zend_is_true v | None => false end.
