(* ===== verification/PipelineProps.v ===== *)
(** * Tool registry and pipeline: the guarantees

    Which configurations are accepted and that registered handlers stay; which tools a
    pipeline run calls and what it returns; and that conditional blocks behave like an [if]. *)

From Stdlib Require Import ZArith Lia String.
From stdpp Require Import base tactics list gmap strings relations.
From S2P Require Import Prelude Zend ToolRegistry Pipeline.

Local Open Scope Z_scope.
Set Warnings "-clear-no-such-hyp".

(* ------------------------------------------------------------------------ *)
(** ** Configurations *)

Definition has_string (ht : hashtable) (k : string) : bool :=
  match ht_find (KStr k) ht with Some (ZString _) => true | _ => false end.
Definition has_long (ht : hashtable) (k : string) : bool :=
  match ht_find (KStr k) ht with Some (ZLong _) => true | _ => false end.
Definition sub_array (ht : hashtable) (k : string) : option hashtable :=
  match ht_find (KStr k) ht with Some (ZArray a) => Some a | _ => None end.

(** The keys a target, a retrieval section and a whole configuration must have. *)
Definition target_complete (t : hashtable) : bool :=
  forallb (has_string t) ["host"; "service_name"; "method_name"]%string && has_long t "port".

Definition section_complete (ht : hashtable) (keys : list string) : bool :=
  match sub_array ht "mcp_target" with Some t => target_complete t | None => false end
  && forallb (has_string ht) keys.

Definition config_complete (cfg : hashtable) : bool :=
  section_complete cfg ["input_proto_schema"; "output_proto_schema"]%string
  && match sub_array cfg "rag_config" with
     | Some r => section_complete r
         ["enabled_param_key"; "request_proto_schema"; "response_proto_schema";
          "context_output_field_in_rag_response"; "target_context_field_in_llm_request"]%string
     | None => true
     end.

Definition accepted {E A} (m : outcome E A) : bool := match m with Done _ => true | _ => false end.

Lemma accepted_need {A} c k (get : zval -> option A) ht :
  accepted (need c k get ht) = match ht_find (KStr k) ht ≫= get with Some _ => true | None => false end.
Proof. unfold need. by destruct (ht_find _ _ ≫= _). Qed.

Lemma accepted_string c k ht : accepted (need c k as_string ht) = has_string ht k.
Proof. rewrite accepted_need. unfold has_string. by destruct (ht_find _ _) as [[]|]. Qed.

Lemma accepted_long c k ht : accepted (need c k as_long ht) = has_long ht k.
Proof. rewrite accepted_need. unfold has_long. by destruct (ht_find _ _) as [[]|]. Qed.

(** A required sub-array, and what is done with it. *)
Lemma accepted_array {B} c k ht (next : hashtable -> outcome pipeline_error B) :
  accepted (let! t := need c k as_array ht in next t) =
  match sub_array ht k with Some t => accepted (next t) | None => false end.
Proof. unfold need, sub_array. by destruct (ht_find _ _) as [[]|]. Qed.

(** Case analysis on the required scalar keys, one after the other. *)
Ltac need_cases :=
  repeat match goal with
  | |- context [need ?c ?k as_string ?h] =>
      rewrite <- ?(accepted_string c k h); destruct (need c k as_string h); simpl;
      rewrite ?andb_false_r; try done
  | |- context [need ?c ?k as_long ?h] =>
      rewrite <- ?(accepted_long c k h); destruct (need c k as_long h); simpl;
      rewrite ?andb_false_r; try done
  end.

Lemma target_accepted t c : accepted (parse_mcp_target_config_from_php t c) = target_complete t.
Proof. unfold parse_mcp_target_config_from_php, target_complete. cbn [forallb]. need_cases. Qed.

Lemma rag_accepted ht c : accepted (parse_rag_config_from_php ht c) =
  section_complete ht
    ["enabled_param_key"; "request_proto_schema"; "response_proto_schema";
     "context_output_field_in_rag_response"; "target_context_field_in_llm_request"]%string.
Proof.
  unfold parse_rag_config_from_php, section_complete. rewrite accepted_array. cbn [forallb].
  destruct (sub_array ht "mcp_target") as [t|]; [|done]. rewrite <- (target_accepted t "RAG agent").
  destruct (parse_mcp_target_config_from_php t _); simpl; try done. need_cases.
Qed.

Lemma create_accepted tool cfg : accepted (create_tool_handler_from_php tool cfg) = config_complete cfg.
Proof.
  unfold create_tool_handler_from_php, config_complete, section_complete at 1.
  rewrite accepted_array. cbn [forallb].
  destruct (sub_array cfg "mcp_target") as [t|]; [|done]. rewrite <- (target_accepted t tool).
  destruct (parse_mcp_target_config_from_php t _); simpl; try done. need_cases.
  assert (Hr : optional "rag_config" as_array cfg = sub_array cfg "rag_config")
    by (unfold optional, sub_array; by destruct (ht_find _ _) as [[]|]).
  rewrite Hr. destruct (sub_array cfg "rag_config") as [r|]; [|done].
  rewrite <- (rag_accepted r tool). by destruct (parse_rag_config_from_php r tool).
Qed.

(* ------------------------------------------------------------------------ *)
(** ** The registry *)

(** Any call of [quicpro_pipeline_orchestrator_register_tool] from PHP. *)
Inductive register_step : relation tool_registry :=
| Register r tool cfg : register_step r (quicpro_pipeline_orchestrator_register_tool r tool cfg).1.

Lemma register_done r tool cfg r' : quicpro_tool_handler_register_from_php r tool cfg = Done r' ->
  exists h, create_tool_handler_from_php tool cfg = Done h /\
  quicpro_tool_registry_initialized r = true /\ quicpro_tool_handler_registry r !! cstr tool = None /\
  r' = mkRegistry true (<[cstr tool := h]> (quicpro_tool_handler_registry r)).
Proof.
  unfold quicpro_tool_handler_register_from_php. intros Hr.
  destruct (quicpro_tool_registry_initialized r); simpl in Hr; [|done].
  destruct (quicpro_tool_handler_registry r !! cstr tool) eqn:El; [done|]. inv_done. eauto.
Qed.

Lemma register_step_cases r r' : register_step r r' -> r' = r \/
  exists tool cfg h, create_tool_handler_from_php tool cfg = Done h /\
  quicpro_tool_registry_initialized r = true /\ quicpro_tool_handler_registry r !! cstr tool = None /\
  r' = mkRegistry true (<[cstr tool := h]> (quicpro_tool_handler_registry r)).
Proof.
  intros [r0 tool cfg]. unfold quicpro_pipeline_orchestrator_register_tool.
  destruct (quicpro_tool_handler_register_from_php r0 tool cfg) eqn:Er; simpl; [|by left..].
  apply register_done in Er as (h & ? & ? & ? & ->). right. by exists tool, cfg, h.
Qed.

Lemma register_step_get r r' t : register_step r r' ->
  (forall h, quicpro_tool_handler_get r t = Some h -> quicpro_tool_handler_get r' t = Some h) /\
  (forall h, quicpro_tool_handler_get r' t = Some h -> quicpro_tool_handler_get r t = Some h \/
     exists tool cfg, cstr tool = cstr t /\ create_tool_handler_from_php tool cfg = Done h).
Proof.
  intros [->|(tool & cfg & h & Hc & Hi & Hn & ->)]%register_step_cases; [by split; [|left]|].
  unfold quicpro_tool_handler_get. rewrite Hi. simpl. split; intros h'.
  - intros Hl. rewrite lookup_insert_ne; [done|]. intros He. rewrite <- He in Hl. congruence.
  - rewrite lookup_insert_Some. intros [[He <-]|[_ ?]]; [right; eauto|by left].
Qed.

(* ------------------------------------------------------------------------ *)
(** ** Runs *)

(** The tool a step names. *)
Definition step_tool (v : zval) : option string :=
  match v with
  | ZArray step => match ht_find (KStr "tool") step with Some (ZString t) => Some (cstr t) | _ => None end
  | _ => None
  end.

Section Runs.
Context `{McpCall}.
Variable reg : tool_registry.

(** What one step can do. *)
Lemma step_cases step st st' res : execute_step_c reg step st = (st', res) ->
  (st' = st /\ (res = Done tt -> condition_true_only step = true /\ last_condition_result st = false)) \/
  exists t h, step_tool (ZArray step) = Some t /\ quicpro_tool_handler_registry reg !! t = Some h /\
    calls st' = calls st ++ [t] /\
    (res = Done tt -> exists v, execution_context st' = ht_update (KStr t) v (execution_context st) /\
       last_condition_result st' =
         if bool_decide (t = "ConditionalLogic"%string) then condition_met v else true).
Proof.
  unfold execute_step_c. destruct (condition_true_only step && negb (last_condition_result st)) eqn:Ec.
  { intros [= <- <-]. left. split; [done|]. intros _. apply andb_true_iff in Ec as [? ?%negb_true_iff]. done. }
  unfold step_tool. destruct (ht_find (KStr "tool") step) as [[]|]; try (intros [= <- <-]; by left).
  destruct (quicpro_tool_handler_get reg s) as [h|] eqn:Eh; [|intros [= <- <-]; by left].
  destruct (rag_context h step); try (intros [= <- <-]; by left).
  unfold quicpro_tool_handler_get in Eh. destruct (quicpro_tool_registry_initialized reg); [|done].
  intros Hm. right. exists (cstr s), h. split_and!; [done|done| |].
  - destruct (mcp_call _ _ _ _); by simplify_eq/=.
  - intros ->. destruct (mcp_call _ _ _ _) as [v|?| |]; simplify_eq/=. by exists v.
Qed.
End Runs.

(* ------------------------------------------------------------------------ *)
(** ** Conditional blocks *)

(** The step without its condition flag. *)
Definition unflag (step : hashtable) : hashtable :=
  List.filter (fun '(k, _) => negb (bool_decide (k = KStr "condition_true_only"))) step.

Lemma unflag_find k step : k <> KStr "condition_true_only" -> ht_find k (unflag step) = ht_find k step.
Proof.
  intros Hk. induction step as [|[k' v] step IH]; simpl; [done|].
  case_bool_decide as Hk'; simpl; [rewrite IH; subst k'; by destruct (decide _)|].
  by destruct (decide (k = k')).
Qed.

Lemma unflag_condition step : condition_true_only (unflag step) = false.
Proof.
  unfold condition_true_only, unflag. induction step as [|[k v] step IH]; simpl; [done|].
  case_bool_decide as Hk; simpl; [done|]. by destruct (decide (KStr "condition_true_only" = k)) as [<-|].
Qed.

Section Blocks.
Context `{McpCall}.
Variable reg : tool_registry.

Lemma skip_block block rest st : Forall (fun s => condition_true_only s = true) block ->
  last_condition_result st = false ->
  execute_steps reg (map ZArray block ++ rest) st = execute_steps reg rest st.
Proof.
  intros Hb Hl. induction Hb as [|s block Hs _ IH]; simpl; [done|].
  unfold execute_step_c at 1. by rewrite Hs, Hl.
Qed.

Lemma unflag_step s st : last_condition_result st = true ->
  execute_step_c reg (unflag s) st = execute_step_c reg s st.
Proof.
  intros Hl. unfold execute_step_c, rag_context. rewrite unflag_condition, Hl. cbn [negb andb]. rewrite andb_false_r.
  by rewrite !unflag_find by done.
Qed.

Lemma run_block block rest : Forall (fun s => step_tool (ZArray s) <> Some "ConditionalLogic"%string) block ->
  forall st, last_condition_result st = true ->
  execute_steps reg (map ZArray block ++ rest) st =
  execute_steps reg (map (fun s => ZArray (unflag s)) block ++ rest) st.
Proof.
  induction 1 as [|s block Hs _ IH]; intros st Hl; simpl; [done|]. rewrite unflag_step by done.
  destruct (execute_step_c reg s st) as [st1 r1] eqn:E1. destruct r1 as [[]|e| |]; try done. apply IH.
  apply step_cases in E1 as [[-> _]|(t & h & Ht & _ & _ & Hout)]; [done|].
  destruct (Hout eq_refl) as (v & _ & ->). rewrite bool_decide_eq_false_2; [done|]. by intros ->.
Qed.
End Blocks.

(* ------------------------------------------------------------------------ *)
(** ** What a pipeline comes to *)

(** What a step that is due does: it runs a tool, it stops the pipeline, or its parameters
    are used as an array and are none. *)
Inductive verdict := Runs (tool : string) | Stops | Crashes.

Definition params_fit (h : quicpro_tool_handler_config_t) (step : hashtable) : bool :=
  match rag_config h, ht_find (KStr "params") step with
  | Some _, Some (ZArray _) => true
  | Some _, Some _ => false
  | _, _ => true
  end.

Definition verdict_of (reg : tool_registry) (v : zval) : verdict :=
  match v with
  | ZArray step =>
      match ht_find (KStr "tool") step with
      | Some (ZString tool) =>
          match quicpro_tool_handler_get reg tool with
          | Some h => if params_fit h step then Runs (cstr tool) else Crashes
          | None => Stops
          end
      | _ => Stops
      end
  | _ => Stops
  end.

Definition marked (v : zval) : bool := match v with ZArray step => condition_true_only step | _ => false end.
Definition is_condition (v : zval) : bool := bool_decide (step_tool v = Some "ConditionalLogic"%string).

(** The steps that are due: all but the marked ones that follow a [ConditionalLogic] step
    with only marked ones in between. *)
Fixpoint due (after_condition : bool) (steps : list zval) : list zval :=
  match steps with
  | [] => []
  | v :: steps' =>
      if after_condition && marked v then due true steps' else v :: due (is_condition v) steps'
  end.

(** A due step of the source's engine, whose call echoes the empty request. *)
Lemma due_step reg step st : condition_true_only step && negb (last_condition_result st) = false ->
  let '(st', res) := @execute_step_c execute_mcp_call reg step st in
  match verdict_of reg (ZArray step) with
  | Runs tool => res = Done tt /\ calls st' = calls st ++ [tool] /\
      last_condition_result st' = negb (is_condition (ZArray step))
  | Stops => (exists e, res = Failed e) /\ calls st' = calls st
  | Crashes => res = Undefined /\ calls st' = calls st
  end.
Proof.
  intros Hd. unfold execute_step_c. rewrite Hd. cbn [verdict_of]. unfold is_condition, step_tool.
  destruct (ht_find (KStr "tool") step) as [[| | | | | |tool| | | |]|]; try by split; [eexists|].
  destruct (quicpro_tool_handler_get reg tool) as [h|]; [|by split; [eexists|]].
  assert (Hcl : conditional_logic tool = bool_decide (Some (cstr tool) = Some "ConditionalLogic"%string))
    by (apply bool_decide_ext; split; [by intros ->|by intros [=]]).
  unfold rag_context, params_fit. destruct (rag_config h) as [rc|].
  - destruct (ht_find (KStr "params") step) as [[]|]; try done.
    + destruct (ht_find (KStr (enabled_param_key rc)) ht) as [x|]; [destruct (zend_is_true x)|]; simpl;
        (split_and!; [done|done|]); rewrite Hcl; by destruct (bool_decide _).
    + simpl. split_and!; [done|done|]. rewrite Hcl. by destruct (bool_decide _).
  - simpl. split_and!; [done|done|]. rewrite Hcl. by destruct (bool_decide _).
Qed.

Definition ends (reg : tool_registry) (rest : list zval) (res : outcome pipeline_error unit) : Prop :=
  match rest with
  | [] => res = Done tt
  | v :: _ => (verdict_of reg v = Stops /\ exists e, res = Failed e) \/ (verdict_of reg v = Crashes /\ res = Undefined)
  end.

Lemma due_steps reg steps : forall st,
  let '(st', res) := @execute_steps execute_mcp_call reg steps st in
  exists ran rest called, due (negb (last_condition_result st)) steps = ran ++ rest /\
    map (verdict_of reg) ran = map Runs called /\ calls st' = calls st ++ called /\ ends reg rest res.
Proof.
  induction steps as [|v steps IH]; intros st; cbn [execute_steps due].
  { exists [], [], []. split_and!; [done|done|by rewrite app_nil_r|done]. }
  destruct (negb (last_condition_result st) && marked v) eqn:Hskip.
  - destruct v as [| | | | | | |step| | |]; simpl in Hskip; try by rewrite andb_false_r in Hskip.
    unfold execute_step_c. rewrite andb_comm, Hskip. specialize (IH st). apply andb_true_iff in Hskip as [Hc _].
    by rewrite Hc in IH.
  - assert (Hstop : verdict_of reg v = Stops -> forall e, exists ran rest called,
      v :: due (is_condition v) steps = ran ++ rest /\ map (verdict_of reg) ran = map Runs called /\
      calls st = calls st ++ called /\ ends reg rest (Failed e)).
    { intros Hv e. exists [], (v :: due (is_condition v) steps), []. split_and!; [done|done|by rewrite app_nil_r|left; eauto]. }
    destruct v as [| | | | | | |step| | |]; try by apply Hstop. simpl in Hskip. rewrite andb_comm in Hskip.
    pose proof (due_step reg step st Hskip) as Hs. destruct (execute_step_c reg step st) as [st1 r1].
    destruct (verdict_of reg (ZArray step)) as [tool| |] eqn:Hv.
    + destruct Hs as (-> & Hc & Hl). specialize (IH st1). destruct (execute_steps reg steps st1) as [st' res].
      destruct IH as (ran & rest & called & Hd & Hr & Hca & He). rewrite Hl, negb_involutive in Hd.
      exists (ZArray step :: ran), rest, (tool :: called). rewrite Hd, Hca, Hc, <-app_assoc. split_and!; try done.
      cbn [map]. by rewrite Hv, Hr.
    + destruct Hs as ((e & ->) & ->). by apply Hstop.
    + destruct Hs as (-> & ->). exists [], (ZArray step :: due (is_condition (ZArray step)) steps), [].
      split_and!; [done|done|by rewrite app_nil_r|by right].
Qed.

(* ------------------------------------------------------------------------ *)
(** ** The properties *)

(** A tool is registered exactly when the registry is initialised, the name is free
    and the configuration has every required key with its type; the other names keep
    their handlers. *)
Theorem register_exact r tool cfg :
  ((exists r', quicpro_tool_handler_register_from_php r tool cfg = Done r') <->
   quicpro_tool_registry_initialized r = true /\ quicpro_tool_handler_get r tool = None /\
   config_complete cfg = true) /\
  (forall r' t, quicpro_tool_handler_register_from_php r tool cfg = Done r' -> cstr t <> cstr tool ->
     quicpro_tool_handler_get r' t = quicpro_tool_handler_get r t).
Proof.
  rewrite <- (create_accepted tool cfg). split; [|intros r' t Hr Ht].
  - unfold quicpro_tool_handler_register_from_php, quicpro_tool_handler_get.
    destruct (quicpro_tool_registry_initialized r); simpl; [|naive_solver].
    destruct (quicpro_tool_handler_registry r !! cstr tool); [naive_solver|].
    destruct (create_tool_handler_from_php tool cfg); simpl; naive_solver.
  - apply register_done in Hr as (h & _ & Hi & _ & ->). unfold quicpro_tool_handler_get.
    rewrite Hi. simpl. by rewrite lookup_insert_ne.
Qed.

(** Registered handlers are permanent: whatever PHP code registers, a tool keeps the
    handler it has, and every handler comes from an accepted configuration for its name. *)
Theorem registry_stable r r' : rtc register_step r r' -> forall t,
  (forall h, quicpro_tool_handler_get r t = Some h -> quicpro_tool_handler_get r' t = Some h) /\
  (forall h, quicpro_tool_handler_get r' t = Some h -> quicpro_tool_handler_get r t = Some h \/
     exists tool cfg, cstr tool = cstr t /\ create_tool_handler_from_php tool cfg = Done h).
Proof.
  intros Hr t. induction Hr as [r|r1 r2 r3 Hs _ [IH1 IH2]]; [by split; [|left]|].
  destruct (register_step_get r1 r2 t Hs) as [H1 H2]. split; [auto|].
  intros h Hh. destruct (IH2 h Hh) as [Hh2|?]; [by apply H2|by right].
Qed.

(** C5: A run of the orchestrator calls exactly the tools of the steps that are due (all but
    the marked ones that follow a [ConditionalLogic] step with only marked ones in between),
    in order, each registered and once, up to the first due step that is not an array or
    names no registered tool: then it returns [false].  A due step of a tool with retrieval
    whose parameters are not an array ends it in undefined behaviour.  When all due steps
    have run, the value PHP gets is a table that has been freed. *)
Theorem pipeline_run_correct reg pipeline :
  let '(res, called) := @quicpro_pipeline_orchestrator_run execute_mcp_call reg pipeline in
  exists ran rest, due false (ht_values pipeline) = ran ++ rest /\
    map (verdict_of reg) ran = map Runs called /\
    match rest with
    | [] => res = Done PFreed
    | v :: _ => (verdict_of reg v = Stops /\ res = Done PFalse) \/ (verdict_of reg v = Crashes /\ res = Undefined)
    end.
Proof.
  unfold quicpro_pipeline_orchestrator_run, execute_pipeline_c.
  pose proof (due_steps reg (ht_values pipeline) (mkPState [] true [])) as H.
  destruct (execute_steps reg (ht_values pipeline) (mkPState [] true [])) as [st res].
  destruct H as (ran & rest & called & Hd & Hr & Hc & He). simpl in Hc. subst called. cbn [last_condition_result negb] in Hd.
  destruct rest as [|v rest]; [|destruct He as [[Hv [e He]]|[Hv He]]].
  - rewrite He. by exists ran, [].
  - rewrite He. exists ran, (v :: rest). split_and!; [done|done|by left].
  - rewrite He. exists ran, (v :: rest). split_and!; [done|done|by right].
Qed.

(** C24: A condition guards a block: the steps marked [condition_true_only] after a
    [ConditionalLogic] step all run, as unmarked steps would, when its response reports
    the condition met, and none of them runs otherwise. *)
Theorem pipeline_conditional `{McpCall} reg c block rest st st1 :
  step_tool (ZArray c) = Some "ConditionalLogic"%string -> condition_true_only c = false ->
  execute_step_c reg c st = (st1, Done tt) ->
  Forall (fun s => condition_true_only s = true /\
                   step_tool (ZArray s) <> Some "ConditionalLogic"%string) block ->
  (exists response, ht_find (KStr "ConditionalLogic") (execution_context st1) = Some response /\
     last_condition_result st1 = condition_met response) /\
  execute_steps reg (ZArray c :: map ZArray block ++ rest) st =
  execute_steps reg ((if last_condition_result st1 then map (fun s => ZArray (unflag s)) block else []) ++ rest) st1.
Proof.
  intros Ht Hc Hs Hb. split.
  - apply step_cases in Hs as [[_ Hskip]|(t & h & Ht' & _ & _ & Hout)].
    + destruct (Hskip eq_refl). congruence.
    + destruct (Hout eq_refl) as (v & Hv & Hl). rewrite Ht in Ht'. injection Ht' as <-.
      rewrite Hv, ht_find_update_eq. exists v. by rewrite Hl, bool_decide_eq_true_2.
  - cbn [execute_steps]. rewrite Hs. apply Forall_and in Hb as [Hb1 Hb2].
    destruct (last_condition_result st1) eqn:El; [by apply run_block|by apply skip_block].
Qed.

(** With the MCP call as it is in the source, which echoes its empty request, a
    condition is never met: the marked steps after a [ConditionalLogic] step never run. *)
Theorem source_condition_never_met reg c block rest st st1 :
  step_tool (ZArray c) = Some "ConditionalLogic"%string -> condition_true_only c = false ->
  @execute_step_c execute_mcp_call reg c st = (st1, Done tt) ->
  Forall (fun s => condition_true_only s = true) block ->
  @execute_steps execute_mcp_call reg (ZArray c :: map ZArray block ++ rest) st =
  @execute_steps execute_mcp_call reg rest st1.
Proof.
  intros Ht Hc Hs Hb. cbn [execute_steps]. rewrite Hs. apply skip_block; [done|].
  revert Hs. unfold execute_step_c. rewrite Hc. simpl. unfold step_tool in Ht.
  destruct (ht_find (KStr "tool") c) as [[]|]; try done. injection Ht as Ht.
  destruct (quicpro_tool_handler_get reg s); [|done]. destruct (rag_context _ c); try done. simpl.
  intros [= <-]. simpl. unfold conditional_logic. by rewrite Ht.
Qed.

(* ------------------------------------------------------------------------ *)
(** ** Witnesses *)

Module PipelineDemo.
Definition target : hashtable :=
  [(KStr "host", ZString "mcp.local"); (KStr "port", ZLong 4433);
   (KStr "service_name", ZString "text"); (KStr "method_name", ZString "run")].
Definition cfg : hashtable :=
  [(KStr "mcp_target", ZArray target); (KStr "input_proto_schema", ZString "In");
   (KStr "output_proto_schema", ZString "Out")].
Definition empty : tool_registry := quicpro_tool_handler_registry_init (mkRegistry false ∅).
Definition reg1 := (quicpro_pipeline_orchestrator_register_tool empty "ConditionalLogic" cfg).1.
Definition reg2 := (quicpro_pipeline_orchestrator_register_tool reg1 "Summarize" cfg).1.

Definition cond : hashtable := [(KStr "tool", ZString "ConditionalLogic")].
Definition guarded : hashtable :=
  [(KStr "tool", ZString "Summarize"); (KStr "condition_true_only", ZTrue)].
Definition plain : hashtable := [(KStr "tool", ZString "Summarize")].

(** A service that answers every call with a met condition. *)
Definition always_met : McpCall := fun _ _ _ _ => Done (ZArray [(KStr "condition_met", ZTrue)]).

Definition start : pstate := mkPState [] true [].
Definition st_met : pstate := (@execute_step_c always_met reg2 cond start).1.

Example echo_skips : (@quicpro_pipeline_orchestrator_run execute_mcp_call reg2
  (enum_from 0 [ZArray cond; ZArray guarded])).2 = ["ConditionalLogic"%string].
Proof. vm_compute. reflexivity. Qed.

Example met_runs : (@quicpro_pipeline_orchestrator_run always_met reg2
  (enum_from 0 [ZArray cond; ZArray guarded])).2 = ["ConditionalLogic"; "Summarize"]%string.
Proof. vm_compute. reflexivity. Qed.
End PipelineDemo.
Import PipelineDemo.

Lemma registry_stable_witness :
  exists h, quicpro_tool_handler_get reg1 "ConditionalLogic" = Some h /\
            quicpro_tool_handler_get reg2 "ConditionalLogic" = Some h.
Proof.
  eexists. split; [vm_compute; reflexivity|].
  apply (registry_stable reg1 reg2); [apply rtc_once; exact (Register reg1 "Summarize" cfg)|].
  vm_compute. reflexivity.
Defined.

Lemma pipeline_conditional_witness :
  last_condition_result st_met = true /\
  @execute_steps always_met reg2 [ZArray cond; ZArray guarded; ZArray plain] start =
  @execute_steps always_met reg2 [ZArray (unflag guarded); ZArray plain] st_met.
Proof.
  split; [vm_compute; reflexivity|].
  apply (@pipeline_conditional always_met reg2 cond [guarded] [ZArray plain] start st_met);
    [reflexivity|reflexivity|vm_compute; reflexivity|].
  constructor; [split; [reflexivity|vm_compute; congruence]|constructor].
Defined.

Lemma source_condition_never_met_witness : exists st1,
  @execute_step_c execute_mcp_call reg2 cond start = (st1, Done tt) /\
  @execute_steps execute_mcp_call reg2 [ZArray cond; ZArray guarded; ZArray plain] start =
  @execute_steps execute_mcp_call reg2 [ZArray plain] st1.
Proof.
  eexists. split; [vm_compute; reflexivity|].
  apply (source_condition_never_met reg2 cond [guarded] [ZArray plain]);
    [reflexivity|reflexivity|vm_compute; reflexivity|].
  constructor; [reflexivity|constructor].
Defined.
