(* ===== verification/Websocket.v ===== *)
(** * WebSocket framing

    [extension/src/server/websocket.c]: the frame header writer and parser and the
    send path.  A [smart_str] is the list of its bytes; a read outside it is
    [Undefined].  Receiving, upgrading and closing are stubs in the source. *)

From Stdlib Require Import ZArith Lia Strings.Byte String.
From stdpp Require Import base tactics list.
From S2P Require Import Prelude.

Local Open Scope Z_scope.

Definition WS_OPCODE_TEXT : Z := 0x1.
Definition WS_OPCODE_BINARY : Z := 0x2.

Inductive quicpro_ws_state_t := WS_STATE_CONNECTING | WS_STATE_OPEN | WS_STATE_CLOSING | WS_STATE_CLOSED.
#[export] Instance ws_state_eq_dec : EqDecision quicpro_ws_state_t.
Proof. solve_decision. Defined.

(* ------------------------------------------------------------------------ *)
(** ** Headers *)

(** [payload_len] is a [size_t]. *)
Definition create_ws_frame_header (opcode payload_len : Z) (is_masked : bool) : list byte :=
  let h0 := Z.lor 0x80 (Z.land opcode 0x0F) in
  let m := if is_masked then 0x80 else 0x00 in
  if payload_len <=? 125 then [z2b h0; z2b (Z.lor m (u8 payload_len))]
  else if payload_len <=? 65535 then
    [z2b h0; z2b (Z.lor m 126); z2b (Z.shiftr payload_len 8); z2b (Z.land payload_len 0xFF)]
  else
    [z2b h0; z2b (Z.lor m 127);
     z2b (Z.shiftr payload_len 56); z2b (Z.shiftr payload_len 48);
     z2b (Z.shiftr payload_len 40); z2b (Z.shiftr payload_len 32);
     z2b (Z.shiftr payload_len 24); z2b (Z.shiftr payload_len 16);
     z2b (Z.shiftr payload_len 8); z2b (Z.land payload_len 0xFF)].

(** [p[i]]. *)
Definition rd (buf : list byte) (i : nat) : outcome unit Z :=
  match buf !! i with Some b => Done (b2z b) | None => Undefined end.

(** The payload length and the position after it, from the 7-bit length. *)
Definition payload_length (buf : list byte) (len : Z) : outcome unit (Z * Z) :=
  let buffer_len := length buf in
  if len =? 126 then
    if (buffer_len <? 4)%nat then Failed tt
    else
      let! p2 := rd buf 2 in let! p3 := rd buf 3 in
      Done (Z.lor (Z.shiftl p2 8) p3, 4)
  else if len =? 127 then
    if (buffer_len <? 10)%nat then Failed tt
    else
      let! p2 := rd buf 2 in let! p3 := rd buf 3 in let! p4 := rd buf 4 in let! p5 := rd buf 5 in
      let! p6 := rd buf 6 in let! p7 := rd buf 7 in let! p8 := rd buf 8 in let! p9 := rd buf 9 in
      Done (Z.lor (Z.lor (Z.lor (Z.lor (Z.lor (Z.lor (Z.lor
              (Z.shiftl p2 56) (Z.shiftl p3 48)) (Z.shiftl p4 40)) (Z.shiftl p5 32))
              (Z.shiftl p6 24)) (Z.shiftl p7 16)) (Z.shiftl p8 8)) p9, 10)
  else Done (len, 2).

(** The opcode, the payload length and the header length; [Failed] is [return 0]. *)
Definition parse_ws_frame_header (buf : list byte) : outcome unit (Z * Z * Z) :=
  let buffer_len := length buf in
  if (buffer_len <? 2)%nat then Failed tt
  else
    let! p0 := rd buf 0 in
    let! p1 := rd buf 1 in
    let opcode := Z.land p0 0x0F in
    let is_masked := negb (Z.land p1 0x80 =? 0) in
    let! '(payload_len, current_pos) := payload_length buf (Z.land p1 0x7F) in
    if is_masked then
      if Z.of_nat buffer_len <? current_pos + 4 then Failed tt
      else Done (opcode, payload_len, current_pos + 4)
    else Done (opcode, payload_len, current_pos).

(* ------------------------------------------------------------------------ *)
(** ** Masking and sending *)

(** [payload_ptr[i] ^= mask_ptr[i % 4]]. *)
Definition mask_byte (key : list byte) (i : nat) (b : byte) : byte :=
  z2b (Z.lxor (b2z b) (match key !! (i mod 4)%nat with Some k => b2z k | None => 0 end)).

Definition mask_payload (key data : list byte) : list byte := imap (mask_byte key) data.

Inductive ws_error := EMaskingKey | EQuicheSend (code : Z).

(** What [quicpro_ws_send] does: the bytes handed to [quiche_stream_send] with the
    [fin] argument, and the PHP result; a [Failed] carries the exception, if any.
    [rand] is the key [RAND_bytes] delivers, [sent] what [quiche_stream_send] returns. *)
Definition quicpro_ws_send (state : quicpro_ws_state_t) (data : list byte) (is_binary : bool)
    (rand : option (list byte)) (sent : list byte -> bool -> Z)
  : option (list byte * bool) * outcome (option ws_error) unit :=
  if decide (state = WS_STATE_OPEN) then
    let opcode := if is_binary then WS_OPCODE_BINARY else WS_OPCODE_TEXT in
    let header := create_ws_frame_header opcode (Z.of_nat (length data)) true in
    match rand with
    | None => (None, Failed (Some EMaskingKey))
    | Some key =>
        let frame := header ++ key ++ mask_payload key data in
        let fin := true in
        (Some (frame, fin),
         if sent frame fin <? 0 then Failed (Some (EQuicheSend (sent frame fin))) else Done tt)
    end
  else (None, Failed None).

(** The receiver's view of a masked frame: opcode and payload. *)
Definition read_frame (buf : list byte) : option (Z * list byte) :=
  match parse_ws_frame_header buf with
  | Done (opcode, payload_len, header_len) =>
      let key := take 4 (drop (Z.to_nat (header_len - 4)) buf) in
      let payload := take (Z.to_nat payload_len) (drop (Z.to_nat header_len) buf) in
      if decide (length payload = Z.to_nat payload_len) then Some (opcode, mask_payload key payload) else None
  | _ => None
  end.
