(* ===== verification/WebsocketProps.v ===== *)
(** * WebSocket framing: round trips and safety *)

From Stdlib Require Import ZArith Lia Strings.Byte String.
From stdpp Require Import base tactics list.
From S2P Require Import Prelude Websocket.

Local Open Scope Z_scope.

(* ------------------------------------------------------------------------ *)
(** ** Big-endian lengths *)

Lemma byte_at_testbit v k i : 0 <= k -> 0 <= i ->
  Z.testbit (Z.shiftl (u8 (Z.shiftr v k)) k) i = (k <=? i) && (i <? k + 8) && Z.testbit v i.
Proof.
  intros Hk Hi. rewrite Z.shiftl_spec by done. unfold u8.
  destruct (Z.leb_spec k i); [|by rewrite Z.testbit_neg_r by lia].
  destruct (Z.ltb_spec i (k + 8)).
  - rewrite Z.mod_pow2_bits_low, Z.shiftr_spec by lia. simpl. f_equal. lia.
  - by rewrite Z.mod_pow2_bits_high by lia.
Qed.

Lemma be_join16 v : 0 <= v < 2 ^ 16 ->
  Z.lor (Z.shiftl (u8 (Z.shiftr v 8)) 8) (u8 (Z.land v 0xFF)) = v.
Proof.
  intros Hv. change 0xFF with (2 ^ 8 - 1). rewrite land_ones_mod by lia. unfold u8 at 2.
  rewrite Zmod_mod. change (v mod 2 ^ 8) with (u8 v).
  replace (u8 v) with (Z.shiftl (u8 (Z.shiftr v 0)) 0) by (by rewrite Z.shiftl_0_r, Z.shiftr_0_r).
  apply Z.bits_inj'. intros i Hi. rewrite Z.lor_spec, !byte_at_testbit by lia.
  destruct (Z.ltb_spec i 16) as [?|Hge].
  - destruct (Z.leb_spec 8 i), (Z.ltb_spec i (8 + 8)), (Z.leb_spec 0 i), (Z.ltb_spec i (0 + 8));
      simpl; rewrite ?orb_false_r; done || lia.
  - rewrite (bits_above v 16 i) by lia. by rewrite !andb_false_r.
Qed.

Lemma be_join64 v : 0 <= v < 2 ^ 64 ->
  Z.lor (Z.lor (Z.lor (Z.lor (Z.lor (Z.lor (Z.lor
    (Z.shiftl (u8 (Z.shiftr v 56)) 56) (Z.shiftl (u8 (Z.shiftr v 48)) 48))
    (Z.shiftl (u8 (Z.shiftr v 40)) 40)) (Z.shiftl (u8 (Z.shiftr v 32)) 32))
    (Z.shiftl (u8 (Z.shiftr v 24)) 24)) (Z.shiftl (u8 (Z.shiftr v 16)) 16))
    (Z.shiftl (u8 (Z.shiftr v 8)) 8)) (u8 (Z.land v 0xFF)) = v.
Proof.
  intros Hv. change 0xFF with (2 ^ 8 - 1). rewrite land_ones_mod by lia. unfold u8 at 8.
  rewrite Zmod_mod. change (v mod 2 ^ 8) with (u8 v).
  replace (u8 v) with (Z.shiftl (u8 (Z.shiftr v 0)) 0) by (by rewrite Z.shiftl_0_r, Z.shiftr_0_r).
  apply Z.bits_inj'. intros i Hi. rewrite !Z.lor_spec, !byte_at_testbit by lia.
  destruct (Z.testbit v i) eqn:Hb; [|by rewrite !andb_false_r].
  rewrite !andb_true_r.
  assert (i < 64). { destruct (Z.lt_ge_cases i 64); [done|]. by rewrite (bits_above v 64 i) in Hb by lia. }
  rewrite !orb_true_iff, !andb_true_iff, !Z.leb_le, !Z.ltb_lt. lia.
Qed.

(* ------------------------------------------------------------------------ *)
(** ** Headers *)

(** A property of all small integers, by enumeration. *)
Lemma below_128 (p : Z -> bool) : forallb (fun n => p (Z.of_nat n)) (seq 0 128) = true ->
  forall x, 0 <= x < 128 -> p x = true.
Proof.
  rewrite forallb_forall. intros Hall x Hx. specialize (Hall (Z.to_nat x)).
  rewrite Z2Nat.id in Hall by lia. apply Hall, in_seq. lia.
Qed.

Definition mask_bit (is_masked : bool) : Z := if is_masked then 0x80 else 0x00.

Lemma second_byte is_masked x : 0 <= x < 128 ->
  negb (Z.land (b2z (z2b (Z.lor (mask_bit is_masked) x))) 0x80 =? 0) = is_masked /\
  Z.land (b2z (z2b (Z.lor (mask_bit is_masked) x))) 0x7F = x.
Proof.
  intros Hx.
  assert ((Bool.eqb (negb (Z.land (b2z (z2b (Z.lor (mask_bit is_masked) x))) 0x80 =? 0)) is_masked
           && (Z.land (b2z (z2b (Z.lor (mask_bit is_masked) x))) 0x7F =? x)) = true) as Hb.
  { revert x Hx. apply (below_128 (fun x => _)). by destruct is_masked; vm_compute. }
  apply andb_true_iff in Hb as [H1 H2]. split; [by apply eqb_prop|by apply Z.eqb_eq].
Qed.

Lemma first_byte opcode : 0 <= opcode < 16 ->
  Z.land (b2z (z2b (Z.lor 0x80 (Z.land opcode 0x0F)))) 0x0F = opcode.
Proof.
  intros Ho. apply Z.eqb_eq.
  assert (forall x, 0 <= x < 128 ->
    ((Z.land (b2z (z2b (Z.lor 0x80 (Z.land x 0x0F)))) 0x0F =? x) || (16 <=? x)) = true) as Hx
    by (apply (below_128 (fun x => _)); by vm_compute).
  specialize (Hx opcode ltac:(lia)). apply orb_true_iff in Hx as [?|?%Z.leb_le]; [done|lia].
Qed.

(** The bytes of the key after the header, when there is one. *)
Definition key_len (is_masked : bool) : Z := if is_masked then 4 else 0.

(** The end of the parser: the key must be there. *)
Lemma parse_tail is_masked (buf_len pos : Z) (op len : Z) : pos + key_len is_masked <= buf_len ->
  (if is_masked then if buf_len <? pos + 4 then Failed tt else Done (op, len, pos + 4)
   else Done (op, len, pos)) = Done (op, len, pos + key_len is_masked).
Proof.
  unfold key_len. destruct is_masked; intros; [|do 2 f_equal; lia].
  by destruct (Z.ltb_spec buf_len (pos + 4)); [lia|].
Qed.

Lemma parse_create opcode len is_masked rest :
  0 <= opcode < 16 -> 0 <= len < 2 ^ 64 -> key_len is_masked <= Z.of_nat (length rest) ->
  let h := create_ws_frame_header opcode len is_masked in
  parse_ws_frame_header (h ++ rest) = Done (opcode, len, Z.of_nat (length h) + key_len is_masked).
Proof.
  intros Ho Hl Hr h. subst h. unfold create_ws_frame_header. fold (mask_bit is_masked).
  destruct (Z.leb_spec len 125); [|destruct (Z.leb_spec len 65535)];
    unfold parse_ws_frame_header, payload_length; cbn [app length Nat.ltb Nat.leb rd lookup list_lookup obind];
    rewrite (first_byte opcode Ho).
  - assert (u8 len = len) as -> by (unfold u8; apply Z.mod_small; lia).
    destruct (second_byte is_masked len ltac:(lia)) as [-> ->].
    destruct (Z.eqb_spec len 126), (Z.eqb_spec len 127); try lia. cbn [obind].
    apply parse_tail. lia.
  - destruct (second_byte is_masked 126 ltac:(lia)) as [-> ->].
    cbn [Z.eqb Pos.eqb obind]. rewrite !b2z_z2b, be_join16 by lia. apply parse_tail. lia.
  - destruct (second_byte is_masked 127 ltac:(lia)) as [-> ->].
    cbn [Z.eqb Pos.eqb obind]. rewrite !b2z_z2b, be_join64 by lia. apply parse_tail. lia.
Qed.

(* ------------------------------------------------------------------------ *)
(** ** Safety and incremental parsing *)

Lemma rd_ok buf i : (i < length buf)%nat -> exists b, rd buf i = Done b.
Proof.
  intros Hi. unfold rd. destruct (lookup_lt_is_Some_2 buf i Hi) as [b ->]. eauto.
Qed.

Lemma rd_app buf x i : (i < length buf)%nat -> rd (buf ++ x) i = rd buf i.
Proof. intros Hi. unfold rd. by rewrite lookup_app_l. Qed.

Lemma payload_length_safe buf len : (2 <= length buf)%nat ->
  returns (fun '(_, pos) => 2 <= pos <= Z.of_nat (length buf)) (payload_length buf len).
Proof.
  intros Hb. unfold payload_length. destruct (len =? 126); [|destruct (len =? 127)]; [| |simpl; lia].
  - destruct (Nat.ltb_spec (length buf) 4); [done|].
    destruct (rd_ok buf 2 ltac:(lia)) as [? ->]. destruct (rd_ok buf 3 ltac:(lia)) as [? ->]. simpl. lia.
  - destruct (Nat.ltb_spec (length buf) 10); [done|].
    destruct (rd_ok buf 2 ltac:(lia)) as [? ->]. destruct (rd_ok buf 3 ltac:(lia)) as [? ->].
    destruct (rd_ok buf 4 ltac:(lia)) as [? ->]. destruct (rd_ok buf 5 ltac:(lia)) as [? ->].
    destruct (rd_ok buf 6 ltac:(lia)) as [? ->]. destruct (rd_ok buf 7 ltac:(lia)) as [? ->].
    destruct (rd_ok buf 8 ltac:(lia)) as [? ->]. destruct (rd_ok buf 9 ltac:(lia)) as [? ->]. simpl. lia.
Qed.

Lemma payload_length_mono buf x len r :
  payload_length buf len = Done r -> payload_length (buf ++ x) len = Done r.
Proof.
  unfold payload_length. rewrite length_app. destruct (len =? 126); [|destruct (len =? 127); [|done]].
  - destruct (Nat.ltb_spec (length buf) 4); [done|].
    destruct (Nat.ltb_spec (length buf + length x) 4); [lia|]. by rewrite !(rd_app buf x) by lia.
  - destruct (Nat.ltb_spec (length buf) 10); [done|].
    destruct (Nat.ltb_spec (length buf + length x) 10); [lia|]. by rewrite !(rd_app buf x) by lia.
Qed.

(** Every read is inside the buffer, the header length too. *)
Lemma parse_safe buf : returns (fun '(_, _, header_len) => 2 <= header_len <= Z.of_nat (length buf))
  (parse_ws_frame_header buf).
Proof.
  unfold parse_ws_frame_header. destruct (Nat.ltb_spec (length buf) 2); [done|].
  destruct (rd_ok buf 0 ltac:(lia)) as [p0 ->]. destruct (rd_ok buf 1 ltac:(lia)) as [p1 ->].
  cbn [obind]. eapply returns_bind; [by apply payload_length_safe|].
  intros [len pos] Hpos. destruct (negb _); [|simpl; lia].
  destruct (Z.ltb_spec (Z.of_nat (length buf)) (pos + 4)); simpl; [done|lia].
Qed.

(** More input does not change a parsed header. *)
Lemma parse_mono buf x r : parse_ws_frame_header buf = Done r -> parse_ws_frame_header (buf ++ x) = Done r.
Proof.
  unfold parse_ws_frame_header. rewrite length_app.
  destruct (Nat.ltb_spec (length buf) 2); [done|].
  destruct (Nat.ltb_spec (length buf + length x) 2); [lia|].
  rewrite !(rd_app buf x) by lia. intros Hp.
  apply obind_Done in Hp as (p0 & -> & Hp). apply obind_Done in Hp as (p1 & -> & Hp).
  apply obind_Done in Hp as ([len pos] & Hpl & Hp). cbn [obind].
  rewrite (payload_length_mono _ x _ _ Hpl). cbn [obind]. destruct (negb _); [|done].
  destruct (Z.ltb_spec (Z.of_nat (length buf)) (pos + 4)); [done|].
  by destruct (Z.ltb_spec (Z.of_nat (length buf + length x)) (pos + 4)); [lia|].
Qed.

(** A header that has not arrived completely is not parsed. *)
Lemma parse_prefix buf n op len hl : parse_ws_frame_header buf = Done (op, len, hl) ->
  Z.of_nat n < hl -> parse_ws_frame_header (take n buf) = Failed tt.
Proof.
  intros Hp Hn. pose proof (parse_safe (take n buf)) as Hs.
  destruct (parse_ws_frame_header (take n buf)) as [[[op' len'] hl']|[]| |] eqn:E; try done.
  apply (parse_mono _ (drop n buf)) in E. rewrite take_drop, Hp in E. simplify_eq.
  simpl in Hs. rewrite length_take in Hs. lia.
Qed.

(* ------------------------------------------------------------------------ *)
(** ** Masking *)

Lemma lxor_byte a b : 0 <= a < 256 -> 0 <= b < 256 -> 0 <= Z.lxor a b < 256.
Proof.
  intros Ha Hb. split; [apply Z.lxor_nonneg; lia|].
  destruct (Z.eq_dec (Z.lxor a b) 0) as [->|]; [lia|].
  pose proof (proj2 (Z.lxor_nonneg a b) ltac:(lia)).
  change 256 with (2 ^ 8). apply Z.log2_lt_pow2; [lia|].
  eapply Z.le_lt_trans; [apply Z.log2_lxor; lia|].
  assert (Hlog : forall z, 0 <= z < 256 -> Z.log2 z < 8).
  { intros z Hz. destruct (Z.eq_dec z 0) as [->|]; [done|]. apply Z.log2_lt_pow2; lia. }
  apply Z.max_lub_lt; by apply Hlog.
Qed.

Lemma mask_byte_involutive key i b : mask_byte key i (mask_byte key i b) = b.
Proof.
  unfold mask_byte. set (k := match key !! (i mod 4)%nat with Some k => b2z k | None => 0 end).
  assert (0 <= k < 256) by (subst k; destruct (key !! _); [apply b2z_range|lia]).
  pose proof (b2z_range b). rewrite b2z_z2b. unfold u8.
  rewrite (Z.mod_small (Z.lxor (b2z b) k)) by (by apply lxor_byte).
  rewrite Z.lxor_assoc, Z.lxor_nilpotent, Z.lxor_0_r. apply z2b_b2z.
Qed.

Lemma mask_involutive key data : mask_payload key (mask_payload key data) = data.
Proof.
  unfold mask_payload. apply list_eq. intros i. rewrite !list_lookup_imap.
  destruct (data !! i); simpl; [|done]. by rewrite mask_byte_involutive.
Qed.

Lemma length_mask key data : length (mask_payload key data) = length data.
Proof. apply length_imap. Qed.

(* ------------------------------------------------------------------------ *)
(** ** The properties *)

(** A written frame header is read back: opcode, payload length over the full
    64-bit range and header length (with the masking key), whatever bytes follow. *)
Theorem ws_header_roundtrip opcode len is_masked rest :
  0 <= opcode < 16 -> 0 <= len < 2 ^ 64 -> key_len is_masked <= Z.of_nat (length rest) ->
  parse_ws_frame_header (create_ws_frame_header opcode len is_masked ++ rest) =
  Done (opcode, len, Z.of_nat (length (create_ws_frame_header opcode len is_masked)) + key_len is_masked).
Proof. apply parse_create. Qed.

(** Parsing a header from a network buffer is safe and incremental: on any bytes
    the parser reads only inside the buffer, it refuses every buffer in which the header
    is incomplete, and bytes after the header do not change its result. *)
Theorem ws_header_incremental buf :
  returns (fun '(_, _, header_len) => 2 <= header_len <= Z.of_nat (length buf))
    (parse_ws_frame_header buf) /\
  (forall op len hl n, parse_ws_frame_header buf = Done (op, len, hl) -> Z.of_nat n < hl ->
     parse_ws_frame_header (take n buf) = Failed tt) /\
  (forall r x, parse_ws_frame_header buf = Done r -> parse_ws_frame_header (buf ++ x) = Done r).
Proof.
  split_and!; [apply parse_safe|intros; by eapply parse_prefix|intros; by apply parse_mono].
Qed.

(** C29: What [quicpro_ws_send] hands to the stream is a frame from which a receiver
    recovers the opcode and, after unmasking, exactly the data; it is sent on open
    connections only. *)
Theorem ws_send_roundtrip state data is_binary key sent frame fin :
  length key = 4%nat -> Z.of_nat (length data) < 2 ^ 64 ->
  (quicpro_ws_send state data is_binary (Some key) sent).1 = Some (frame, fin) ->
  state = WS_STATE_OPEN /\
  read_frame frame = Some (if is_binary then WS_OPCODE_BINARY else WS_OPCODE_TEXT, data).
Proof.
  intros Hk Hd. unfold quicpro_ws_send. destruct (decide (state = WS_STATE_OPEN)); [|done].
  cbn [fst]. set (op := if is_binary then _ else _).
  set (h := create_ws_frame_header op _ true). intros [= <- <-]. split; [done|].
  unfold read_frame. subst h.
  rewrite parse_create; [|subst op; destruct is_binary; done|lia|rewrite length_app; simpl; lia].
  set (h := create_ws_frame_header op _ true). cbn [key_len].
  replace (Z.to_nat (Z.of_nat (length h) + 4 - 4)) with (length h) by lia.
  replace (Z.to_nat (Z.of_nat (length h) + 4)) with (length h + 4)%nat by lia.
  rewrite Nat2Z.id, <- drop_drop, !drop_app_length, <- Hk, take_app_length, drop_app_length.
  rewrite <- (length_mask key data), take_ge by lia. rewrite decide_True by done.
  by rewrite mask_involutive.
Qed.

(* ------------------------------------------------------------------------ *)
(** ** Witnesses *)

Definition demo_key : list byte := [Byte.x12; Byte.xa5; Byte.x00; Byte.xff].
Definition demo_data : list byte := list_byte_of_string "hello websocket".

Lemma ws_header_roundtrip_witness :
  parse_ws_frame_header (create_ws_frame_header 2 70000 true ++ demo_key) = Done (2, 70000, 14).
Proof. apply (ws_header_roundtrip 2 70000 true demo_key); simpl; lia. Defined.

Lemma ws_send_roundtrip_witness :
  read_frame (create_ws_frame_header 1 15 true ++ demo_key ++ mask_payload demo_key demo_data)
  = Some (WS_OPCODE_TEXT, demo_data).
Proof.
  apply (ws_send_roundtrip WS_STATE_OPEN demo_data false demo_key (fun _ _ => 0)
    (create_ws_frame_header 1 15 true ++ demo_key ++ mask_payload demo_key demo_data) true);
    [reflexivity|vm_compute; reflexivity|vm_compute; reflexivity].
Defined.
