(* ===== verification/WebsocketConn.v ===== *)
(** * WebSocket connections as resources

    The rest of [extension/src/server/websocket.c]: the struct of a connection, its destructor
    block by block, the status function and the upgrade, which stops after its checks.  No
    function of the file makes a connection. *)

From Stdlib Require Import ZArith String.
From stdpp Require Import base tactics list.
From S2P Require Import Prelude Zend Heap Websocket.

Local Open Scope Z_scope.

(** The pointers of a connection: the session it borrows, and what it owns. *)
Record quicpro_ws_conn_internal_t := mkWs {
  ws_self : Z;
  ws_session : Z;
  stream_id : Z;
  ws_state : quicpro_ws_state_t;
  last_error : option Z;
  read_buffer : option Z;
}.

Definition ws_owned (c : quicpro_ws_conn_internal_t) : list Z :=
  ptr (last_error c) ++ ptr (read_buffer c) ++ [ws_self c].

Definition quicpro_ws_conn_dtor (c : option quicpro_ws_conn_internal_t) : mem unit :=
  match c with
  | None => mret tt
  | Some c =>
      let$ _ := efree_if (last_error c) in
      let$ _ := efree_if (read_buffer c) in
      efree (ws_self c)
  end.

(** The numbering of the C enumeration. *)
Definition state_number (s : quicpro_ws_state_t) : Z :=
  match s with WS_STATE_CONNECTING => 0 | WS_STATE_OPEN => 1 | WS_STATE_CLOSING => 2 | WS_STATE_CLOSED => 3 end.

(** [None]: the resource is of another kind. *)
Definition quicpro_ws_get_status (c : option quicpro_ws_conn_internal_t) : zval :=
  match c with Some c => ZLong (state_number (ws_state c)) | None => ZFalse end.

(** The exception and the warning; the result is [false] either way.  [session]: the pointers
    [conn] and [h3] of the session behind the resource. *)
Inductive upgrade_message := UThrow (text : string) | UWarn (text : string).
Definition quicpro_ws_upgrade (session : option (option Z * option Z)) : upgrade_message * zval :=
  match session with
  | Some (Some _, Some _) => (UWarn "quicpro_ws_upgrade() is not yet fully implemented.", ZFalse)
  | _ => (UThrow "Invalid or closed connection resource provided for WebSocket upgrade.", ZFalse)
  end.

(** The destructor releases exactly the blocks of the connection, and leaves the session. *)
Theorem ws_dtor_exact c F n L : L ≡ₚ ws_owned c ++ ws_session c :: F ->
  exists n' L', quicpro_ws_conn_dtor (Some c) (n, L) = Done (tt, (n', L')) /\ L' ≡ₚ ws_session c :: F.
Proof.
  intros HL. assert (destroys (quicpro_ws_conn_dtor (Some c)) (ws_owned c)) as Hd.
  { unfold quicpro_ws_conn_dtor, ws_owned. auto 10 with mem. }
  destruct (Hd n L (ws_session c :: F) HL) as ([] & n' & L' & S & E & HS & Hn).
  exists n', L'. split; [done|]. by rewrite HS, Hn.
Qed.

Lemma status_injective c d : quicpro_ws_get_status (Some c) = quicpro_ws_get_status (Some d) -> ws_state c = ws_state d.
Proof. unfold quicpro_ws_get_status. by destruct (ws_state c), (ws_state d). Qed.
