(* ===== verification/Cors.v ===== *)
(** * CORS enforcement

    [extension/src/server/cors.c].  A pointer into the policy string is the suffix that
    starts there.  The request and response accessors ([quicpro_request_get_header] and
    the like) are declared nowhere in the sources: they are the class [HttpApi], with
    the laws their names promise. *)

From Stdlib Require Import ZArith Lia String Ascii.
From stdpp Require Import base tactics list strings.
From S2P Require Import Prelude Zend.

Local Open Scope Z_scope.
#[local] Arguments String.append !_ _ / : simpl nomatch.

(* ------------------------------------------------------------------------ *)
(** ** The policy string *)

Definition blank (c : ascii) : bool := bool_decide (c = " "%char) || bool_decide (c = "009"%char).

(** [while ( *p == ' ' || *p == '\t') p++;] *)
Fixpoint skip_ws (p : string) : string :=
  match p with
  | String c p' => if blank c then skip_ws p' else p
  | EmptyString => EmptyString
  end.

(** [strchr(p, c)]: what is before it, and the string after it when it is found. *)
Fixpoint strchr (c : ascii) (p : string) : string * option string :=
  match p with
  | EmptyString => (EmptyString, None)
  | String a p' =>
      if decide (a = c) then (EmptyString, Some p')
      else let '(pre, rest) := strchr c p' in (String a pre, rest)
  end.

(** [while (len > 0 && (p[len - 1] == ' ' || p[len - 1] == '\t')) len--;] *)
Fixpoint trim_len (p : string) (len : nat) : nat :=
  match len with
  | O => O
  | S n => match String.get n p with
           | Some c => if blank c then trim_len p n else len
           | None => len
           end
  end.

(** The [while] loop; every iteration moves past a comma, so the length of the policy
    bounds the number of iterations. *)
Fixpoint origin_loop (fuel : nat) (origin p : string) : bool :=
  match fuel with
  | O => false
  | S fuel' =>
      match p with
      | EmptyString => false
      | String _ _ =>
          let p := skip_ws p in
          let '(entry, rest) := strchr ","%char p in
          let len := trim_len p (String.length entry) in
          if bool_decide (len = String.length origin) && strncmp_eq origin p len then true
          else match rest with
               | None => false
               | Some p' => origin_loop fuel' origin p'
               end
      end
  end.

Definition is_origin_allowed (origin allowed_origins : string) : bool :=
  if bool_decide (allowed_origins = "*"%string) then true
  else origin_loop (S (String.length allowed_origins)) origin allowed_origins.

(* ------------------------------------------------------------------------ *)
(** ** The handler *)

Inductive cors_result := CORS_REQUEST_OK | CORS_REQUEST_FORBIDDEN | CORS_PREFLIGHT_HANDLED.

Class HttpApi := {
  request : Type;
  response : Type;
  quicpro_request_get_header : request -> string -> option string;
  quicpro_request_get_method : request -> string;
  quicpro_response_add_header : response -> string -> string -> response;
  quicpro_response_set_status : response -> Z -> response;
  (** what the client will see *)
  header_fields : response -> list (string * string);
  status_code : response -> Z;
  header_fields_add : forall r n v,
    header_fields (quicpro_response_add_header r n v) = header_fields r ++ [(n, v)];
  status_code_add : forall r n v, status_code (quicpro_response_add_header r n v) = status_code r;
  header_fields_status : forall r c, header_fields (quicpro_response_set_status r c) = header_fields r;
  status_code_set : forall r c, status_code (quicpro_response_set_status r c) = c;
}.

Section Handler.
Context `{HttpApi}.

(** [cors_allowed_origins] is the configuration member, [None] when it is [NULL]. *)
Definition quicpro_internal_handle_cors (req : request) (resp : response)
    (cors_allowed_origins : option string) : response * cors_result :=
  match quicpro_request_get_header req "origin" with
  | None => (resp, CORS_REQUEST_OK)
  | Some origin =>
      let allowed := match cors_allowed_origins with
                     | Some policy => is_origin_allowed origin policy
                     | None => false
                     end in
      if negb allowed then (resp, CORS_REQUEST_FORBIDDEN)
      else
        let resp := quicpro_response_add_header resp "Access-Control-Allow-Origin" origin in
        let resp := quicpro_response_add_header resp "Vary" "Origin" in
        if bool_decide (quicpro_request_get_method req = "OPTIONS"%string) then
          let resp := quicpro_response_set_status resp 204 in
          let resp := quicpro_response_add_header resp "Access-Control-Allow-Methods"
                        "GET, POST, PUT, DELETE, PATCH, OPTIONS" in
          let resp := quicpro_response_add_header resp "Access-Control-Allow-Headers" "*" in
          let resp := quicpro_response_add_header resp "Access-Control-Max-Age" "86400" in
          (resp, CORS_PREFLIGHT_HANDLED)
        else (resp, CORS_REQUEST_OK)
  end.
End Handler.

(* ------------------------------------------------------------------------ *)
(** ** The policy as a list of origins *)

(** The segments between commas. *)
Fixpoint split (c : ascii) (s : string) : list string :=
  match s with
  | EmptyString => [EmptyString]
  | String a s' =>
      if decide (a = c) then EmptyString :: split c s'
      else match split c s' with
           | x :: xs => String a x :: xs
           | [] => [String a EmptyString]
           end
  end.

Fixpoint rtrim_ws (s : string) : string :=
  match s with
  | EmptyString => EmptyString
  | String c s' =>
      match rtrim_ws s' with
      | EmptyString => if blank c then EmptyString else String c EmptyString
      | t => String c t
      end
  end.

Definition trim (s : string) : string := rtrim_ws (skip_ws s).

(** The origins a policy lists. *)
Definition listed (policy : string) : list string := map trim (split ","%char policy).

Lemma strchr_split c p :
  match strchr c p with
  | (x, None) => split c p = [x]
  | (x, Some r) => split c p = x :: split c r /\ (String.length r < String.length p)%nat
  end.
Proof.
  induction p as [|a p IH]; simpl; [done|]. destruct (decide (a = c)); [simpl; split; [done|lia]|].
  destruct (strchr c p) as [x [r|]]; [destruct IH as [-> ?]; simpl; split; [done|lia]|by rewrite IH].
Qed.

Lemma split_skip_ws c p : blank c = false ->
  exists x xs, split c p = x :: xs /\ split c (skip_ws p) = skip_ws x :: xs.
Proof.
  intros Hc. induction p as [|a p IH]; simpl; [by exists EmptyString, []|].
  destruct IH as (x & xs & Hp & Hs). destruct (decide (a = c)) as [->|Ha].
  - exists EmptyString, (split c p). rewrite Hc. simpl. by destruct (decide (c = c)).
  - rewrite Hp. exists (String a x), xs. split; [done|]. simpl. destruct (blank a); [done|].
    simpl. destruct (decide (a = c)); [done|]. by rewrite Hp.
Qed.

Lemma skip_ws_length p : (String.length (skip_ws p) <= String.length p)%nat.
Proof. induction p as [|a p IH]; simpl; [done|]. destruct (blank a); simpl; lia. Qed.

(** The entry is a prefix of the string it was found in. *)
Lemma strchr_prefix c p : forall x r, strchr c p = (x, r) -> exists t, p = (x ++ t)%string.
Proof.
  induction p as [|a p IH]; simpl; intros x r Heq; [simplify_eq; by exists EmptyString|].
  destruct (decide (a = c)); [simplify_eq; by eexists|].
  destruct (strchr c p) as [y q]. destruct (IH y q eq_refl) as [t ->]. simplify_eq. by exists t.
Qed.

Lemma trim_len_le p n : (trim_len p n <= n)%nat.
Proof. induction n as [|n IH]; simpl; [done|]. destruct (get n p) as [c|]; [destruct (blank c)|]; lia. Qed.

(** [rtrim_ws] cuts blanks, and nothing but blanks, at the end. *)
Lemma rtrim_ws_spec x : exists z, x = (rtrim_ws x ++ z)%string /\
  (forall i c, String.get i z = Some c -> blank c = true) /\
  (rtrim_ws x = EmptyString \/
   exists c, String.get (pred (String.length (rtrim_ws x))) (rtrim_ws x) = Some c /\ blank c = false).
Proof.
  induction x as [|a x (z & Hx & Hz & Hl)]; [by exists EmptyString; split_and!; [|intros []|left]|].
  cbn [rtrim_ws]. destruct (rtrim_ws x) as [|b t] eqn:Et.
  - simpl in Hx. subst z. destruct (blank a) eqn:Ha.
    + exists (String a x). split_and!; [done| |by left]. intros [|i] c; simpl; [by intros [= <-]|apply Hz].
    + exists x. split_and!; [done|done|right]. by exists a.
  - exists z. split_and!; [simpl; by rewrite Hx at 1|done|right]. destruct Hl as [?|(c & Hc & Hb)]; [done|].
    exists c. split; [|done]. exact Hc.
Qed.

Lemma get_some p : forall i, (i < String.length p)%nat -> String.get i p <> None.
Proof. induction p as [|a p IH]; intros [|i]; simpl; intros; [lia|lia|done|]. apply IH. lia. Qed.

Lemma trim_len_blanks p n k :
  (forall i c, (n <= i < n + k)%nat -> String.get i p = Some c -> blank c = true) ->
  (n + k <= String.length p)%nat -> trim_len p (n + k) = trim_len p n.
Proof.
  induction k as [|k IH]; intros Hb Hl; [by rewrite Nat.add_0_r|].
  rewrite Nat.add_succ_r. simpl. destruct (get (n + k) p) as [c|] eqn:Eg.
  - rewrite (Hb (n + k)%nat c) by (done || lia). apply IH; [|lia]. intros i d Hi. apply Hb. lia.
  - exfalso. by apply (get_some p (n + k)); [lia|].
Qed.

Lemma trim_len_rtrim x t : trim_len (x ++ t)%string (String.length x) = String.length (rtrim_ws x).
Proof.
  destruct (rtrim_ws_spec x) as (z & Hx & Hz & Hl). set (y := rtrim_ws x) in *.
  assert (Hlen : String.length x = (String.length y + String.length z)%nat)
    by (rewrite Hx at 1; apply length_str_app).
  assert (Happ : forall a b c, ((a ++ b) ++ c)%string = (a ++ b ++ c)%string)
    by (intros a b c; induction a as [|d a IH]; simpl; [done|by rewrite IH]).
  rewrite Hlen, Hx, Happ. rewrite trim_len_blanks.
  - destruct Hl as [->|(c & Hc & Hb)]; [done|]. destruct y as [|d y']; [done|]. cbn [String.length pred] in *.
    cbn [trim_len]. rewrite <- append_correct1 by (simpl; lia). by rewrite Hc, Hb.
  - intros i c Hi Hg. replace i with ((i - String.length y) + String.length y)%nat in Hg by lia.
    rewrite <- append_correct2, <- append_correct1 in Hg by lia. by eapply Hz.
  - rewrite !length_str_app. lia.
Qed.

Lemma strncmp_prefix a p : cstr a = a ->
  strncmp_eq a p (String.length a) = true <-> exists t, p = (a ++ t)%string.
Proof.
  revert p. induction a as [|c a IH]; intros p Hn; simpl; [split; [by exists p|done]|].
  simpl in Hn. destruct (decide (c = Ascii.zero)) as [|Hc]; [done|]. injection Hn as Hn.
  destruct p as [|d p]; simpl.
  - rewrite bool_decide_eq_true. split; [done|]. intros [t [=]].
  - destruct (decide (c = d)) as [<-|Hd]; [|split; [done|]; intros [t [= -> _]]; done].
    rewrite IH by done. split; intros [t Ht]; exists t; [by rewrite Ht|by injection Ht].
Qed.

(** One comparison of the loop is a comparison with the trimmed entry. *)
Lemma entry_matches origin x t : cstr origin = origin ->
  let p := (x ++ t)%string in
  bool_decide (trim_len p (String.length x) = String.length origin)
  && strncmp_eq origin p (trim_len p (String.length x)) = true <-> origin = rtrim_ws x.
Proof.
  intros Hn p. subst p. rewrite andb_true_iff, bool_decide_eq_true, trim_len_rtrim.
  destruct (rtrim_ws_spec x) as (z & Hx & _). set (y := rtrim_ws x) in *. clearbody y. split.
  - intros [Hl Hc]. rewrite Hl in Hc. apply strncmp_prefix in Hc as [u Hu]; [|done].
    rewrite Hx in Hu. clear Hx Hn x. revert y Hl Hu.
    induction origin as [|c o IH]; intros [|d y]; simpl; intros Hl Hu; try lia; [done|].
    injection Hu as -> Hu. f_equal. apply IH; [lia|exact Hu].
  - intros ->. split; [done|]. apply strncmp_prefix; [done|]. rewrite Hx.
    exists (z ++ t)%string. clear. induction y as [|c y IH]; simpl; [done|by rewrite IH].
Qed.

Lemma origin_loop_listed origin : cstr origin = origin -> origin <> EmptyString -> forall fuel p,
  (String.length p < fuel)%nat -> origin_loop fuel origin p = true <-> origin ∈ listed p.
Proof.
  intros Hn Hne. induction fuel as [|fuel IH]; intros p Hl; [lia|]. cbn [origin_loop].
  destruct p as [|a p]; [unfold listed; simpl; rewrite list_elem_of_singleton; split; [done|by intros ->]|].
  set (q := String a p) in *. unfold listed.
  destruct (split_skip_ws ","%char q eq_refl) as (x & xs & Hq & Hs). rewrite Hq. cbn [map].
  pose proof (strchr_split ","%char (skip_ws q)) as Hc. pose proof (skip_ws_length q) as Hsl.
  destruct (strchr ","%char (skip_ws q)) as [y rest] eqn:Ec.
  destruct (strchr_prefix _ _ _ _ Ec) as [t Ht]. pose proof (entry_matches origin y t Hn) as Hm.
  cbn zeta in Hm. rewrite <- Ht in Hm. rewrite elem_of_cons.
  assert (Hy : y = skip_ws x) by (destruct rest; [destruct Hc as [Hc _]|]; rewrite Hs in Hc; by simplify_eq).
  unfold trim at 1. rewrite <- Hy, <- Hm. destruct (_ && _); [tauto|].
  destruct rest as [r|].
  - destruct Hc as [Hc Hr]. rewrite Hs in Hc. injection Hc as _ ->. rewrite (IH r) by lia.
    unfold listed. split; [by right|]. by intros [?|?].
  - rewrite Hs in Hc. injection Hc as _ ->. simpl. rewrite elem_of_nil. split; [done|]. by intros [?|?].
Qed.

Lemma is_origin_allowed_iff origin policy : cstr origin = origin -> origin <> EmptyString ->
  is_origin_allowed origin policy = true <-> policy = "*"%string \/ origin ∈ listed policy.
Proof.
  intros Hn Hne. unfold is_origin_allowed. case_bool_decide as Hp; [tauto|].
  rewrite origin_loop_listed by (done || lia). tauto.
Qed.
