(* ===== verification/EarlyHints.v ===== *)
(** * Early hints

    [extension/src/server/early_hints.c]: the 103 response built from a PHP array of
    [[name, value]] pairs.  The header array is allocated once, with one place per element
    of the input and one for the status; a write outside it is [Undefined].  What quiche
    answers ([quiche_conn_is_closed], [quiche_h3_send_response]) is an input. *)

From Stdlib Require Import ZArith Lia String.
From stdpp Require Import base tactics list gmap strings.
From S2P Require Import Prelude Zend.

Local Open Scope Z_scope.

Record quicpro_stream := mkStream { final_response_sent : bool }.

(** A session resource: the connection, when there is one, is closed or not. *)
Record quicpro_session := mkSession {
  conn_closed : option bool;
  streams : gmap Z quicpro_stream;
}.

Inductive hints_error :=
| EInvalidSession
| EStreamNotFound (stream_id : Z)
| EFinalResponseSent (stream_id : Z)
| EQuiche (code : Z).

(** The pair an entry stands for, if it is one. *)
Definition hint_pair (entry : zval) : option (string * string) :=
  match entry with
  | ZArray e =>
      if bool_decide (length e = 2%nat) then
        match ht_find (KInt 0) e, ht_find (KInt 1) e with
        | Some (ZString n), Some (ZString v) => Some (n, v)
        | _, _ => None
        end
      else None
  | _ => None
  end.

(** [headers[i] = ...; i++] for every pair; [headers] are the places written so far and
    [header_count] is the size of the allocation. *)
Fixpoint fill_headers (header_count : nat) (entries : list zval) (headers : list (string * string))
  : outcome hints_error (list (string * string)) :=
  match entries with
  | [] => Done headers
  | e :: entries' =>
      match hint_pair e with
      | None => fill_headers header_count entries' headers
      | Some nv =>
          if (length headers <? header_count)%nat
          then fill_headers header_count entries' (headers ++ [nv])
          else Undefined
      end
  end.

(** What is handed to quiche: the stream, the headers and [fin]. *)
Record h3_response := mkResponse { r_stream : Z; r_headers : list (string * string); r_fin : bool }.

(** [send] is the result of [quiche_h3_send_response].  The outcome is PHP's return value
    (a failure is [false] with an exception) together with what was sent. *)
Definition quicpro_server_send_early_hints (session : option quicpro_session) (stream_id : Z)
    (hints_array : hashtable) (send : h3_response -> Z)
  : outcome hints_error bool * option h3_response :=
  match session with
  | None => (Failed EInvalidSession, None)
  | Some s =>
      match conn_closed s with
      | None => (Failed EInvalidSession, None)
      | Some true => (Done false, None)
      | Some false =>
          match streams s !! stream_id with
          | None => (Failed (EStreamNotFound stream_id), None)
          | Some st =>
              if final_response_sent st then (Failed (EFinalResponseSent stream_id), None)
              else
                let header_count := S (length hints_array) in
                if (header_count <=? 1)%nat then (Done true, None)
                else
                  match fill_headers header_count (ht_values hints_array) [(":status", "103")%string] with
                  | Done headers =>
                      let r := mkResponse stream_id headers false in
                      let written := send r in
                      (if written <? 0 then Failed (EQuiche written) else Done true, Some r)
                  | Failed e => (Failed e, None)
                  | Undefined => (Undefined, None)
                  | NoFuel => (NoFuel, None)
                  end
          end
      end
  end.

(* ------------------------------------------------------------------------ *)
(** ** The header array is large enough *)

Lemma fill_headers_ok n entries : forall headers, (length headers + length entries <= n)%nat ->
  fill_headers n entries headers = Done (headers ++ omap hint_pair entries).
Proof.
  induction entries as [|e entries IH]; intros headers Hn; simpl in *; [by rewrite app_nil_r|].
  destruct (hint_pair e) as [nv|] eqn:He; [|apply IH; lia].
  destruct (Nat.ltb_spec (length headers) n); [|lia]. rewrite IH by (rewrite length_app; simpl; lia).
  by rewrite <- app_assoc.
Qed.
