(* ===== verification/Http1.v ===== *)
(** * A connection of the HTTP/1.1 server

    [extension/src/server/http1.c]: the state machine of one client connection,
    [handle_client_event].  What the TLS library and the PHP handler answer is an input
    of each event.  The read buffer is allocated zeroed, so the bytes after
    [read_buffer_len] are NUL; [strstr] on a full buffer without a NUL reads past it. *)

From Stdlib Require Import ZArith Lia String Strings.Byte.
From stdpp Require Import base tactics list strings pretty.
From S2P Require Import Prelude Zend.

Local Open Scope Z_scope.

Definition READ_BUFFER_SIZE : nat := Z.to_nat 8192.

Inductive conn_state := STATE_HANDSHAKING | STATE_READING | STATE_WRITING | STATE_CLOSING.
#[export] Instance conn_state_eq_dec : EqDecision conn_state.
Proof. solve_decision. Defined.

Record http1_client_connection_t := mkConn {
  state : conn_state;
  read_buffer : list byte;                 (** the first [read_buffer_len] bytes *)
  write_buffer : list byte;
  write_buffer_sent : nat;
}.

(** One wake-up: the event mask and the answers to the calls it leads to.  [SSL_accept]:
    done, again, or failed; [SSL_read]: the bytes, [[]] when it returns zero or less;
    [SSL_write]: a positive count, [SSL_ERROR_WANT_WRITE], or another error. *)
Inductive ssl_accept := AcceptDone | AcceptAgain | AcceptFailed.
Inductive ssl_write := Wrote (n : positive) | WriteAgain | WriteFailed.

Record wakeup := mkWakeup {
  w_epollin : bool;
  w_epollout : bool;
  w_accept : ssl_accept;
  w_read : list byte;
  w_write : ssl_write;
  w_handler : option zval;                 (** what the PHP handler returns, [None] when the call fails *)
}.

(** [strstr(buffer, "\r\n\r\n")] on the bytes up to the first NUL; [None] when the search
    runs out of the bytes without meeting one. *)
Fixpoint strstr_crlf2 (bs : list byte) : option bool :=
  match bs with
  | [] => None
  | b :: bs' =>
      if bool_decide (b = Byte.x00) then Some false
      else if bool_decide (take 4 bs = [Byte.x0d; Byte.x0a; Byte.x0d; Byte.x0a]) then Some true
      else strstr_crlf2 bs'
  end.

(** The search in the connection's buffer: a NUL follows unless the buffer is full. *)
Definition header_end (buf : list byte) : outcome unit bool :=
  match strstr_crlf2 (if (length buf <? READ_BUFFER_SIZE)%nat then buf ++ [Byte.x00] else buf) with
  | Some b => Done b
  | None => Undefined
  end.

Definition crlf : string := String (Ascii.ascii_of_nat 13) (String (Ascii.ascii_of_nat 10) EmptyString).

(** [sni_callback]: the TLS context of a connection.  The table of contexts is a null
    pointer in a server made by [quicpro_http1_server_listen]. *)
Definition sni_callback (vhost_contexts : option (list (string * Z))) (default : Z) (servername : option string)
  : outcome unit Z :=
  match servername, vhost_contexts with
  | None, _ => Done default
  | Some _, None => Undefined
  | Some name, Some ctxs =>
      Done (match List.find (fun p => String.eqb p.1 name) ctxs with Some (_, ctx) => ctx | None => default end)
  end.

Section Connection.
Context `{ZendConv}.

(** [spprintf] of the response; [%s] stops at the first NUL of the body. *)
Definition format_response (status : Z) (body : string) : list byte :=
  list_byte_of_string
    ("HTTP/1.1 " +:+ pretty status +:+ " OK" +:+ crlf
     +:+ "Content-Length: " +:+ pretty (N.of_nat (String.length body)) +:+ crlf
     +:+ "Connection: close" +:+ crlf +:+ crlf +:+ cstr body)%string.

(** The response of a handler's array; a body that is not a string is used as one. *)
Definition build_response (retval : hashtable) : outcome unit (list byte) :=
  let status := match ht_find (KStr "status") retval with Some v => zval_get_long v | None => 200 end in
  match ht_find (KStr "body") retval with
  | None => Done (format_response status EmptyString)
  | Some (ZString body) => Done (format_response status body)
  | Some _ => Undefined
  end.

(** [None] is a closed (and freed) connection. *)
Definition step_result := outcome unit (option http1_client_connection_t).

Definition do_handshake (w : wakeup) (c : http1_client_connection_t) : step_result :=
  if decide (state c = STATE_HANDSHAKING) then
    match w_accept w with
    | AcceptDone => Done (Some (mkConn STATE_READING (read_buffer c) (write_buffer c) (write_buffer_sent c)))
    | AcceptAgain => Done (Some c)
    | AcceptFailed => Done None
    end
  else Done (Some c).

Definition do_read (w : wakeup) (c : http1_client_connection_t) : step_result :=
  if w_epollin w && bool_decide (state c = STATE_READING) then
    match take (READ_BUFFER_SIZE - length (read_buffer c)) (w_read w) with
    | [] => Done None
    | got =>
        let c := mkConn (state c) (read_buffer c ++ got) (write_buffer c) (write_buffer_sent c) in
        let! found := header_end (read_buffer c) in
        if found then
          match w_handler w with
          | Some (ZArray retval) =>
              let! out := build_response retval in
              Done (Some (mkConn STATE_WRITING (read_buffer c) out 0))
          | _ => Done (Some c)
          end
        else Done (Some c)
    end
  else Done (Some c).

(** The second component is what goes to the client. *)
Definition do_write (w : wakeup) (c : http1_client_connection_t)
  : option http1_client_connection_t * list byte :=
  if w_epollout w && bool_decide (state c = STATE_WRITING) then
    let rest := drop (write_buffer_sent c) (write_buffer c) in
    match w_write w with
    | Wrote n =>
        let n := Nat.min (Pos.to_nat n) (length rest) in
        if (length (write_buffer c) <=? write_buffer_sent c + n)%nat then (None, take n rest)
        else (Some (mkConn (state c) (read_buffer c) (write_buffer c) (write_buffer_sent c + n)), take n rest)
    | WriteAgain =>
        if (length (write_buffer c) <=? write_buffer_sent c)%nat then (None, []) else (Some c, [])
    | WriteFailed => (None, [])
    end
  else (Some c, []).

Definition handle_client_event (w : wakeup) (c : http1_client_connection_t)
  : outcome unit (option http1_client_connection_t * list byte) :=
  let! c := do_handshake w c in
  match c with
  | None => Done (None, [])
  | Some c =>
      let! c := do_read w c in
      match c with
      | None => Done (None, [])
      | Some c => Done (do_write w c)
      end
  end.

(** The connection from accept on, over a history of wake-ups: the bytes the client got
    and the connection, if it is still open. *)
Fixpoint serve (ws : list wakeup) (c : http1_client_connection_t)
  : outcome unit (option http1_client_connection_t * list byte) :=
  match ws with
  | [] => Done (Some c, [])
  | w :: ws' =>
      let! '(c, out) := handle_client_event w c in
      match c with
      | None => Done (None, out)
      | Some c =>
          let! '(c, out') := serve ws' c in
          Done (c, out ++ out')
      end
  end.

Definition fresh_connection : http1_client_connection_t := mkConn STATE_HANDSHAKING [] [] 0.
End Connection.
