(* ===== verification/ServerProps.v ===== *)
(** * Server request handling: the guarantees

    CORS policy, early hints, and the HTTP/1.1 connection state machine. *)

From Stdlib Require Import ZArith Lia String Strings.Byte.
From stdpp Require Import base tactics list gmap strings.
From S2P Require Import Prelude Zend Cors EarlyHints Http1.

Local Open Scope Z_scope.
Set Warnings "-clear-no-such-hyp".

(* ------------------------------------------------------------------------ *)
(** ** HTTP/1.1 connections *)

Section Http1.
Context `{ZendConv}.

(** Where the bytes of a connection come from: an array one of the wake-ups' handler
    calls returned. *)
Definition answered (ws : list wakeup) (resp : list byte) : Prop :=
  exists w retval, w ∈ ws /\ w_handler w = Some (ZArray retval) /\ build_response retval = Done resp.

(** A connection that is writing has a response of the history and has sent [out] of it. *)
Definition conn_inv (ws : list wakeup) (c : http1_client_connection_t) (out : list byte) : Prop :=
  (length (read_buffer c) <= READ_BUFFER_SIZE)%nat /\
  match state c with
  | STATE_WRITING => answered ws (write_buffer c) /\ out = take (write_buffer_sent c) (write_buffer c) /\
                     (write_buffer_sent c < length (write_buffer c))%nat
  | _ => out = []
  end.

(** What a closed connection has sent. *)
Definition closed_ok (ws : list wakeup) (out : list byte) : Prop :=
  out = [] \/ exists resp, answered ws resp /\ out `prefix_of` resp /\
    ((forall w, w ∈ ws -> w_write w <> WriteFailed) -> out = resp).

Lemma build_response_nonempty retval resp : build_response retval = Done resp -> resp <> [].
Proof. unfold build_response. intros Hb Hn. subst. by repeat case_match. Qed.

Lemma handshake_inv ws w c c' out : conn_inv ws c out -> do_handshake w c = Done (Some c') ->
  conn_inv ws c' out.
Proof.
  unfold do_handshake. intros [Hl Hi]. destruct (decide _) as [Hs|]; [|by intros [= <-]].
  rewrite Hs in Hi. destruct (w_accept w); intros [= <-]; split; simpl; try done. by rewrite Hs.
Qed.

Lemma read_inv ws w c c' out : w ∈ ws -> conn_inv ws c out -> do_read w c = Done (Some c') ->
  conn_inv ws c' out.
Proof.
  intros Hw [Hl Hi]. unfold do_read. destruct (w_epollin w); simpl; [|by intros [= <-]].
  case_bool_decide as Hs; [|by intros [= <-]]. rewrite Hs in Hi.
  destruct (take _ _) as [|b got] eqn:Et; [done|]. intros Hr. inv_done.
  assert (Hb : (length (read_buffer c ++ b :: got) <= READ_BUFFER_SIZE)%nat).
  { rewrite length_app, <- Et, length_take. lia. }
  assert (Hkeep : conn_inv ws (mkConn (state c) (read_buffer c ++ b :: got) (write_buffer c)
    (write_buffer_sent c)) out) by (split; simpl; [done|by rewrite Hs]).
  destruct r; [|by inv_done]. destruct (w_handler w) as [[]|] eqn:Eh; try (by inv_done). inv_done.
  split; simpl; [done|]. split_and!; [by exists w, ht|done|].
  assert (r <> []) by (by eapply build_response_nonempty). destruct r; simpl; [done|lia].
Qed.

Lemma write_inv ws w c oc out out' : w ∈ ws -> conn_inv ws c out -> do_write w c = (oc, out') ->
  match oc with Some c' => conn_inv ws c' (out ++ out') | None => closed_ok ws (out ++ out') end.
Proof.
  intros Hw [Hl Hi]. unfold do_write. destruct (w_epollout w); simpl;
    [|intros [= <- <-]; by rewrite app_nil_r].
  case_bool_decide as Hs; [|intros [= <- <-]; by rewrite app_nil_r].
  rewrite Hs in Hi. destruct Hi as (Ha & -> & Hlt). set (wb := write_buffer c) in *.
  set (k := write_buffer_sent c) in *.
  assert (Htake : forall n, take k wb ++ take n (drop k wb) = take (k + n) wb)
    by (intros n; by rewrite take_take_drop).
  destruct (w_write w) as [n| |] eqn:Ew.
  - set (n' := Nat.min _ _). destruct (Nat.leb_spec (length wb) (k + n')); intros [= <- <-]; rewrite Htake.
    + right. exists wb. rewrite take_ge by done. done.
    + split; simpl; [done|]. by rewrite Hs.
  - destruct (Nat.leb_spec (length wb) k); [lia|]. intros [= <- <-]. rewrite app_nil_r.
    split; [done|]. by rewrite Hs.
  - intros [= <- <-]. rewrite app_nil_r. right. exists wb. split_and!; [done|apply prefix_take|].
    intros Hf. by destruct (Hf w Hw).
Qed.

Lemma event_inv ws w c oc out out' : w ∈ ws -> conn_inv ws c out ->
  handle_client_event w c = Done (oc, out') ->
  match oc with Some c' => conn_inv ws c' (out ++ out') | None => closed_ok ws (out ++ out') end.
Proof.
  intros Hw Hi He. unfold handle_client_event in He.
  inv_done. destruct r as [c1|].
  - pose proof (handshake_inv _ _ _ _ _ Hi E) as Hi1. inv_done. destruct r as [c2|]; inv_done.
    + pose proof (read_inv _ _ _ _ _ Hw Hi1 E0) as Hi2. by eapply write_inv.
    + destruct Hi1 as [_ Hi1]. revert E0. unfold do_read. destruct (w_epollin w); [|done].
      case_bool_decide as Hs; [|done]. rewrite Hs in Hi1. subst out. intros _. by left.
  - inv_done. revert E. unfold do_handshake. destruct (decide _) as [Hs|]; [|done].
    destruct Hi as [_ Hi]. rewrite Hs in Hi. subst out. intros _. by left.
Qed.

Lemma serve_inv ws0 ws : (forall w, w ∈ ws -> w ∈ ws0) -> forall c oc out out', conn_inv ws0 c out ->
  serve ws c = Done (oc, out') ->
  match oc with Some c' => conn_inv ws0 c' (out ++ out') | None => closed_ok ws0 (out ++ out') end.
Proof.
  induction ws as [|w ws IH]; intros Hin c oc out out' Hi Hs; simpl in Hs.
  { inv_done. by rewrite app_nil_r. }
  inv_done. destruct r as [oc1 out1]. assert (Hw : w ∈ ws0) by (apply Hin; by left).
  pose proof (event_inv _ _ _ _ _ _ Hw Hi E) as Hi1. destruct oc1 as [c1|]; [|by inv_done].
  inv_done. destruct r as [oc2 out2]. inv_done. rewrite app_assoc.
  eapply IH; [|exact Hi1|exact E0]. intros v Hv. apply Hin. by right.
Qed.
End Http1.

(** The search runs off the bytes exactly when they hold neither a NUL nor a blank line. *)
Lemma strstr_crlf2_none bs : strstr_crlf2 bs = None <->
  (forall b, b ∈ bs -> b <> Byte.x00) /\
  (forall i, take 4 (drop i bs) <> [Byte.x0d; Byte.x0a; Byte.x0d; Byte.x0a]).
Proof.
  induction bs as [|b bs IH]; simpl.
  { split; [|done]. intros _. split; [intros b Hb; by apply elem_of_nil in Hb|intros i; by rewrite drop_nil]. }
  case_bool_decide as Hb; [split; [done|]; intros [Hn _]; destruct (Hn b); [by left|done]|].
  case_bool_decide as Ht; [split; [done|]; intros [_ Hn]; by destruct (Hn 0%nat)|].
  rewrite IH. split; intros [H1 H2]; split.
  - intros b' [->|?]%elem_of_cons; auto.
  - intros [|i]; [exact Ht|apply H2].
  - intros b' Hb'. apply H1. by right.
  - intros i. apply (H2 (S i)).
Qed.

(** Only a full buffer is searched without a NUL behind it. *)
Lemma header_end_undefined buf : header_end buf = Undefined <->
  (READ_BUFFER_SIZE <= length buf)%nat /\ (forall b, b ∈ buf -> b <> Byte.x00) /\
  (forall i, take 4 (drop i buf) <> [Byte.x0d; Byte.x0a; Byte.x0d; Byte.x0a]).
Proof.
  unfold header_end. destruct (Nat.ltb_spec (length buf) READ_BUFFER_SIZE) as [Hl|Hl].
  - destruct (strstr_crlf2 (buf ++ [Byte.x00])) eqn:Es; [split; [done|lia]|].
    apply strstr_crlf2_none in Es as [Hn _]. destruct (Hn Byte.x00); [|done].
    apply elem_of_app. right. by left.
  - rewrite <- strstr_crlf2_none. destruct (strstr_crlf2 buf); [split; [done|by intros [_ ?]]|split; [by split|done]].
Qed.

(* ------------------------------------------------------------------------ *)
(** ** The properties *)

(** C18: The CORS policy means what it says: a request's origin is allowed exactly when
    the policy is [*] or one of its comma-separated entries, without the blanks around it,
    is that origin. *)
Theorem cors_policy_exact origin policy :
  cstr origin = origin -> origin <> EmptyString ->
  is_origin_allowed origin policy = true <-> policy = "*"%string \/ origin ∈ listed policy.
Proof. apply is_origin_allowed_iff. Qed.

(** Cross-origin access is granted to allowed origins only: a response gets an
    Access-Control-Allow-Origin header exactly when the request has an origin that the
    policy allows, its value is that origin, a [Vary] header comes with it, and a refused
    request leaves the response untouched.  Only an allowed OPTIONS request is answered
    here, with status 204. *)
Theorem cors_grants_allowed_only `{HttpApi} req resp policy resp' res :
  quicpro_internal_handle_cors req resp policy = (resp', res) ->
  let granted := exists origin p, quicpro_request_get_header req "origin" = Some origin /\
                   policy = Some p /\ is_origin_allowed origin p = true in
  (res = CORS_REQUEST_FORBIDDEN <->
     (exists o, quicpro_request_get_header req "origin" = Some o) /\ ~ granted) /\
  (~ granted -> resp' = resp) /\
  (granted -> exists origin more, quicpro_request_get_header req "origin" = Some origin /\
     header_fields resp' = header_fields resp ++
       ("Access-Control-Allow-Origin"%string, origin) :: ("Vary", "Origin")%string :: more /\
     (forall v, ("Access-Control-Allow-Origin"%string, v) ∉ more)) /\
  (res = CORS_PREFLIGHT_HANDLED ->
     granted /\ quicpro_request_get_method req = "OPTIONS"%string /\ status_code resp' = 204).
Proof.
  intros Hh granted. unfold quicpro_internal_handle_cors in Hh.
  destruct (quicpro_request_get_header req "origin") as [origin|] eqn:Eo.
  2:{ assert (~ granted) by (intros (o & p & ? & _); done). simplify_eq/=.
      split_and!; [split; [done|intros [[? ?] _]; done]|done|done|done]. }
  assert (Hg : (match policy with Some p => is_origin_allowed origin p | None => false end) = true <-> granted).
  { unfold granted. destruct policy as [p|]; [|split; [done|by intros (? & ? & _ & ? & _)]].
    split; [by exists origin, p|by intros (? & ? & [= <-] & [= <-] & ?)]. }
  clearbody granted. destruct (match policy with Some p => _ | None => _ end); simpl in Hh.
  2:{ assert (~ granted) by (intros Hgr; by apply Hg in Hgr). simplify_eq/=. split_and!; naive_solver. }
  assert (granted) by (by apply Hg).
  case_bool_decide as Hm; simplify_eq/=; rewrite ?header_fields_add, ?header_fields_status, ?header_fields_add,
    ?status_code_add, ?status_code_set, <- ?app_assoc; simpl.
  - split_and!; [split; [done|tauto]|tauto| |done].
    intros _. exists origin. eexists. split_and!; [done|done|].
    intros v. rewrite !elem_of_cons, elem_of_nil. by intros [?|[?|[?|?]]].
  - split_and!; [split; [done|tauto]|tauto| |done].
    intros _. exists origin, []. split_and!; [done|done|]. intros v. intros ?%elem_of_nil; done.
Qed.

(** An early-hints response goes out only on a known stream of an open connection
    that has no final response yet, is never final itself, starts with status 103, and
    carries exactly the well-formed pairs of the input in their order; the header array is
    never overrun. *)
Theorem early_hints_exact session id hints send :
  (quicpro_server_send_early_hints session id hints send).1 <> Undefined /\
  forall r, (quicpro_server_send_early_hints session id hints send).2 = Some r ->
    (exists s st, session = Some s /\ conn_closed s = Some false /\ streams s !! id = Some st /\
       final_response_sent st = false) /\
    r = mkResponse id ((":status", "103")%string :: omap hint_pair (ht_values hints)) false.
Proof.
  unfold quicpro_server_send_early_hints. destruct session as [s|]; [|done].
  destruct (conn_closed s) as [[]|] eqn:Ec; try done.
  destruct (streams s !! id) as [st|] eqn:Es; [|done].
  destruct (final_response_sent st) eqn:Ef; [done|]. destruct (_ <=? 1)%nat; [done|].
  rewrite fill_headers_ok by (simpl; unfold ht_values; by rewrite length_map). simpl.
  split; [by destruct (_ <? 0)|]. intros r [= <-]. split; [|done]. by exists s, st.
Qed.

(** C19: A client of the HTTP/1.1 server gets one response and nothing else: whatever the
    network does, the bytes sent are a prefix of the response to one handler call, and
    when the connection is closed without a failed write they are all of it or none;
    the read buffer never exceeds its 8192 bytes. *)
Theorem http1_one_response `{ZendConv} ws oc out :
  serve ws fresh_connection = Done (oc, out) ->
  match oc with Some c => conn_inv ws c out | None => closed_ok ws out end.
Proof.
  intros Hs. eapply (serve_inv ws ws (fun w Hw => Hw) fresh_connection oc [] out); [|done].
  split; simpl; [unfold READ_BUFFER_SIZE; lia|done].
Qed.

(** Reading is safe but for two inputs: a connection that has data to read runs into
    undefined behaviour exactly when the data fills the buffer without a NUL or a blank
    line in it (the search then leaves the buffer), or when the request is complete and
    the handler's array has a body that is not a string. *)
Theorem http1_undefined_exact `{ZendConv} w c :
  state c = STATE_READING -> w_epollin w = true ->
  let got := take (READ_BUFFER_SIZE - length (read_buffer c)) (w_read w) in
  let buf := read_buffer c ++ got in
  handle_client_event w c = Undefined <->
  got <> [] /\
  (((READ_BUFFER_SIZE <= length buf)%nat /\ (forall b, b ∈ buf -> b <> Byte.x00) /\
    (forall i, take 4 (drop i buf) <> [Byte.x0d; Byte.x0a; Byte.x0d; Byte.x0a])) \/
   (header_end buf = Done true /\ exists retval v, w_handler w = Some (ZArray retval) /\
    ht_find (KStr "body") retval = Some v /\ forall s, v <> ZString s)).
Proof.
  intros Hs Hin got buf. rewrite <- (header_end_undefined buf).
  unfold handle_client_event, do_handshake, do_read. rewrite Hs. simpl. rewrite Hin, Hs. simpl.
  fold got. destruct got as [|b got'] eqn:Eg; simpl; [split; [done|by intros [? _]]|].
  fold buf. destruct (header_end buf) as [[]| | |] eqn:Eh; simpl; try (split; [done|naive_solver]);
    [|split; [by split; [|left]|done]].
  destruct (w_handler w) as [[]|] eqn:Ew; simpl; try (split; [done|naive_solver]).
  unfold build_response. destruct (ht_find (KStr "body") ht) as [v|] eqn:Ev; simpl; [|naive_solver].
  destruct v; simpl; naive_solver.
Qed.

(* ------------------------------------------------------------------------ *)
(** ** Witnesses *)

Module ServerDemo.
(** Requests with a header table, responses as a status and a header list. *)
#[refine] Definition api : HttpApi := {|
  request := string * list (string * string);
  response := Z * list (string * string);
  quicpro_request_get_header r n := snd <$> List.find (fun h => bool_decide (fst h = n)) (snd r);
  quicpro_request_get_method := fst;
  quicpro_response_add_header r n v := (fst r, snd r ++ [(n, v)]);
  quicpro_response_set_status r c := (c, snd r);
  header_fields := snd;
  status_code := fst;
|}.
Proof. all: done. Defined.
#[export] Existing Instance api.

Definition policy : string := "https://a.example , https://b.example".
Definition preflight : @request api := ("OPTIONS", [("origin", "https://b.example")])%string.

Definition request_bytes : list byte :=
  list_byte_of_string ("GET / HTTP/1.1" ++ crlf ++ crlf).
Definition reply : hashtable := [(KStr "status", ZLong 201); (KStr "body", ZString "hi")].
Definition wake (inp out : bool) (n : positive) : wakeup :=
  mkWakeup inp out AcceptDone request_bytes (Wrote n) (Some (ZArray reply)).
(** The request arrives, then the response goes out in three pieces. *)
Definition history : list wakeup := [wake true false 1; wake false true 7; wake false true 20; wake false true 500].
End ServerDemo.
Import ServerDemo.
#[local] Existing Instance demo_conv.

Lemma cors_policy_exact_witness : is_origin_allowed "https://b.example" policy = true.
Proof.
  apply (cors_policy_exact "https://b.example" policy); [reflexivity|discriminate|].
  right. apply list_elem_of_In. vm_compute. tauto.
Defined.

Lemma cors_grants_allowed_only_witness :
  quicpro_internal_handle_cors preflight (200, []) (Some policy) =
    ((204, [("Access-Control-Allow-Origin", "https://b.example"); ("Vary", "Origin");
            ("Access-Control-Allow-Methods", "GET, POST, PUT, DELETE, PATCH, OPTIONS");
            ("Access-Control-Allow-Headers", "*"); ("Access-Control-Max-Age", "86400")]%string),
     CORS_PREFLIGHT_HANDLED) /\
  status_code (quicpro_internal_handle_cors preflight (200, []) (Some policy)).1 = 204.
Proof.
  split; [vm_compute; reflexivity|].
  apply (cors_grants_allowed_only preflight (200, []) (Some policy) _ CORS_PREFLIGHT_HANDLED);
    vm_compute; reflexivity.
Defined.

Lemma http1_one_response_witness : exists out,
  serve history fresh_connection = Done (None, out) /\ closed_ok history out.
Proof.
  eexists. split; [vm_compute; reflexivity|].
  apply (http1_one_response history None). vm_compute. reflexivity.
Defined.

Lemma http1_undefined_exact_witness :
  handle_client_event (mkWakeup true false AcceptDone request_bytes WriteAgain
    (Some (ZArray [(KStr "body", ZNull)]))) (mkConn STATE_READING [] [] 0) = Undefined.
Proof.
  apply (http1_undefined_exact _ (mkConn STATE_READING [] [] 0)); [reflexivity|reflexivity|].
  split; [vm_compute; discriminate|]. right. split; [vm_compute; reflexivity|].
  eexists _, ZNull. split; [reflexivity|]. split; [reflexivity|]. discriminate.
Defined.
