(* ===== verification/Io.v ===== *)
(** * Programs that call the outside

    C functions that call the operating system, quiche or the PHP engine are programs over
    a signature of operations: [op] with the type [ans o] of what [o] returns.  A program
    is a finite tree; a run is a trace of calls with their answers.

    A [protocol] is the abstract side: what the environment promises about its answers and
    which calls are allowed in which state.  [safe] says that a program, whatever the
    environment answers within its promises, makes only allowed calls and ends as told;
    [safe_runs] turns that into a statement about every run. *)

From stdpp Require Import base tactics list.
From S2P Require Import Prelude.

Set Default Proof Using "Type".

Section Io.
Context {op : Type} {ans : op -> Type}.

Inductive io (A : Type) : Type :=
| Ret (a : A)
| Call (o : op) (k : ans o -> io A).
Arguments Ret {A} a.
Arguments Call {A} o k.

Fixpoint io_bind {A B} (p : io A) (f : A -> io B) : io B :=
  match p with
  | Ret a => f a
  | Call o k => Call o (fun r => io_bind (k r) f)
  end.

Definition call (o : op) : io (ans o) := Call o Ret.

(** ** Runs *)

Record event := Ev { ev_op : op; ev_ans : ans ev_op }.

Fixpoint runs {A} (p : io A) (tr : list event) (a : A) : Prop :=
  match p with
  | Ret a' => tr = [] /\ a = a'
  | Call o k => exists r tr', tr = Ev o r :: tr' /\ runs (k r) tr' a
  end.

Lemma runs_bind {A B} (p : io A) (f : A -> io B) : forall tr b,
  runs (io_bind p f) tr b <->
  exists tr1 tr2 a, tr = tr1 ++ tr2 /\ runs p tr1 a /\ runs (f a) tr2 b.
Proof.
  induction p as [a|o k IH]; intros tr b; simpl.
  - split; [intros; by exists [], tr, a|]. by intros (? & ? & ? & -> & [-> ->] & ?).
  - split.
    + intros (r & tr' & -> & (tr1 & tr2 & a & -> & ? & ?)%IH).
      exists (Ev o r :: tr1), tr2, a. split_and!; eauto.
    + intros (? & tr2 & a & -> & (r & tr1 & -> & ?) & ?). exists r, (tr1 ++ tr2).
      split; [done|]. apply IH. eauto 10.
Qed.

(** Programs whose calls are all of a kind. *)
Definition calls_only {A} (ok : op -> Prop) (p : io A) : Prop :=
  forall tr a, runs p tr a -> Forall (fun e => ok (ev_op e)) tr.

Lemma calls_only_ret {A} ok (a : A) : calls_only ok (Ret a).
Proof. intros tr a' [-> _]. done. Qed.
Lemma calls_only_call {A} (ok : op -> Prop) o (k : ans o -> io A) :
  ok o -> (forall r, calls_only ok (k r)) -> calls_only ok (Call o k).
Proof. intros Ho Hk tr a (r & tr' & -> & Hr). constructor; [done|by eapply Hk]. Qed.
Lemma calls_only_bind {A B} ok (p : io A) (f : A -> io B) :
  calls_only ok p -> (forall a, calls_only ok (f a)) -> calls_only ok (io_bind p f).
Proof.
  intros Hp Hf tr b (t1 & t2 & a & -> & H1 & H2)%runs_bind. apply Forall_app. split; [by eapply Hp|by eapply Hf].
Qed.

Lemma calls_only_mono {A} (ok ok' : op -> Prop) (p : io A) :
  (forall o, ok o -> ok' o) -> calls_only ok p -> calls_only ok' p.
Proof. intros Hk Hp tr a Hr. eapply Forall_impl; [exact (Hp tr a Hr)|]. intros e. apply Hk. Qed.

(** A world answers from a state of its own; this runs a program in it. *)
Fixpoint exec {W A} (world : forall o, W -> ans o * W) (p : io A) (w : W) : A * list event * W :=
  match p with
  | Ret a => (a, [], w)
  | Call o k =>
      let '(r, w') := world o w in
      let '(a, tr, w'') := exec world (k r) w' in
      (a, Ev o r :: tr, w'')
  end.

Lemma exec_runs {W A} world (p : io A) : forall w : W,
  runs p (exec world p w).1.2 (exec world p w).1.1.
Proof.
  induction p as [a|o k IH]; intros w; simpl; [done|].
  destruct (world o w) as [r w']. specialize (IH r w').
  destruct (exec world (k r) w') as [[a tr] w'']. simpl in *. eauto.
Qed.

(** ** Protocols *)

Record protocol := Protocol {
  pstate : Type;
  promise : pstate -> event -> Prop;
  pstep : pstate -> event -> option pstate;
}.

Section Safe.
Variable P : protocol.

Fixpoint safe {A} (p : io A) (s : pstate P) (Q : A -> pstate P -> Prop) : Prop :=
  match p with
  | Ret a => Q a s
  | Call o k => forall r, promise P s (Ev o r) ->
      exists s', pstep P s (Ev o r) = Some s' /\ safe (k r) s' Q
  end.

Lemma safe_mono {A} (p : io A) : forall s (Q Q' : A -> pstate P -> Prop),
  safe p s Q -> (forall a s', Q a s' -> Q' a s') -> safe p s Q'.
Proof.
  induction p as [a|o k IH]; intros s Q Q' Hs HQ; simpl in *; [auto|].
  intros r Hr. destruct (Hs r Hr) as (s' & ? & ?). eauto.
Qed.

Lemma safe_bind {A B} (p : io A) (f : A -> io B) : forall s Q,
  safe p s (fun a s' => safe (f a) s' Q) -> safe (io_bind p f) s Q.
Proof.
  induction p as [a|o k IH]; intros s Q Hs; simpl in *; [done|].
  intros r Hr. destruct (Hs r Hr) as (s' & ? & ?). eauto.
Qed.

(** The states along a trace, and an environment that keeps its promises. *)
Fixpoint psteps (s : pstate P) (tr : list event) : option (pstate P) :=
  match tr with
  | [] => Some s
  | e :: tr' => match pstep P s e with Some s' => psteps s' tr' | None => None end
  end.

Fixpoint honest (s : pstate P) (tr : list event) : Prop :=
  match tr with
  | [] => True
  | e :: tr' => promise P s e /\ (forall s', pstep P s e = Some s' -> honest s' tr')
  end.

Lemma safe_runs {A} (p : io A) : forall s Q tr a,
  safe p s Q -> runs p tr a -> honest s tr -> exists s', psteps s tr = Some s' /\ Q a s'.
Proof.
  induction p as [a'|o k IH]; intros s Q tr a Hs Hr Hh; simpl in *.
  - destruct Hr as [-> ->]. simpl. eauto.
  - destruct Hr as (r & tr' & -> & Hr). simpl in *. destruct Hh as [Hp Hh].
    destruct (Hs r Hp) as (s' & Hst & Hk). rewrite Hst. eauto.
Qed.
End Safe.
End Io.

Arguments io {op} ans A.
Arguments Ret {op ans A} a.
Arguments Call {op ans A} o k.
Arguments call {op ans} o.
Arguments event {op} ans.
Arguments Ev {op ans} ev_op ev_ans.
Arguments protocol {op} ans.
Arguments Protocol {op ans} pstate promise pstep.

(** One step of [calls_only]; [tac] proves that a call is of the kind. *)
Ltac calls_only_step tac :=
  first [ apply calls_only_ret | apply calls_only_call; [tac|intros ?] | apply calls_only_bind; [|intros ?] ].

Declare Scope io_scope.
Delimit Scope io_scope with io.
Notation "'let*' x ':=' p 'in' k" := (io_bind p (fun x => k))
  (at level 10, x name, p at level 100, k at level 200) : io_scope.
Notation "'let*' ' x ':=' p 'in' k" := (io_bind p (fun x => k))
  (at level 10, x strict pattern, p at level 100, k at level 200) : io_scope.
Open Scope io_scope.

(** Programs whose result is an [outcome]: a failed step ends the program. *)
Definition io_obind {op} {ans : op -> Type} {E A B} (p : io ans (outcome E A)) (f : A -> io ans (outcome E B))
  : io ans (outcome E B) :=
  io_bind p (fun r =>
    match r with
    | Done a => f a
    | Failed e => Ret (Failed e)
    | Undefined => Ret Undefined
    | NoFuel => Ret NoFuel
    end).

Notation "'let*!' x ':=' p 'in' k" := (io_obind p (fun x => k))
  (at level 10, x name, p at level 100, k at level 200) : io_scope.
Notation "'let*!' ' x ':=' p 'in' k" := (io_obind p (fun x => k))
  (at level 10, x strict pattern, p at level 100, k at level 200) : io_scope.
