(* ===== verification/Interleave.v ===== *)
(** * A thread beside another that writes what it reads

    A thread is a program of [Io]; the memory it shares with the other thread is a state.
    A step is either an action of the other thread, which changes the state, or a call of
    the thread itself, whose answer must fit the state and whose memory must still be
    there.  [isteps] is any order of such steps.

    [always] speaks of every program a thread may have become, [costs] of how many calls of
    a kind are left while the answers stay within [ok]. *)

From Stdlib Require Import Lia.
From stdpp Require Import base tactics list.
From S2P Require Import Prelude Io.

Set Default Proof Using "Type".

Section Interleave.
Context {op : Type} {ans : op -> Type} {act M : Type}.
(** What the state lets a call return, which memory a call needs, what an action writes. *)
Variable answer : M -> forall o, ans o -> Prop.
Variable present : M -> op -> Prop.
Variable write : M -> act -> option M.

Inductive label := Other (a : act) | Own (e : event ans).

Inductive istep {A} : io ans A * M -> label -> io ans A * M -> Prop :=
| step_other p m a m' : write m a = Some m' -> istep (p, m) (Other a) (p, m')
| step_own o k r m : present m o -> answer m o r -> istep (Call o k, m) (Own (Ev o r)) (k r, m).

Inductive isteps {A} : io ans A * M -> list label -> io ans A * M -> Prop :=
| isteps_refl c : isteps c [] c
| isteps_cons c l c' ls c'' : istep c l c' -> isteps c' ls c'' -> isteps c (l :: ls) c''.

(** The thread is about to touch memory that is gone. *)
Definition faults {A} (c : io ans A * M) : Prop :=
  match c.1 with Call o _ => ~ present c.2 o | Ret _ => False end.

Definition own (ls : list label) : list (event ans) :=
  omap (fun l => match l with Own e => Some e | Other _ => None end) ls.
Definition others (ls : list label) : list act :=
  omap (fun l => match l with Other a => Some a | Own _ => None end) ls.

Lemma isteps_app {A} (c : io ans A * M) ls1 c1 ls2 c2 : isteps c ls1 c1 -> isteps c1 ls2 c2 -> isteps c (ls1 ++ ls2) c2.
Proof. induction 1; intros H2; [done|]. econstructor; eauto. Qed.

(** The other thread does not disturb the order of the thread's own calls. *)
Lemma isteps_runs {A} (c c' : io ans A * M) ls : isteps c ls c' ->
  forall tr a, runs c'.1 tr a -> runs c.1 (own ls ++ tr) a.
Proof.
  induction 1 as [c|c l c' ls c'' Hs _ IH]; intros tr a Hr; [done|].
  specialize (IH tr a Hr). destruct Hs as [p m b m' _|o k r m _ _]; [exact IH|].
  cbn [fst runs] in *. by exists r, (own ls ++ tr).
Qed.

(** Nothing is stuck but a thread that has ended or faults. *)
Lemma istep_progress {A} (p : io ans A) m : (forall o, exists r, answer m o r) ->
  (forall o, Decision (present m o)) ->
  (exists a, p = Ret a) \/ faults (p, m) \/ exists e c, istep (p, m) (Own e) c.
Proof.
  intros Ha Hd. destruct p as [a|o k]; [by left; exists a|right]. destruct (Hd o) as [Hp|Hp]; [right|by left].
  destruct (Ha o) as [r Hr]. exists (Ev o r), (k r, m). by constructor.
Qed.

(** An invariant of the state under the actions that are taken. *)
Lemma isteps_state {A} (I : M -> Prop) (c c' : io ans A * M) ls : isteps c ls c' -> I c.2 ->
  (forall m a m', a ∈ others ls -> I m -> write m a = Some m' -> I m') -> I c'.2.
Proof.
  induction 1 as [c|c l c' ls c'' Hs _ IH]; intros Hi Hw; [done|]. apply IH.
  - destruct Hs as [p m b m' Hb|]; [|done]. eapply Hw; [|exact Hi|exact Hb]. by left.
  - intros m a m' Hin. apply Hw. destruct l; [by right|done].
Qed.

(** A program that is safe for a protocol keeps it whatever happens in between. *)
Lemma safe_steps {A} (P : protocol ans) Q (c c' : io ans A * M) ls : isteps c ls c' -> forall s,
  safe P c.1 s Q -> honest P s (own ls) -> exists s', psteps P s (own ls) = Some s' /\ safe P c'.1 s' Q.
Proof.
  induction 1 as [c|c l c' ls c'' Hs _ IH]; intros s Hsafe Hh; [by exists s|].
  destruct Hs as [p m b m' _|o k r m _ _]; [by apply IH|].
  destruct Hh as [Hp Hh]. destruct (Hsafe r Hp) as (s' & Hst & Hk).
  destruct (IH s' Hk (Hh s' Hst)) as (s'' & Hps & Hc). exists s''. split; [|done].
  change (own (Own (Ev o r) :: ls)) with (Ev o r :: own ls). cbn [psteps]. by rewrite Hst.
Qed.

(** ** Every program the thread may become *)

Fixpoint always {A} (P : io ans A -> Prop) (p : io ans A) : Prop :=
  P p /\ match p with Ret _ => True | Call _ k => forall r, always P (k r) end.

Lemma always_now {A} (P : io ans A -> Prop) p : always P p -> P p.
Proof. destruct p; by intros []. Qed.

Lemma always_steps {A} (P : io ans A -> Prop) (c c' : io ans A * M) ls : isteps c ls c' -> always P c.1 -> always P c'.1.
Proof.
  induction 1 as [c|c l c' ls c'' Hs _ IH]; intros Ha; [done|]. apply IH.
  destruct Hs as [|o k r m]; [done|]. destruct Ha as [_ Ha]. apply Ha.
Qed.

(** ** Counting calls *)

Section Costs.
Variable weight : op -> nat.

Definition cost (tr : list (event ans)) : nat := sum_list (map (fun e => weight (ev_op e)) tr).

Variable ok : forall o, ans o -> Prop.

Fixpoint costs {A} (n : nat) (p : io ans A) : Prop :=
  match p with
  | Ret _ => True
  | Call o k => weight o <= n /\ forall r, ok o r -> costs (n - weight o) (k r)
  end.

Lemma costs_mono {A} (p : io ans A) : forall n n', n <= n' -> costs n p -> costs n' p.
Proof.
  induction p as [a|o k IH]; intros n n' Hn; cbn [costs]; [done|]. intros [Hw Hk].
  split; [lia|]. intros r Hr. eapply IH; [|exact (Hk r Hr)]. lia.
Qed.

Lemma costs_bind {A B} (p : io ans A) (f : A -> io ans B) : forall n n', costs n p -> (forall a, costs n' (f a)) ->
  costs (n + n') (io_bind p f).
Proof.
  induction p as [a|o k IH]; intros n n' Hp Hf; cbn [io_bind costs].
  - eapply costs_mono; [|apply Hf]. lia.
  - destruct Hp as [Hw Hk]. split; [lia|]. intros r Hr.
    eapply costs_mono; [|exact (IH r _ _ (Hk r Hr) Hf)]. lia.
Qed.

(** While the state keeps [I], and so the answers [ok], the calls are bounded. *)
Lemma costs_steps {A} (I : M -> Prop) (c c' : io ans A * M) ls : isteps c ls c' ->
  (forall m o r, I m -> answer m o r -> ok o r) ->
  I c.2 -> (forall m a m', a ∈ others ls -> I m -> write m a = Some m' -> I m') ->
  forall n, costs n c.1 -> cost (own ls) <= n.
Proof.
  induction 1 as [c|c l c' ls c'' Hs _ IH]; intros Ho Hi Hw n Hc; [cbn; lia|].
  assert (Hw' : forall m a m', a ∈ others ls -> I m -> write m a = Some m' -> I m').
  { intros m a m' Hin. apply Hw. destruct l; [by right|done]. }
  destruct Hs as [p m b m' Hb|o k r m _ Hr].
  - apply (IH Ho); [|done|done]. eapply Hw; [|exact Hi|exact Hb]. by left.
  - destruct Hc as [Hn Hk]. specialize (IH Ho Hi Hw' _ (Hk r (Ho _ _ _ Hi Hr))).
    change (own (Own (Ev o r) :: ls)) with (Ev o r :: own ls). cbn [cost map sum_list]. unfold cost in IH. cbn. lia.
Qed.
End Costs.
End Interleave.

Arguments label {op} ans act.
Arguments Other {op ans act} a.
Arguments Own {op ans act} e.
