(* ===== verification/Net.v ===== *)
(** * The network side: sockets, clock, quiche

    The signature of the calls that the session, polling and server code makes outside the
    extension, and the ownership protocol: which handles are live, and that a handle is
    used and released only while it is.

    The answers are what the C code looks at: return values, [errno], bytes.  Handles
    (descriptors, pointers) are integers; a null pointer is [None]. *)

From Stdlib Require Import ZArith Lia String.
From stdpp Require Import base tactics list gmap strings.
From S2P Require Import Prelude Io.

Local Open Scope Z_scope.

Definition AF_UNSPEC : Z := 0.
Definition AF_INET : Z := 2.
Definition AF_INET6 : Z := 10.
Definition EAGAIN : Z := 11.
Definition EWOULDBLOCK : Z := 11.
Definition QUICHE_ERR_DONE : Z := -1.

Record addrinfo := mkAi { ai_family : Z; ai_addr : string }.
Record timespec := mkTs { tv_sec : Z; tv_nsec : Z }.

(** [recvmsg]: an error with its [errno], or the datagram, its sender and the timestamp
    among the control messages. *)
Inductive recvd := RecvErr (errno : Z) | Recv (data : list byte) (from : string) (ts : option timespec).
(** [quiche_conn_send]: a negative code, or a packet and its destination. *)
Inductive packet := SendErr (e : positive) | Packet (data : list byte) (to : string).

(** [epoll_wait]: [errno], or how many of the events are for the server's socket. *)
Inductive polled := EpollErr (errno : Z) | EpollEvents (n : nat).

Definition EINTR : Z := 4.

Definition send_len (p : packet) : Z :=
  match p with SendErr e => Z.neg e | Packet data _ => Z.of_nat (length data) end.

Inductive nop :=
(* names and sockets *)
| Getaddrinfo (host port : string) (addrconfig : bool)
| Freeaddrinfo (list_ : Z)
| Socket (family : Z)
| SetBindToDevice (fd : Z) (iface : string)
| SetTimestamping (fd : Z)
| Connect (fd : Z) (addr : string)
| Close (fd : Z)
| Recvmsg (fd : Z)
| Sendto (fd : Z) (data : list byte) (to : string)
(* time and randomness *)
| Usleep (us : Z)
| ClockGettime
| RandBytes (n : nat)
| InetPton (family : Z) (addr : string)
(* files *)
| OpenRead (path : string)
| ReadFd (fd : Z) (n : nat)
(* memory and exceptions *)
| Ecalloc
| Emalloc (n : Z)
| Efree (p : Z)
| Throw (message : string)
(* quiche *)
| QuicheConnect (server_name : string) (scid : list byte) (peer : string) (cfg : Z)
| ConnRecv (conn : Z) (data : list byte) (from : string)
| ConnSend (conn : Z) (size : Z)
| ConnOnTimeout (conn : Z)
| ConnTimeoutMillis (conn : Z)
| ConnIsClosed (conn : Z)
| ConnIsDraining (conn : Z)
| ConnIsEstablished (conn : Z)
| ConnClose (conn : Z) (app : bool) (error_code : Z) (reason : string)
| ConnSetSession (conn : Z) (ticket : list byte)
| NextCryptoStream (conn : Z)
| ConnFree (conn : Z)
| H3ConfigNew
| H3ConfigFree (cfg : Z)
| H3ConnNew (conn : Z) (cfg : option Z)
| H3ConnFree (h3 : Z)
| ConfigFree (cfg : Z)
| ConfigMarkFrozen (cfg : Z)
| FiberActive
| FiberSuspend
| Perror (what : string)
(* servers *)
| SetSockOpt (fd : Z) (name : string) (value : Z)
| Bind (fd : Z) (addr : string) (port : Z)
| Recvfrom (fd : Z) (size : Z)
| EpollCreate
| EpollAdd (ep fd : Z)
| EpollWait (ep : Z)
| ConfigNew
| ConfigSetLong (cfg : Z) (name : string) (value : Z)
| ConfigSetString (cfg : Z) (name value : string)
| HeaderInfo (data : list byte)
| QuicheAccept (scid : list byte) (peer : string) (cfg : Z)
| ConnReadable (conn : Z)
(** [zend_register_resource] of a session, the handler with that resource and a stream, and
    the destructor [quicpro_session_dtor_internal], which is not under [src] and to which
    the session and its connection are handed over *)
| RegisterSession (session : Z)
| CallHandler (resource stream_id : Z)
| SessionDtor (session conn : Z).

Definition nans (o : nop) : Type :=
  match o with
  | Getaddrinfo _ _ _ => option (Z * list addrinfo)
  | Socket _ | SetBindToDevice _ _ | SetTimestamping _ | Connect _ _ => Z
  | Recvmsg _ => recvd
  | Sendto _ _ _ => Z * Z                      (** return value, [errno] *)
  | ClockGettime => timespec
  | RandBytes _ => list byte
  | Ecalloc | Emalloc _ | OpenRead _ => Z
  | InetPton _ _ => option string
  | ReadFd _ _ => option (list byte)           (** [None] for zero or less *)
  | NextCryptoStream _ => option Z
  | QuicheConnect _ _ _ _ | H3ConfigNew | H3ConnNew _ _ => option Z
  | ConnRecv _ _ _ | ConnTimeoutMillis _ | ConnSetSession _ _ => Z
  | ConnSend _ _ => packet
  | ConnIsClosed _ | ConnIsDraining _ | ConnIsEstablished _ | FiberActive => bool
  | SetSockOpt _ _ _ | Bind _ _ _ | EpollCreate | EpollAdd _ _ => Z
  | Recvfrom _ _ => recvd
  | EpollWait _ => polled
  | ConfigNew => option Z
  | HeaderInfo _ => option (list byte)         (** the destination connection id *)
  | QuicheAccept _ _ _ => option Z
  | ConnReadable _ => list Z
  | RegisterSession _ => Z                     (** the number of the resource *)
  | CallHandler _ _ => bool                    (** whether the PHP code closed the server *)
  | _ => unit
  end.

Abbreviation net := (io nans).
Abbreviation nevent := (event nans).
Abbreviation sys := (@call nop nans).

(* ------------------------------------------------------------------------ *)
(** ** Ownership *)

Inductive res := RAddrs (h : Z) | RSock (fd : Z) | RMem (p : Z) | RConn (h : Z) | RH3Cfg (h : Z) | RH3 (h : Z) | RCfg (h : Z).
#[export] Instance res_eq_dec : EqDecision res.
Proof. solve_decision. Defined.

Definition res_code (r : res) : nat * Z :=
  match r with
  | RAddrs h => (0, h) | RSock h => (1, h) | RMem h => (2, h) | RConn h => (3, h)
  | RH3Cfg h => (4, h) | RH3 h => (5, h) | RCfg h => (6, h)
  end%nat.
Definition res_decode (c : nat * Z) : option res :=
  match c with
  | (0, h) => Some (RAddrs h) | (1, h) => Some (RSock h) | (2, h) => Some (RMem h) | (3, h) => Some (RConn h)
  | (4, h) => Some (RH3Cfg h) | (5, h) => Some (RH3 h) | (6, h) => Some (RCfg h)
  | _ => None
  end%nat.
#[export] Instance res_countable : Countable res.
Proof. apply (inj_countable res_code res_decode). by intros []. Defined.

(** What a call with its answer acquires. *)
Definition acquired (e : nevent) : option res :=
  match e with
  | Ev (Getaddrinfo _ _ _) (Some (h, _)) => Some (RAddrs h)
  | Ev (Socket _) fd => if fd <? 0 then None else Some (RSock fd)
  | Ev Ecalloc p | Ev (Emalloc _) p => Some (RMem p)
  | Ev (OpenRead _) fd | Ev EpollCreate fd => if fd <? 0 then None else Some (RSock fd)
  | Ev ConfigNew (Some h) => Some (RCfg h)
  | Ev (QuicheAccept _ _ _) (Some h) => Some (RConn h)
  | Ev (QuicheConnect _ _ _ _) (Some h) => Some (RConn h)
  | Ev H3ConfigNew (Some h) => Some (RH3Cfg h)
  | Ev (H3ConnNew _ _) (Some h) => Some (RH3 h)
  | _ => None
  end.

(** What it releases, and what it needs to be live. *)
Definition released (o : nop) : list res :=
  match o with
  | Freeaddrinfo h => [RAddrs h]
  | Close fd => [RSock fd]
  | Efree p => [RMem p]
  | ConnFree h => [RConn h]
  | H3ConfigFree h => [RH3Cfg h]
  | H3ConnFree h => [RH3 h]
  | ConfigFree h => [RCfg h]
  | SessionDtor p c => [RConn c; RMem p]
  | _ => []
  end.

Definition needed (o : nop) : list res :=
  match o with
  | SetBindToDevice fd _ | SetTimestamping fd | Connect fd _ | Recvmsg fd | Sendto fd _ _ | ReadFd fd _
  | SetSockOpt fd _ _ | Bind fd _ _ | Recvfrom fd _ | EpollWait fd => [RSock fd]
  | EpollAdd ep fd => [RSock ep; RSock fd]
  | QuicheConnect _ _ _ cfg | ConfigSetLong cfg _ _ | ConfigSetString cfg _ _ | QuicheAccept _ _ cfg
  | ConfigMarkFrozen cfg => [RCfg cfg]
  | ConnRecv c _ _ | ConnSend c _ | ConnOnTimeout c | ConnTimeoutMillis c | ConnIsClosed c
  | ConnIsDraining c | ConnIsEstablished c | ConnClose c _ _ _ | ConnSetSession c _ | NextCryptoStream c
  | ConnReadable c => [RConn c]
  | H3ConnNew c cfg => RConn c :: match cfg with Some g => [RH3Cfg g] | None => [] end
  | RegisterSession p => [RMem p]
  | _ => released o
  end.

Fixpoint all_live (live : gset res) (l : list res) : Prop :=
  match l with [] => True | [r] => r ∈ live | r :: l' => r ∈ live /\ all_live live l' end.
Fixpoint without_all (l : list res) (live : gset res) : gset res :=
  match l with [] => live | r :: l' => without_all l' (live ∖ {[r]}) end.

Lemma without_all_sub l : forall live, without_all l live ⊆ live.
Proof. induction l as [|r l IH]; intros live; simpl; [done|]. rewrite IH. set_solver. Qed.

Lemma all_live_forallb live l : all_live live l <-> forallb (fun r => bool_decide (r ∈ live)) l = true.
Proof.
  induction l as [|r [|r' l] IH]; [done| |].
  - cbn [all_live forallb]. by rewrite andb_true_r, bool_decide_eq_true.
  - change (r ∈ live /\ all_live live (r' :: l) <-> bool_decide (r ∈ live) && forallb (fun r => bool_decide (r ∈ live)) (r' :: l) = true).
    by rewrite andb_true_iff, bool_decide_eq_true, IH.
Qed.

(** The environment gives out fresh handles, and [epoll_create1] fails with [-1]; a call
    must find what it needs. *)
Definition fresh_handle (live : gset res) (e : nevent) : Prop :=
  match e with
  | Ev EpollCreate fd => -1 <= fd /\ (fd = -1 \/ RSock fd ∉ live)
  | _ => match acquired e with Some r => r ∉ live | None => True end
  end.

Definition own_step (live : gset res) (e : nevent) : option (gset res) :=
  let o := ev_op e in
  if forallb (fun r => bool_decide (r ∈ live)) (needed o) then
    let live := without_all (released o) live in
    Some (match acquired e with Some r => {[r]} ∪ live | None => live end)
  else None.

Definition ownership : protocol nans := Protocol (gset res) fresh_handle own_step.

Definition own_after (live : gset res) (e : nevent) : gset res :=
  let live := without_all (released (ev_op e)) live in
  match acquired e with Some r => {[r]} ∪ live | None => live end.

Lemma safe_step {A} o (k : nans o -> net A) live Q :
  all_live live (needed o) ->
  (forall r, fresh_handle live (Ev o r) -> safe ownership (k r) (own_after live (Ev o r)) Q) ->
  safe ownership (Call o k) live Q.
Proof.
  intros Hn Hk r Hr. exists (own_after live (Ev o r)). split; [|by apply Hk].
  cbn [pstep ownership]. unfold own_step, own_after. cbn [ev_op].
  by rewrite (proj1 (all_live_forallb _ _) Hn).
Qed.

(** One call: the program's next operation, its requirement and its answer. *)
Ltac own_call r Hr :=
  cbn [io_bind call]; apply safe_step; [cbv beta iota delta [needed released all_live]|intros r Hr;
    cbv beta iota zeta delta [own_after released without_all acquired ev_op fresh_handle] in Hr |- *].

(** A decision procedure for honest environments, and a world in which every call
    succeeds with a new handle; both for evaluating runs. *)
Definition fresh_handleb (live : gset res) (e : nevent) : bool :=
  match e with
  | Ev EpollCreate fd => (-1 <=? fd) && ((fd =? -1) || bool_decide (RSock fd ∉ live))
  | _ => match acquired e with Some r => bool_decide (r ∉ live) | None => true end
  end.

Lemma fresh_handleb_sound live e : fresh_handleb live e = true -> fresh_handle live e.
Proof.
  unfold fresh_handle, fresh_handleb.
  destruct e as [o r]; destruct o; cbv beta iota; try (destruct (acquired _); [by intros ?%bool_decide_eq_true|done]).
  intros [H1 H2]%andb_true_iff. apply Z.leb_le in H1. split; [done|].
  apply orb_true_iff in H2 as [H2|H2]; [left; by apply Z.eqb_eq|right; by apply bool_decide_eq_true in H2].
Qed.

Fixpoint honestb (live : gset res) (tr : list nevent) : bool :=
  match tr with
  | [] => true
  | e :: tr' => fresh_handleb live e && match own_step live e with Some l => honestb l tr' | None => true end
  end.

Lemma honestb_sound tr : forall live, honestb live tr = true -> honest ownership live tr.
Proof.
  induction tr as [|e tr IH]; intros live; simpl; [done|]. intros [Hf Hh]%andb_true_iff. split.
  - by apply fresh_handleb_sound.
  - intros s' Hs. rewrite Hs in Hh. by apply IH.
Qed.

Definition kind_world (o : nop) (n : Z) : nans o * Z :=
  (match o return nans o with
   | Getaddrinfo _ _ _ => Some (n, [mkAi AF_INET6 "six"; mkAi AF_INET "four"])
   | Socket _ | Ecalloc | Emalloc _ | OpenRead _ => n
   | SetBindToDevice _ _ | SetTimestamping _ | Connect _ _ => 0
   | Recvmsg _ => RecvErr EAGAIN
   | Sendto _ data _ => (Z.of_nat (length data), 0)
   | ClockGettime => mkTs n 0
   | RandBytes k => replicate k Byte.x00
   | InetPton _ a => Some a
   | ReadFd _ _ => None
   | QuicheConnect _ _ _ _ | H3ConfigNew | H3ConnNew _ _ => Some n
   | ConnRecv _ _ _ | ConnTimeoutMillis _ | ConnSetSession _ _ => 0
   | ConnSend _ _ => SendErr 1
   | ConnIsClosed _ | ConnIsDraining _ | FiberActive => false
   | ConnIsEstablished _ => true
   | NextCryptoStream _ => None
   | SetSockOpt _ _ _ | Bind _ _ _ | EpollAdd _ _ => 0
   | EpollCreate => n
   | Recvfrom _ _ => RecvErr EAGAIN
   | EpollWait _ => EpollErr 0
   | ConfigNew | QuicheAccept _ _ _ => Some n
   | HeaderInfo _ => None
   | ConnReadable _ => []
   | RegisterSession p => n
   | CallHandler _ _ => false
   | _ => tt
   end, n + 1).
