(* ===== verification/Sessions.v ===== *)
(** * QUIC sessions: opening, closing, destroying

    The four places that create or destroy a [quicpro_session_t]:
    [extension/src/client/session.c] ([quicpro_client_session_connect], [..._close]),
    [extension/src/connect/connect.c] ([quicpro_connect]),
    [extension/src/server/session.c] (the constructor, [close] and [free_obj] of
    [Quicpro\Session]) and the resource destructor of [extension/src/php_quicpro.c].

    The struct itself is not declared in the sources; the size of its [host] and [ticket]
    arrays is the class [SessionLayout].  A raised exception is the call [Throw]; the value
    returned to PHP is [None] for [FALSE]. *)

From Stdlib Require Import ZArith Lia String Ascii.
From stdpp Require Import base tactics list gmap strings pretty.
From S2P Require Import Prelude Zend Io Net.

Local Open Scope string_scope.
Local Open Scope Z_scope.

Class SessionLayout := {
  host_size : nat;
  ticket_size : nat;
  scid_size : nat;
  host_size_pos : (0 < host_size)%nat;
}.

Record quicpro_session_t := mkSession {
  s_ptr : Z;
  s_sock : Z;
  s_conn : option Z;
  s_h3 : option Z;
  s_h3_cfg : option Z;
  s_cfg : option Z;
  s_host : string;
  s_scid : list byte;
  s_numa_node : Z;
  s_ts_enabled : bool;
  s_is_closed : bool;
  s_ticket : list byte;                       (** the first [ticket_len] bytes *)
  s_last_rx_ts : option timespec;
}.

Definition with_closed (s : quicpro_session_t) : quicpro_session_t :=
  mkSession (s_ptr s) (s_sock s) (s_conn s) (s_h3 s) (s_h3_cfg s) (s_cfg s) (s_host s) (s_scid s)
    (s_numa_node s) (s_ts_enabled s) true (s_ticket s) (s_last_rx_ts s).
Definition with_ts_enabled (s : quicpro_session_t) : quicpro_session_t :=
  mkSession (s_ptr s) (s_sock s) (s_conn s) (s_h3 s) (s_h3_cfg s) (s_cfg s) (s_host s) (s_scid s)
    (s_numa_node s) true (s_is_closed s) (s_ticket s) (s_last_rx_ts s).
Definition with_rx_ts (ts : timespec) (s : quicpro_session_t) : quicpro_session_t :=
  mkSession (s_ptr s) (s_sock s) (s_conn s) (s_h3 s) (s_h3_cfg s) (s_cfg s) (s_host s) (s_scid s)
    (s_numa_node s) (s_ts_enabled s) (s_is_closed s) (s_ticket s) (Some ts).
Definition with_ticket (t : list byte) (s : quicpro_session_t) : quicpro_session_t :=
  mkSession (s_ptr s) (s_sock s) (s_conn s) (s_h3 s) (s_h3_cfg s) (s_cfg s) (s_host s) (s_scid s)
    (s_numa_node s) (s_ts_enabled s) (s_is_closed s) t (s_last_rx_ts s).

Fixpoint str_take (n : nat) (s : string) : string :=
  match n, s with
  | S n', String c s' => String c (str_take n' s')
  | _, _ => EmptyString
  end.

(** [char port_str[6]; snprintf(port_str, sizeof(port_str), "%ld", port)]. *)
Definition port_str (port : Z) : string := str_take 5 (pretty port).

(** [(int)numa_node]. *)
Definition to_int (n : Z) : Z := s32 n.

(* ------------------------------------------------------------------------ *)
(** ** [client/session.c] *)

Module Client.

Definition udp_socket_nonblock (family : Z) : net Z :=
  let* sock := sys (Socket family) in
  if sock <? 0 then let* _ := sys (Throw "Failed to create non-blocking UDP socket") in Ret sock
  else Ret sock.

Definition resolve_host (host port : string) : net (option (Z * list addrinfo)) :=
  let* r := sys (Getaddrinfo host port true) in
  match r with
  | None => let* _ := sys (Throw "DNS resolution failed") in Ret None
  | Some l => Ret (Some l)
  end.

Definition socket_bind_iface (fd : Z) (iface : string) : net Z :=
  let* res := sys (SetBindToDevice fd iface) in
  if res <? 0 then let* _ := sys (Throw "Failed to bind socket to interface") in Ret res
  else Ret res.

(** The loop over the addresses of one family: the connected socket and its address. *)
Fixpoint try_family (family : Z) (iface : option string) (ais : list addrinfo) : net (option (Z * string)) :=
  match ais with
  | [] => Ret None
  | ai :: ais' =>
      if negb (ai_family ai =? family) then try_family family iface ais'
      else
        let* bind_sock := udp_socket_nonblock (ai_family ai) in
        if bind_sock <? 0 then try_family family iface ais'
        else
          let* bound :=
            match iface with
            | Some i => if (0 <? String.length i)%nat
                        then let* r := socket_bind_iface bind_sock (cstr i) in Ret (negb (r <? 0))
                        else Ret true
            | None => Ret true
            end in
          if negb bound then
            let* _ := sys (Close bind_sock) in try_family family iface ais'
          else
            let* c := sys (Connect bind_sock (ai_addr ai)) in
            if c =? 0 then Ret (Some (bind_sock, ai_addr ai))
            else let* _ := sys (Close bind_sock) in try_family family iface ais'
  end.

(** [options_array]: the preferred family and the interface, when they are strings. *)
Definition string_option (key : string) (options : option hashtable) : option string :=
  match options with
  | Some ht => match ht_find (KStr key) ht with Some (ZString s) => Some s | _ => None end
  | None => None
  end.

Definition try_ipv6 (pref : option string) : bool :=
  match pref with None => true | Some f => bool_decide (f = "auto") || bool_decide (f = "ipv6") end.
Definition try_ipv4 (pref : option string) : bool :=
  match pref with None => true | Some f => bool_decide (f = "auto") || bool_decide (f = "ipv4") end.

(** IPv6 first, then IPv4. *)
Definition connect_any (pref iface : option string) (ais : list addrinfo) : net (option (Z * string)) :=
  let* v6 := if try_ipv6 pref then try_family AF_INET6 iface ais else Ret None in
  match v6 with
  | Some r => Ret (Some r)
  | None => if try_ipv4 pref then try_family AF_INET iface ais else Ret None
  end.

Section Layout.
Context `{SessionLayout}.

(** With a connected socket: the connection, then HTTP/3 on top of it. *)
Definition start_quic (s sock : Z) (host peer : string) (scid : list byte) (cfg numa_node : Z)
  : net (option quicpro_session_t) :=
  let* conn := sys (QuicheConnect host scid peer cfg) in
  match conn with
  | None =>
      let* _ := sys (Close sock) in
      let* _ := sys (Efree s) in
      let* _ := sys (Throw "Failed to create new QUIC connection via quiche_connect") in Ret None
  | Some conn =>
      let* h3_cfg := sys H3ConfigNew in
      match h3_cfg with
      | None =>
          let* _ := sys (ConnFree conn) in
          let* _ := sys (Close sock) in
          let* _ := sys (Efree s) in
          let* _ := sys (Throw "Failed to initialize HTTP/3 configuration") in Ret None
      | Some h3_cfg =>
          let* h3 := sys (H3ConnNew conn (Some h3_cfg)) in
          match h3 with
          | None =>
              let* _ := sys (H3ConfigFree h3_cfg) in
              let* _ := sys (ConnFree conn) in
              let* _ := sys (Close sock) in
              let* _ := sys (Efree s) in
              let* _ := sys (Throw "Failed to initialize HTTP/3 connection") in Ret None
          | Some h3 =>
              Ret (Some (mkSession s sock (Some conn) (Some h3) (Some h3_cfg) (Some cfg) host scid
                           (to_int numa_node) false false [] None))
          end
      end
  end.

(** [cfg] is the [quiche_cfg] of the fetched configuration resource, if there is one. *)
Definition quicpro_client_session_connect (host_str : string) (port : Z) (cfg : option Z) (numa_node : Z)
    (options : option hashtable) : net (option quicpro_session_t) :=
  match cfg with
  | None => let* _ := sys (Throw "Invalid or uninitialized Quicpro\\Config resource provided.") in Ret None
  | Some cfg =>
      let* _ := sys (ConfigMarkFrozen cfg) in
      let* s := sys Ecalloc in
      if (host_size <=? String.length host_str)%nat then
        let* _ := sys (Throw "Hostname is too long") in
        let* _ := sys (Efree s) in Ret None
      else
        let host := cstr host_str in
        let* scid := sys (RandBytes scid_size) in
        let* ai_list := resolve_host host (port_str port) in
        match ai_list with
        | None => let* _ := sys (Efree s) in Ret None
        | Some (h, ais) =>
            let* r := connect_any (string_option "preferred_ip_family" options) (string_option "interface" options) ais in
            match r with
            | None =>
                let* _ := sys (Freeaddrinfo h) in
                let* _ := sys (Efree s) in
                let* _ := sys (Throw "Failed to connect UDP socket to host") in Ret None
            | Some (sock, peer) =>
                let* _ := sys (Freeaddrinfo h) in
                start_quic s sock host peer scid cfg numa_node
            end
        end
  end.
End Layout.

(** [quiche_conn_close]; the session is marked closed before it is ticked, and a tick of a
    closed session returns at once ([quicpro_client_session_tick] in [Tick]). *)
Definition usable (s : quicpro_session_t) : option Z :=
  if s_is_closed s then None else s_conn s.

Definition quicpro_client_session_fetch_datagram (s : option quicpro_session_t) (buffer_size : Z)
  : net (option (Z * option (list byte))) :=
  match s ≫= usable with
  | None => Ret None
  | Some conn =>
      if buffer_size <=? 0 then
        let* _ := sys (Throw "Provided buffer_size must be a positive integer.") in Ret None
      else
        let* tmp_buf := sys (Emalloc buffer_size) in
        let* p := sys (ConnSend conn buffer_size) in
        match p with
        | SendErr e =>
            let* _ := sys (Efree tmp_buf) in
            if Z.neg e =? QUICHE_ERR_DONE then Ret (Some (0, None))
            else let* _ := sys (Throw "Failed to fetch outgoing QUIC datagram") in Ret None
        | Packet data _ =>
            let* _ := sys (Efree tmp_buf) in Ret (Some (Z.of_nat (length data), Some data))
        end
  end.

Fixpoint has_colon (s : string) : bool :=
  match s with
  | EmptyString => false
  | String c s' => bool_decide (c = ":"%char) || has_colon s'
  end.

Definition quicpro_client_session_ingest_datagram (s : option quicpro_session_t) (packet_data : list byte)
    (peer_ip_str : string) : net bool :=
  match s ≫= usable with
  | None => Ret false
  | Some conn =>
      let family := if has_colon (cstr peer_ip_str) then AF_INET6 else AF_INET in
      let* addr := sys (InetPton family (cstr peer_ip_str)) in
      match addr with
      | None => let* _ := sys (Throw "Invalid address string") in Ret false
      | Some from =>
          let* quiche_ret := sys (ConnRecv conn packet_data from) in
          if (quiche_ret <? 0) && negb (quiche_ret =? QUICHE_ERR_DONE) then
            let* _ := sys (Throw "Failed to ingest incoming QUIC datagram") in Ret false
          else Ret true
      end
  end.

(** The identifier stored in the reference parameter, as a [zend_long]. *)
Definition quicpro_client_session_next_crypto_stream (s : option quicpro_session_t) : net (option Z) :=
  match s ≫= usable with
  | None => Ret None
  | Some conn =>
      let* sid := sys (NextCryptoStream conn) in
      Ret (match sid with Some sid => Some (s64 sid) | None => None end)
  end.

Definition quicpro_client_session_is_established (s : option quicpro_session_t) : net bool :=
  match s ≫= usable with
  | None => Ret false
  | Some conn => sys (ConnIsEstablished conn)
  end.

Definition quicpro_client_session_enable_kernel_timestamps (s : option quicpro_session_t)
  : net (option quicpro_session_t * bool) :=
  match s with
  | Some s' =>
      if (s_sock s' <? 0) || s_is_closed s' then
        let* _ := sys (Throw "Invalid or closed Quicpro\\Session resource provided for timestamping.") in Ret (s, false)
      else if s_ts_enabled s' then Ret (s, true)
      else
        let* r := sys (SetTimestamping (s_sock s')) in
        if r =? 0 then Ret (Some (with_ts_enabled s'), true)
        else let* _ := sys (Throw "Failed to enable kernel timestamping on socket") in Ret (s, false)
  | None =>
      let* _ := sys (Throw "Invalid or closed Quicpro\\Session resource provided for timestamping.") in Ret (s, false)
  end.
End Client.

(* ------------------------------------------------------------------------ *)
(** ** [connect/connect.c] *)

Module Legacy.

Record connect_opts := mkOpts { o_mode : string; o_delay_ms : Z; o_iface : option string }.

Definition parse_opts (zopts : option hashtable) : connect_opts :=
  match zopts with
  | None => mkOpts "auto" 250 None
  | Some ht =>
      mkOpts (match ht_find (KStr "mode") ht with Some (ZString s) => s | _ => "auto" end)
        (match ht_find (KStr "delay_ms") ht with Some (ZLong n) => if n <? 0 then 0 else n | _ => 250 end)
        (match ht_find (KStr "iface") ht with Some (ZString s) => Some s | _ => None end)
  end.

(** The helpers of this file raise nothing. *)
Definition socket_bind_iface (fd : Z) (iface : string) : net Z := sys (SetBindToDevice fd (cstr iface)).
Definition udp_socket_nonblock (family : Z) : net Z := sys (Socket family).
Definition resolve_host (host port : string) : net (option (Z * list addrinfo)) := sys (Getaddrinfo host port false).

(** The loop over one family. *)
Fixpoint try_family (family : Z) (iface : option string) (ais : list addrinfo) : net (option (Z * string)) :=
  match ais with
  | [] => Ret None
  | ai :: ais' =>
      if negb (ai_family ai =? family) then try_family family iface ais'
      else
        let* fd := udp_socket_nonblock (ai_family ai) in
        if fd <? 0 then try_family family iface ais'
        else
          let* bound :=
            match iface with
            | Some i => if (0 <? String.length i)%nat
                        then let* r := socket_bind_iface fd i in Ret (negb (r <? 0))
                        else Ret true
            | None => Ret true
            end in
          if negb bound then
            let* _ := sys (Close fd) in try_family family iface ais'
          else
            let* c := sys (Connect fd (ai_addr ai)) in
            if c =? 0 then Ret (Some (fd, ai_addr ai))
            else let* _ := sys (Close fd) in try_family family iface ais'
  end.

Definition families (mode : string) : bool * bool :=
  if strncmp_eq mode "ipv6" 4 then (true, false)
  else if strncmp_eq mode "ipv4" 4 then (false, true)
  else (true, true).

Definition connect_any (o : connect_opts) (ais : list addrinfo) : net (option (Z * string)) :=
  let '(try_v6, try_v4) := families (o_mode o) in
  let* v6 := if try_v6 then try_family AF_INET6 (o_iface o) ais else Ret None in
  match v6 with
  | Some r => Ret (Some r)
  | None =>
      let* _ := if try_v6 && try_v4 && (0 <? o_delay_ms o) then sys (Usleep (o_delay_ms o * 1000)) else Ret tt in
      if try_v4 then try_family AF_INET (o_iface o) ais else Ret None
  end.

Section Layout.
Context `{SessionLayout}.

(** The result, or the text left for [quicpro_get_last_error]. *)
Definition quicpro_connect (host : string) (port : Z) (cfg : option Z) (zopts : option hashtable)
  : net (quicpro_session_t + string) :=
  let o := parse_opts zopts in
  match cfg with
  | None => Ret (inr "Invalid config resource")
  | Some cfg =>
      let* ai_list := resolve_host (cstr host) (port_str port) in
      match ai_list with
      | None => Ret (inr "DNS lookup failed")
      | Some (h, ais) =>
          let* r := connect_any o ais in
          match r with
          | None => let* _ := sys (Freeaddrinfo h) in Ret (inr "connect() failed")
          | Some (fd, addr) =>
              let* s := sys Ecalloc in
              let s_host := cstr (str_take (host_size - 1) host) in
              let* scid := sys (RandBytes 16) in
              let* conn := sys (QuicheConnect (cstr host) scid addr cfg) in
              match conn with
              | None =>
                  let* _ := sys (Freeaddrinfo h) in
                  let* _ := sys (Efree s) in
                  let* _ := sys (Close fd) in Ret (inr "quiche_connect failed")
              | Some conn =>
                  let* h3_cfg := sys H3ConfigNew in
                  let* h3 := sys (H3ConnNew conn h3_cfg) in
                  let* _ := sys (Freeaddrinfo h) in
                  Ret (inl (mkSession s fd (Some conn) h3 h3_cfg (Some cfg) s_host [] 0 false false [] None))
              end
          end
      end
  end.
End Layout.
End Legacy.

(* ------------------------------------------------------------------------ *)
(** ** [server/session.c] and the resource destructor *)

Module Object.

(** The first address whose socket connects; the socket is non-blocking UDP. *)
Fixpoint try_addresses (ais : list addrinfo) : net (option (Z * string)) :=
  match ais with
  | [] => Ret None
  | it :: ais' =>
      let* fd := sys (Socket (ai_family it)) in
      if fd <? 0 then try_addresses ais'
      else
        let* c := sys (Connect fd (ai_addr it)) in
        if c =? 0 then Ret (Some (fd, ai_addr it))
        else let* _ := sys (Close fd) in try_addresses ais'
  end.

Section Layout.
Context `{SessionLayout}.

Definition construct (host : string) (port : Z) (cfg : option Z) (numa_node : Z)
  : net (option quicpro_session_t) :=
  let* s := sys Ecalloc in
  let s_host := str_take (host_size - 1) (cstr host) in
  let* scid := sys (RandBytes scid_size) in
  match cfg with
  | None =>
      let* _ := sys (Efree s) in
      let* _ := sys (Throw "Invalid QUIC configuration resource") in Ret None
  | Some cfg =>
      let* ai_list := sys (Getaddrinfo (cstr host) (port_str port) true) in
      match ai_list with
      | None =>
          let* _ := sys (Efree s) in
          let* _ := sys (Throw "DNS resolution failed") in Ret None
      | Some (h, ais) =>
          let* r := try_addresses ais in
          let* _ := sys (Freeaddrinfo h) in
          match r with
          | None =>
              let* _ := sys (Efree s) in
              let* _ := sys (Throw "Unable to connect UDP socket") in Ret None
          | Some (sock, peer) =>
              let* conn := sys (QuicheConnect (cstr host) scid peer cfg) in
              match conn with
              | None =>
                  let* _ := sys (Close sock) in
                  let* _ := sys (Efree s) in
                  let* _ := sys (Throw "quiche_connect() failed") in Ret None
              | Some conn =>
                  let* h3_cfg := sys H3ConfigNew in
                  let* h3 := sys (H3ConnNew conn h3_cfg) in
                  match h3 with
                  | None =>
                      let* _ := sys (ConnFree conn) in
                      let* _ := sys (Close sock) in
                      let* _ := sys (Efree s) in
                      let* _ := sys (Throw "HTTP/3 initialization failed") in Ret None
                  | Some h3 =>
                      Ret (Some (mkSession s sock (Some conn) (Some h3) h3_cfg (Some cfg) s_host scid
                                   (to_int numa_node) false false [] None))
                  end
              end
          end
      end
  end.
End Layout.

(** [Quicpro\Session::close] and [quicpro_close]. *)
Definition close (s : option quicpro_session_t) : net bool :=
  match s ≫= s_conn with
  | None => Ret false
  | Some conn => let* _ := sys (ConnClose conn true 0 "kthxbye") in Ret true
  end.

Definition free_opt (o : Z -> nop) (h : option Z) : net unit :=
  match h with Some h => let* _ := sys (o h) in Ret tt | None => Ret tt end.

(** The object's [sess] afterwards is null. *)
Definition quicpro_session_free_obj (s : option quicpro_session_t) : net unit :=
  match s with
  | None => Ret tt
  | Some s =>
      let* _ := free_opt H3ConnFree (s_h3 s) in
      let* _ := free_opt H3ConfigFree (s_h3_cfg s) in
      let* _ := free_opt ConnFree (s_conn s) in
      let* _ := free_opt ConfigFree (s_cfg s) in
      let* _ := if s_sock s <? 0 then Ret tt else free_opt Close (Some (s_sock s)) in
      free_opt Efree (Some (s_ptr s))
  end.

(** The destructor of the [quicpro] resource. *)
Definition quicpro_session_dtor (s : option quicpro_session_t) : net unit :=
  match s with
  | None => Ret tt
  | Some s =>
      let* _ := free_opt H3ConnFree (s_h3 s) in
      let* _ := free_opt ConnFree (s_conn s) in
      let* _ := free_opt H3ConfigFree (s_h3_cfg s) in
      let* _ := free_opt ConfigFree (s_cfg s) in
      let* _ := if s_sock s <? 0 then Ret tt else free_opt Close (Some (s_sock s)) in
      free_opt Efree (Some (s_ptr s))
  end.
End Object.
