(* ===== verification/SessionProps.v ===== *)
(** * Sessions: ownership

    Opening a session either gives everything back or hands over exactly the resources of
    the session it returns; destroying one releases them, each once.  All statements are
    about every run, with an environment whose only promise is that handles are fresh. *)

From Stdlib Require Import ZArith Lia String Ascii.
From stdpp Require Import base tactics list gmap strings.
From S2P Require Import Prelude Zend Io Net Sessions.

Local Open Scope Z_scope.
Set Warnings "-clear-no-such-hyp".

(** The resources behind a session; its configuration is borrowed. *)
Definition opt_res (r : Z -> res) (h : option Z) : gset res :=
  match h with Some h => {[ r h ]} | None => ∅ end.

#[export] Instance set_unfold_opt_res x r h :
  SetUnfoldElemOf x (opt_res r h) (exists k, h = Some k /\ x = r k).
Proof. constructor. destruct h; simpl; set_solver. Qed.

Definition owned (s : quicpro_session_t) : gset res :=
  {[ RMem (s_ptr s) ]} ∪ {[ RSock (s_sock s) ]} ∪ opt_res RConn (s_conn s) ∪ opt_res RH3 (s_h3 s)
  ∪ opt_res RH3Cfg (s_h3_cfg s).

(** A socket helper gives a connected descriptor and nothing else, or leaves no trace. *)
Definition one_socket (live : gset res) (r : option (Z * string)) (live' : gset res) : Prop :=
  match r with
  | None => live' = live
  | Some (fd, _) => 0 <= fd /\ (RSock fd ∉ live) /\ live' = {[RSock fd]} ∪ live
  end.

Ltac own_set := first [done | set_solver | apply leibniz_equiv; set_solver].

Lemma socket_close_same fd (live : gset res) :
  RSock fd ∉ live -> ({[RSock fd]} ∪ live) ∖ {[RSock fd]} = live.
Proof. intros. apply leibniz_equiv. set_solver. Qed.

(** A failed [socket] leaves the resources alone, a successful one adds its descriptor. *)
Lemma safe_socket {A} family (k : Z -> net A) live Q :
  (forall fd, fd < 0 -> safe ownership (k fd) live Q) ->
  (forall fd, 0 <= fd -> RSock fd ∉ live -> safe ownership (k fd) ({[RSock fd]} ∪ live) Q) ->
  safe ownership (Call (Socket family) k) live Q.
Proof.
  intros Hneg Hpos. own_call fd Hfd; [done|]. destruct (Z.ltb_spec fd 0); [by apply Hneg|by apply Hpos].
Qed.

Lemma object_addresses_safe ais live :
  safe ownership (Object.try_addresses ais) live (one_socket live).
Proof.
  induction ais as [|it ais IH]; simpl; [done|].
  cbn [io_bind call]. apply safe_socket; intros fd Hfd.
  { by rewrite (proj2 (Z.ltb_lt _ _)). }
  intros Hfresh. rewrite (proj2 (Z.ltb_ge _ _)) by done. cbn [io_bind].
  own_call c Hc; [set_solver|]. destruct (c =? 0); [simpl; by split_and!|].
  own_call u Hu; [set_solver|]. by rewrite socket_close_same.
Qed.

Lemma legacy_family_safe family iface ais live :
  safe ownership (Legacy.try_family family iface ais) live (one_socket live).
Proof.
  induction ais as [|ai ais IH]; simpl; [done|].
  destruct (negb (ai_family ai =? family)); [done|].
  cbn [io_bind call]. apply safe_socket; intros fd Hfd.
  { by rewrite (proj2 (Z.ltb_lt _ _)). }
  intros Hfresh. rewrite (proj2 (Z.ltb_ge _ _)) by done.
  apply safe_bind. apply (safe_mono ownership _ _ (fun _ l => l = {[RSock fd]} ∪ live)).
  { destruct iface as [i|]; [|done]. destruct (0 <? String.length i)%nat; [|done].
    own_call r Hr; [set_solver|done]. }
  intros bound ? ->. destruct bound; simpl negb; cbv iota.
  - own_call c Hc; [set_solver|]. destruct (c =? 0); [simpl; by split_and!|].
    own_call u Hu; [set_solver|]. by rewrite socket_close_same.
  - own_call u Hu; [set_solver|]. by rewrite socket_close_same.
Qed.

(** Raising an exception changes no resource. *)
Lemma safe_throw {A} msg (k : unit -> net A) live Q :
  safe ownership (k tt) live Q -> safe ownership (Call (Throw msg) k) live Q.
Proof. intros Hk. own_call u Hu; [done|]. by destruct u. Qed.

Lemma client_family_safe family iface ais live :
  safe ownership (Client.try_family family iface ais) live (one_socket live).
Proof.
  induction ais as [|ai ais IH]; simpl; [done|].
  destruct (negb (ai_family ai =? family)); [done|].
  unfold Client.udp_socket_nonblock. cbn [io_bind call]. apply safe_socket; intros fd Hfd.
  { rewrite (proj2 (Z.ltb_lt _ _)) by done. cbn [io_bind call]. apply safe_throw.
    cbn [io_bind]. by rewrite (proj2 (Z.ltb_lt _ _)). }
  intros Hfresh. rewrite (proj2 (Z.ltb_ge _ _)) by done. cbn [io_bind].
  rewrite (proj2 (Z.ltb_ge _ _)) by done.
  apply safe_bind. apply (safe_mono ownership _ _ (fun _ l => l = {[RSock fd]} ∪ live)).
  { destruct iface as [i|]; [|done]. destruct (0 <? String.length i)%nat; [|done].
    unfold Client.socket_bind_iface. own_call r Hr; [set_solver|].
    destruct (r <? 0); [|done]. cbn [io_bind call]. by apply safe_throw. }
  intros bound ? ->. destruct bound; simpl negb; cbv iota.
  - own_call c Hc; [set_solver|]. destruct (c =? 0); [simpl; by split_and!|].
    own_call u Hu; [set_solver|]. by rewrite socket_close_same.
  - own_call u Hu; [set_solver|]. by rewrite socket_close_same.
Qed.

Lemma client_any_safe pref iface ais live :
  safe ownership (Client.connect_any pref iface ais) live (one_socket live).
Proof.
  unfold Client.connect_any. apply safe_bind. apply (safe_mono ownership _ _ (one_socket live)).
  { destruct (Client.try_ipv6 pref); [apply client_family_safe|done]. }
  intros [[fd a]|] live' Hl; [done|]. simpl in Hl. subst live'.
  destruct (Client.try_ipv4 pref); [apply client_family_safe|done].
Qed.

Lemma legacy_any_safe o ais live :
  safe ownership (Legacy.connect_any o ais) live (one_socket live).
Proof.
  unfold Legacy.connect_any. destruct (Legacy.families (o.(Legacy.o_mode))) as [v6 v4].
  apply safe_bind. apply (safe_mono ownership _ _ (one_socket live)).
  { destruct v6; [apply legacy_family_safe|done]. }
  intros [[fd a]|] live' Hl; [done|]. simpl in Hl. subst live'.
  apply safe_bind. apply (safe_mono ownership _ _ (fun _ l => l = live)).
  { destruct (_ && _ && _); [|done]. own_call u Hu; done. }
  intros _ ? ->. destruct v4; [apply legacy_family_safe|done].
Qed.

(** What a constructor may end with: nothing new, or a complete session. *)
Definition complete (s : quicpro_session_t) : Prop :=
  0 <= s_sock s /\ s_is_closed s = false /\
  is_Some (s_conn s) /\ is_Some (s_h3 s) /\ is_Some (s_h3_cfg s).

Definition opened (live : gset res) (r : option quicpro_session_t) (live' : gset res) : Prop :=
  match r with
  | None => live' = live
  | Some s => complete s /\ owned s ## live /\ live' = owned s ∪ live
  end.

Ltac own_release := let u := fresh "u" in let Hu := fresh "Hu" in
  own_call u Hu; [set_solver|].
Ltac own_throw := cbn [io_bind call]; apply safe_throw.

Section Layout.
Context `{SessionLayout}.

Lemma client_connect_safe host port cfg numa opts live :
  match cfg with Some c => RCfg c ∈ live | None => True end ->
  safe ownership (Client.quicpro_client_session_connect host port cfg numa opts) live (opened live).
Proof.
  intros Hcfg. unfold Client.quicpro_client_session_connect.
  destruct cfg as [cfg|]; [|by own_throw].
  own_call u Hu; [done|]. own_call s Hs; [done|]. destruct (host_size <=? String.length host)%nat.
  { own_throw. own_release. simpl. own_set. }
  own_call scid Hsc; [done|]. unfold Client.resolve_host.
  own_call ai Hai; [done|]. destruct ai as [[h ais]|].
  2:{ own_throw. own_release. simpl. own_set. }
  cbn [io_bind]. apply safe_bind. eapply safe_mono; [apply client_any_safe|].
  intros [[sock peer]|] live' Hl; simpl in Hl.
  2:{ subst live'. own_release. own_release. own_throw. simpl. own_set. }
  destruct Hl as (Hsock & Hfr & ->). own_release.
  own_call conn Hconn; [set_solver|]. destruct conn as [conn|].
  2:{ own_release. own_release. own_throw. simpl. own_set. }
  own_call h3c Hh3c; [done|]. destruct h3c as [h3c|].
  2:{ own_release. own_release. own_release. own_throw. simpl. own_set. }
  own_call h3 Hh3; [set_solver|]. destruct h3 as [h3|].
  2:{ own_release. own_release. own_release. own_release. own_throw. simpl. own_set. }
  simpl. split_and!; [by split_and!|set_solver|own_set].
Qed.

Lemma legacy_connect_safe host port cfg zopts live :
  match cfg with Some c => RCfg c ∈ live | None => True end ->
  safe ownership (Legacy.quicpro_connect host port cfg zopts) live (fun r live' =>
    match r with
    | inr _ => live' = live
    | inl s => s_cfg s = cfg /\ 0 <= s_sock s /\ is_Some (s_conn s) /\ owned s ## live /\ live' = owned s ∪ live
    end).
Proof.
  intros Hcfg. unfold Legacy.quicpro_connect. destruct cfg as [cfg|]; [|done].
  own_call ai Hai; [done|]. destruct ai as [[h ais]|]; [|done].
  apply safe_bind. eapply safe_mono; [apply legacy_any_safe|].
  intros [[fd peer]|] live' Hl; simpl in Hl.
  2:{ subst live'. own_release. simpl. own_set. }
  destruct Hl as (Hsock & Hfr & ->). own_call s Hs; [done|]. own_call scid Hsc; [done|].
  own_call conn Hconn; [set_solver|]. destruct conn as [conn|].
  2:{ own_release. own_release. own_release. simpl. own_set. }
  own_call h3c Hh3c; [done|]. own_call h3 Hh3; [destruct h3c; set_solver|].
  own_call u Hu; [destruct h3c, h3; set_solver|].
  destruct h3c as [h3c|], h3 as [h3|]; simpl; (split_and!; [done|done|by eexists|set_solver|own_set]).
Qed.

(** The constructor of [Quicpro\Session] forgets the HTTP/3 configuration when the HTTP/3
    connection cannot be made; nothing else is ever lost. *)
Definition opened_or_leaked (live : gset res) (r : option quicpro_session_t) (live' : gset res) : Prop :=
  match r with
  | None => live' = live \/ exists h, (RH3Cfg h ∉ live) /\ live' = {[RH3Cfg h]} ∪ live
  | Some s => 0 <= s_sock s /\ is_Some (s_conn s) /\ is_Some (s_h3 s) /\ owned s ## live /\ live' = owned s ∪ live
  end.

Lemma construct_safe host port cfg numa live :
  match cfg with Some c => RCfg c ∈ live | None => True end ->
  safe ownership (Object.construct host port cfg numa) live (opened_or_leaked live).
Proof.
  intros Hcfg. unfold Object.construct. own_call s Hs; [done|]. own_call scid Hsc; [done|].
  destruct cfg as [cfg|].
  2:{ own_release. own_throw. left. own_set. }
  own_call ai Hai; [done|]. destruct ai as [[h ais]|].
  2:{ own_release. own_throw. left. own_set. }
  apply safe_bind. eapply safe_mono; [apply object_addresses_safe|].
  intros [[fd peer]|] live' Hl; simpl in Hl.
  2:{ subst live'. own_release. own_release. own_throw. left. own_set. }
  destruct Hl as (Hsock & Hfr & ->). own_release.
  own_call conn Hconn; [set_solver|]. destruct conn as [conn|].
  2:{ own_release. own_release. own_throw. left. own_set. }
  own_call h3c Hh3c; [done|]. own_call h3 Hh3; [destruct h3c; set_solver|].
  destruct h3 as [h3|].
  - destruct h3c as [h3c|]; simpl; (split_and!; [done|by eexists|by eexists|set_solver|own_set]).
  - destruct h3c as [h3c|]; own_release; own_release; own_release; own_throw.
    + right. exists h3c. split; [set_solver|own_set].
    + left. own_set.
Qed.
End Layout.

(** Everything a session holds, its configuration included. *)
Definition held (s : quicpro_session_t) : gset res := owned s ∪ opt_res RCfg (s_cfg s).

Lemma safe_free_opt o (r : Z -> res) h live Q : (forall h, released (o h) = [r h]) ->
  (forall h, needed (o h) = [r h]) -> (forall h u, @acquired (Ev (o h) u) = None) ->
  opt_res r h ⊆ live -> Q tt (live ∖ opt_res r h) -> safe ownership (Object.free_opt o h) live Q.
Proof.
  intros Hrel Hneed Hacq Hin HQ.
  destruct h as [h|]; cbn [opt_res Object.free_opt io_bind call] in *; [|by rewrite difference_empty_L in HQ].
  apply safe_step; [rewrite Hneed; set_solver|]. intros u _. unfold own_after. cbn [ev_op].
  by rewrite Hacq, Hrel.
Qed.

Ltac own_free r := apply safe_bind; apply (safe_free_opt _ r);
  [done|done|done|set_solver|cbv beta].

Lemma free_obj_safe s live : 0 <= s_sock s -> held s ⊆ live ->
  safe ownership (Object.quicpro_session_free_obj (Some s)) live (fun _ live' => live' = live ∖ held s).
Proof.
  unfold held, owned. intros Hs Hin. cbn [Object.quicpro_session_free_obj Object.quicpro_session_dtor].
  own_free RH3. own_free RH3Cfg. own_free RConn. own_free RCfg.
  rewrite (proj2 (Z.ltb_ge _ _)) by done. own_free RSock.
  apply (safe_free_opt _ RMem); [done|done|done|set_solver|own_set].
Qed.

Lemma dtor_safe s live : 0 <= s_sock s -> held s ⊆ live ->
  safe ownership (Object.quicpro_session_dtor (Some s)) live (fun _ live' => live' = live ∖ held s).
Proof.
  unfold held, owned. intros Hs Hin. cbn [Object.quicpro_session_free_obj Object.quicpro_session_dtor].
  own_free RH3. own_free RConn. own_free RH3Cfg. own_free RCfg.
  rewrite (proj2 (Z.ltb_ge _ _)) by done. own_free RSock.
  apply (safe_free_opt _ RMem); [done|done|done|set_solver|own_set].
Qed.

(* ------------------------------------------------------------------------ *)
(** ** A configuration shared by two sessions *)

Lemma own_step_cfg live e live' c : ev_op e <> ConfigNew -> own_step live e = Some live' ->
  RCfg c ∈ live' -> RCfg c ∈ live /\ ev_op e <> ConfigFree c.
Proof.
  intros Hnew. unfold own_step. destruct (forallb _ _) eqn:En; [|done].
  intros [= <-] Hc. assert (Hacq : match acquired e with Some r => r <> RCfg c | None => True end).
  { destruct e as [[] r]; simpl in *; repeat case_match; simplify_eq; done. }
  assert (Hc' : RCfg c ∈ without_all (released (ev_op e)) live)
    by (destruct (acquired e); set_solver).
  split; [by apply without_all_sub in Hc'|]. intros He. rewrite He in Hc'. simpl in Hc'. set_solver.
Qed.

Abbreviation makes_none := (Forall (fun e : nevent => ev_op e <> ConfigNew)).

Lemma psteps_cfg tr : makes_none tr -> forall live live' c, psteps ownership live tr = Some live' ->
  RCfg c ∈ live' -> RCfg c ∈ live /\ Forall (fun e => ev_op e <> ConfigFree c) tr.
Proof.
  induction 1 as [|e tr Hnew _ IH]; intros live live' c; simpl; [by intros [= <-] ?|].
  destruct (own_step live e) as [l|] eqn:Es; [|done]. intros Hs Hc.
  destruct (IH _ _ _ Hs Hc) as [Hl Hf]. destruct (own_step_cfg _ _ _ _ Hnew Es Hl). by split; [|constructor].
Qed.

Lemma psteps_no_cfg tr : makes_none tr -> forall live c, RCfg c ∉ live ->
  Exists (fun e => ev_op e = ConfigFree c) tr -> psteps ownership live tr = None.
Proof.
  induction 1 as [|e tr Hnew _ IH]; intros live c Hc Hex; simpl; [by inversion Hex|].
  destruct (own_step live e) as [l|] eqn:Es; [|done]. apply (IH l c).
  - intros Hl. by destruct (own_step_cfg _ _ _ _ Hnew Es Hl).
  - inversion Hex as [? ? He|]; subst; [|done]. exfalso. revert Es. unfold own_step. rewrite He. simpl.
    by rewrite bool_decide_eq_false_2.
Qed.

Lemma psteps_app (P : protocol nans) tr1 : forall s tr2,
  psteps P s (tr1 ++ tr2) = psteps P s tr1 ≫= fun s' => psteps P s' tr2.
Proof. induction tr1 as [|e tr1 IH]; intros s tr2; simpl; [done|]. by destruct (pstep P s e). Qed.

Lemma held_subset s c (live : gset res) : s_cfg s = Some c -> RCfg c ∈ live -> held s ⊆ owned s ∪ live.
Proof. unfold held. intros -> Hc. cbn [opt_res]. set_solver. Qed.

Lemma held_difference s c (live : gset res) : s_cfg s = Some c -> owned s ## live ->
  (owned s ∪ live) ∖ held s = live ∖ {[RCfg c]}.
Proof.
  unfold held. intros -> Hd. cbn [opt_res]. apply leibniz_equiv. intros x. specialize (Hd x).
  rewrite !elem_of_difference, !elem_of_union, elem_of_singleton. tauto.
Qed.

(** Destroying a session frees its configuration. *)
Lemma dtor_frees_cfg s c tr u : s_cfg s = Some c ->
  runs (Object.quicpro_session_dtor (Some s)) tr u -> Exists (fun e => ev_op e = ConfigFree c) tr.
Proof.
  intros Hc. cbn [Object.quicpro_session_dtor].
  rewrite runs_bind. intros (t1 & ? & ? & -> & _ & Hr). apply Exists_app. right. revert Hr.
  rewrite runs_bind. intros (t2 & ? & ? & -> & _ & Hr). apply Exists_app. right. revert Hr.
  rewrite runs_bind. intros (t3 & ? & ? & -> & _ & Hr). apply Exists_app. right. revert Hr.
  rewrite runs_bind. intros (t4 & ? & ? & -> & Hf & _). apply Exists_app. left. revert Hf.
  rewrite Hc. intros (r & tr' & -> & _). by left.
Qed.

Lemma dtor_makes_none s tr u : runs (Object.quicpro_session_dtor (Some s)) tr u -> makes_none tr.
Proof.
  revert tr u. change (calls_only (fun o => o <> ConfigNew) (Object.quicpro_session_dtor (Some s))).
  cbn [Object.quicpro_session_dtor]. unfold Object.free_opt.
  repeat first [calls_only_step ltac:(discriminate)|case_match].
Qed.

(* ------------------------------------------------------------------------ *)
(** ** The properties *)

(** C3: Opening a client session never leaks and never releases twice: in every run, a
    failure gives back all that was acquired (addresses, sockets, connection, HTTP/3
    state, memory), and a success leaves exactly the resources of the returned session,
    which is complete and open. *)
Theorem client_connect_ownership `{SessionLayout} host port cfg numa opts live tr r :
  match cfg with Some c => RCfg c ∈ live | None => True end ->
  runs (Client.quicpro_client_session_connect host port cfg numa opts) tr r ->
  honest ownership live tr ->
  exists live', psteps ownership live tr = Some live' /\ opened live r live'.
Proof. intros Hc Hr Hh. eapply safe_runs; [by apply client_connect_safe|done|done]. Qed.

(** The constructor of [Quicpro\Session] releases everything on failure except,
    when HTTP/3 cannot be started, the HTTP/3 configuration it has just made. *)
Theorem construct_ownership `{SessionLayout} host port cfg numa live tr r :
  match cfg with Some c => RCfg c ∈ live | None => True end ->
  runs (Object.construct host port cfg numa) tr r -> honest ownership live tr ->
  exists live', psteps ownership live tr = Some live' /\ opened_or_leaked live r live'.
Proof. intros Hc Hr Hh. eapply safe_runs; [by apply construct_safe|done|done]. Qed.

(** C31: A session opened by [quicpro_connect] and destroyed by the resource destructor
    leaves nothing behind, and takes the configuration, which it only borrowed, with it. *)
Theorem connect_destroy_ownership `{SessionLayout} host port cfg zopts live tr1 s tr2 u :
  RCfg cfg ∈ live -> runs (Legacy.quicpro_connect host port (Some cfg) zopts) tr1 (inl s) ->
  runs (Object.quicpro_session_dtor (Some s)) tr2 u -> honest ownership live (tr1 ++ tr2) ->
  psteps ownership live (tr1 ++ tr2) = Some (live ∖ {[RCfg cfg]}).
Proof.
  intros Hc Hr1 Hr2 Hh.
  set (p := let* r := Legacy.quicpro_connect host port (Some cfg) zopts in
    match r with inl s' => let* _ := Object.quicpro_session_dtor (Some s') in Ret true | inr _ => Ret false end).
  assert (Hsafe : safe ownership p live (fun r l => r = true -> l = live ∖ {[RCfg cfg]})).
  { apply safe_bind. eapply safe_mono; [by apply legacy_connect_safe|]. intros [s'|e] l Hl; [|done].
    destruct Hl as (He & Hsk & _ & Hd & ->). apply safe_bind.
    eapply safe_mono; [apply dtor_safe; [done|by apply (held_subset s' cfg)]|].
    intros ? ? -> _. by apply held_difference. }
  destruct (safe_runs ownership p live _ (tr1 ++ tr2) true Hsafe) as (l & Hl & HQ); [|done|].
  - apply runs_bind. exists tr1, tr2, (inl s). split_and!; [done|done|]. apply runs_bind.
    exists tr2, [], u. rewrite app_nil_r. by split_and!.
  - by rewrite Hl, HQ.
Qed.

(** Two sessions made from one configuration cannot both be destroyed: the second
    destructor frees the configuration again. *)
Theorem shared_config_freed_twice s1 s2 c live tr1 tr2 u1 u2 :
  s_cfg s1 = Some c -> s_cfg s2 = Some c ->
  runs (Object.quicpro_session_dtor (Some s1)) tr1 u1 ->
  runs (Object.quicpro_session_dtor (Some s2)) tr2 u2 ->
  psteps ownership live (tr1 ++ tr2) = None.
Proof.
  intros H1 H2 Hr1 Hr2. pose proof (dtor_makes_none _ _ _ Hr1) as Hn1. pose proof (dtor_makes_none _ _ _ Hr2) as Hn2.
  apply (dtor_frees_cfg _ c) in Hr1, Hr2; [|done|done].
  rewrite psteps_app. destruct (psteps ownership live tr1) as [l|] eqn:E; [|done]. simpl.
  apply (psteps_no_cfg _ Hn2 _ c); [|done]. intros Hc. destruct (psteps_cfg _ Hn1 _ _ _ E Hc) as [_ Hf].
  apply Exists_exists in Hr1 as (e & He & Heq). rewrite Forall_forall in Hf. by apply (Hf e).
Qed.

(* ------------------------------------------------------------------------ *)
(** ** Witnesses *)

Module SessionDemo.
#[export] Instance layout : SessionLayout.
Proof. refine {| host_size := 256; ticket_size := 512; scid_size := 16 |}. lia. Defined.

(** As [kind_world], but HTTP/3 cannot be started. *)
Definition no_h3_world (o : nop) (n : Z) : nans o * Z :=
  match o return nans o * Z with
  | H3ConnNew _ _ => (None, n)
  | o => kind_world o n
  end.

Definition live0 : gset res := {[RCfg 1]}.
Definition client_run := exec kind_world (Client.quicpro_client_session_connect "h" 443 (Some 1) 0 None) 10.
Definition failing_run := exec no_h3_world (Object.construct "h" 443 (Some 1) 0) 10.
Definition legacy_run := exec kind_world (Legacy.quicpro_connect "h" 443 (Some 1) None) 10.
Definition legacy_session : quicpro_session_t :=
  mkSession 13 11 (Some 15) (Some 17) (Some 16) (Some 1) "h" [] 0 false false [] None.
Definition dtor_run := exec kind_world (Object.quicpro_session_dtor (Some legacy_session)) 0.
End SessionDemo.
Import SessionDemo.

Lemma client_connect_ownership_witness : exists live' s,
  psteps ownership live0 client_run.1.2 = Some live' /\ client_run.1.1 = Some s /\ live' = owned s ∪ live0.
Proof.
  destruct (client_connect_ownership "h" 443 (Some 1) 0 None live0 client_run.1.2 client_run.1.1)
    as (live' & Hl & Ho).
  - set_solver.
  - apply exec_runs.
  - apply honestb_sound. vm_compute. reflexivity.
  - destruct (client_run.1.1) as [s|] eqn:Es; [|vm_compute in Es; discriminate].
    exists live', s. split; [done|]. split; [done|]. apply Ho.
Defined.

Lemma construct_ownership_witness : exists live' h,
  psteps ownership live0 failing_run.1.2 = Some live' /\ live' = {[RH3Cfg h]} ∪ live0.
Proof.
  destruct (construct_ownership "h" 443 (Some 1) 0 live0 failing_run.1.2 failing_run.1.1)
    as (live' & Hl & Ho).
  - set_solver.
  - apply exec_runs.
  - apply honestb_sound. vm_compute. reflexivity.
  - exists live', 17. split; [done|]. clear Ho. vm_compute in Hl. injection Hl as <-. vm_compute. reflexivity.
Defined.

Lemma connect_destroy_ownership_witness :
  psteps ownership live0 (legacy_run.1.2 ++ dtor_run.1.2) = Some (live0 ∖ {[RCfg 1]}).
Proof.
  apply (connect_destroy_ownership "h" 443 1 None live0 legacy_run.1.2 legacy_session dtor_run.1.2 tt).
  - set_solver.
  - exact (exec_runs kind_world (Legacy.quicpro_connect "h" 443 (Some 1) None) 10).
  - exact (exec_runs kind_world (Object.quicpro_session_dtor (Some legacy_session)) 0).
  - apply honestb_sound. vm_compute. reflexivity.
Defined.

Lemma shared_config_freed_twice_witness :
  psteps ownership (held legacy_session) (dtor_run.1.2 ++ dtor_run.1.2) = None.
Proof.
  apply (shared_config_freed_twice legacy_session legacy_session 1 _ _ _ tt tt);
    [done|done|exact (exec_runs kind_world (Object.quicpro_session_dtor (Some legacy_session)) 0)
    |exact (exec_runs kind_world (Object.quicpro_session_dtor (Some legacy_session)) 0)].
Defined.
