(* ===== verification/Polling.v ===== *)
(** * Driving a session: the client's tick and [quicpro_poll]

    [quicpro_client_session_tick] and [..._close] of [extension/src/client/session.c], and
    [extension/src/poll/poll.c].  The loops run on fuel: one unit per datagram, packet or
    pass; running out is [NoFuel].

    [poll.c] defines [quiche_conn_get_tls_ticket] and [quiche_conn_is_inactive] as macros
    unless they are macros already; in quiche they are functions, so its own definitions
    ([0], and [quiche_conn_is_draining]) are the ones used.  The AF_XDP path is not built by
    default and not modelled; the busy-poll file is read when [napi] is set. *)

From Stdlib Require Import ZArith Lia String Ascii.
From stdpp Require Import base tactics list strings.
From S2P Require Import Prelude Zend Io Net Sessions.

Local Open Scope string_scope.
Local Open Scope Z_scope.

Definition would_block (errno : Z) : bool := (errno =? EAGAIN) || (errno =? EWOULDBLOCK).

(* ------------------------------------------------------------------------ *)
(** ** The tick *)

Module Tick.
Section Tick.
Variable QUICPRO_MAX_PACKET_SIZE : Z.

(** Datagrams from the socket to quiche, until none is there; [false] after an error. *)
Fixpoint read_packets (fuel : nat) (s : quicpro_session_t) (conn : Z)
  : net (outcome unit (quicpro_session_t * bool)) :=
  match fuel with
  | O => Ret NoFuel
  | S fuel' =>
      let* r := sys (Recvmsg (s_sock s)) in
      match r with
      | RecvErr errno =>
          if would_block errno then Ret (Done (s, true))
          else let* _ := sys (Throw "Failed to read UDP packet from socket") in Ret (Done (s, false))
      | Recv [] _ _ => Ret (Done (s, true))
      | Recv data from ts =>
          let* quiche_ret := sys (ConnRecv conn data from) in
          let* _ := if (quiche_ret <? 0) && negb (quiche_ret =? QUICHE_ERR_DONE)
                    then sys (Perror "quiche_conn_recv") else Ret tt in
          read_packets fuel'
            (match ts with Some t => if s_ts_enabled s then with_rx_ts t s else s | None => s end) conn
      end
  end.

(** Packets from quiche to the socket, until there is none or the socket is full. *)
Fixpoint write_packets (fuel : nat) (sock conn : Z) : net (outcome unit bool) :=
  match fuel with
  | O => Ret NoFuel
  | S fuel' =>
      let* p := sys (ConnSend conn QUICPRO_MAX_PACKET_SIZE) in
      match p with
      | SendErr e =>
          if Z.neg e =? QUICHE_ERR_DONE then Ret (Done true)
          else let* _ := sys (Throw "Failed to generate outgoing QUIC packet") in Ret (Done false)
      | Packet data to =>
          let* '(written_len, errno) := sys (Sendto sock data to) in
          if written_len <? 0 then
            if would_block errno then Ret (Done true)
            else let* _ := sys (Throw "Failed to send UDP packet") in Ret (Done false)
          else if negb (written_len =? Z.of_nat (length data)) then
            let* _ := sys (Throw "Partial UDP packet send") in Ret (Done false)
          else write_packets fuel' sock conn
      end
  end.

(** The session afterwards and the value returned to PHP.  ([advance_us] is not used.) *)
Definition quicpro_client_session_tick (fuel : nat) (s : option quicpro_session_t)
  : net (outcome unit (option quicpro_session_t * bool)) :=
  match s, s ≫= Client.usable with
  | Some s0, Some conn =>
      let*! '(s1, ok) := read_packets fuel s0 conn in
      if negb ok then Ret (Done (Some s1, false))
      else
        let* _ := sys (ConnOnTimeout conn) in
        let*! ok := write_packets fuel (s_sock s1) conn in
        if negb ok then Ret (Done (Some s1, false))
        else
          let* closed := sys (ConnIsClosed conn) in
          let* gone := if closed : bool then Ret true else sys (ConnIsDraining conn) in
          if gone then Ret (Done (Some (with_closed s1), false)) else Ret (Done (Some s1, true))
  | _, _ => Ret (Done (s, false))
  end.

Definition quicpro_client_session_close (fuel : nat) (s : option quicpro_session_t) (application_close : bool)
    (error_code : Z) (reason : option string) : net (outcome unit (option quicpro_session_t * bool)) :=
  match s, s ≫= Client.usable with
  | Some s0, Some conn =>
      let* _ := sys (ConnClose conn application_close (u64 error_code)
                       (match reason with Some r => r | None => "" end)) in
      let*! '(s1, _) := quicpro_client_session_tick fuel (Some (with_closed s0)) in
      Ret (Done (s1, true))
  | _, _ => Ret (Done (s, false))
  end.
End Tick.
End Tick.

(* ------------------------------------------------------------------------ *)
(** ** [quicpro_poll] *)

Module Poll.

(** [atoi]: a [long] that saturates, then cut to an [int]. *)
Definition atoi (s : string) : Z :=
  let saturate z := Z.max (- 2 ^ 63) (Z.min z (2 ^ 63 - 1)) in
  match skip_spaces s with
  | String "-" s' => s32 (saturate (- leading_digits 0 s'))
  | String "+" s' => s32 (saturate (leading_digits 0 s'))
  | s' => s32 (saturate (leading_digits 0 s'))
  end.

(** The budget and the new value of the static cache, [-1] at first. *)
Definition quicpro_busy_budget_us (napi : bool) (cached : Z) : net (Z * Z) :=
  if negb napi then Ret (0, cached)
  else if 0 <=? cached then Ret (cached, cached)
  else
    let* fd := sys (OpenRead "/sys/kernel/net/napi_busy_poll") in
    if fd <? 0 then Ret (0, 0)
    else
      let* buf := sys (ReadFd fd 31) in
      let* _ := sys (Close fd) in
      match buf with
      | None => Ret (0, 0)
      | Some buf => let val := atoi (cstr (string_of_list_byte buf)) in Ret (val, val)
      end.

Definition quicpro_yield_if_needed (budget_us : Z) : net unit :=
  if budget_us <=? 0 then
    let* active := sys FiberActive in
    if active : bool then sys FiberSuspend else Ret tt
  else Ret tt.

(** At most one datagram per pass. *)
Definition receive (s : quicpro_session_t) (conn : Z) : net quicpro_session_t :=
  let* r := sys (Recvmsg (s_sock s)) in
  match r with
  | RecvErr errno =>
      let* _ := if would_block errno then Ret tt else sys (Perror "recvmsg") in Ret s
  | Recv [] _ _ => Ret s
  | Recv data from ts =>
      let* _ := sys (ConnRecv conn data from) in
      Ret (match ts with Some t => with_rx_ts t s | None => s end)
  end.

Fixpoint transmit (fuel : nat) (sock conn : Z) : net (outcome unit unit) :=
  match fuel with
  | O => Ret NoFuel
  | S fuel' =>
      let* p := sys (ConnSend conn 1350) in
      match p with
      | SendErr _ | Packet [] _ => Ret (Done tt)
      | Packet data to =>
          let* '(sent, _) := sys (Sendto sock data to) in
          if sent <? 0 then let* _ := sys (Perror "sendto") in Ret (Done tt)
          else transmit fuel' sock conn
      end
  end.

(** Microseconds in an [int]; C's division rounds towards zero. *)
Definition elapsed_us (start now : timespec) : Z :=
  s32 ((tv_sec now - tv_sec start) * 1000000 + Z.quot (tv_nsec now - tv_nsec start) 1000).

Fixpoint busy_poll (fuel : nat) (s : quicpro_session_t) (conn : Z) (start : timespec) (budget_us : Z)
  : net (outcome unit quicpro_session_t) :=
  match fuel with
  | O => Ret NoFuel
  | S fuel' =>
      let* s := receive s conn in
      let*! _ := transmit fuel (s_sock s) conn in
      let* inactive := sys (ConnIsDraining conn) in
      if inactive : bool then Ret (Done s)
      else
        let* t := sys (ConnTimeoutMillis conn) in
        let* _ := if t =? 0 then sys (ConnOnTimeout conn) else Ret tt in
        let* now := sys ClockGettime in
        let elapsed := elapsed_us start now in
        if budget_us <=? elapsed then
          let* _ := quicpro_yield_if_needed (s32 (elapsed - budget_us)) in Ret (Done s)
        else busy_poll fuel' s conn start budget_us
  end.

Definition enable_timestamping (s : quicpro_session_t) : net quicpro_session_t :=
  if s_ts_enabled s then Ret s
  else
    let* r := sys (SetTimestamping (s_sock s)) in
    Ret (if r =? 0 then with_ts_enabled s else s).

(** The session, the cache and the value returned to PHP. *)
Definition quicpro_poll (fuel : nat) (napi : bool) (cached : Z) (s : option quicpro_session_t) (timeout_ms : Z)
  : net (outcome unit (option quicpro_session_t * Z * bool)) :=
  match s with
  | None => Ret (Done (None, cached, false))
  | Some s =>
      match s_conn s with
      | None => Ret Undefined
      | Some conn =>
          let* _ := sys (ConnTimeoutMillis conn) in
          let* s := enable_timestamping s in
          let* '(budget_us, cached) := quicpro_busy_budget_us napi cached in
          let* start := sys ClockGettime in
          let*! s := busy_poll fuel s conn start budget_us in
          Ret (Done (Some (with_ticket [] s), cached, true))
      end
  end.
End Poll.
