(* ===== verification/PollingProps.v ===== *)
(** * Driving a session: what goes through

    Exactly what a tick and a poll do: which datagrams they take from the socket and hand to
    quiche, which packets they take from quiche and write, where they stop and what they
    return; the loops run only as long as the environment feeds them; and two things that
    do not happen: the close frame of a client is not sent, and a fiber over its budget is
    not suspended. *)

From Stdlib Require Import ZArith Lia String Ascii.
From stdpp Require Import base tactics sets list strings.
From S2P Require Import Prelude Zend Io Net Sessions Polling.

Local Open Scope Z_scope.
Set Warnings "-clear-no-such-hyp,-missing-scheme".

(* ------------------------------------------------------------------------ *)
(** ** Reading a trace *)

Definition datagram : Type := list byte * string.

(** What the socket answered; what quiche was given; which connections were told that
    their time is up; what quiche answered when asked for a packet; what was written to
    the socket, with the number of bytes taken or the error. *)
Definition recv_answers (tr : list nevent) : list recvd :=
  omap (fun e : nevent => match e with Ev (Recvmsg _) a => Some a | _ => None end) tr.
Definition fed (tr : list nevent) : list datagram :=
  omap (fun e : nevent => match e with Ev (ConnRecv _ d from) _ => Some (d, from) | _ => None end) tr.
Definition expired (tr : list nevent) : list Z :=
  omap (fun e : nevent => match e with Ev (ConnOnTimeout c) _ => Some c | _ => None end) tr.
Definition made (tr : list nevent) : list packet :=
  omap (fun e : nevent => match e with Ev (ConnSend _ _) p => Some p | _ => None end) tr.
Definition writes (tr : list nevent) : list (datagram * (Z + Z)) :=
  omap (fun e : nevent => match e with
                 | Ev (Sendto _ d to) (w, errno) => Some ((d, to), if w <? 0 then inr errno else inl w)
                 | _ => None
                 end) tr.

Definition movement : Type :=
  list recvd * list datagram * list Z * list packet * list (datagram * (Z + Z)).
Definition moved (tr : list nevent) : movement :=
  (recv_answers tr, fed tr, expired tr, made tr, writes tr).
Definition still : movement := ([], [], [], [], []).

Lemma moved_app tr1 tr2 a b c d e a' b' c' d' e' :
  moved tr1 = (a, b, c, d, e) -> moved tr2 = (a', b', c', d', e') ->
  moved (tr1 ++ tr2) = (a ++ a', b ++ b', c ++ c', d ++ d', e ++ e').
Proof.
  unfold moved, recv_answers, fed, expired, made, writes. rewrite !omap_app. by intros [= <- <- <- <- <-] [= <- <- <- <- <-].
Qed.

Lemma still_app tr1 tr2 m : moved tr1 = still -> moved tr2 = m -> moved (tr1 ++ tr2) = m.
Proof. intros H1 <-. by rewrite (moved_app _ _ _ _ _ _ _ _ _ _ _ _ H1 eq_refl). Qed.
Lemma app_still tr1 tr2 m : moved tr1 = m -> moved tr2 = still -> moved (tr1 ++ tr2) = m.
Proof. intros <- H2. rewrite (moved_app _ _ _ _ _ _ _ _ _ _ _ _ eq_refl H2). by rewrite !app_nil_r. Qed.

(** A call that moves nothing. *)
Definition silent (o : nop) : bool :=
  match o with
  | Recvmsg _ | ConnRecv _ _ _ | ConnOnTimeout _ | ConnSend _ _ | Sendto _ _ _ => false
  | _ => true
  end.

Lemma moved_silent tr : Forall (fun e => silent (ev_op e) = true) tr -> moved tr = still.
Proof.
  induction 1 as [|[o x] tr Ho _ IH]; [done|]. change (moved ([Ev o x] ++ tr) = still). apply still_app; [|done].
  by destruct o.
Qed.

Lemma moved_calls {A} (p : net A) tr a : calls_only (fun o => silent o = true) p -> runs p tr a -> moved tr = still.
Proof. intros Hp Hr. apply moved_silent. by apply (Hp tr a). Qed.

(** [run_call H] takes the next call off a run. *)
Ltac run_call H r := simpl in H; destruct H as (r & ? & -> & H).
Ltac run_ret H := simpl in H; destruct H as [-> H]; simplify_eq.
Ltac silent_step := calls_only_step ltac:(reflexivity).

(** The calls of a run on one socket and one connection only. *)
Definition touches (sock conn : Z) (o : nop) : Prop :=
  match o with
  | Recvmsg fd | Sendto fd _ _ => fd = sock
  | ConnRecv c _ _ | ConnOnTimeout c | ConnSend c _ | ConnIsClosed c | ConnIsDraining c
  | ConnTimeoutMillis c => c = conn
  | _ => True
  end.

(* ------------------------------------------------------------------------ *)
(** ** Datagrams in, packets out *)

(** A datagram as the socket hands it over, with the time stamp of the kernel; an answer
    without one; an error other than "nothing there". *)
Definition arrival : Type := datagram * option timespec.
Definition gram (x : arrival) : recvd := Recv x.1.1 x.1.2 x.2.
Definition no_datagram (a : recvd) : bool := match a with RecvErr _ | Recv [] _ _ => true | _ => false end.
Definition hard_error (a : recvd) : bool := match a with RecvErr e => negb (would_block e) | _ => false end.
Definition nonempty (x : arrival) : Prop := x.1.1 <> [].

(** The session after the stamps of these datagrams. *)
Definition stamp (s : quicpro_session_t) (x : arrival) : quicpro_session_t :=
  match x.2 with Some t => if s_ts_enabled s then with_rx_ts t s else s | None => s end.

Lemma read_exact fuel : forall s conn tr r, runs (Tick.read_packets fuel s conn) tr r ->
  r = NoFuel \/
  exists ds stop, Forall nonempty ds /\ no_datagram stop = true /\
    moved tr = (map gram ds ++ [stop], map fst ds, [], [], []) /\
    r = Done (foldl stamp s ds, negb (hard_error stop)).
Proof.
  induction fuel as [|fuel IH]; intros s conn tr r Hr; [by left; destruct Hr as [_ ->]|].
  cbn [Tick.read_packets] in Hr. run_call Hr q. destruct q as [e|[|b d] f t].
  - right. exists [], (RecvErr e). split_and!; [done|done|..].
    + destruct (would_block e); [by run_ret Hr|]. run_call Hr u. by run_ret Hr.
    + cbn. destruct (would_block e); [by run_ret Hr|]. run_call Hr u. by run_ret Hr.
  - right. exists [], (Recv [] f t). by run_ret Hr.
  - run_call Hr q. apply runs_bind in Hr as (t1 & t2 & u & -> & H1 & Hr).
    destruct (IH _ _ _ _ Hr) as [->|(ds & stop & Hn & Hs & Hm & ->)]; [by left|right].
    exists ((b :: d, f, t) :: ds), stop. split_and!; [by constructor|done| |done].
    apply (moved_app [_; _] _ [_] [_] [] [] []); [done|]. apply still_app; [|done].
    destruct (_ && _); [destruct H1 as (? & ? & -> & -> & _)|destruct H1 as [-> _]]; done.
Qed.

(** Packets go out until there is none ([inl]: what quiche said) or one was not taken
    ([inr]: what the socket said). *)
Definition flushed (taken refused : datagram -> Z + Z -> Prop) (none : packet -> Prop)
    (ms : list packet) (ws : list (datagram * (Z + Z))) (stop : packet + (Z + Z)) : Prop :=
  exists ws0, Forall (fun w => taken w.1 w.2) ws0 /\
  match stop with
  | inl p => none p /\ ms = map (uncurry Packet) (map fst ws0) ++ [p] /\ ws = ws0
  | inr x => exists p, refused p x /\ ms = map (uncurry Packet) (map fst ws0) ++ [uncurry Packet p] /\ ws = ws0 ++ [(p, x)]
  end.

Lemma flushed_cons taken refused none ms ws stop p x :
  taken p x -> flushed taken refused none ms ws stop ->
  flushed taken refused none (uncurry Packet p :: ms) ((p, x) :: ws) stop.
Proof.
  intros Hx (ws0 & Hw & H). exists ((p, x) :: ws0). split; [by constructor|]. destruct stop.
  - destruct H as (? & -> & ->). done.
  - destruct H as (p' & ? & -> & ->). by exists p'.
Qed.

(** The tick takes a packet as sent when all its bytes are. *)
Definition whole (p : datagram) (x : Z + Z) : Prop := x = inl (Z.of_nat (length p.1)).
Definition not_whole (p : datagram) (x : Z + Z) : Prop := x <> inl (Z.of_nat (length p.1)).
Definition is_err (p : packet) : Prop := exists e, p = SendErr e.
Definition tick_sent (stop : packet + (Z + Z)) : bool :=
  match stop with
  | inl (SendErr e) => Z.neg e =? QUICHE_ERR_DONE
  | inr (inr errno) => would_block errno
  | _ => false
  end.

Lemma write_exact size fuel : forall sock conn tr r, runs (Tick.write_packets size fuel sock conn) tr r ->
  r = NoFuel \/
  exists ms ws stop, flushed whole not_whole is_err ms ws stop /\ moved tr = ([], [], [], ms, ws) /\ r = Done (tick_sent stop).
Proof.
  induction fuel as [|fuel IH]; intros sock conn tr r Hr; [by left; destruct Hr as [_ ->]|].
  cbn [Tick.write_packets] in Hr. run_call Hr q. destruct q as [e|d to].
  { right. exists [SendErr e], [], (inl (SendErr e)). split_and!; [by exists []; split_and!; [|eexists|..]|..].
    all: destruct e; first [by run_ret Hr|run_call Hr u; by run_ret Hr]. }
  run_call Hr q. destruct q as [w errno]. set (res := if w <? 0 then inr errno else inl w : Z + Z).
  assert (Hrefused : not_whole (d, to) res -> moved x0 = still -> r = Done (tick_sent (inr res)) ->
    r = NoFuel \/ exists ms ws stop, flushed whole not_whole is_err ms ws stop /\
      moved (Ev (ConnSend conn size) (Packet d to) :: Ev (Sendto sock d to) (w, errno) :: x0) = ([], [], [], ms, ws) /\
      r = Done (tick_sent stop)).
  { intros Hw Hm ->. right. exists [Packet d to], [((d, to), res)], (inr res). split_and!; [|..|done].
    - exists []. split; [done|]. by exists (d, to).
    - by apply (app_still [_; _]). }
  unfold res in Hrefused |- *. destruct (Z.ltb_spec w 0) as [Hneg|Hpos].
  - apply Hrefused; [done|..]; cbn [tick_sent]; destruct (would_block errno); try (by run_ret Hr);
      run_call Hr u; by run_ret Hr.
  - destruct (Z.eqb_spec w (Z.of_nat (length d))) as [->|Hne].
    + destruct (IH _ _ _ _ Hr) as [->|(ms & ws & stop & Hf & Hm & ->)]; [by left|right].
      exists (Packet d to :: ms), (((d, to), inl (Z.of_nat (length d))) :: ws), stop. split_and!; [|..|done].
      * by apply (flushed_cons _ _ _ _ _ _ (d, to)).
      * apply (moved_app [_; _] _ [] [] [] [_] [_]); [|done]. unfold moved, writes. simpl. by rewrite (proj2 (Z.ltb_ge _ _)) by lia.
    + apply Hrefused; [by intros [= ?]|..]; run_call Hr u; by run_ret Hr.
Qed.
(** What a pass of [quicpro_poll] makes of the one answer of its [recvmsg]. *)
Definition taken_in (a : recvd) : list datagram :=
  match a with Recv (b :: d) from _ => [(b :: d, from)] | _ => [] end.
Definition stamped_by (a : recvd) (s : quicpro_session_t) : quicpro_session_t :=
  match a with Recv (_ :: _) _ (Some t) => with_rx_ts t s | _ => s end.

Lemma receive_exact s conn tr s' : runs (Poll.receive s conn) tr s' ->
  exists a, moved tr = ([a], taken_in a, [], [], []) /\ s' = stamped_by a s.
Proof.
  intros Hr. unfold Poll.receive in Hr. run_call Hr q. exists q. destruct q as [e|[|b d] f t].
  - destruct (would_block e); [by run_ret Hr|]. run_call Hr u. by run_ret Hr.
  - by run_ret Hr.
  - run_call Hr u. run_ret Hr. by destruct t.
Qed.

(** Here a packet counts as sent when the socket took any of it. *)
Definition accepted (p : datagram) (x : Z + Z) : Prop := p.1 <> [] /\ exists n, x = inl n.
Definition rejected (p : datagram) (x : Z + Z) : Prop := p.1 <> [] /\ exists errno, x = inr errno.
Definition no_packet (p : packet) : Prop := is_err p \/ exists to, p = Packet [] to.

Lemma transmit_exact fuel : forall sock conn tr r, runs (Poll.transmit fuel sock conn) tr r ->
  r = NoFuel \/
  exists ms ws stop, flushed accepted rejected no_packet ms ws stop /\ moved tr = ([], [], [], ms, ws) /\ r = Done tt.
Proof.
  induction fuel as [|fuel IH]; intros sock conn tr r Hr; [by left; destruct Hr as [_ ->]|].
  cbn [Poll.transmit] in Hr. run_call Hr q.
  assert (Hstop : no_packet q -> x = [] -> r = Done tt -> r = NoFuel \/ exists ms ws stop,
    flushed accepted rejected no_packet ms ws stop /\ moved (Ev (ConnSend conn 1350) q :: x) = ([], [], [], ms, ws) /\ r = Done tt).
  { intros Hq -> ->. right. exists [q], [], (inl q). split_and!; [by exists []|done|done]. }
  destruct q as [e|[|b d] to].
  { run_ret Hr. apply Hstop; [by left; eexists|done|done]. }
  { run_ret Hr. apply Hstop; [by right; eexists|done|done]. }
  clear Hstop. run_call Hr q. destruct q as [w errno]. destruct (w <? 0) eqn:Hw.
  - run_call Hr u. run_ret Hr. right.
    exists [Packet (b :: d) to], [((b :: d, to), inr errno)], (inr (inr errno)). split_and!; [..|done].
    + exists []. split; [done|]. exists (b :: d, to). split_and!; [|done|done]. by split; [|eexists].
    + unfold moved, writes. simpl. by rewrite Hw.
  - destruct (IH _ _ _ _ Hr) as [->|(ms & ws & stop & Hf & Hm & ->)]; [by left|right].
    exists (Packet (b :: d) to :: ms), (((b :: d, to), inl w) :: ws), stop. split_and!; [..|done].
    + apply (flushed_cons _ _ _ _ _ _ (b :: d, to)); [by split; [|eexists]|done].
    + apply (moved_app [_; _] _ [] [] [] [_] [_]); [|done]. unfold moved, writes. simpl. by rewrite Hw.
Qed.

(** The calls that end a pass; [true] when another one follows. *)
Definition is_fiber (e : nevent) : Prop := match ev_op e with FiberActive | FiberSuspend => True | _ => False end.
Definition pass_end (conn : Z) (start : timespec) (budget : Z) (tr : list nevent) (more : bool) : Prop :=
  (tr = [Ev (ConnIsDraining conn) true] /\ more = false) \/
  exists t now ty, tr = Ev (ConnIsDraining conn) false :: Ev (ConnTimeoutMillis conn) t ::
      (if t =? 0 then [Ev (ConnOnTimeout conn) tt] else []) ++ Ev ClockGettime now :: ty /\
    more = (Poll.elapsed_us start now <? budget) /\ Forall is_fiber ty /\ (more = true -> ty = []).

(** One datagram in, all packets out, the timer. *)
Definition pass (conn : Z) (start : timespec) (budget : Z) (s : quicpro_session_t) (tr : list nevent)
    (s' : quicpro_session_t) (more : bool) : Prop :=
  exists tin tout tend a ms ws stop, tr = tin ++ tout ++ tend /\
    moved tin = ([a], taken_in a, [], [], []) /\ s' = stamped_by a s /\
    moved tout = ([], [], [], ms, ws) /\ flushed accepted rejected no_packet ms ws stop /\
    pass_end conn start budget tend more.

Inductive rounds (conn : Z) (start : timespec) (budget : Z) : quicpro_session_t -> list nevent -> quicpro_session_t -> Prop :=
| rounds_last s tr s' : pass conn start budget s tr s' false -> rounds conn start budget s tr s'
| rounds_more s tr s1 tr' s' : pass conn start budget s tr s1 true -> rounds conn start budget s1 tr' s' ->
    rounds conn start budget s (tr ++ tr') s'.

Lemma busy_poll_exact fuel : forall s conn start budget tr r, runs (Poll.busy_poll fuel s conn start budget) tr r ->
  r = NoFuel \/ exists s', r = Done s' /\ rounds conn start budget s tr s'.
Proof.
  induction fuel as [|fuel IH]; intros s conn start budget tr r Hr; [by left; destruct Hr as [_ ->]|].
  cbn [Poll.busy_poll] in Hr. apply runs_bind in Hr as (t1 & t2 & s1 & -> & (a & Ha & ->)%receive_exact & Hr).
  apply runs_bind in Hr as (t3 & t4 & o & -> & H2 & Hr).
  destruct (transmit_exact _ _ _ _ _ H2) as [->|(ms & ws & stop & Hf & Hm & ->)]; [by left; destruct Hr as [_ ->]|].
  assert (Hpass : forall tend more, pass_end conn start budget tend more ->
    pass conn start budget s (t1 ++ t3 ++ tend) (stamped_by a s) more).
  { intros tend more He. exists t1, t3, tend, a, ms, ws, stop. by split_and!. }
  run_call Hr d. destruct d.
  { run_ret Hr. right. eexists. split; [done|]. apply rounds_last, Hpass. by left. }
  run_call Hr t. apply runs_bind in Hr as (t5 & t6 & u5 & -> & H5 & Hr).
  assert (t5 = if t =? 0 then [Ev (ConnOnTimeout conn) tt] else []) as ->.
  { destruct (t =? 0); [destruct H5 as ([] & ? & -> & -> & _)|destruct H5 as [-> _]]; done. }
  run_call Hr now. destruct (Z.leb_spec budget (Poll.elapsed_us start now)) as [Hle|Hgt].
  - apply runs_bind in Hr as (t7 & t8 & u7 & -> & H7 & Hr). run_ret Hr. right. eexists. split; [done|].
    apply rounds_last, Hpass. right. exists t, now, t7. rewrite app_nil_r.
    split_and!; [done|by symmetry; apply Z.ltb_ge| |done].
    eapply (fun H => H t7 u7 H7 : Forall _ _). unfold Poll.quicpro_yield_if_needed.
    change (calls_only (fun o => match o with FiberActive | FiberSuspend => True | _ => False end)
      (Poll.quicpro_yield_if_needed (s32 (Poll.elapsed_us start now - budget)))).
    unfold Poll.quicpro_yield_if_needed. repeat first [calls_only_step ltac:(exact I)|case_match].
  - destruct (IH _ _ _ _ _ _ Hr) as [->|(s' & -> & Hs)]; [by left|right]. exists s'. split; [done|].
    set (tend := (Ev (ConnIsDraining conn) false :: Ev (ConnTimeoutMillis conn) t ::
      (if t =? 0 then [Ev (ConnOnTimeout conn) tt] else []) ++ [Ev ClockGettime now]) : list nevent).
    assert (pass_end conn start budget tend true) as He%Hpass.
    { right. exists t, now, []. split_and!; [done|by symmetry; apply Z.ltb_lt|done|done]. }
    pose proof (rounds_more _ _ _ _ _ _ _ _ He Hs) as Hall. unfold tend in Hall.
    rewrite <-!app_assoc in Hall. cbn [app] in Hall. by rewrite <-app_assoc in Hall.
Qed.

(* ------------------------------------------------------------------------ *)
(** ** Fuel: a loop goes round only when the environment makes it *)

(** A program that cannot run out of fuel in fewer than [n] calls. *)
Definition lasting {E A} (n : nat) (p : net (outcome E A)) : Prop :=
  forall tr r, runs p tr r -> (length tr < n)%nat -> r <> NoFuel.

Lemma lasting_ret {E A} n (r : outcome E A) : r <> NoFuel -> lasting n (Ret r : net (outcome E A)).
Proof. by intros Hr tr r' [-> ->]. Qed.
Lemma lasting_call {E A} n o (k : nans o -> net (outcome E A)) :
  (forall r, lasting (n - 1) (k r)) -> lasting n (Call o k).
Proof. intros Hk tr r (q & tr' & -> & Hr) Hl. simpl in Hl. eapply Hk; [done|lia]. Qed.
Lemma lasting_mono {E A} n m (p : net (outcome E A)) : (m <= n)%nat -> lasting n p -> lasting m p.
Proof. intros Hle Hp tr r Hr Hl. eapply Hp; [done|lia]. Qed.
Lemma lasting_obind {E A B} n (p : net (outcome E A)) (f : A -> net (outcome E B)) :
  lasting n p -> (forall a, lasting n (f a)) -> lasting n (io_obind p f).
Proof.
  intros Hp Hf tr r (t1 & t2 & a & -> & H1 & H2)%runs_bind Hl. rewrite length_app in Hl.
  destruct a as [a|e| |].
  - eapply Hf; [done|lia].
  - by destruct H2 as [_ ->].
  - by destruct H2 as [_ ->].
  - exfalso. by eapply (Hp _ _ H1); [lia|].
Qed.
Lemma lasting_bind {E A B} n (p : net A) (f : A -> net (outcome E B)) :
  (forall a, lasting n (f a)) -> lasting n (io_bind p f).
Proof.
  intros Hf tr r (t1 & t2 & a & -> & H1 & H2)%runs_bind Hl. rewrite length_app in Hl. eapply Hf; [done|lia].
Qed.
Lemma lasting_0 {E A} (p : net (outcome E A)) : lasting 0 p.
Proof. intros tr r _ Hl. lia. Qed.

Ltac lasting_step :=
  first [ apply lasting_ret; discriminate | apply lasting_obind; [|intros ?] | apply lasting_bind; intros ? | apply lasting_call; intros ? ].

Lemma read_lasting fuel : forall s conn, lasting fuel (Tick.read_packets fuel s conn).
Proof.
  induction fuel as [|fuel IH]; intros s conn; [apply lasting_0|]. cbn [Tick.read_packets io_bind call].
  apply lasting_call. intros [e|[|b d] f t].
  - destruct (would_block e); repeat lasting_step.
  - lasting_step.
  - repeat lasting_step. eapply lasting_mono; [|apply IH]. lia.
Qed.

Lemma write_lasting size fuel : forall sock conn, lasting fuel (Tick.write_packets size fuel sock conn).
Proof.
  induction fuel as [|fuel IH]; intros sock conn; [apply lasting_0|]. cbn [Tick.write_packets io_bind call].
  apply lasting_call. intros [e|d to]; [destruct (_ =? _); repeat lasting_step|].
  apply lasting_call. intros [w errno]. destruct (w <? 0); [destruct (would_block errno); repeat lasting_step|].
  destruct (negb _); [repeat lasting_step|]. eapply lasting_mono; [|apply IH]. lia.
Qed.

Lemma transmit_lasting fuel : forall sock conn, lasting fuel (Poll.transmit fuel sock conn).
Proof.
  induction fuel as [|fuel IH]; intros sock conn; [apply lasting_0|]. cbn [Poll.transmit io_bind call].
  apply lasting_call. intros [e|[|b d] to]; [lasting_step|lasting_step|].
  apply lasting_call. intros [w errno]. destruct (w <? 0); [repeat lasting_step|].
  eapply lasting_mono; [|apply IH]. lia.
Qed.

Lemma busy_poll_lasting fuel : forall s conn start budget, lasting fuel (Poll.busy_poll fuel s conn start budget).
Proof.
  induction fuel as [|fuel IH]; intros s conn start budget; [apply lasting_0|]. cbn [Poll.busy_poll].
  unfold Poll.receive. cbn [io_bind call]. apply lasting_call. intros r. lasting_step.
  lasting_step; [eapply lasting_mono; [|apply (transmit_lasting (S fuel))]; lia|].
  repeat first [eapply lasting_mono; [|apply IH]; lia|lasting_step|case_match].
Qed.

Lemma tick_lasting size fuel s : lasting fuel (Tick.quicpro_client_session_tick size fuel s).
Proof.
  unfold Tick.quicpro_client_session_tick.
  destruct s as [s|]; [|lasting_step]. destruct (Some s ≫= Client.usable) as [conn|]; [|lasting_step].
  lasting_step; [apply read_lasting|]. destruct a as [s1 []]; simpl negb; cbv iota; [|lasting_step].
  apply lasting_bind. intros _. lasting_step; [apply write_lasting|].
  repeat first [lasting_step|case_match].
Qed.

Lemma poll_lasting fuel napi cached s timeout : lasting fuel (Poll.quicpro_poll fuel napi cached s timeout).
Proof.
  unfold Poll.quicpro_poll. destruct s as [s|]; [|lasting_step]. destruct (s_conn s) as [conn|]; [|lasting_step].
  apply lasting_bind. intros _. apply lasting_bind. intros s1. apply lasting_bind. intros [budget c].
  apply lasting_bind. intros start. lasting_step; [apply busy_poll_lasting|lasting_step].
Qed.

(* ------------------------------------------------------------------------ *)
(** ** Whole calls *)

(** What the connection says after the packets are out. *)
Definition asked_closed (conn : Z) (ask : list nevent) (gone : bool) : Prop :=
  (ask = [Ev (ConnIsClosed conn) true] /\ gone = true) \/
  ask = [Ev (ConnIsClosed conn) false; Ev (ConnIsDraining conn) gone].

Lemma tick_exact size fuel s0 conn tr r : Some s0 ≫= Client.usable = Some conn ->
  runs (Tick.quicpro_client_session_tick size fuel (Some s0)) tr r ->
  r = NoFuel \/
  exists tin tout ds stop, tr = tin ++ tout /\ Forall nonempty ds /\ no_datagram stop = true /\
    moved tin = (map gram ds ++ [stop], map fst ds, [], [], []) /\
    if hard_error stop then tout = [] /\ r = Done (Some (foldl stamp s0 ds), false)
    else exists tw ask ms ws stop', tout = Ev (ConnOnTimeout conn) tt :: tw ++ ask /\
      moved tw = ([], [], [], ms, ws) /\ flushed whole not_whole is_err ms ws stop' /\
      if tick_sent stop' then
        exists gone, asked_closed conn ask gone /\
          r = Done (Some (if gone then with_closed (foldl stamp s0 ds) else foldl stamp s0 ds), negb gone)
      else ask = [] /\ r = Done (Some (foldl stamp s0 ds), false).
Proof.
  intros Hu Hr. unfold Tick.quicpro_client_session_tick in Hr. rewrite Hu in Hr.
  apply runs_bind in Hr as (tin & tout & o & -> & H1 & Hr).
  destruct (read_exact _ _ _ _ _ H1) as [->|(ds & stop & Hn & Hs & Hm & ->)]; [by left; destruct Hr as [_ ->]|].
  cbv beta iota in Hr. rewrite negb_involutive in Hr.
  destruct (hard_error stop) eqn:Hh.
  { right. exists tin, tout, ds, stop. rewrite Hh. run_ret Hr. done. }
  destruct Hr as ([] & t2 & -> & Hr). cbn [io_bind] in Hr.
  apply runs_bind in Hr as (tw & ask & o & -> & H2 & Hr).
  destruct (write_exact _ _ _ _ _ _ H2) as [->|(ms & ws & stop' & Hf & Hw & ->)]; [by left; destruct Hr as [_ ->]|].
  right. exists tin, (Ev (ConnOnTimeout conn) tt :: tw ++ ask), ds, stop. rewrite Hh. split_and!; try done.
  exists tw, ask, ms, ws, stop'. split_and!; try done. cbv beta iota in Hr.
  destruct (tick_sent stop'); [|by run_ret Hr]. run_call Hr c. destruct c.
  - run_ret Hr. exists true. split; [by left|done].
  - run_call Hr d. exists d. destruct d; run_ret Hr; (split; [by right|done]).
Qed.

Lemma read_touches fuel : forall s conn, calls_only (touches (s_sock s) conn) (Tick.read_packets fuel s conn).
Proof.
  induction fuel as [|fuel IH]; intros s conn; cbn [Tick.read_packets]; [silent_step|].
  apply calls_only_call; [done|]. intros [e|[|b d] f t]; cbn [io_bind].
  - destruct (would_block e); repeat silent_step.
  - silent_step.
  - apply calls_only_call; [done|]. intros q. cbn [io_bind]. apply calls_only_bind.
    + destruct (_ && _); [apply calls_only_call; [done|intros; apply calls_only_ret]|apply calls_only_ret].
    + intros _. set (s' := match t with Some _ => _ | None => _ end).
      replace (s_sock s) with (s_sock s'); [apply IH|]. unfold s'. destruct t; [|done]. by destruct (s_ts_enabled s).
Qed.

Lemma write_touches size sock conn fuel : calls_only (touches sock conn) (Tick.write_packets size fuel sock conn).
Proof.
  induction fuel as [|fuel IH]; cbn [Tick.write_packets]; [silent_step|].
  apply calls_only_call; [done|]. intros [e|d to]; cbn [io_bind].
  - destruct (_ =? _); repeat calls_only_step ltac:(done).
  - apply calls_only_call; [done|]. intros [w errno]. cbn [io_bind].
    repeat first [apply IH|calls_only_step ltac:(done)|case_match].
Qed.

Lemma transmit_touches sock conn fuel : calls_only (touches sock conn) (Poll.transmit fuel sock conn).
Proof.
  induction fuel as [|fuel IH]; cbn [Poll.transmit]; [silent_step|].
  apply calls_only_call; [done|]. intros [e|[|b d] to]; cbn [io_bind]; [silent_step|silent_step|].
  apply calls_only_call; [done|]. intros [w errno]. cbn [io_bind].
  repeat first [apply IH|calls_only_step ltac:(done)|case_match].
Qed.

Lemma stamps_sock ds : forall s, s_sock (foldl stamp s ds) = s_sock s.
Proof.
  induction ds as [|x ds IH]; intros s; [done|]. simpl. rewrite IH. unfold stamp. by repeat case_match.
Qed.

Lemma tick_touches size fuel s0 conn tr r : Some s0 ≫= Client.usable = Some conn ->
  runs (Tick.quicpro_client_session_tick size fuel (Some s0)) tr r ->
  Forall (fun e => touches (s_sock s0) conn (ev_op e)) tr.
Proof.
  intros Hu Hr. unfold Tick.quicpro_client_session_tick in Hr. rewrite Hu in Hr.
  apply runs_bind in Hr as (tin & tout & o & -> & H1 & Hr). apply Forall_app. split; [by eapply read_touches|].
  destruct (read_exact _ _ _ _ _ H1) as [->|(ds & stop & _ & _ & _ & ->)]; [by destruct Hr as [-> _]|].
  revert tout r Hr. cbv beta iota. rewrite stamps_sock.
  match goal with |- forall _ _, runs ?p _ _ -> _ => change (calls_only (touches (s_sock s0) conn) p) end.
  destruct (hard_error stop); cbn [negb]; cbv iota; [apply calls_only_ret|].
  repeat first [apply write_touches|calls_only_step ltac:(done)|case_match].
Qed.

Lemma stamped_by_sock a s : s_sock (stamped_by a s) = s_sock s.
Proof. destruct a as [|[|b d] f [t|]]; done. Qed.

Lemma receive_touches s conn : calls_only (touches (s_sock s) conn) (Poll.receive s conn).
Proof. unfold Poll.receive. repeat first [calls_only_step ltac:(done)|case_match]. Qed.

Lemma busy_poll_touches fuel : forall s conn start budget,
  calls_only (touches (s_sock s) conn) (Poll.busy_poll fuel s conn start budget).
Proof.
  induction fuel as [|fuel IH]; intros s conn start budget; cbn [Poll.busy_poll]; [silent_step|].
  intros tr r (t1 & t2 & s1 & -> & H1 & Hr)%runs_bind. apply Forall_app. split; [by eapply receive_touches|].
  destruct (receive_exact _ _ _ _ H1) as (a & _ & ->). revert t2 r Hr.
  match goal with |- forall _ _, runs ?p _ _ -> _ => change (calls_only (touches (s_sock s) conn) p) end.
  rewrite stamped_by_sock. unfold Poll.quicpro_yield_if_needed.
  repeat first [apply transmit_touches|rewrite <-(stamped_by_sock a s); apply IH|calls_only_step ltac:(done)|case_match].
Qed.

Lemma poll_exact fuel napi cached s0 conn timeout tr r : s_conn s0 = Some conn ->
  runs (Poll.quicpro_poll fuel napi cached (Some s0) timeout) tr r ->
  Forall (fun e => touches (s_sock s0) conn (ev_op e)) tr /\
  (r = NoFuel \/
   exists pre start body s1 s2 budget cached', tr = pre ++ Ev ClockGettime start :: body /\
     moved pre = still /\ (s1 = s0 \/ s1 = with_ts_enabled s0) /\
     budget = (if napi then cached' else 0) /\
     rounds conn start budget s1 body s2 /\ r = Done (Some (with_ticket [] s2), cached', true)).
Proof.
  intros Hc Hr. unfold Poll.quicpro_poll in Hr. rewrite Hc in Hr. destruct Hr as (t & tr' & -> & Hr).
  cbn [io_bind] in Hr. apply runs_bind in Hr as (t1 & t2 & s1 & -> & H1 & Hr).
  assert (Hs1 : (s1 = s0 \/ s1 = with_ts_enabled s0) /\ Forall (fun e => silent (ev_op e) = true /\ touches (s_sock s0) conn (ev_op e)) t1).
  { unfold Poll.enable_timestamping in H1. destruct (s_ts_enabled s0); [run_ret H1; by split; [left|]|].
    run_call H1 q. run_ret H1. split; [destruct (q =? 0); [by right|by left]|by repeat constructor]. }
  destruct Hs1 as [Hs1 Ht1]. assert (Hsock : s_sock s1 = s_sock s0) by by destruct Hs1 as [->| ->].
  apply runs_bind in Hr as (t3 & t4 & [budget c] & -> & H3 & Hr).
  assert (H3' : budget = (if napi then c else 0) /\ Forall (fun e => silent (ev_op e) = true /\ touches (s_sock s0) conn (ev_op e)) t3).
  { unfold Poll.quicpro_busy_budget_us in H3. destruct napi; [|by run_ret H3].
    cbn [negb] in H3. destruct (0 <=? cached); [by run_ret H3|]. run_call H3 fd.
    destruct (fd <? 0); [run_ret H3; by repeat constructor|]. run_call H3 buf. run_call H3 u.
    destruct buf; run_ret H3; by repeat constructor. }
  destruct H3' as [Hb Ht3]. destruct Hr as (start & body0 & -> & Hr). cbn [io_bind] in Hr.
  apply runs_bind in Hr as (body & t6 & o & -> & H4 & Hr).
  assert (t6 = []) as -> by (destruct o; by destruct Hr as [-> _]). rewrite app_nil_r. split.
  - constructor; [done|]. rewrite !Forall_app, Forall_cons. split_and!; [| |done|].
    1, 2: eapply Forall_impl; [eassumption|]; by intros e [_ ?].
    rewrite <-Hsock. by eapply busy_poll_touches.
  - destruct (busy_poll_exact _ _ _ _ _ _ _ H4) as [->|(s2 & -> & Hrd)]; [by left; destruct Hr as [_ ->]|right].
    exists (Ev (ConnTimeoutMillis conn) t :: t1 ++ t3), start, body, s1, s2, budget, c.
    split_and!; [by rewrite <-app_comm_cons, <-app_assoc| |done|done|done|by destruct Hr as [_ ->]].
    apply moved_silent. constructor; [done|]. apply Forall_app.
    split; (eapply Forall_impl; [eassumption|]; by intros e [? _]).
Qed.

(* ------------------------------------------------------------------------ *)
(** ** The budget *)

Definition suspends (e : nevent) : Prop := ev_op e = FiberSuspend.
Definition receives (e : nevent) : bool := match ev_op e with Recvmsg _ => true | _ => false end.

(** Programs that make no call of a kind. *)
Definition without {A} (bad : nop -> bool) (p : net A) : Prop := calls_only (fun o => bad o = false) p.

Ltac without_step := calls_only_step ltac:(reflexivity).

Definition is_suspend (o : nop) : bool := match o with FiberSuspend => true | _ => false end.
Definition is_receive (o : nop) : bool := match o with Recvmsg _ => true | _ => false end.

Lemma transmit_without bad fuel sock conn :
  bad (ConnSend conn 1350) = false -> (forall d to, bad (Sendto sock d to) = false) -> bad (Perror "sendto") = false ->
  without bad (Poll.transmit fuel sock conn).
Proof.
  intros H1 H2 H3. induction fuel as [|fuel IH]; cbn [Poll.transmit]; [without_step|].
  apply calls_only_call; [done|]. intros [e|[|b d] to]; [without_step|without_step|].
  cbn [io_bind]. apply calls_only_call; [apply H2|]. intros [w errno]. cbn [io_bind].
  destruct (w <? 0); [|apply IH]. apply calls_only_call; [done|]. intros. without_step.
Qed.

Lemma receive_no_suspend s conn : without is_suspend (Poll.receive s conn).
Proof.
  unfold Poll.receive. apply calls_only_call; [done|]. intros [e|[|b d] f t]; cbn [io_bind].
  - destruct (would_block e); repeat without_step.
  - without_step.
  - repeat without_step.
Qed.

Lemma Forall_no_Exists {A} (P Q : A -> Prop) l : Forall P l -> (forall x, P x -> ~ Q x) -> ~ Exists Q l.
Proof. intros Hf HPQ [x [Hx Hq]]%Exists_exists. rewrite Forall_forall in Hf. by apply (HPQ x); [apply Hf|]. Qed.

Lemma no_suspend tr : Forall (fun e => is_suspend (ev_op e) = false) tr -> ~ Exists suspends tr.
Proof.
  intros Hf. apply (Forall_no_Exists _ _ _ Hf). unfold suspends. intros e He Hs. by rewrite Hs in He.
Qed.

(** The end of a pass: the calls after the packets are sent. *)
Lemma suspend_inv fuel : forall s conn start budget tr r, 0 <= budget < 2 ^ 31 ->
  runs (Poll.busy_poll fuel s conn start budget) tr r -> Exists suspends tr ->
  exists now, Ev ClockGettime now ∈ tr /\ Poll.elapsed_us start now = budget.
Proof.
  induction fuel as [|fuel IH]; intros s conn start budget tr r Hb Hr Hx.
  { destruct Hr as [-> _]. inversion Hx. }
  cbn [Poll.busy_poll] in Hr.
  apply runs_bind in Hr as (t1 & t2 & s1 & -> & H1 & Hr). apply Exists_app in Hx as [Hx|Hx].
  { exfalso. by eapply no_suspend; [eapply receive_no_suspend|]. }
  apply runs_bind in Hr as (t3 & t4 & o & -> & H2 & Hr). apply Exists_app in Hx as [Hx|Hx].
  { exfalso. eapply no_suspend; [|done]. eapply (transmit_without is_suspend); [done|done|done|exact H2]. }
  destruct o as [u|e| |]; [|destruct Hr as [-> _]; inversion Hx..].
  run_call Hr d. apply Exists_cons in Hx as [Hx|Hx]; [discriminate Hx|].
  destruct d; [destruct Hr as [-> _]; inversion Hx|]. run_call Hr t.
  apply Exists_cons in Hx as [Hx|Hx]; [discriminate Hx|].
  apply runs_bind in Hr as (t5 & t6 & u5 & -> & H5 & Hr). apply Exists_app in Hx as [Hx|Hx].
  { exfalso. destruct (t =? 0); [|destruct H5 as [-> _]; inversion Hx].
    destruct H5 as (? & ? & -> & -> & _). apply Exists_cons in Hx as [Hx|Hx]; [discriminate Hx|inversion Hx]. }
  run_call Hr now. apply Exists_cons in Hx as [Hx|Hx]; [discriminate Hx|].
  destruct (Z.leb_spec budget (Poll.elapsed_us start now)) as [Hle|Hgt].
  - exists now. split; [set_solver|].
    apply runs_bind in Hr as (t7 & t8 & u7 & -> & H7 & [-> _]). rewrite app_nil_r in Hx.
    unfold Poll.quicpro_yield_if_needed in H7.
    assert (Hel : - 2 ^ 31 <= Poll.elapsed_us start now < 2 ^ 31) by (apply (sext_range 32); lia).
    rewrite s32_small in H7 by lia.
    destruct (Z.leb_spec (Poll.elapsed_us start now - budget) 0); [lia|].
    destruct H7 as [-> _]. inversion Hx.
  - destruct (IH _ _ _ _ _ _ Hb Hr Hx) as (now' & Hin & He). exists now'. split; [set_solver|done].
Qed.

(** The number of passes: each begins with one [recvmsg]. *)
Definition passes (tr : list nevent) : nat := length (filter (fun e => receives e = true) tr).

Lemma passes_app tr1 tr2 : passes (tr1 ++ tr2) = (passes tr1 + passes tr2)%nat.
Proof. unfold passes. by rewrite filter_app, length_app. Qed.

Lemma passes_none tr : Forall (fun e => is_receive (ev_op e) = false) tr -> passes tr = 0%nat.
Proof.
  unfold passes. induction 1 as [|e t He _ IH]; [done|]. rewrite filter_cons_False; [done|].
  unfold receives. by destruct (ev_op e).
Qed.

Lemma receive_one_pass s conn tr s' : runs (Poll.receive s conn) tr s' -> passes tr = 1%nat.
Proof.
  intros H1. run_call H1 q. change (S (passes x) = 1%nat). f_equal. apply passes_none.
  destruct q as [e|[|b d] f t].
  - eapply (calls_only_bind (fun o => is_receive o = false)); [|intros; apply calls_only_ret|exact H1].
    destruct (would_block e); repeat without_step.
  - destruct H1 as [-> _]. constructor.
  - destruct H1 as (? & ? & -> & -> & _). by repeat constructor.
Qed.

(** The clock does not run backwards: every reading is at least each one before it. *)
Definition not_before (start : timespec) (e : nevent) : Prop :=
  match e with Ev ClockGettime now => 0 <= Poll.elapsed_us start now | _ => True end.
Fixpoint clock_forward (tr : list nevent) : Prop :=
  match tr with
  | [] => True
  | e :: tr' => match e with Ev ClockGettime start => Forall (not_before start) tr' | _ => True end /\ clock_forward tr'
  end.

Lemma clock_forward_app tr1 tr2 : clock_forward (tr1 ++ tr2) -> clock_forward tr2.
Proof. induction tr1 as [|e tr1 IH]; [done|]. by intros [_ ?%IH]. Qed.

(** With no budget, one pass is all there is, when the clock does not run backwards. *)
Lemma single_pass fuel s conn start tr r :
  runs (Poll.busy_poll fuel s conn start 0) tr r -> r <> NoFuel ->
  Forall (not_before start) tr -> passes tr = 1%nat.
Proof.
  intros Hr Hnf Hclock. destruct fuel as [|fuel]; [destruct Hr as [_ ->]; done|].
  cbn [Poll.busy_poll] in Hr. apply runs_bind in Hr as (t1 & t2 & s1 & -> & H1 & Hr).
  rewrite passes_app, (receive_one_pass _ _ _ _ H1).
  cut (passes t2 = 0%nat); [by intros ->|]. apply passes_none.
  apply runs_bind in Hr as (t3 & t4 & o & -> & H2 & Hr). apply Forall_app. split.
  { eapply (transmit_without is_receive); [done|done|done|exact H2]. }
  destruct o as [u|e| |]; [|destruct Hr as [-> _]; constructor..].
  run_call Hr d. constructor; [done|]. destruct d; [destruct Hr as [-> _]; constructor|].
  run_call Hr t. constructor; [done|].
  apply runs_bind in Hr as (t5 & t6 & u5 & -> & H5 & Hr). apply Forall_app. split.
  { destruct (t =? 0); [|destruct H5 as [-> _]; constructor].
    destruct H5 as (? & ? & -> & -> & _). by repeat constructor. }
  run_call Hr now. constructor; [done|].
  rewrite (proj2 (Z.leb_le _ _)) in Hr by (rewrite Forall_forall in Hclock; apply (Hclock (Ev ClockGettime now)); set_solver).
  eapply (calls_only_bind (fun o => is_receive o = false)); [|intros; apply calls_only_ret|exact Hr].
  unfold Poll.quicpro_yield_if_needed. repeat first [without_step|case_match].
Qed.

(* ------------------------------------------------------------------------ *)
(** ** The properties *)

(** C11: A tick of an open session reads the socket until it has nothing more (or fails),
    hands quiche every datagram read, once and in order, then runs the timer once and
    writes every packet quiche has, each once and in order, until quiche has none or the
    socket does not take one whole; it returns [true] exactly when nothing failed and the
    connection, asked at the end, is neither closed nor draining.  After a hard error of
    the socket it sends nothing and returns [false].  It runs out of fuel only when it has
    made as many calls.  A session that is closed is not touched. *)
Theorem tick_correct size fuel s tr r :
  runs (Tick.quicpro_client_session_tick size fuel s) tr r ->
  match s, s ≫= Client.usable with
  | Some s0, Some conn =>
      Forall (fun e => touches (s_sock s0) conn (ev_op e)) tr /\
      ((r = NoFuel /\ (fuel <= length tr)%nat) \/
       exists tin tout ds stop, tr = tin ++ tout /\ Forall nonempty ds /\ no_datagram stop = true /\
         moved tin = (map gram ds ++ [stop], map fst ds, [], [], []) /\
         if hard_error stop then tout = [] /\ r = Done (Some (foldl stamp s0 ds), false)
         else exists tw ask ms ws stop', tout = Ev (ConnOnTimeout conn) tt :: tw ++ ask /\
           moved tw = ([], [], [], ms, ws) /\ flushed whole not_whole is_err ms ws stop' /\
           if tick_sent stop' then
             exists gone, asked_closed conn ask gone /\
               r = Done (Some (if gone then with_closed (foldl stamp s0 ds) else foldl stamp s0 ds), negb gone)
           else ask = [] /\ r = Done (Some (foldl stamp s0 ds), false))
  | _, _ => tr = [] /\ r = Done (s, false)
  end.
Proof.
  intros Hr. pose proof (tick_lasting size fuel s tr r Hr) as Hl. destruct s as [s0|]; [|exact Hr].
  destruct (Some s0 ≫= Client.usable) as [conn|] eqn:Hu; [|unfold Tick.quicpro_client_session_tick in Hr; by rewrite Hu in Hr].
  split; [by eapply tick_touches|]. destruct (tick_exact size fuel s0 conn tr r Hu Hr) as [->|H]; [left|by right].
  split; [done|]. destruct (decide (fuel <= length tr)%nat) as [|Hn]; [done|]. exfalso. apply Hl; [lia|done].
Qed.

(** C27: One call of [quicpro_poll] is a sequence of passes.  A pass asks the socket once and
    hands quiche the one datagram it got, if any (it does not drain the socket); sends
    every packet quiche has, in order, until it has none or the socket refuses one; and
    runs the timer when it is due.  The first pass that finds the connection draining or
    the busy-poll budget used up is the last, and every earlier one found neither.  The
    call then drops the session ticket and returns [true].  It runs out of fuel only when
    it has made as many calls. *)
Theorem poll_correct fuel napi cached s timeout tr r :
  runs (Poll.quicpro_poll fuel napi cached s timeout) tr r ->
  match s with
  | None => tr = [] /\ r = Done (None, cached, false)
  | Some s0 =>
      match s_conn s0 with
      | None => r = Undefined
      | Some conn =>
          Forall (fun e => touches (s_sock s0) conn (ev_op e)) tr /\
          ((r = NoFuel /\ (fuel <= length tr)%nat) \/
           exists pre start body s1 s2 budget cached', tr = pre ++ Ev ClockGettime start :: body /\
             moved pre = still /\ (s1 = s0 \/ s1 = with_ts_enabled s0) /\
             budget = (if napi then cached' else 0) /\
             rounds conn start budget s1 body s2 /\ r = Done (Some (with_ticket [] s2), cached', true))
      end
  end.
Proof.
  intros Hr. pose proof (poll_lasting fuel napi cached s timeout tr r Hr) as Hl. destruct s as [s0|]; [|exact Hr].
  destruct (s_conn s0) as [conn|] eqn:Hc.
  2:{ unfold Poll.quicpro_poll in Hr. rewrite Hc in Hr. by destruct Hr. }
  destruct (poll_exact fuel napi cached s0 conn timeout tr r Hc Hr) as [Ht [->|H]]; (split; [done|]); [left|by right].
  split; [done|]. destruct (decide (fuel <= length tr)%nat) as [|Hn]; [done|]. exfalso. apply Hl; [lia|done].
Qed.

(** Closing a client session queues the close frame and marks the session closed, and
    from then on no tick makes any call: the frame is never sent. *)
Theorem client_close_not_sent size fuel s conn app code reason tr r :
  Client.usable s = Some conn ->
  runs (Tick.quicpro_client_session_close size fuel (Some s) app code reason) tr r ->
  r = Done (Some (with_closed s), true) /\
  map ev_op tr = [ConnClose conn app (u64 code) (match reason with Some x => x | None => EmptyString end)] /\
  forall fuel' tr' r', runs (Tick.quicpro_client_session_tick size fuel' (Some (with_closed s))) tr' r' -> tr' = [].
Proof.
  intros Hu Hr. unfold Tick.quicpro_client_session_close in Hr. simpl (Some s ≫= _) in Hr. rewrite Hu in Hr.
  run_call Hr q. destruct Hr as [-> ->]. split_and!; [done|done|]. by intros fuel' tr' r' [-> _].
Qed.

(** A fiber that is over its busy-poll budget is not suspended: the loop suspends it
    only when the elapsed time equals the budget to the microsecond. *)
Theorem poll_yields_only_exactly fuel s conn start budget tr r :
  0 <= budget < 2 ^ 31 -> runs (Poll.busy_poll fuel s conn start budget) tr r -> Exists suspends tr ->
  exists now, Ev ClockGettime now ∈ tr /\ Poll.elapsed_us start now = budget.
Proof. apply suspend_inv. Qed.

(** Without a busy-poll budget, which is how the extension is built by default, a call
    makes exactly one pass, whatever timeout it is given, when the clock does not run
    backwards. *)
Theorem poll_single_pass fuel cached s timeout tr r :
  runs (Poll.quicpro_poll fuel false cached (Some s) timeout) tr r -> is_Some (s_conn s) -> r <> NoFuel ->
  clock_forward tr -> passes tr = 1%nat.
Proof.
  intros Hr [conn Hc] Hnf Hclock. unfold Poll.quicpro_poll in Hr. rewrite Hc in Hr.
  run_call Hr t0. change (passes x = 1%nat).
  apply runs_bind in Hr as (t1 & t2 & s1 & -> & H1 & Hr). rewrite passes_app, (passes_none t1).
  2:{ eapply (fun H => H t1 s1 H1 : Forall _ _). unfold Poll.enable_timestamping.
      change (without is_receive (if s_ts_enabled s then Ret s else
        let* r := sys (SetTimestamping (s_sock s)) in Ret (if r =? 0 then with_ts_enabled s else s))).
      destruct (s_ts_enabled s); repeat without_step. }
  apply proj2, clock_forward_app in Hclock. run_call Hr start. change (passes x = 1%nat). destruct Hclock as [Hclock _].
  apply runs_bind in Hr as (t3 & t4 & o & -> & H3 & Hr). rewrite passes_app, (passes_none t4).
  2:{ destruct o; destruct Hr as [-> _]; constructor. }
  rewrite Nat.add_0_r. eapply single_pass; [exact H3| |].
  - intros ->. destruct Hr as [_ ->]. done.
  - by apply Forall_app in Hclock as [? _].
Qed.

(* ------------------------------------------------------------------------ *)
(** ** Concrete runs *)

Module PollingDemo.
(** One datagram arrives and two packets leave; then the socket is empty. *)
Definition busy_world (o : nop) (n : Z) : nans o * Z :=
  match o return nans o * Z with
  | Recvmsg _ => (if n =? 0 then Recv [Byte.x01; Byte.x02] "peer" None else RecvErr EAGAIN, n + 1)
  | ConnSend _ _ => (if n <? 7 then Packet [Byte.x03] "peer" else SendErr 1, n + 1)
  | FiberActive => (true, n)
  | ClockGettime => (mkTs 0 (1000 * (n + 1)), n)
  | o => kind_world o n
  end.
Definition s0 : quicpro_session_t :=
  mkSession 13 11 (Some 15) (Some 17) (Some 16) (Some 1) "h" [] 0 true false [] None.
Definition tick_run := exec busy_world (Tick.quicpro_client_session_tick 1350 20 (Some s0)) 0.
Definition close_run := exec busy_world (Tick.quicpro_client_session_close 1350 20 (Some s0) true 0 None) 0.
Definition poll_run := exec busy_world (Poll.quicpro_poll 20 false (-1) (Some s0) 0) (-1).
Definition yield_run := exec busy_world (Poll.busy_poll 20 s0 15 (mkTs 0 0) 13) 0.
End PollingDemo.
Import PollingDemo.

Lemma tick_correct_witness :
  Forall (fun e => touches 11 15 (ev_op e)) tick_run.1.2 /\
  fed tick_run.1.2 = [([Byte.x01; Byte.x02], "peer"%string)] /\ length (writes tick_run.1.2) = 2%nat.
Proof.
  split; [|split; reflexivity].
  exact (proj1 (tick_correct 1350 20 (Some s0) tick_run.1.2 tick_run.1.1
    (exec_runs busy_world (Tick.quicpro_client_session_tick 1350 20 (Some s0)) 0))).
Defined.

Lemma poll_correct_witness :
  Forall (fun e => touches 11 15 (ev_op e)) poll_run.1.2 /\
  length (recv_answers poll_run.1.2) = 1%nat /\ length (writes poll_run.1.2) = 3%nat.
Proof.
  split; [|split; reflexivity].
  exact (proj1 (poll_correct 20 false (-1) (Some s0) 0 poll_run.1.2 poll_run.1.1
    (exec_runs busy_world (Poll.quicpro_poll 20 false (-1) (Some s0) 0) (-1)))).
Defined.

Lemma client_close_not_sent_witness : map ev_op close_run.1.2 = [ConnClose 15 true 0 ""].
Proof.
  apply (client_close_not_sent 1350 20 s0 15 true 0 None close_run.1.2 close_run.1.1);
    [reflexivity|exact (exec_runs busy_world (Tick.quicpro_client_session_close 1350 20 (Some s0) true 0 None) 0)].
Defined.

Lemma poll_yields_only_exactly_witness :
  exists now, Ev ClockGettime now ∈ yield_run.1.2 /\ Poll.elapsed_us (mkTs 0 0) now = 13.
Proof.
  apply (poll_yields_only_exactly 20 s0 15 (mkTs 0 0) 13 yield_run.1.2 yield_run.1.1);
    [lia|exact (exec_runs busy_world (Poll.busy_poll 20 s0 15 (mkTs 0 0) 13) 0)|].
  apply Exists_exists. exists (Ev FiberSuspend tt). split; [|done].
  by apply (list_elem_of_lookup_2 _ 14).
Defined.

Lemma poll_single_pass_witness : passes poll_run.1.2 = 1%nat.
Proof.
  apply (poll_single_pass 20 (-1) s0 0 poll_run.1.2 poll_run.1.1);
    [exact (exec_runs busy_world (Poll.quicpro_poll 20 false (-1) (Some s0) 0) (-1))|by eexists|by vm_compute|].
  let tr := eval vm_compute in poll_run.1.2 in change (clock_forward tr).
  repeat first [exact I|discriminate|constructor].
Defined.
