(* ===== verification/Xdp.v ===== *)
(** * Draining an AF_XDP ring

    [quicpro_xdp_drain] of [extension/src/poll/poll.c], which is built with [QUICPRO_XDP].
    The ring is libbpf's: the class [XskRing] has the three calls that the function makes,
    and [XskLaws] what libbpf documents of two of them.  Of the third, the accessor of the
    completion ring that the function applies to its receive ring, nothing is assumed: what
    it gives at an index is what is delivered. *)

From Stdlib Require Import ZArith Lia.
From stdpp Require Import base tactics list.
From S2P Require Import Prelude.

Local Open Scope Z_scope.

(** [R] is a ring, [D] what the function reads through the accessor: address and length. *)
Class XskRing (R D : Type) := {
  xsk_ring_cons__peek : R -> Z -> Z * Z * R;         (** how many, the first index, the ring *)
  xsk_ring_cons__comp_addr : R -> Z -> D;
  xsk_ring_cons__release : R -> Z -> R;
}.

(** [taken] counts the entries a ring's user has peeked at, [produced] those the kernel will
    have written by the end of the call: peeking takes what it reports, never more than
    asked for or there is, and release only gives entries back to the kernel. *)
Class XskLaws {R D : Type} (ring : XskRing R D) (taken : R -> Z) (produced : Z) := {
  peek_taken r nb n idx r' : 0 <= nb -> taken r <= produced -> xsk_ring_cons__peek r nb = (n, idx, r') ->
    0 <= n <= nb /\ taken r' = taken r + n /\ taken r' <= produced /\ (0 < n -> idx = u32 (taken r));
  release_taken r nb : taken (xsk_ring_cons__release r nb) = taken r;
}.

Section Drain.
Context {R D : Type} `{ring : XskRing R D}.

(** The batch at [idx], in [uint32_t] arithmetic. *)
Definition batch (r : R) (idx : Z) : list D :=
  map (fun i => xsk_ring_cons__comp_addr r (u32 (idx + Z.of_nat i))) (seq 0 64).

(** What is delivered to quiche, the number returned, and the ring. *)
Fixpoint quicpro_xdp_drain (fuel : nat) (r : R) (packets : Z) : outcome unit (list D * Z * R) :=
  match fuel with
  | O => NoFuel
  | S fuel' =>
      let '(n, idx, r) := xsk_ring_cons__peek r 64 in
      if n =? 64 then
        let! '(ds, packets, r') := quicpro_xdp_drain fuel' (xsk_ring_cons__release r 64) (packets + 64) in
        Done (batch r idx ++ ds, packets, r')
      else Done ([], packets, r)
  end.

Context (taken : R -> Z) (produced : Z) `{!XskLaws ring taken produced}.

(** What happens to the entries: full batches are delivered; the entries of the last peek,
    fewer than 64, are taken out of the ring and delivered to nobody. *)
Lemma drain_batches fuel : forall r packets, taken r <= produced -> produced - taken r < 64 * Z.of_nat fuel ->
  exists ds k lost r', quicpro_xdp_drain fuel r packets = Done (ds, packets + 64 * k, r') /\
    0 <= k /\ Z.of_nat (length ds) = 64 * k /\ 0 <= lost < 64 /\ taken r' = taken r + 64 * k + lost.
Proof.
  induction fuel as [|fuel IH]; intros r packets Hr Hf; [lia|]. cbn [quicpro_xdp_drain].
  destruct (xsk_ring_cons__peek r 64) as [[n idx] r1] eqn:Hp.
  destruct (peek_taken r 64 _ _ _ ltac:(lia) Hr Hp) as (Hn & Ht & Hl & Hi). destruct (Z.eqb_spec n 64) as [->|Hne].
  - pose proof (release_taken r1 64) as Hrel.
    destruct (IH (xsk_ring_cons__release r1 64) (packets + 64)) as (ds & k & lost & r' & Hd & Hk & Hlen & Hlo & Hta);
      [lia|lia|]. rewrite Hd. cbn [obind]. exists (batch r1 idx ++ ds), (k + 1), lost, r'.
    split; [do 3 f_equal; lia|]. split; [lia|]. rewrite length_app. unfold batch. rewrite length_map, length_seq.
    split; [lia|]. split; [done|]. lia.
  - exists [], 0, n, r1. split; [do 3 f_equal; lia|]. cbn [length]. lia.
Qed.
End Drain.

(** Draining ends, returns the number of entries it delivered, which is a multiple of 64, and
    loses what is left over: with fewer than 64 entries in the ring it delivers none and
    takes them all the same. *)
Theorem xdp_drain_exact {R D : Type} (ring : XskRing R D) taken produced (laws : XskLaws ring taken produced) r fuel :
  taken r <= produced -> produced - taken r < 64 * Z.of_nat fuel ->
  exists ds n r', quicpro_xdp_drain fuel r 0 = Done (ds, n, r') /\
    n = Z.of_nat (length ds) /\ n mod 64 = 0 /\
    0 <= taken r' - taken r - n < 64 /\ (produced - taken r < 64 -> ds = []).
Proof.
  intros Hr Hf. destruct (drain_batches taken produced fuel r 0 Hr Hf) as (ds & k & lost & r' & Hd & Hk & Hl & Hlo & Ht).
  exists ds, (64 * k), r'. split; [exact Hd|]. split; [lia|]. split; [rewrite Z.mul_comm; apply Z_mod_mult|].
  split; [lia|]. intros Hp. assert (taken r' <= produced) as Hle.
  { clear - laws Hd Hr. revert Hd. generalize 0 at 1, (64 * k). revert r ds Hr.
    induction fuel as [|fuel IH]; intros r ds Hr p q; cbn [quicpro_xdp_drain]; [done|].
    destruct (xsk_ring_cons__peek r 64) as [[n idx] r1] eqn:Hp. destruct (peek_taken r 64 _ _ _ ltac:(lia) Hr Hp) as (_ & _ & Hl & _).
    destruct (n =? 64); [|by intros [= _ _ <-]]. intros ([[ds1 p1] r2] & H1 & [= _ _ <-])%obind_Done.
    eapply IH; [|exact H1]. by rewrite release_taken. }
  destruct ds; [done|]. cbn [length] in Hl. lia.
Qed.

(* ------------------------------------------------------------------------ *)
(** ** A ring of a hundred entries *)

(** A ring with what it has of the kernel's entries, by number. *)
Record demo_ring := mkRing { d_taken : Z; d_released : Z }.
#[export] Instance demo_xsk : XskRing demo_ring Z := {
  xsk_ring_cons__peek r nb :=
    let n := Z.max 0 (Z.min nb (100 - d_taken r)) in (n, u32 (d_taken r), mkRing (d_taken r + n) (d_released r));
  xsk_ring_cons__comp_addr _ idx := idx;
  xsk_ring_cons__release r nb := mkRing (d_taken r) (d_released r + nb);
}.

#[export] Instance demo_laws : XskLaws demo_xsk d_taken 100.
Proof.
  constructor; [|done]. intros r nb n idx r' Hnb Hr [= <- <- <-]. cbn [d_taken]. split_and!; try lia.
Qed.

Lemma xdp_drain_exact_witness : exists ds n r', quicpro_xdp_drain 2 (mkRing 0 0) 0 = Done (ds, n, r') /\ n mod 64 = 0 /\
  d_taken r' = 100 /\ d_released r' = 64.
Proof.
  destruct (xdp_drain_exact demo_xsk d_taken 100 demo_laws (mkRing 0 0) 2) as (ds & n & r' & Hd & _ & Hn & _);
    [cbn; lia|cbn; lia|]. exists ds, n, r'. split; [exact Hd|]. split; [exact Hn|].
  vm_compute in Hd. injection Hd as <- <- <-. split; reflexivity.
Defined.
