(* ===== verification/HttpClient.v ===== *)
(** * The HTTP client

    [extension/src/http_client/http_client.c]: one request through libcurl.  libcurl is a
    signature of calls; [curl_easy_perform] answers with its code and with the pieces it
    handed to the two callbacks, in order, and the callbacks are run on those.

    A [smart_str] is a handle and its contents; the handle is that of the string, however
    often it is reallocated.  The buffer of the raw headers is not terminated by the code,
    so [strstr] reads what lies behind it: [behind] is that memory up to its first zero
    byte. *)

From Stdlib Require Import ZArith Lia String Ascii.
From stdpp Require Import base tactics list strings.
From S2P Require Import Prelude Io Zend Validation Cors.

Local Open Scope string_scope.
Local Open Scope Z_scope.

(* ------------------------------------------------------------------------ *)
(** ** libcurl *)

Inductive curlopt :=
| CURLOPT_URL | CURLOPT_CUSTOMREQUEST | CURLOPT_WRITEFUNCTION | CURLOPT_WRITEDATA | CURLOPT_HEADERFUNCTION
| CURLOPT_HEADERDATA | CURLOPT_TCP_KEEPALIVE | CURLOPT_TCP_KEEPIDLE | CURLOPT_TCP_KEEPINTVL | CURLOPT_FORBID_REUSE
| CURLOPT_HTTPHEADER | CURLOPT_POSTFIELDS | CURLOPT_POSTFIELDSIZE | CURLOPT_TIMEOUT_MS | CURLOPT_CONNECTTIMEOUT_MS
| CURLOPT_FOLLOWLOCATION | CURLOPT_MAXREDIRS | CURLOPT_HTTP_VERSION | CURLOPT_PIPEWAIT | CURLOPT_VERBOSE
| CURLOPT_TCP_NODELAY | CURLOPT_INTERFACE | CURLOPT_SSL_VERIFYPEER | CURLOPT_SSL_VERIFYHOST | CURLOPT_CAINFO
| CURLOPT_SSLCERT | CURLOPT_SSLKEY | CURLOPT_KEYPASSWD | CURLOPT_RESOLVE | CURLOPT_DNS_CACHE_TIMEOUT
| CURLOPT_DNS_USE_GLOBAL_CACHE | CURLOPT_DNS_SERVERS | CURLOPT_IPRESOLVE | CURLOPT_HAPPY_EYEBALLS_TIMEOUT_MS
| CURLOPT_PROXY | CURLOPT_PROXYUSERPWD | CURLOPT_PROXYTYPE | CURLOPT_NOPROXY | CURLOPT_HTTPAUTH | CURLOPT_USERPWD
| CURLOPT_FRESH_CONNECT | CURLOPT_MAXFILESIZE | CURLOPT_ACCEPT_ENCODING | CURLOPT_COOKIE | CURLOPT_COOKIEFILE
| CURLOPT_COOKIEJAR | CURLOPT_REFERER | CURLOPT_USERAGENT | CURLOPT_CRLF | CURLOPT_BUFFERSIZE
| CURLOPT_HTTPPROXYTUNNEL | CURLOPT_TRANSFERTEXT | CURLOPT_UNRESTRICTED_AUTH | CURLOPT_PUT | CURLOPT_POST
| CURLOPT_SSL_CIPHER_LIST | CURLOPT_SSL_MAXCONN | CURLOPT_SUPPRESS_CONNECT_HEADERS | CURLOPT_TCP_FASTOPEN
| CURLOPT_ALTSVC | CURLOPT_DNS_LOCAL_IP4 | CURLOPT_DNS_LOCAL_IP6 | CURLOPT_KEEP_SENDING_ON_ERROR
| CURLOPT_SSH_COMPRESSION | CURLOPT_SSL_OPTIONS | CURLOPT_HTTP09_ALLOWED.
#[export] Instance curlopt_eq_dec : EqDecision curlopt.
Proof. solve_decision. Defined.

Definition CURL_HTTP_VERSION_NONE : Z := 0.
Definition CURL_HTTP_VERSION_1_1 : Z := 2.
Definition CURL_HTTP_VERSION_2_0 : Z := 3.
Definition CURL_HTTP_VERSION_3 : Z := 30.
Definition CURL_IPRESOLVE_WHATEVER : Z := 0.
Definition CURL_IPRESOLVE_V4 : Z := 1.
Definition CURL_IPRESOLVE_V6 : Z := 2.
Definition CURLPROXY_HTTP : Z := 0.
Definition CURLPROXY_SOCKS4 : Z := 4.
Definition CURLPROXY_SOCKS5 : Z := 5.

(** The argument of [curl_easy_setopt]: a number, a C string, bytes with a length of their
    own, one of the two callbacks or their data, a list. *)
Inductive optval := VLong (n : Z) | VStr (s : string) | VData (s : string) | VLocal | VList (l : option Z).

(** A piece handed to [header_callback] or to [write_callback]. *)
Inductive delivery := DHeader (line : string) | DBody (chunk : string).

Inductive cop :=
| EasyInit
| SetOpt (h : Z) (o : curlopt) (v : optval)
| SlistAppend (l : option Z) (s : string)
| Perform (h : Z)
| ResponseCode (h : Z)
| SlistFreeAll (l : option Z)
| EasyCleanup (h : Z)
| StrAlloc
| StrRelease (p : Z)
| ThrowMcp (message : string).

Definition cans (o : cop) : Type :=
  match o with
  | EasyInit | SlistAppend _ _ => option Z
  | Perform _ => Z * list delivery
  | ResponseCode _ | StrAlloc => Z
  | _ => unit
  end.

Abbreviation curl := (io cans).
Abbreviation cevent := (event cans).
Abbreviation csys := (@call cop cans).

(* ------------------------------------------------------------------------ *)
(** ** The callbacks *)

Record smart_str := mkSmart { ss_s : option Z; ss_val : string }.
Definition smart_empty : smart_str := mkSmart None EmptyString.

(** [smart_str_appendl], which allocates on the first use. *)
Definition smart_str_appendl (buf : smart_str) (s : string) : curl smart_str :=
  match ss_s buf with
  | Some p => Ret (mkSmart (Some p) (ss_val buf ++ s))
  | None => let* p := csys StrAlloc in Ret (mkSmart (Some p) s)
  end.

Definition smart_str_free (buf : smart_str) : curl unit :=
  match ss_s buf with Some p => csys (StrRelease p) | None => Ret tt end.

Definition write_callback (contents : string) (buf : smart_str) : curl smart_str := smart_str_appendl buf contents.

Record header_data_t := mkHeaderData { headers_buf : smart_str; first_line_parsed : bool }.

Definition CR : ascii := "013"%char.
Definition LF : ascii := "010"%char.
Definition CRLF : string := String CR (String LF EmptyString).

Definition header_callback (buffer : string) (d : header_data_t) : curl header_data_t :=
  if negb (first_line_parsed d) then
    Ret (if negb (bool_decide (buffer = EmptyString)) && strncmp_eq buffer "HTTP/" 5
         then mkHeaderData (headers_buf d) true else d)
  else if bool_decide (buffer = EmptyString) || bool_decide (buffer = CRLF) then Ret d
  else let* b := smart_str_appendl (headers_buf d) buffer in Ret (mkHeaderData b true).

(** The callbacks as [curl_easy_perform] calls them. *)
Fixpoint run_callbacks (ds : list delivery) (d : header_data_t) (body : smart_str)
  : curl (header_data_t * smart_str) :=
  match ds with
  | [] => Ret (d, body)
  | DHeader line :: ds' => let* d := header_callback line d in run_callbacks ds' d body
  | DBody chunk :: ds' => let* body := write_callback chunk body in run_callbacks ds' d body
  end.

(* ------------------------------------------------------------------------ *)
(** ** Parsing the response headers *)

(** [strstr(s, "\r\n")]: what is before it and what is after it. *)
Fixpoint find_crlf (s : string) : option (string * string) :=
  match s with
  | EmptyString => None
  | String c s' =>
      match s' with
      | String c' rest => if decide (c = CR /\ c' = LF) then Some (EmptyString, rest) else
          match find_crlf s' with Some (line, rest) => Some (String c line, rest) | None => None end
      | EmptyString => None
      end
  end.

(** One line: the name up to the colon in lower case, the value without leading blanks.
    The value is looked up under the string itself and stored with [add_assoc_stringl_ex],
    which turns a decimal name into an integer key. *)
Definition header_of (line : string) : option (string * string) :=
  match strchr ":"%char line with
  | (name, Some value) => Some (lower name, skip_ws value)
  | (_, None) => None
  end.

Definition add_header (name value : string) (ht : hashtable) : hashtable :=
  match ht_find (KStr name) ht with
  | Some (ZString old) => ht_update (KStr name) (ZString (old ++ ", " ++ value)) ht
  | _ => ht_update (symtable_key name) (ZString value) ht
  end.

Definition add_line (line : string) (ht : hashtable) : hashtable :=
  match header_of line with Some (name, value) => add_header name value ht | None => ht end.

(** The loop; a line takes at least its [CRLF] off the string. *)
Fixpoint parse_lines (fuel : nat) (s : string) (ht : hashtable) : outcome unit hashtable :=
  match fuel with
  | O => NoFuel
  | S fuel' =>
      match find_crlf s with
      | None => Done ht
      | Some (EmptyString, _) => Done ht
      | Some (line, rest) => parse_lines fuel' rest (add_line line ht)
      end
  end.

Definition parse_raw_headers_to_assoc_array (behind raw_headers_str : string) (ht : hashtable)
  : outcome unit hashtable :=
  if bool_decide (raw_headers_str = EmptyString) then Done ht
  else let s := cstr (raw_headers_str ++ behind) in parse_lines (S (String.length s)) s ht.

(* ------------------------------------------------------------------------ *)
(** ** The options *)

(** What a value must be for the option to be set, and to what. *)
Inductive rule :=
| IfLong (o : curlopt)
| IfString (o : curlopt)
| IfTrue (o : curlopt)
| IfFalse (o : curlopt)
| IfStringList (o : curlopt)
| Cases (o : curlopt) (cases : list (string * list (curlopt * Z))) (other : list (curlopt * Z)).

Record entry := mkEntry { e_name : string; e_ifdef : bool; e_rule : rule }.
Definition always (name : string) (r : rule) : entry := mkEntry name false r.
Definition ifdef (name : string) (r : rule) : entry := mkEntry name true r.

Definition network_options : list entry := [
  always "timeout_ms" (IfLong CURLOPT_TIMEOUT_MS);
  always "connect_timeout_ms" (IfLong CURLOPT_CONNECTTIMEOUT_MS);
  always "follow_redirects" (IfTrue CURLOPT_FOLLOWLOCATION);
  always "max_redirects" (IfLong CURLOPT_MAXREDIRS);
  always "http_version" (Cases CURLOPT_HTTP_VERSION [
    ("2.0", [(CURLOPT_HTTP_VERSION, CURL_HTTP_VERSION_2_0); (CURLOPT_PIPEWAIT, 1)]);
    ("1.1", [(CURLOPT_HTTP_VERSION, CURL_HTTP_VERSION_1_1)]);
    ("3.0", [(CURLOPT_HTTP_VERSION, CURL_HTTP_VERSION_3)])]
    [(CURLOPT_HTTP_VERSION, CURL_HTTP_VERSION_NONE)]);
  always "verbose" (IfTrue CURLOPT_VERBOSE);
  always "tcp_nodelay" (IfTrue CURLOPT_TCP_NODELAY);
  always "interface" (IfString CURLOPT_INTERFACE)].

Definition tls_options : list entry := [
  always "verify_peer" (IfFalse CURLOPT_SSL_VERIFYPEER);
  always "verify_host" (IfFalse CURLOPT_SSL_VERIFYHOST);
  always "ca_info" (IfString CURLOPT_CAINFO);
  always "cert_file" (IfString CURLOPT_SSLCERT);
  always "key_file" (IfString CURLOPT_SSLKEY);
  always "key_passwd" (IfString CURLOPT_KEYPASSWD)].

Definition dns_options : list entry := [
  always "resolve_host" (IfStringList CURLOPT_RESOLVE);
  always "dns_cache_timeout" (IfLong CURLOPT_DNS_CACHE_TIMEOUT);
  always "dns_use_global_cache" (IfTrue CURLOPT_DNS_USE_GLOBAL_CACHE);
  always "dns_servers" (IfString CURLOPT_DNS_SERVERS);
  always "ip_resolve" (Cases CURLOPT_IPRESOLVE [
    ("ipv4", [(CURLOPT_IPRESOLVE, CURL_IPRESOLVE_V4)]);
    ("ipv6", [(CURLOPT_IPRESOLVE, CURL_IPRESOLVE_V6)])]
    [(CURLOPT_IPRESOLVE, CURL_IPRESOLVE_WHATEVER)]);
  always "happy_eyeballs_timeout_ms" (IfLong CURLOPT_HAPPY_EYEBALLS_TIMEOUT_MS)].

Definition proxy_options : list entry := [
  always "proxy" (IfString CURLOPT_PROXY);
  always "proxy_userpwd" (IfString CURLOPT_PROXYUSERPWD);
  always "proxy_type" (Cases CURLOPT_PROXYTYPE [
    ("http", [(CURLOPT_PROXYTYPE, CURLPROXY_HTTP)]);
    ("socks4", [(CURLOPT_PROXYTYPE, CURLPROXY_SOCKS4)]);
    ("socks5", [(CURLOPT_PROXYTYPE, CURLPROXY_SOCKS5)])] []);
  always "no_proxy" (IfString CURLOPT_NOPROXY);
  always "http_auth" (IfLong CURLOPT_HTTPAUTH);
  always "user_pwd" (IfString CURLOPT_USERPWD)].

Definition transfer_options : list entry := [
  always "fresh_connect" (IfTrue CURLOPT_FRESH_CONNECT);
  always "dns_use_global_cache" (IfTrue CURLOPT_DNS_USE_GLOBAL_CACHE);
  always "max_file_size" (IfLong CURLOPT_MAXFILESIZE);
  always "accept_encoding" (IfString CURLOPT_ACCEPT_ENCODING);
  always "cookie" (IfString CURLOPT_COOKIE);
  always "cookie_file" (IfString CURLOPT_COOKIEFILE);
  always "cookie_jar" (IfString CURLOPT_COOKIEJAR);
  always "referer" (IfString CURLOPT_REFERER);
  always "user_agent" (IfString CURLOPT_USERAGENT);
  always "crlf" (IfTrue CURLOPT_CRLF);
  always "buffer_size" (IfLong CURLOPT_BUFFERSIZE);
  always "http_proxy_tunnel" (IfTrue CURLOPT_HTTPPROXYTUNNEL);
  always "transfer_text" (IfTrue CURLOPT_TRANSFERTEXT);
  always "unrestricted_auth" (IfTrue CURLOPT_UNRESTRICTED_AUTH);
  always "put" (IfTrue CURLOPT_PUT);
  always "post" (IfTrue CURLOPT_POST);
  always "ssl_cipher_list" (IfString CURLOPT_SSL_CIPHER_LIST);
  always "ssl_max_conn" (IfLong CURLOPT_SSL_MAXCONN);
  always "suppress_connect_headers" (IfTrue CURLOPT_SUPPRESS_CONNECT_HEADERS)].

(** Between [#ifdef CURLOPT_...] and [#endif]. *)
Definition ifdef_options : list entry := [
  ifdef "tcp_fastopen" (IfTrue CURLOPT_TCP_FASTOPEN);
  ifdef "altsvc" (IfString CURLOPT_ALTSVC);
  ifdef "dns_local_ip4" (IfString CURLOPT_DNS_LOCAL_IP4);
  ifdef "dns_local_ip6" (IfString CURLOPT_DNS_LOCAL_IP6);
  ifdef "keep_sending_on_error" (IfTrue CURLOPT_KEEP_SENDING_ON_ERROR);
  ifdef "ssh_compression" (IfTrue CURLOPT_SSH_COMPRESSION);
  ifdef "ssl_options" (IfLong CURLOPT_SSL_OPTIONS);
  ifdef "http09_allowed" (IfTrue CURLOPT_HTTP09_ALLOWED)].

Definition rule_opt (r : rule) : curlopt :=
  match r with IfLong o | IfString o | IfTrue o | IfFalse o | IfStringList o | Cases o _ _ => o end.

Fixpoint choose {A} (s : string) (cases : list (string * A)) (other : A) : A :=
  match cases with
  | [] => other
  | (x, a) :: cases' => if decide (s = x) then a else choose s cases' other
  end.

Fixpoint set_longs (h : Z) (l : list (curlopt * Z)) : curl unit :=
  match l with
  | [] => Ret tt
  | (o, n) :: l' => let* _ := csys (SetOpt h o (VLong n)) in set_longs h l'
  end.

Section Request.
(** Which options [curl.h] defines as macros ([CURLOPT_...] are enumerators there); the
    function [zend_is_false], which the sources do not define; libcurl's messages. *)
Variable macro : curlopt -> bool.
Variable zend_is_false : zval -> bool.
Variable curl_easy_strerror : Z -> string.

Definition apply_rule (h : Z) (r : rule) (v : zval) : curl unit :=
  match r, v with
  | IfLong o, ZLong n => csys (SetOpt h o (VLong n))
  | IfString o, ZString s => csys (SetOpt h o (VStr (cstr s)))
  | IfTrue o, v => if zend_is_true v then csys (SetOpt h o (VLong 1)) else Ret tt
  | IfFalse o, v => if zend_is_false v then csys (SetOpt h o (VLong 0)) else Ret tt
  | IfStringList o, ZString s =>
      let* l := csys (SlistAppend None (cstr s)) in csys (SetOpt h o (VList l))
  | Cases _ cases other, ZString s => set_longs h (choose s cases other)
  | _, _ => Ret tt
  end.

Definition apply_entry (h : Z) (opts : hashtable) (e : entry) : curl unit :=
  if e_ifdef e && negb (macro (rule_opt (e_rule e))) then Ret tt
  else match ht_find (KStr (e_name e)) opts with
       | Some v => apply_rule h (e_rule e) v
       | None => Ret tt
       end.

Fixpoint apply_entries (h : Z) (opts : hashtable) (es : list entry) : curl unit :=
  match es with
  | [] => Ret tt
  | e :: es' => let* _ := apply_entry h opts e in apply_entries h opts es'
  end.

Definition apply_options (h : Z) (options_array : option hashtable) : curl unit :=
  match options_array with
  | Some opts =>
      let* _ := apply_entries h opts network_options in
      let* _ := apply_entries h opts tls_options in
      let* _ := apply_entries h opts dns_options in
      let* _ := apply_entries h opts proxy_options in
      let* _ := apply_entries h opts transfer_options in
      apply_entries h opts ifdef_options
  | None => Ret tt
  end.

(* ------------------------------------------------------------------------ *)
(** ** The request *)

(** The entries that are headers: string keys with string values. *)
Definition request_line (e : hkey * zval) : option string :=
  match e with
  | (KStr name, ZString value) => Some (cstr (name ++ ": " ++ value))
  | _ => None
  end.

Fixpoint append_headers (es : hashtable) (headers_list : option Z) : curl (option Z) :=
  match es with
  | [] => Ret headers_list
  | e :: es' =>
      match request_line e with
      | Some line =>
          let* tmp := csys StrAlloc in
          let* l := csys (SlistAppend headers_list line) in
          let* _ := csys (StrRelease tmp) in
          append_headers es' l
      | None => append_headers es' headers_list
      end
  end.

Definition set_request_headers (h : Z) (headers_array : option hashtable) : curl (option Z) :=
  match headers_array with
  | Some es =>
      let* l := append_headers es None in
      let* _ := match l with
                | Some _ => csys (SetOpt h CURLOPT_HTTPHEADER (VList l))
                | None => Ret tt
                end in
      Ret l
  | None => Ret None
  end.

Definition has_body_method (method : string) : bool :=
  strcmp_eq method "POST" || strcmp_eq method "PUT" || strcmp_eq method "PATCH".

Definition set_request_body (h : Z) (method : string) (body : option string) : curl unit :=
  match body with
  | Some b =>
      if negb (bool_decide (b = EmptyString)) && has_body_method method then
        let* _ := csys (SetOpt h CURLOPT_POSTFIELDS (VData b)) in
        csys (SetOpt h CURLOPT_POSTFIELDSIZE (VLong (Z.of_nat (String.length b))))
      else Ret tt
  | None => Ret tt
  end.

Definition basic_options (url method : string) : list (curlopt * optval) := [
  (CURLOPT_URL, VStr (cstr url)); (CURLOPT_CUSTOMREQUEST, VStr (cstr method));
  (CURLOPT_WRITEFUNCTION, VLocal); (CURLOPT_WRITEDATA, VLocal);
  (CURLOPT_HEADERFUNCTION, VLocal); (CURLOPT_HEADERDATA, VLocal);
  (CURLOPT_TCP_KEEPALIVE, VLong 1); (CURLOPT_TCP_KEEPIDLE, VLong 60);
  (CURLOPT_TCP_KEEPINTVL, VLong 30); (CURLOPT_FORBID_REUSE, VLong 0)].

Fixpoint set_options (h : Z) (l : list (curlopt * optval)) : curl unit :=
  match l with
  | [] => Ret tt
  | (o, v) :: l' => let* _ := csys (SetOpt h o v) in set_options h l'
  end.

(** The array returned to PHP.  Its body is a pointer to the string that [write_callback]
    filled, or to the engine's permanent empty string.  The pointer is put into the array
    before [smart_str_free] releases that string, so it says nothing about contents. *)
Inductive body_ref := EmptyInterned | Heap (p : Z).
Inductive http_result := HFalse | HResponse (status : Z) (body : body_ref) (headers : hashtable).

Definition body_of (b : smart_str) : body_ref :=
  match ss_s b with Some p => Heap p | None => EmptyInterned end.

Definition cleanup (h : Z) (body headers : smart_str) (headers_list : option Z) : curl unit :=
  let* _ := smart_str_free body in
  let* _ := smart_str_free headers in
  let* _ := csys (SlistFreeAll headers_list) in
  csys (EasyCleanup h).

(** The transfer, with libcurl calling back, and the result. *)
Definition perform_request (behind : string) (h : Z) (headers_list : option Z) : curl (outcome unit http_result) :=
  let* '(res, ds) := csys (Perform h) in
  let* '(d, body) := run_callbacks ds (mkHeaderData smart_empty false) smart_empty in
  if negb (res =? 0) then
    let* _ := csys (ThrowMcp ("cURL request failed: " ++ curl_easy_strerror res)) in
    let* _ := cleanup h body (headers_buf d) headers_list in
    Ret (Done HFalse)
  else
    let* http_code := csys (ResponseCode h) in
    match parse_raw_headers_to_assoc_array behind (ss_val (headers_buf d)) [] with
    | Done headers =>
        let* _ := cleanup h body (headers_buf d) headers_list in
        Ret (Done (HResponse http_code (body_of body) headers))
    | Failed e => Ret (Failed e)
    | Undefined => Ret Undefined
    | NoFuel => Ret NoFuel
    end.

Definition quicpro_http_request_send (behind url method : string) (headers_array : option hashtable)
    (body_str : option string) (options_array : option hashtable) : curl (outcome unit http_result) :=
  let* handle := csys EasyInit in
  match handle with
  | None =>
      let* _ := csys (ThrowMcp "Failed to initialize cURL handle for HTTP request.") in Ret (Done HFalse)
  | Some h =>
      let* _ := set_options h (basic_options url method) in
      let* headers_list := set_request_headers h headers_array in
      let* _ := set_request_body h method body_str in
      let* _ := apply_options h options_array in
      perform_request behind h headers_list
  end.
End Request.
