(* ===== verification/HttpClientProps.v ===== *)
(** * The HTTP client: what a response becomes

    The header parser against a reference on lines; the callbacks; and, against an
    ownership protocol for libcurl's handles and lists and the engine's strings, what a
    request leaves behind. *)

From Stdlib Require Import ZArith Lia String Ascii.
From stdpp Require Import base tactics list gmap strings.
From S2P Require Import Prelude Io Zend Validation Cors HttpClient.

Local Open Scope string_scope.
Local Open Scope Z_scope.
Set Warnings "-clear-no-such-hyp".
#[local] Arguments String.append !_ _ / : simpl nomatch.

(* ------------------------------------------------------------------------ *)
(** ** The parser *)

(** The lines of a header section, each with its end. *)
Definition text (lines : list string) : string := foldr (fun l t => l ++ CRLF ++ t) EmptyString lines.

Definition wf_line (l : string) : Prop := l <> EmptyString /\ find_crlf l = None /\ cstr l = l.

(** The reference: all values of a name, in order. *)
Definition values_of (k : string) (lines : list string) : list string :=
  omap (fun l => match header_of l with Some (n, v) => if decide (n = k) then Some v else None | None => None end) lines.

Fixpoint join (vs : list string) : string :=
  match vs with [] => EmptyString | [v] => v | v :: vs' => v ++ ", " ++ join vs' end.

Definition joined (vs : list string) : option zval :=
  match vs with [] => None | _ => Some (ZString (join vs)) end.

Lemma find_crlf_cons c c' s : find_crlf (String c (String c' s)) =
  if decide (c = CR /\ c' = LF) then Some (EmptyString, s)
  else match find_crlf (String c' s) with Some (line, rest) => Some (String c line, rest) | None => None end.
Proof. reflexivity. Qed.

Lemma find_crlf_line l rest : find_crlf l = None -> find_crlf (l ++ CRLF ++ rest) = Some (l, rest).
Proof.
  induction l as [|c l IH]; intros Hl; [done|]. destruct l as [|c' l].
  - clear. simpl. rewrite decide_False by (intros [_ H]; vm_compute in H; discriminate). done.
  - change ((String c (String c' l)) ++ CRLF ++ rest) with (String c (String c' (l ++ CRLF ++ rest))).
    rewrite find_crlf_cons in Hl |- *. destruct (decide (c = CR /\ c' = LF)); [discriminate|].
    destruct (find_crlf (String c' l)) as [[]|]; [discriminate|].
    change (String c' (l ++ CRLF ++ rest)) with ((String c' l) ++ CRLF ++ rest). by rewrite IH.
Qed.

Lemma find_crlf_length s : forall line rest, find_crlf s = Some (line, rest) -> (String.length rest < String.length s)%nat.
Proof.
  induction s as [|c s IH]; intros line rest; [done|]. destruct s as [|c' s]; [done|]. rewrite find_crlf_cons.
  destruct (decide _); [intros [= <- <-]; simpl; lia|].
  destruct (find_crlf (String c' s)) as [[l r]|] eqn:E; [|done]. intros [= <- <-].
  specialize (IH _ _ eq_refl). simpl in *. lia.
Qed.

(** Enough fuel, for every string. *)
Lemma parse_lines_total fuel : forall s ht, (String.length s < fuel)%nat -> exists ht', parse_lines fuel s ht = Done ht'.
Proof.
  induction fuel as [|fuel IH]; intros s ht Hf; [lia|]. cbn [parse_lines].
  destruct (find_crlf s) as [[[|c line] rest]|] eqn:E; [eauto| |eauto].
  apply IH. apply find_crlf_length in E. lia.
Qed.

Lemma parse_total behind raw ht : exists ht', parse_raw_headers_to_assoc_array behind raw ht = Done ht'.
Proof.
  unfold parse_raw_headers_to_assoc_array. case_bool_decide; [eauto|]. apply parse_lines_total. lia.
Qed.

Lemma parse_lines_text lines rest : Forall wf_line lines -> find_crlf rest = None -> forall fuel ht,
  (String.length (text lines ++ rest) < fuel)%nat ->
  parse_lines fuel (text lines ++ rest) ht = Done (foldl (fun ht l => add_line l ht) ht lines).
Proof.
  intros Hl Hr. induction Hl as [|l lines (Hne & Hc & _) _ IH]; intros fuel ht Hf; (destruct fuel as [|fuel]; [lia|]).
  - simpl. by rewrite Hr.
  - cbn [text foldr] in *. fold (text lines) in *. rewrite str_app_assoc, str_app_assoc in *.
    cbn [parse_lines]. rewrite find_crlf_line by done. destruct l as [|c l]; [done|].
    apply IH. rewrite !length_str_app in Hf. simpl in Hf. rewrite length_str_app in *. lia.
Qed.

Lemma cstr_app a b : cstr a = a -> cstr (a ++ b) = a ++ cstr b.
Proof.
  induction a as [|c a IH]; intros Ha; [done|]. simpl in *.
  destruct (decide (c = Ascii.zero)); [discriminate|]. injection Ha as Ha. by rewrite IH.
Qed.

Lemma cstr_text lines t : Forall wf_line lines -> cstr (text lines ++ t) = text lines ++ cstr t.
Proof.
  induction 1 as [|l lines (_ & _ & Hz) _ IH]; [done|]. cbn [text foldr]. fold (text lines).
  rewrite !str_app_assoc, cstr_app by done.
  change (cstr (CRLF ++ text lines ++ t)) with (CRLF ++ cstr (text lines ++ t)). by rewrite IH.
Qed.

Lemma text_app a b : text (a ++ b)%list = text a ++ text b.
Proof. induction a as [|l a IH]; [done|]. simpl. rewrite str_app_assoc. simpl. by rewrite IH. Qed.

(** *** Duplicate names *)

Lemma join_snoc vs v : vs <> [] -> join (vs ++ [v])%list = join vs ++ ", " ++ v.
Proof.
  induction vs as [|x vs IH]; [done|]. intros _. destruct vs as [|y vs]; [done|].
  change (join ((x :: y :: vs) ++ [v])%list) with (x ++ ", " ++ join ((y :: vs) ++ [v])%list).
  rewrite IH by done. cbn [join]. by rewrite !str_app_assoc.
Qed.

Lemma joined_snoc vs v : joined (vs ++ [v]) =
  Some (ZString (match vs with [] => v | _ => join vs ++ ", " ++ v end)).
Proof. destruct vs as [|x vs]; [done|]. unfold joined. rewrite join_snoc by done. done. Qed.

Lemma symtable_key_str s k : symtable_key s = KStr k -> k = s.
Proof. unfold symtable_key. case_match; congruence. Qed.

(** The table after some lines, for a name that is not a decimal number. *)
Lemma lines_lookup k lines : symtable_key k = KStr k ->
  ht_find (KStr k) (foldl (fun ht l => add_line l ht) [] lines) = joined (values_of k lines).
Proof.
  intros Hk. induction lines as [|l lines IH] using rev_ind; [done|].
  rewrite foldl_app. cbn [foldl]. unfold values_of in *. rewrite omap_app. cbn [omap list_omap].
  set (ht := foldl _ _ _) in *. unfold add_line. destruct (header_of l) as [[n v]|]; [|by rewrite app_nil_r].
  unfold add_header. destruct (decide (n = k)) as [->|Hne].
  - rewrite joined_snoc, IH. destruct (omap _ _) as [|x vs]; [cbn [joined]; by rewrite Hk, ht_find_update_eq|].
    cbn [joined]. by rewrite ht_find_update_eq.
  - rewrite app_nil_r, <- IH.
    assert (forall v', ht_find (KStr k) (ht_update (KStr n) v' ht) = ht_find (KStr k) ht) as Hs
      by (intros; apply ht_find_update_ne; congruence).
    assert (forall v', ht_find (KStr k) (ht_update (symtable_key n) v' ht) = ht_find (KStr k) ht) as Hn.
    { intros. apply ht_find_update_ne. intros Heq. symmetry in Heq. apply symtable_key_str in Heq. congruence. }
    case_match; [case_match|]; auto.
Qed.

(* ------------------------------------------------------------------------ *)
(** ** The callbacks *)

(** The header lines that are kept, once the status line has been seen. *)
Definition kept_line (line : string) : bool :=
  negb (bool_decide (line = EmptyString) || bool_decide (line = CRLF)).
Definition is_status (line : string) : bool :=
  negb (bool_decide (line = EmptyString)) && strncmp_eq line "HTTP/" 5.

Fixpoint kept (seen : bool) (ds : list delivery) : list string :=
  match ds with
  | [] => []
  | DHeader l :: ds' =>
      if seen then (if kept_line l then l :: kept true ds' else kept true ds') else kept (is_status l) ds'
  | DBody _ :: ds' => kept seen ds'
  end.

Definition chunks (ds : list delivery) : list string :=
  omap (fun d => match d with DBody c => Some c | _ => None end) ds.

Definition smart_wf (b : smart_str) : Prop := ss_s b = None -> ss_val b = EmptyString.

Lemma appendl_runs b s tr b' : smart_wf b -> runs (smart_str_appendl b s) tr b' ->
  ss_val b' = ss_val b ++ s /\ is_Some (ss_s b').
Proof.
  unfold smart_str_appendl, smart_wf. destruct (ss_s b) as [p|]; intros Hw.
  - intros [_ ->]. eauto.
  - intros (r & tr' & _ & [_ ->]). rewrite Hw by done. eauto.
Qed.

Lemma callbacks_runs ds : forall d body tr d' body',
  smart_wf (headers_buf d) -> smart_wf body -> runs (run_callbacks ds d body) tr (d', body') ->
  ss_val (headers_buf d') = ss_val (headers_buf d) ++ concats (kept (first_line_parsed d) ds) /\
  ss_val body' = ss_val body ++ concats (chunks ds) /\
  (is_Some (ss_s body') <-> is_Some (ss_s body) \/ chunks ds <> []) /\ smart_wf body'.
Proof.
  induction ds as [|[l|c] ds IH]; intros d body tr d' body' Hd Hb Hr; cbn [run_callbacks] in Hr.
  - destruct Hr as [_ [= -> ->]]. simpl. rewrite !str_app_nil. naive_solver.
  - apply runs_bind in Hr as (t1 & t2 & d1 & -> & H1 & H2). unfold header_callback in H1. cbn [kept chunks omap list_omap].
    fold (chunks ds). fold (is_status l) in H1. fold (kept_line l).
    destruct (first_line_parsed d) eqn:Ef; cbn [negb] in H1.
    + unfold kept_line. destruct (_ || _); cbn [negb].
      * destruct H1 as [_ ->]. apply IH in H2; [|done|done]. by rewrite Ef in H2.
      * apply runs_bind in H1 as (t3 & t4 & b & -> & H3 & [_ ->]). apply appendl_runs in H3 as [Hv [p Hp]]; [|done].
        apply IH in H2; [|by unfold smart_wf; simpl; rewrite Hp|done]. simpl in H2. rewrite Hv in H2.
        cbn [concats foldr]. fold (concats (kept true ds)). by rewrite <- str_app_assoc.
    + destruct H1 as [_ ->]. unfold is_status in *. destruct (_ && _).
      * by apply IH in H2.
      * apply IH in H2; [|done|done]. by rewrite Ef in H2.
  - apply runs_bind in Hr as (t1 & t2 & b & -> & H1 & H2). apply appendl_runs in H1 as [Hv [p Hp]]; [|done].
    apply IH in H2; [|done|by unfold smart_wf; rewrite Hp]. destruct H2 as (H3 & H4 & H5 & H6).
    cbn [kept chunks omap list_omap]. fold (chunks ds). cbn [concats foldr]. fold (concats (chunks ds)).
    rewrite Hv, str_app_assoc in H4. split_and!; [done|done| |done].
    rewrite H5, Hp. naive_solver.
Qed.

(* ------------------------------------------------------------------------ *)
(** ** What a request holds *)

Inductive cres := CHandle (h : Z) | CList (l : Z) | CStr (p : Z).
#[export] Instance cres_eq_dec : EqDecision cres.
Proof. solve_decision. Defined.
#[export] Instance cres_countable : Countable cres.
Proof.
  apply (inj_countable (fun r => match r with CHandle h => inl h | CList l => inr (inl l) | CStr p => inr (inr p) end)
    (fun c => Some (match c with inl h => CHandle h | inr (inl l) => CList l | inr (inr p) => CStr p end))).
  by intros [].
Defined.

(** Handles, lists and strings given out are new; a list grows in place, and appending to
    one does not fail (that is, memory does not run out). *)
Definition curl_promise (live : gset cres) (e : cevent) : Prop :=
  match e with
  | Ev EasyInit (Some h) => CHandle h ∉ live
  | Ev (SlistAppend None _) r => exists l, r = Some l /\ CList l ∉ live
  | Ev (SlistAppend (Some l) _) r => r = Some l
  | Ev StrAlloc p => CStr p ∉ live
  | _ => True
  end.

Definition need (r : cres) (live live' : gset cres) : option (gset cres) :=
  if bool_decide (r ∈ live) then Some live' else None.

Definition curl_step (live : gset cres) (e : cevent) : option (gset cres) :=
  match e with
  | Ev EasyInit (Some h) => Some ({[CHandle h]} ∪ live)
  | Ev (SetOpt h _ _) _ | Ev (Perform h) _ | Ev (ResponseCode h) _ => need (CHandle h) live live
  | Ev (EasyCleanup h) _ => need (CHandle h) live (live ∖ {[CHandle h]})
  | Ev (SlistAppend None _) (Some l) => Some ({[CList l]} ∪ live)
  | Ev (SlistAppend (Some l) _) _ => need (CList l) live live
  | Ev (SlistFreeAll (Some l)) _ => need (CList l) live (live ∖ {[CList l]})
  | Ev StrAlloc p => Some ({[CStr p]} ∪ live)
  | Ev (StrRelease p) _ => need (CStr p) live (live ∖ {[CStr p]})
  | _ => Some live
  end.

Definition curl_ownership : protocol cans := Protocol (gset cres) curl_promise curl_step.

Lemma need_in r live live' : r ∈ live -> need r live live' = Some live'.
Proof. intros. unfold need. by rewrite bool_decide_eq_true_2. Qed.

Lemma need_drop r (live live' : gset cres) : live ≡ {[r]} ∪ live' -> r ∉ live' -> need r live (live ∖ {[r]}) = Some live'.
Proof. intros H1%leibniz_equiv H2. rewrite need_in by set_solver. f_equal. set_solver. Qed.

Definition olist (l : option Z) : gset cres := match l with Some l => {[CList l]} | None => ∅ end.
Definition ostr (b : smart_str) : gset cres := match ss_s b with Some p => {[CStr p]} | None => ∅ end.

(** Programs that hold at the end what they held at the start. *)
Definition holds {A} (p : curl A) (live : gset cres) (Q : A -> Prop) : Prop :=
  safe curl_ownership p live (fun a live' => live' = live /\ Q a).

Lemma safe_setopt {A} h o v (k : unit -> curl A) live Q : CHandle h ∈ live ->
  safe curl_ownership (k tt) live Q -> safe curl_ownership (Call (SetOpt h o v) k) live Q.
Proof. intros Hh Hk [] _. exists live. split; [by apply need_in|done]. Qed.

Lemma holds_bind {A B} (p : curl A) (f : A -> curl B) live (R : A -> Prop) Q :
  holds p live R -> (forall a, R a -> safe curl_ownership (f a) live Q) -> safe curl_ownership (io_bind p f) live Q.
Proof.
  intros Hp Hf. apply safe_bind. eapply (safe_mono curl_ownership); [exact Hp|]. intros a s' [-> Ha]. auto.
Qed.

Lemma holds_set_options h l : forall live, CHandle h ∈ live -> holds (set_options h l) live (fun _ => True).
Proof.
  induction l as [|[o v] l IH]; intros live Hh; [done|]. apply safe_setopt; [done|]. by apply IH.
Qed.

Lemma holds_set_longs h l : forall live, CHandle h ∈ live -> holds (set_longs h l) live (fun _ => True).
Proof.
  induction l as [|[o v] l IH]; intros live Hh; [done|]. apply safe_setopt; [done|]. by apply IH.
Qed.

Lemma safe_append_headers es : forall live l Q, olist l ⊆ live ->
  (forall l' live', live' = olist l' ∪ live -> (is_Some l -> l' = l) -> Q l' live') ->
  safe curl_ownership (append_headers es l) live Q.
Proof.
  induction es as [|e es IH]; intros live l Q Hl HQ; cbn [append_headers].
  { apply HQ; [set_solver|done]. }
  destruct (request_line e) as [line|]; [|by apply IH].
  intros tmp Htmp. simpl in Htmp. eexists. split; [reflexivity|]. intros r Hr.
  destruct l as [l|]; simpl in Hr, Hl.
  - subst r. exists ({[CStr tmp]} ∪ live). split; [apply need_in; set_solver|]. intros [] _.
    exists live. split; [apply need_drop; set_solver|].
    apply IH; [done|]. intros l' live' Hl' Hs. by apply HQ.
  - destruct Hr as (l & -> & Hf). exists ({[CList l]} ∪ ({[CStr tmp]} ∪ live)). split; [done|]. intros [] _.
    exists ({[CList l]} ∪ live). split; [apply need_drop; set_solver|].
    apply IH; [set_solver|]. intros l' live' -> Hs. specialize (Hs (ltac:(eauto))). subst l'.
    apply HQ; [set_solver|]. by intros [? ?].
Qed.

Lemma safe_request_headers h o live (Q : option Z -> pstate curl_ownership -> Prop) :
  CHandle h ∈ live -> (forall l, Q l (live ∪ olist l)) -> safe curl_ownership (set_request_headers h o) live Q.
Proof.
  intros Hh HQ. destruct o as [es|]; cbn [set_request_headers].
  2:{ specialize (HQ None). cbn [olist] in HQ. by rewrite (right_id_L ∅ (∪)) in HQ. }
  apply safe_bind. apply safe_append_headers; [set_solver|]. intros l live' -> _. rewrite (comm_L (∪)).
  destruct l as [l|]; [|apply HQ]. apply safe_setopt; [set_solver|apply HQ].
Qed.

Lemma holds_request_body h m b live : CHandle h ∈ live -> holds (set_request_body h m b) live (fun _ => True).
Proof.
  intros Hh. unfold set_request_body. repeat first [done|apply safe_setopt; [done|]|case_match].
Qed.

(** An option of the table other than [resolve_host] holds nothing. *)
Definition listless (r : rule) : bool := match r with IfStringList _ => false | _ => true end.

Section Options.
Variable macro : curlopt -> bool.
Variable zend_is_false : zval -> bool.
Variable curl_easy_strerror : Z -> string.

Lemma holds_apply_rule h r v live : CHandle h ∈ live -> listless r = true ->
  holds (apply_rule zend_is_false h r v) live (fun _ => True).
Proof.
  intros Hh Hl. destruct r; [| | | |done|]; destruct v; cbn [apply_rule];
    repeat first [by apply holds_set_longs | done | apply safe_setopt; [done|done] | case_match].
Qed.

Lemma holds_apply_entries h opts es live : CHandle h ∈ live -> forallb (fun e => listless (e_rule e)) es = true ->
  holds (apply_entries macro zend_is_false h opts es) live (fun _ => True).
Proof.
  intros Hh. induction es as [|e es IH]; [done|]. intros [He Hes]%andb_true_iff. cbn [apply_entries].
  apply (holds_bind _ _ _ (fun _ => True)); [|intros; by apply IH]. unfold apply_entry. case_match; [done|].
  case_match; [by apply holds_apply_rule|done].
Qed.

(** What [resolve_host] leaves behind. *)
Definition resolves (options_array : option hashtable) : Prop :=
  exists opts s, options_array = Some opts /\ ht_find (KStr "resolve_host") opts = Some (ZString s).

Definition leaks (options_array : option hashtable) (live live' : gset cres) : Prop :=
  (~ resolves options_array -> live' = live) /\
  (resolves options_array -> exists l, (CList l ∉ live) /\ live' = {[CList l]} ∪ live).

Lemma resolves_dec o : resolves o \/ ~ resolves o.
Proof.
  destruct o as [opts|]; [|right; by intros (? & ? & ? & _)].
  destruct (ht_find (KStr "resolve_host") opts) as [v|] eqn:E; [destruct v|];
    try (right; intros (? & ? & [= <-] & ?); congruence).
  left. eexists _, _. eauto.
Qed.

Lemma leaks_subset o live live' : leaks o live live' -> live ⊆ live'.
Proof.
  intros [Hn Hy]. destruct (resolves_dec o) as [Hr|Hr]; [destruct (Hy Hr) as (l & _ & ->)|rewrite (Hn Hr)]; set_solver.
Qed.

Lemma safe_apply_options h o live : CHandle h ∈ live ->
  safe curl_ownership (apply_options macro zend_is_false h o) live (fun _ live' => leaks o live live').
Proof.
  intros Hh. destruct o as [opts|]; cbn [apply_options].
  2:{ split; [done|]. by intros (? & ? & ? & _). }
  do 2 (eapply holds_bind; [by apply holds_apply_entries|intros [] _]).
  apply safe_bind. unfold dns_options. cbn [apply_entries]. apply safe_bind. unfold apply_entry at 1.
  cbn [e_ifdef e_name e_rule always andb].
  assert (Hrest : forall live', CHandle h ∈ live' -> leaks (Some opts) live live' ->
    safe curl_ownership (apply_entries macro zend_is_false h opts (tail dns_options)) live' (fun _ live1 =>
      safe curl_ownership (let* _ := apply_entries macro zend_is_false h opts proxy_options in
        let* _ := apply_entries macro zend_is_false h opts transfer_options in
        apply_entries macro zend_is_false h opts ifdef_options) live1 (fun _ l2 => leaks (Some opts) live l2))).
  { intros live' Hh' Hl. eapply (safe_mono curl_ownership); [by apply holds_apply_entries|]. intros [] ? [-> _].
    do 2 (eapply holds_bind; [by apply holds_apply_entries|intros [] _]).
    eapply (safe_mono curl_ownership); [by apply holds_apply_entries|]. intros [] ? [-> _]. done. }
  assert (Hkeep : ~ resolves (Some opts) -> leaks (Some opts) live live) by (intros Hn; split; [done|by intros ?]).
  destruct (ht_find (KStr "resolve_host") opts) as [v|] eqn:Ef.
  2:{ apply Hrest; [done|]. apply Hkeep. intros (? & ? & [= <-] & ?). congruence. }
  destruct v as [| | | | | |s| | | |]; cbn [apply_rule];
    try (apply Hrest; [done|]; apply Hkeep; intros (? & ? & [= <-] & ?); congruence).
  intros r (l & -> & Hl). eexists. split; [reflexivity|]. apply safe_setopt; [set_solver|].
  apply Hrest; [set_solver|]. split; [intros []; exists opts, s; done|]. intros _. by exists l.
Qed.

End Options.

(** The strings of the two buffers, beside everything else. *)
Definition buffers (live base : gset cres) (b1 b2 : smart_str) : Prop :=
  live = ostr b1 ∪ ostr b2 ∪ base /\ ostr b1 ## ostr b2 /\ ostr b1 ∪ ostr b2 ## base.

Lemma buffers_swap live base b1 b2 : buffers live base b1 b2 -> buffers live base b2 b1.
Proof. intros (-> & ? & ?). split_and!; set_solver. Qed.

Lemma safe_appendl b s b2 live base (Q : smart_str -> pstate curl_ownership -> Prop) : buffers live base b b2 ->
  (forall b' live', buffers live' base b' b2 -> Q b' live') -> safe curl_ownership (smart_str_appendl b s) live Q.
Proof.
  intros Hb HQ. unfold smart_str_appendl. destruct (ss_s b) as [p|] eqn:E.
  - apply HQ. unfold buffers, ostr in *. by rewrite E in Hb.
  - intros p Hp. simpl in Hp. eexists. split; [reflexivity|]. apply HQ. unfold buffers, ostr in *. rewrite E in Hb.
    simpl. destruct Hb as (-> & ? & ?). split_and!; set_solver.
Qed.

Lemma safe_callbacks ds : forall d body live base, buffers live base (headers_buf d) body ->
  safe curl_ownership (run_callbacks ds d body) live (fun r live' => buffers live' base (headers_buf r.1) r.2).
Proof.
  induction ds as [|[l|c] ds IH]; intros d body live base Hb; cbn [run_callbacks]; [done| |].
  - apply safe_bind. unfold header_callback. case_match; [case_match; by apply IH|].
    case_match; [by apply IH|]. apply safe_bind. eapply safe_appendl; [done|]. intros b' live' Hb'. by apply IH.
  - apply safe_bind. eapply safe_appendl; [by apply buffers_swap|].
    intros b' live' Hb'%buffers_swap. by apply IH.
Qed.

Lemma safe_smart_free {A} b b2 live base (k : unit -> curl A) Q : buffers live base b b2 ->
  safe curl_ownership (k tt) (ostr b2 ∪ base) Q -> safe curl_ownership (io_bind (smart_str_free b) k) live Q.
Proof.
  intros (-> & Hd & Hb) Hk. revert Hd Hb. generalize (ostr b2) as s2, Hk. clear Hk. intros s2 Hk.
  unfold smart_str_free, ostr. destruct (ss_s b) as [p|]; intros Hd Hb.
  - intros [] _. exists (s2 ∪ base). split; [apply need_drop; set_solver|exact Hk].
  - cbn [io_bind]. by rewrite (left_id_L ∅ (∪)).
Qed.

Lemma safe_cleanup h body hb l live base :
  buffers live base hb body -> olist l ⊆ base -> CHandle h ∈ base ->
  safe curl_ownership (cleanup h body hb l) live (fun _ live' => live' = base ∖ olist l ∖ {[CHandle h]}).
Proof.
  intros Hb Hl Hh. unfold cleanup. eapply safe_smart_free; [by apply buffers_swap|].
  apply (safe_smart_free _ smart_empty _ base).
  { destruct Hb as (-> & ? & ?). unfold buffers. cbn [ostr smart_empty ss_s]. split_and!; set_solver. }
  cbn [ostr smart_empty ss_s]. rewrite (left_id_L ∅ (∪)). intros [] _.
  exists (base ∖ olist l). split.
  { destruct l as [l|]; simpl; [by apply need_in; set_solver|]. f_equal. set_solver. }
  intros [] _. eexists. split; [apply need_in|done]. destruct l; set_solver.
Qed.

(* ------------------------------------------------------------------------ *)
(** ** The properties *)

(** C10: The response headers: under each name that is not a decimal number the array has
    the values of all lines with that name, in any case, joined with commas in their
    order.  The lines are those of the buffer and, because the buffer is not terminated,
    also those that happen to lie behind it in memory. *)
Theorem response_headers_exact lines stale rest :
  lines <> [] -> Forall wf_line lines -> Forall wf_line stale -> find_crlf (cstr rest) = None ->
  exists ht, parse_raw_headers_to_assoc_array (text stale ++ rest) (text lines) [] = Done ht /\
    forall k, symtable_key k = KStr k -> ht_find (KStr k) ht = joined (values_of k (lines ++ stale)).
Proof.
  intros Hne Hl Hs Hr. exists (foldl (fun ht l => add_line l ht) [] (lines ++ stale)).
  split; [|intros; by apply lines_lookup]. unfold parse_raw_headers_to_assoc_array.
  rewrite bool_decide_eq_false_2 by (destruct Hl as [|l ? [? _]]; [done|]; by destruct l).
  rewrite cstr_text, cstr_text by done. rewrite <- str_app_assoc, <- text_app.
  apply parse_lines_text; [by apply Forall_app|done|lia].
Qed.

(** What [curl_easy_perform] and [curl_easy_getinfo] answered. *)
Definition performs (tr : list cevent) : list (Z * list delivery) :=
  omap (fun e : cevent => match e return option (Z * list delivery) with Ev (Perform _) r => Some r | _ => None end) tr.
Definition codes (tr : list cevent) : list Z :=
  omap (fun e : cevent => match e return option Z with Ev (ResponseCode _) r => Some r | _ => None end) tr.

Definition quiet (o : cop) : Prop := match o with Perform _ | ResponseCode _ => False | _ => True end.

Lemma quiet_none tr : Forall (fun e => quiet (ev_op e)) tr -> performs tr = [] /\ codes tr = [].
Proof. induction 1 as [|[o r] tr Ho _ [H1 H2]]; [done|]. by destruct o. Qed.

Lemma quiet_app tr1 tr2 : Forall (fun e => quiet (ev_op e)) tr1 ->
  performs (tr1 ++ tr2) = performs tr2 /\ codes (tr1 ++ tr2) = codes tr2.
Proof. intros [H1 H2]%quiet_none. unfold performs, codes in *. by rewrite !omap_app, H1, H2. Qed.

(** Most of a request: no transfer, and the certificate checks left alone. *)
Definition harmless (o : curlopt) : bool :=
  match o with CURLOPT_SSL_VERIFYPEER | CURLOPT_SSL_VERIFYHOST => false | _ => true end.
Definition plain (o : cop) : Prop :=
  match o with Perform _ | ResponseCode _ => False | SetOpt _ o' _ => harmless o' = true | _ => True end.

Lemma plain_quiet {A} (p : curl A) : calls_only plain p -> calls_only quiet p.
Proof. apply calls_only_mono. by intros []. Qed.

Ltac quiet_step := calls_only_step ltac:(first [exact I|reflexivity]).

Lemma plain_basic h url method : calls_only plain (set_options h (basic_options url method)).
Proof. cbn [set_options basic_options]. repeat quiet_step. Qed.
Lemma plain_append_headers es : forall l, calls_only plain (append_headers es l).
Proof.
  induction es as [|e es IH]; intros l; cbn [append_headers]; [quiet_step|].
  case_match; repeat first [apply IH|quiet_step].
Qed.
Lemma plain_request_headers h o : calls_only plain (set_request_headers h o).
Proof.
  unfold set_request_headers. repeat first [apply plain_append_headers|quiet_step|case_match].
Qed.
Lemma plain_request_body h m b : calls_only plain (set_request_body h m b).
Proof. unfold set_request_body. repeat first [quiet_step|case_match]. Qed.
Lemma plain_callbacks ds : forall d b, calls_only plain (run_callbacks ds d b).
Proof.
  induction ds as [|[] ds IH]; intros d b; cbn [run_callbacks]; [quiet_step|..]; (quiet_step; [|apply IH]);
    unfold header_callback, write_callback, smart_str_appendl; repeat first [quiet_step|case_match].
Qed.
Lemma plain_cleanup h b1 b2 l : calls_only plain (cleanup h b1 b2 l).
Proof. unfold cleanup, smart_str_free. repeat first [quiet_step|case_match]. Qed.

Lemma quiet_set_longs h l : calls_only quiet (set_longs h l).
Proof. induction l as [|[] l IH]; cbn [set_longs]; repeat first [exact IH|quiet_step]. Qed.
Lemma quiet_apply_entries mac zif h opts es : calls_only quiet (apply_entries mac zif h opts es).
Proof.
  induction es as [|e es IH]; cbn [apply_entries]; [quiet_step|]. quiet_step; [|apply IH].
  unfold apply_entry, apply_rule. repeat first [apply quiet_set_longs|quiet_step|case_match].
Qed.
Lemma quiet_apply_options mac zif h o : calls_only quiet (apply_options mac zif h o).
Proof. unfold apply_options. repeat first [apply quiet_apply_entries|quiet_step|case_match]. Qed.

(** The body of the array: nothing arrived, or it points to the string in which the
    callbacks joined the pieces, and that string was released before the return. *)
Definition body_returned (ds : list delivery) (tr : list cevent) (body : body_ref) : Prop :=
  exists pre t0 post d b, tr = (pre ++ t0 ++ post)%list /\
    runs (run_callbacks ds (mkHeaderData smart_empty false) smart_empty) t0 (d, b) /\
    ss_val b = concats (chunks ds) /\
    match body with
    | EmptyInterned => chunks ds = []
    | Heap p => chunks ds <> [] /\ ss_s b = Some p /\ Ev (StrRelease p) tt ∈ post
    end.

(** The value a request returns, from what libcurl delivered. *)
Definition expected (behind : string) (tr : list cevent) (r : outcome unit http_result) : Prop :=
  match performs tr with
  | [] => r = Done HFalse
  | _ :: _ :: _ => False
  | [(res, ds)] =>
      if res =? 0 then
        exists code body headers, codes tr = [code] /\ r = Done (HResponse code body headers) /\
          body_returned ds tr body /\
          parse_raw_headers_to_assoc_array behind (concats (kept false ds)) [] = Done headers
      else r = Done HFalse
  end.

Lemma expected_quiet {A} behind (p : curl A) t1 a t2 r : calls_only quiet p -> runs p t1 a ->
  expected behind t2 r -> expected behind (t1 ++ t2) r.
Proof.
  intros Hp Hr%Hp. unfold expected. destruct (quiet_app t1 t2 Hr) as [-> ->].
  destruct (performs t2) as [|[res ds] [|]]; [done| |done]. destruct (res =? 0); [|done].
  intros (code & body & headers & ? & ? & (pre & t0 & post & d & b & -> & ?) & ?). exists code, body, headers.
  split_and!; [done|done| |done]. exists (t1 ++ pre)%list, t0, post, d, b. by rewrite <-app_assoc.
Qed.

(** The end of a successful request. *)
Lemma expected_success behind h c (ds : list delivery) t0 t1 d body code headers t2 l u :
  runs (run_callbacks ds (mkHeaderData smart_empty false) smart_empty) t0 (d, body) ->
  t1 = Ev (ResponseCode h) code :: t2 -> runs (cleanup c body (headers_buf d) l) t2 u ->
  parse_raw_headers_to_assoc_array behind (ss_val (headers_buf d)) [] = Done headers ->
  expected behind (Ev (Perform h) (0, ds) :: t0 ++ t1) (Done (HResponse code (body_of body) headers)).
Proof.
  intros H0 -> H2 Hp. unfold expected.
  pose proof (plain_quiet _ (plain_callbacks _ _ _) _ _ H0) as Hq0.
  destruct (quiet_none _ (plain_quiet _ (plain_cleanup _ _ _ _) _ _ H2)) as [Hp2 Hc2].
  change (performs (Ev (Perform h) (0, ds) :: t0 ++ Ev (ResponseCode h) code :: t2)) with
    ((0, ds) :: performs (t0 ++ Ev (ResponseCode h) code :: t2)).
  change (codes (Ev (Perform h) (0, ds) :: t0 ++ Ev (ResponseCode h) code :: t2)) with
    (codes (t0 ++ Ev (ResponseCode h) code :: t2)).
  destruct (quiet_app t0 (Ev (ResponseCode h) code :: t2) Hq0) as [-> ->].
  cbn [performs codes omap list_omap]. fold (performs t2). fold (codes t2). rewrite Hp2, Hc2. cbn [Z.eqb].
  pose proof H0 as (Hh & Hb & Hs & _)%callbacks_runs; [|done|done]. cbn in Hh, Hb, Hs.
  exists code, (body_of body), headers. split_and!; [done|done| |by rewrite <- Hh].
  exists [Ev (Perform h) (0, ds)], t0, (Ev (ResponseCode h) code :: t2), d, body. split_and!; [done|done|done|].
  unfold body_of. destruct (ss_s body) as [p|] eqn:E.
  - split_and!; [|done|].
    + destruct (proj1 Hs) as [[? [=]]|?]; [eauto|done].
    + unfold cleanup, smart_str_free in H2. rewrite E in H2. destruct H2 as ([] & t3 & -> & _). set_solver.
  - destruct (decide (chunks ds = [])) as [|Hne]; [done|]. destruct (proj2 Hs) as [? [=]]. by right.
Qed.

(** C26: A request performs at most once.  When libcurl succeeds it returns an array with the
    status code, the headers parsed from the header lines after the first status line (those
    of later responses included, when redirects are followed), and a body: the empty string
    when no piece of a body arrived, and otherwise the string in which all pieces were joined
    in order, which has been released by then.  It returns [false] when libcurl fails or does
    not start. *)
Theorem http_request_correct mac zif strerror behind url method hdrs body opts tr r :
  runs (quicpro_http_request_send mac zif strerror behind url method hdrs body opts) tr r -> expected behind tr r.
Proof.
  intros Hr. destruct Hr as ([h|] & t0 & -> & Hr); [|by destruct Hr as (? & ? & -> & -> & ->)].
  change (expected behind ([Ev EasyInit (Some h)] ++ t0) r).
  apply (expected_quiet _ (csys EasyInit) _ (Some h)); [repeat quiet_step|simpl; eauto|]. cbn [io_bind] in Hr.
  apply runs_bind in Hr as (? & ? & ? & -> & H1 & Hr). eapply expected_quiet; [apply plain_quiet, plain_basic|exact H1|].
  apply runs_bind in Hr as (? & ? & l & -> & H2 & Hr). eapply expected_quiet; [apply plain_quiet, plain_request_headers|exact H2|].
  apply runs_bind in Hr as (? & ? & ? & -> & H3 & Hr). eapply expected_quiet; [apply plain_quiet, plain_request_body|exact H3|].
  apply runs_bind in Hr as (? & ? & ? & -> & H4 & Hr). eapply expected_quiet; [apply quiet_apply_options|exact H4|].
  destruct Hr as ([res ds] & ? & -> & Hr). cbn [io_bind] in Hr. apply runs_bind in Hr as (t1 & t2 & [d b] & -> & H5 & Hr).
  destruct (Z.eqb_spec res 0) as [->|Hne]; cbn [negb] in Hr.
  - destruct Hr as (code & t3 & -> & Hr). cbn [io_bind] in Hr.
    destruct (parse_total behind (ss_val (headers_buf d)) []) as [headers Ep]. rewrite Ep in Hr.
    apply runs_bind in Hr as (? & ? & u & -> & H6 & [-> ->]). rewrite app_nil_r. by eapply expected_success.
  - apply (plain_quiet _ (plain_callbacks _ _ _)) in H5. destruct Hr as ([] & t3 & -> & Hr). cbn [io_bind] in Hr.
    apply runs_bind in Hr as (? & ? & u & -> & H6 & [-> ->]). rewrite app_nil_r. apply (plain_quiet _ (plain_cleanup _ _ _ _)) in H6.
    assert (Hq : Forall (fun e => quiet (ev_op e)) (t1 ++ Ev (ThrowMcp ("cURL request failed: " ++ strerror res)) tt :: x4))
      by (apply Forall_app; split; [done|by constructor]).
    apply quiet_none in Hq as [Hq _]. unfold expected.
    match goal with |- context [performs (?e :: ?t)] => change (performs (e :: t)) with ((res, ds) :: performs t) end.
    rewrite Hq. apply Z.eqb_neq in Hne. by rewrite Hne.
Qed.

(** What a request holds at its end. *)
Definition leftover (opts : option hashtable) (r : outcome unit http_result) (live' : gset cres) : Prop :=
  (live' = ∅ \/ (resolves opts /\ exists l, live' = {[CList l]})) /\
  (r <> Done HFalse -> resolves opts -> exists l, live' = {[CList l]}).

Lemma leftover_leaks opts r h l live2 :
  leaks opts ({[CHandle h]} ∪ olist l) live2 -> leftover opts r (live2 ∖ olist l ∖ {[CHandle h]}).
Proof.
  intros [Hn Hy]. destruct (resolves_dec opts) as [Hres|Hno].
  - destruct (Hy Hres) as (l0 & Hf & ->).
    assert (({[CList l0]} ∪ ({[CHandle h]} ∪ olist l)) ∖ olist l ∖ {[CHandle h]} = ({[CList l0]} : gset cres)) as ->
      by set_solver.
    split; [right|]; eauto.
  - rewrite (Hn Hno). split; [left; set_solver|done].
Qed.

Lemma safe_request mac zif strerror behind url method hdrs body opts :
  safe curl_ownership (quicpro_http_request_send mac zif strerror behind url method hdrs body opts) ∅ (leftover opts).
Proof.
  intros [h|] Hf.
  2:{ exists ∅. split; [done|]. intros [] _. exists ∅. split; [done|]. by split; [left|]. }
  eexists. split; [reflexivity|]. cbn [io_bind]. rewrite (right_id_L ∅ (∪)).
  eapply holds_bind; [apply holds_set_options; set_solver|]. intros [] _.
  apply safe_bind.
  apply safe_request_headers; [set_solver|]. intros l.
  eapply holds_bind; [apply holds_request_body; set_solver|]. intros [] _.
  apply safe_bind. eapply (safe_mono curl_ownership); [apply safe_apply_options; set_solver|].
  intros [] live2 Hl. assert (Hin : {[CHandle h]} ∪ olist l ⊆ live2) by by eapply leaks_subset.
  intros [res ds] _. exists live2. split; [apply need_in; set_solver|]. cbn [io_bind].
  apply safe_bind. eapply (safe_mono curl_ownership); [apply (safe_callbacks ds _ _ live2 live2)|].
  { unfold buffers. cbn [ostr smart_empty ss_s headers_buf]. split_and!; set_solver. }
  intros [d b] live3 Hb. cbn [fst snd] in Hb. destruct (negb _).
  - intros [] _. exists live3. split; [done|]. cbn [io_bind]. apply safe_bind.
    eapply (safe_mono curl_ownership); [eapply safe_cleanup; [exact Hb|set_solver..]|].
    intros [] ? ->. by apply leftover_leaks.
  - intros code _. exists live3. split; [apply need_in; destruct Hb as (-> & _); set_solver|]. cbn [io_bind].
    destruct (parse_total behind (ss_val (headers_buf d)) []) as [headers ->]. apply safe_bind.
    eapply (safe_mono curl_ownership); [eapply safe_cleanup; [exact Hb|set_solver..]|].
    intros [] ? ->. by apply leftover_leaks.
Qed.

(** C37: A request uses and releases every handle, list and string properly, whatever
    libcurl answers, and at its end holds nothing, except the list of [resolve_host],
    which is never freed; so the body it returns, when one was received, is a string that
    has been released. *)
Theorem http_request_resources mac zif strerror behind url method hdrs body opts live tr r :
  live = ∅ -> runs (quicpro_http_request_send mac zif strerror behind url method hdrs body opts) tr r ->
  honest curl_ownership live tr ->
  exists live', psteps curl_ownership live tr = Some live' /\ leftover opts r live' /\
    (forall status p headers, r = Done (HResponse status (Heap p) headers) -> CStr p ∉ live').
Proof.
  intros -> Hr Hh.
  destruct (safe_runs curl_ownership _ ∅ _ tr r (safe_request mac zif strerror behind url method hdrs body opts) Hr Hh)
    as (live' & Hs & Hl).
  exists live'. split_and!; [done|done|]. intros. destruct Hl as [[->|(_ & l & ->)] _]; set_solver.
Qed.

(* ------------------------------------------------------------------------ *)
(** ** Certificate checks *)

(** An option array asks for a check to be left out. *)
Definition asks (zif : zval -> bool) (opts : option hashtable) (name : string) : Prop :=
  exists ht v, opts = Some ht /\ ht_find (KStr name) ht = Some v /\ zif v = true.

Definition checked_call (zif : zval -> bool) (opts : option hashtable) (o : cop) : Prop :=
  match o with
  | SetOpt _ CURLOPT_SSL_VERIFYPEER v => v = VLong 0 /\ asks zif opts "verify_peer"
  | SetOpt _ CURLOPT_SSL_VERIFYHOST v => v = VLong 0 /\ asks zif opts "verify_host"
  | _ => True
  end.

(** Entries that leave the checks alone or are the ones meant to change them. *)
Definition harmless_rule (e : entry) : bool :=
  match e_rule e with
  | IfFalse CURLOPT_SSL_VERIFYPEER => bool_decide (e_name e = "verify_peer")
  | IfFalse CURLOPT_SSL_VERIFYHOST => bool_decide (e_name e = "verify_host")
  | Cases _ cases other => forallb (fun p => harmless p.1) (concat (map snd cases) ++ other)%list
  | r => harmless (rule_opt r)
  end.

Lemma harmless_checked zif opts h o v : harmless o = true -> checked_call zif opts (SetOpt h o v).
Proof. by destruct o. Qed.

Lemma choose_in {A} s (cases : list (string * list A)) other x :
  x ∈ choose s cases other -> x ∈ (concat (map snd cases) ++ other)%list.
Proof.
  induction cases as [|[y a] cases IH]; simpl; [done|]. destruct (decide (s = y)); [set_solver|].
  intros Hx%IH. set_solver.
Qed.

Lemma checked_set_longs zif opts h l : forallb (fun p => harmless p.1) l = true ->
  calls_only (checked_call zif opts) (set_longs h l).
Proof.
  induction l as [|[o n] l IH]; cbn [set_longs forallb]; [intros; apply calls_only_ret|].
  intros [Ho Hl]%andb_true_iff. apply calls_only_call; [by apply harmless_checked|]. intros []. by apply IH.
Qed.

Lemma checked_rule zif ht h e v : harmless_rule e = true -> ht_find (KStr (e_name e)) ht = Some v ->
  calls_only (checked_call zif (Some ht)) (apply_rule zif h (e_rule e) v).
Proof.
  destruct e as [name i r]. unfold harmless_rule. cbn [e_rule e_name]. intros Hr Hf.
  destruct r as [o|o|o|o|o|o cases other]; cbn [rule_opt] in Hr.
  6:{ destruct v; try apply calls_only_ret. apply checked_set_longs, forallb_forall. intros p Hp%list_elem_of_In%choose_in.
      rewrite forallb_forall in Hr. by apply Hr, list_elem_of_In. }
  4:{ cbn [apply_rule]. destruct (zif v) eqn:Ez; [|apply calls_only_ret].
      apply calls_only_call; [|intros; apply calls_only_ret].
      destruct o; try exact I; apply bool_decide_eq_true in Hr; subst name; (split; [done|]); by exists ht, v. }
  all: cbn [apply_rule]; destruct v; cbv beta iota; try case_match; try apply calls_only_ret;
    repeat calls_only_step ltac:(first [exact I|by apply harmless_checked]).
Qed.

Lemma checked_entries mac zif ht h es : forallb harmless_rule es = true ->
  calls_only (checked_call zif (Some ht)) (apply_entries mac zif h ht es).
Proof.
  induction es as [|e es IH]; cbn [apply_entries forallb]; [intros; apply calls_only_ret|].
  intros [He Hes]%andb_true_iff. apply calls_only_bind; [|by intros; apply IH].
  unfold apply_entry. case_match; [apply calls_only_ret|].
  destruct (ht_find _ ht) eqn:Ef; [by apply checked_rule|apply calls_only_ret].
Qed.

Lemma checked_plain {A} zif opts (p : curl A) : calls_only plain p -> calls_only (checked_call zif opts) p.
Proof. apply calls_only_mono. intros [] Ho; try done. by apply harmless_checked. Qed.

(** The peer certificate and the host name are checked unless the options say so: the
    two settings are changed only when the option of that name is there and false. *)
Theorem verification_only_on_request mac zif strerror behind url method hdrs body opts tr r :
  runs (quicpro_http_request_send mac zif strerror behind url method hdrs body opts) tr r ->
  Forall (fun e => checked_call zif opts (ev_op e)) tr.
Proof.
  revert tr r. change (calls_only (checked_call zif opts)
    (quicpro_http_request_send mac zif strerror behind url method hdrs body opts)).
  apply calls_only_call; [exact I|]. intros [h|]; cbn [io_bind]; [|by repeat calls_only_step ltac:(exact I)].
  apply calls_only_bind; [apply checked_plain, plain_basic|intros _].
  apply calls_only_bind; [apply checked_plain, plain_request_headers|intros l].
  apply calls_only_bind; [apply checked_plain, plain_request_body|intros _].
  apply calls_only_bind.
  { destruct opts as [ht|]; [|apply calls_only_ret]. cbn [apply_options].
    repeat (apply calls_only_bind; [by apply checked_entries|intros _]). by apply checked_entries. }
  intros _. apply calls_only_call; [exact I|]. intros [res ds]. cbn [io_bind].
  apply calls_only_bind; [apply checked_plain, plain_callbacks|].
  intros [d b]. repeat first [apply checked_plain, plain_cleanup|calls_only_step ltac:(exact I)|case_match].
Qed.

(* ------------------------------------------------------------------------ *)
(** ** A concrete request *)

Module HttpDemo.
(** A libcurl that gets one response with two header lines of the same name and a body in
    two pieces. *)
Definition curl_world (o : cop) (n : Z) : cans o * Z :=
  (match o return cans o with
   | EasyInit => Some n
   | SlistAppend None _ => Some n
   | SlistAppend (Some l) _ => Some l
   | Perform _ => (0, [DHeader ("HTTP/1.1 200 OK" ++ CRLF); DHeader ("Vary: a" ++ CRLF); DHeader ("VARY:b" ++ CRLF);
                       DHeader CRLF; DBody "he"; DBody "llo"])
   | ResponseCode _ => 200
   | StrAlloc => n
   | _ => tt
   end, n + 1).

Definition opts : option hashtable :=
  Some [(KStr "verify_peer", ZFalse); (KStr "resolve_host", ZString "h:80:1.2.3.4")].
Definition no_macro (_ : curlopt) : bool := false.
Definition is_false (v : zval) : bool := negb (zend_is_true v).
Definition send_run := exec curl_world
  (quicpro_http_request_send no_macro is_false (fun _ => "error") "" "http://h/" "GET"
     (Some [(KStr "A", ZString "1"); (KInt 0, ZString "x"); (KStr "B", ZString "2")]) None opts) 1.

(** Deciding honesty of a run. *)
Definition promiseb (live : gset cres) (e : cevent) : bool :=
  match e with
  | Ev EasyInit (Some h) => bool_decide (CHandle h ∉ live)
  | Ev (SlistAppend None _) (Some l) => bool_decide (CList l ∉ live)
  | Ev (SlistAppend None _) None => false
  | Ev (SlistAppend (Some l) _) r => bool_decide ((r : option Z) = Some l)
  | Ev StrAlloc p => bool_decide (CStr p ∉ live)
  | _ => true
  end.
Fixpoint honest_run (live : gset cres) (tr : list cevent) : bool :=
  match tr with
  | [] => true
  | e :: tr' => promiseb live e && match curl_step live e with Some l => honest_run l tr' | None => true end
  end.
Lemma honest_run_sound tr : forall live, honest_run live tr = true -> honest curl_ownership live tr.
Proof.
  induction tr as [|e tr IH]; intros live; simpl; [done|]. intros [Hp Hh]%andb_true_iff. split.
  - destruct e as [[| |[l|]| | | | | | |] r]; simpl in *; try done; try (by apply bool_decide_eq_true in Hp).
    + destruct r; [by apply bool_decide_eq_true in Hp|done].
    + destruct r as [l|]; [|done]. apply bool_decide_eq_true in Hp. eauto.
  - intros s' Hs. rewrite Hs in Hh. by apply IH.
Qed.
End HttpDemo.
Import HttpDemo.

Lemma response_headers_exact_witness : exists ht,
  parse_raw_headers_to_assoc_array (text ["old: z"] ++ "") (text ["Vary: a"; "VARY:b"]) [] = Done ht /\
  ht_find (KStr "vary") ht = Some (ZString "a, b") /\ ht_find (KStr "old") ht = Some (ZString "z").
Proof.
  destruct (response_headers_exact ["Vary: a"; "VARY:b"] ["old: z"] "") as (ht & H1 & H2);
    [done|by repeat constructor|by repeat constructor|done|].
  exists ht. split; [done|]. split; [rewrite (H2 "vary") by done|rewrite (H2 "old") by done]; reflexivity.
Defined.

Lemma http_request_correct_witness : expected "" send_run.1.2 send_run.1.1 /\
  send_run.1.1 = Done (HResponse 200 (Heap 24) [(KStr "vary", ZString "a, b")]).
Proof.
  split; [|vm_compute; reflexivity].
  apply (http_request_correct no_macro is_false (fun _ => "error") "" "http://h/" "GET"
    (Some [(KStr "A", ZString "1"); (KInt 0, ZString "x"); (KStr "B", ZString "2")]) None opts).
  apply exec_runs.
Defined.

Lemma http_request_resources_witness : exists live',
  psteps curl_ownership ∅ send_run.1.2 = Some live' /\ (CStr 24 ∉ live') /\ live' = {[CList 20]}.
Proof.
  destruct (http_request_resources no_macro is_false (fun _ => "error") "" "http://h/" "GET"
    (Some [(KStr "A", ZString "1"); (KInt 0, ZString "x"); (KStr "B", ZString "2")]) None opts ∅
    send_run.1.2 send_run.1.1) as (live' & Hs & _ & Hd); [done|apply exec_runs|by apply honest_run_sound; vm_compute|].
  exists live'. split_and!; [done|eapply Hd; vm_compute; reflexivity|].
  vm_compute in Hs. injection Hs as <-. reflexivity.
Defined.

Lemma verification_only_on_request_witness :
  Forall (fun e => checked_call is_false opts (ev_op e)) send_run.1.2 /\
  Exists (fun e => ev_op e = SetOpt 1 CURLOPT_SSL_VERIFYPEER (VLong 0)) send_run.1.2.
Proof.
  split.
  - apply (verification_only_on_request no_macro is_false (fun _ => "error") "" "http://h/" "GET"
      (Some [(KStr "A", ZString "1"); (KInt 0, ZString "x"); (KStr "B", ZString "2")]) None opts _ send_run.1.1).
    apply exec_runs.
  - vm_compute. repeat first [by apply Exists_cons_hd|apply Exists_cons_tl].
Defined.
