(* ===== verification/QuicServer.v ===== *)
(** * The QUIC servers

    [extension/src/server/index.c]: a server socket, a table of sessions by connection id,
    and the loop that feeds datagrams to their connections.  [extension/src/server/http3.c]
    is a second front end with the same loop, word for word.

    The destructor of a session, [quicpro_session_dtor_internal], is declared in both files
    and defined in none: it is a call to the outside.  The PHP handler is a call whose answer says
    whether it closed the server with [quicpro_server_close]; nothing else ends the loop
    but an error of [epoll_wait].  The loops run on fuel, one unit per packet or pass. *)

From Stdlib Require Import ZArith Lia String Ascii.
From stdpp Require Import base tactics list strings.
From S2P Require Import Prelude Zend Io Net.

Local Open Scope string_scope.
Local Open Scope Z_scope.

Definition QUICHE_MAX_CONN_ID_LEN : nat := 20.

Record session := mkSess { ss_ptr : Z; ss_conn : Z; ss_peer : string }.

(** [quicpro_server_t]; the table keeps the order of insertion. *)
Record server := mkServer { sv_ptr : Z; sv_fd : Z; sv_cfg : Z; sv_sessions : list (list byte * session) }.

Definition with_sessions (l : list (list byte * session)) (sv : server) : server :=
  mkServer (sv_ptr sv) (sv_fd sv) (sv_cfg sv) l.

(** [zend_hash_str_find_ptr], [zend_hash_str_add_ptr] (which keeps an old entry) and
    [zend_hash_del]. *)
Fixpoint find_session (k : list byte) (l : list (list byte * session)) : option session :=
  match l with
  | [] => None
  | (k', s) :: l' => if decide (k = k') then Some s else find_session k l'
  end.
Definition add_session (k : list byte) (s : session) (l : list (list byte * session)) : list (list byte * session) :=
  match find_session k l with Some _ => l | None => l ++ [(k, s)] end.
Definition del_session (k : list byte) (l : list (list byte * session)) : list (list byte * session) :=
  List.filter (fun p => negb (bool_decide (p.1 = k))) l.

(** [generate_cid]: [None] for its [-1]. *)
Definition generate_cid (len : nat) : net (option (list byte)) :=
  let* fd := sys (OpenRead "/dev/urandom") in
  if fd <? 0 then Ret None
  else
    let* r := sys (ReadFd fd len) in
    let* _ := sys (Close fd) in
    Ret (match r with Some cid => if bool_decide (length cid = len) then Some cid else None | None => None end).

(** The setters of quiche by the name of the option; numbers become unsigned. *)
Definition long_settings : list string := [
  "max_idle_timeout"; "max_recv_udp_payload_size"; "max_send_udp_payload_size"; "initial_max_data";
  "initial_max_stream_data_bidi_local"; "initial_max_stream_data_bidi_remote"; "initial_max_stream_data_uni";
  "initial_max_streams_bidi"; "initial_max_streams_uni"].

Definition apply_setting (cfg : Z) (k : hkey) (v : zval) : net unit :=
  match k with
  | KInt _ => Ret tt
  | KStr key =>
      if bool_decide (key = "application_protos") then
        match v with ZString s => sys (ConfigSetString cfg key s) | _ => Ret tt end
      else if bool_decide (key ∈ long_settings) then
        match v with ZLong n => sys (ConfigSetLong cfg key (u64 n)) | _ => Ret tt end
      else if bool_decide (key = "cert_file") || bool_decide (key = "key_file") then
        match v with ZString s => sys (ConfigSetString cfg key (cstr s)) | _ => Ret tt end
      else Ret tt
  end.

Fixpoint apply_settings (cfg : Z) (opts : hashtable) : net unit :=
  match opts with
  | [] => Ret tt
  | (k, v) :: opts' => let* _ := apply_setting cfg k v in apply_settings cfg opts'
  end.

Definition apply_php_config_to_quiche (cfg : Z) (options_zv : zval) : net unit :=
  match options_zv with ZArray opts => apply_settings cfg opts | _ => Ret tt end.

(** The address of [sockaddr_in6]: as written, or an IPv4 address mapped into IPv6. *)
Fixpoint zeros (n : nat) : string := match n with O => EmptyString | S n' => String Ascii.zero (zeros n') end.
Definition mapped (ipv4 : string) : string := zeros 10 ++ String "255" (String "255" ipv4).

Definition server_address (host : string) : net (option string) :=
  let* a6 := sys (InetPton AF_INET6 host) in
  match a6 with
  | Some a => Ret (Some a)
  | None =>
      let* a4 := sys (InetPton AF_INET host) in
      Ret (match a4 with Some a => Some (mapped a) | None => None end)
  end.

(** [quicpro_server_create]; [port] is cut to sixteen bits by [htons]. *)
Definition fail (fd : option Z) (ptr : Z) (message : string) : net (option server) :=
  let* _ := sys (Throw message) in
  let* _ := match fd with Some fd => sys (Close fd) | None => Ret tt end in
  let* _ := sys (Efree ptr) in
  Ret None.

Definition quicpro_server_create (host : string) (port : Z) (options_zv : zval) : net (option server) :=
  let* ptr := sys Ecalloc in
  let* fd := sys (Socket AF_INET6) in
  if fd <? 0 then fail None ptr "Failed to create server socket"
  else
    let* r := sys (SetSockOpt fd "SO_REUSEPORT" 1) in
    if r <? 0 then fail (Some fd) ptr "Failed to set SO_REUSEPORT"
    else
      let* r := sys (SetSockOpt fd "IPV6_V6ONLY" 0) in
      if r <? 0 then fail (Some fd) ptr "Failed to disable IPV6_V6ONLY"
      else
        let* a := server_address (cstr host) in
        match a with
        | None => fail (Some fd) ptr "Invalid host address provided"
        | Some a =>
            let* r := sys (Bind fd a (port mod 2 ^ 16)) in
            if r <? 0 then fail (Some fd) ptr "Failed to bind server"
            else
              let* cfg := sys ConfigNew in
              match cfg with
              | None => fail (Some fd) ptr "Failed to create quiche config"
              | Some cfg =>
                  let* _ := apply_php_config_to_quiche cfg options_zv in
                  Ret (Some (mkServer ptr fd cfg []))
              end
        end.

(* ------------------------------------------------------------------------ *)
(** ** The loop *)

Section Loop.
(** What the front end does when [epoll_wait] fails, and whether the handler can name the
    server: only [quicpro_server_create] registers it as a resource. *)
Variable on_error : net unit.
Variable closable : bool.

(** The destructor of the table. *)
Definition quicpro_session_dtor_internal (s : session) : net unit := sys (SessionDtor (ss_ptr s) (ss_conn s)).

(** One datagram. *)
Definition receive_datagram (sv : server) : net server :=
  let* r := sys (Recvfrom (sv_fd sv) 2048) in
  match r with
  | RecvErr _ => Ret sv
  | Recv data from _ =>
      let* info := sys (HeaderInfo data) in
      match info with
      | None => Ret sv
      | Some dcid =>
          match find_session dcid (sv_sessions sv) with
          | Some s => let* _ := sys (ConnRecv (ss_conn s) data from) in Ret sv
          | None =>
              let* scid := generate_cid QUICHE_MAX_CONN_ID_LEN in
              match scid with
              | None => Ret sv
              | Some scid =>
                  let* conn := sys (QuicheAccept scid from (sv_cfg sv)) in
                  match conn with
                  | None => Ret sv
                  | Some conn =>
                      let* ptr := sys Ecalloc in
                      let s := mkSess ptr conn from in
                      let* _ := sys (ConnRecv conn data from) in
                      Ret (with_sessions (add_session scid s (sv_sessions sv)) sv)
                  end
              end
          end
      end
  end.

Fixpoint receive_all (n : nat) (sv : server) : net server :=
  match n with
  | O => Ret sv
  | S n' => let* sv := receive_datagram sv in receive_all n' sv
  end.

(** What quiche has to send, to the address the session was made for. *)
Fixpoint transmit (fuel : nat) (fd : Z) (s : session) : net (outcome unit unit) :=
  match fuel with
  | O => Ret NoFuel
  | S fuel' =>
      let* p := sys (ConnSend (ss_conn s) 2048) in
      match p with
      | SendErr _ => Ret (Done tt)
      | Packet data _ => let* _ := sys (Sendto fd data (ss_peer s)) in transmit fuel' fd s
      end
  end.

(** [quicpro_server_close] up to the resource list. *)
Fixpoint destroy_sessions (l : list (list byte * session)) : net unit :=
  match l with
  | [] => Ret tt
  | (_, s) :: l' => let* _ := quicpro_session_dtor_internal s in destroy_sessions l'
  end.

Definition quicpro_server_close (sv : server) : net unit :=
  let* _ := destroy_sessions (sv_sessions sv) in
  let* _ := sys (Close (sv_fd sv)) in
  sys (ConfigFree (sv_cfg sv)).

(** The handler for each readable stream, every time with a new resource for the session.  When it closes the server, its session and the
    table being walked are freed and then used. *)
Fixpoint call_handlers (sv : server) (s : session) (streams : list Z) : net (outcome unit unit) :=
  match streams with
  | [] => Ret (Done tt)
  | id :: streams' =>
      let* resource := sys (RegisterSession (ss_ptr s)) in
      let* closed := sys (CallHandler resource (s64 id)) in
      if (closed : bool) && closable then let* _ := quicpro_server_close sv in Ret Undefined
      else call_handlers sv s streams'
  end.

Definition serve_session (fuel : nat) (sv : server) (key : list byte) (s : session) : net (outcome unit server) :=
  let* _ := sys (ConnOnTimeout (ss_conn s)) in
  let*! _ := transmit fuel (sv_fd sv) s in
  let* established := sys (ConnIsEstablished (ss_conn s)) in
  let*! _ := if established : bool then
               let* streams := sys (ConnReadable (ss_conn s)) in call_handlers sv s streams
             else Ret (Done tt) in
  let* closed := sys (ConnIsClosed (ss_conn s)) in
  if closed : bool then
    let* _ := quicpro_session_dtor_internal s in
    Ret (Done (with_sessions (del_session key (sv_sessions sv)) sv))
  else Ret (Done sv).

(** [ZEND_HASH_FOREACH]: an entry may be deleted while the table is walked. *)
Fixpoint serve_all (fuel : nat) (sv : server) (l : list (list byte * session)) : net (outcome unit server) :=
  match l with
  | [] => Ret (Done sv)
  | (key, s) :: l' => let*! sv := serve_session fuel sv key s in serve_all fuel sv l'
  end.

Fixpoint listen_loop (fuel : nat) (ep : Z) (sv : server) : net (outcome unit server) :=
  match fuel with
  | O => Ret NoFuel
  | S fuel' =>
      let* r := sys (EpollWait ep) in
      match r with
      | EpollErr errno =>
          if errno =? EINTR then listen_loop fuel' ep sv
          else let* _ := on_error in Ret (Done sv)
      | EpollEvents n =>
          let* sv := receive_all n sv in
          let*! sv := serve_all fuel sv (sv_sessions sv) in
          listen_loop fuel' ep sv
      end
  end.

End Loop.

Definition quicpro_server_listen (fuel : nat) (sv : server)
  : net (outcome unit (server * bool)) :=
  let* ep := sys EpollCreate in
  if ep =? -1 then let* _ := sys (Throw "Failed to create epoll instance") in Ret (Done (sv, false))
  else
    let* r := sys (EpollAdd ep (sv_fd sv)) in
    if r =? -1 then
      let* _ := sys (Throw "Failed to add server socket to epoll") in
      let* _ := sys (Close ep) in Ret (Done (sv, false))
    else
      let*! sv := listen_loop (sys (Throw "epoll_wait failed")) true fuel ep sv in
      let* _ := sys (Close ep) in Ret (Done (sv, true)).

(* ------------------------------------------------------------------------ *)
(** ** The HTTP/3 front end *)

Module Http3.

Definition apply_config_to_quiche (cfg : Z) (options_zv : zval) : net unit :=
  match options_zv with
  | ZArray opts =>
      let load (key : string) :=
        match ht_find (KStr key) opts with Some (ZString s) => sys (ConfigSetString cfg key (cstr s)) | _ => Ret tt end in
      let* _ := load "cert_file" in load "key_file"
  | _ => Ret tt
  end.

(** The result of [inet_pton] is not looked at: the address stays zero when [host] is not
    an IPv6 address.  A null configuration is used as if it were one. *)
Definition quicpro_http3_server_listen (fuel : nat) (host : string) (port : Z)
    (options_zv : zval) : net (outcome unit bool) :=
  let* fd := sys (Socket AF_INET6) in
  if fd <? 0 then let* _ := sys (Throw "HTTP/3 server failed to create socket") in Ret (Done false)
  else
    let* _ := sys (SetSockOpt fd "SO_REUSEPORT" 1) in
    let* _ := sys (SetSockOpt fd "IPV6_V6ONLY" 0) in
    let* a := sys (InetPton AF_INET6 (cstr host)) in
    let* r := sys (Bind fd (match a with Some a => a | None => zeros 16 end) (port mod 2 ^ 16)) in
    if r <? 0 then
      let* _ := sys (Throw "HTTP/3 server failed to bind") in
      let* _ := sys (Close fd) in Ret (Done false)
    else
      let* cfg := sys ConfigNew in
      match cfg with
      | None => Ret Undefined
      | Some cfg =>
          let* _ := apply_config_to_quiche cfg options_zv in
          let* ep := sys EpollCreate in
          let* _ := sys (EpollAdd ep fd) in
          let*! sv := listen_loop (Ret tt) false fuel ep (mkServer 0 fd cfg []) in
          let* _ := sys (Close ep) in
          let* _ := sys (Close fd) in
          let* _ := destroy_sessions (sv_sessions sv) in
          let* _ := sys (ConfigFree cfg) in
          Ret (Done true)
      end.
End Http3.
