(* ===== verification/QuicServerProps.v ===== *)
(** * The QUIC servers: sessions, resources and how the loop ends

    Against the ownership protocol: creating a server and serving it.  About single
    datagrams: which connection gets one, and that an id that is not in the table stays
    unknown.  About the loop: it ends only when [epoll_wait] fails, and a handler that
    closes the server leaves it with freed memory. *)

From Stdlib Require Import ZArith Lia String Ascii.
From stdpp Require Import base tactics list gmap strings.
From S2P Require Import Prelude Zend Io Net QuicServer.

Local Open Scope Z_scope.
Set Warnings "-clear-no-such-hyp".

(* ------------------------------------------------------------------------ *)
(** ** The table *)

Abbreviation table := (list (list byte * session)).

Definition sess_res (p : list byte * session) : list res := [RMem (ss_ptr p.2); RConn (ss_conn p.2)].
Definition table_res (l : table) : list res := concat (map sess_res l).

Lemma table_res_app l1 l2 : table_res (l1 ++ l2) = table_res l1 ++ table_res l2.
Proof. unfold table_res. by rewrite map_app, concat_app. Qed.

(** The server's socket and configuration stay as they are. *)
Section Kept.
Variables fd0 cfg0 : Z.

(** What the server keeps true: the keys are distinct ids of full length, the sessions'
    resources are live, distinct, and apart from [core], everything else that is live. *)
Record inv (core : list res) (live : gset res) (sv : server) : Prop := mkInv {
  inv_keys : NoDup (map fst (sv_sessions sv));
  inv_lengths : Forall (fun k => length k = QUICHE_MAX_CONN_ID_LEN) (map fst (sv_sessions sv));
  inv_nodup : NoDup (core ++ table_res (sv_sessions sv));
  inv_live : Forall (fun r => r ∈ live) (core ++ table_res (sv_sessions sv));
  inv_fd0 : sv_fd sv = fd0 /\ RSock fd0 ∈ core;
  inv_cfg0 : sv_cfg sv = cfg0 /\ RCfg cfg0 ∈ core;
}.

Lemma inv_fd core live sv : inv core live sv -> RSock (sv_fd sv) ∈ core.
Proof. by intros [_ _ _ _ [-> ?] _]. Qed.
Lemma inv_cfg core live sv : inv core live sv -> RCfg (sv_cfg sv) ∈ core.
Proof. by intros [_ _ _ _ _ [-> ?]]. Qed.

Lemma inv_core core live sv r : inv core live sv -> r ∈ core -> r ∈ live.
Proof. intros [_ _ _ Hl _ _] Hr. rewrite Forall_forall in Hl. apply Hl. set_solver. Qed.

Lemma inv_session core live sv k s : inv core live sv -> (k, s) ∈ sv_sessions sv ->
  (RMem (ss_ptr s) ∈ live) /\ RConn (ss_conn s) ∈ live.
Proof.
  intros [_ _ _ Hl _ _] (l1 & l2 & Hs)%list_elem_of_split. rewrite Forall_forall in Hl.
  split; apply Hl; rewrite Hs, table_res_app; set_solver.
Qed.

Lemma find_session_in k l s : find_session k l = Some s -> (k, s) ∈ l.
Proof. induction l as [|[k' s'] l IH]; simpl; [done|]. destruct (decide (k = k')); [intros [= ->]; subst; set_solver|set_solver]. Qed.

Lemma find_session_none k l : find_session k l = None -> k ∉ map fst l.
Proof. induction l as [|[k' s'] l IH]; simpl; [set_solver|]. destruct (decide (k = k')); [done|set_solver]. Qed.

Lemma find_session_app k l1 l2 :
  find_session k (l1 ++ l2) = match find_session k l1 with Some s => Some s | None => find_session k l2 end.
Proof. induction l1 as [|[k' s'] l1 IH]; simpl; [done|]. by destruct (decide (k = k')). Qed.

(** One more resource beside the table, and one less. *)
Lemma inv_extend core live sv r : r ∉ live -> inv core live sv -> inv (r :: core) ({[r]} ∪ live) sv.
Proof.
  intros Hr [H1 H2 H3 H4 H5 H6]. rewrite Forall_forall in H4. constructor; try done; [| |set_solver..].
  - simpl. constructor; [intros Hin; by apply Hr, H4|done].
  - simpl. constructor; [set_solver|]. apply Forall_forall. intros x Hx%H4. set_solver.
Qed.

Lemma inv_shrink core live sv r : r <> RSock fd0 -> r <> RCfg cfg0 ->
  inv (r :: core) live sv -> inv core (live ∖ {[r]}) sv.
Proof.
  intros Hr1 Hr2 [H1 H2 H3 H4 H5 H6]. simpl in H3, H4. apply NoDup_cons in H3 as [H3 H3']. apply Forall_cons in H4 as [H4 H4'].
  rewrite Forall_forall in H4'. constructor; try done; [|set_solver..].
  apply Forall_forall. intros x Hx. specialize (H4' x Hx). assert (x <> r) by congruence. set_solver.
Qed.

(** A new session with fresh resources. *)
Lemma inv_add core live sv scid s :
  inv core live sv -> length scid = QUICHE_MAX_CONN_ID_LEN ->
  RMem (ss_ptr s) ∉ live -> RConn (ss_conn s) ∉ live ->
  inv core ({[RMem (ss_ptr s)]} ∪ ({[RConn (ss_conn s)]} ∪ live)) (with_sessions (add_session scid s (sv_sessions sv)) sv).
Proof.
  intros Hi Hl Hm Hc. pose proof Hi as [Hk Hlen Hn Hlv Hfd Hcfg]. rewrite Forall_forall in Hlv.
  assert (Hsub : Forall (fun r => r ∈ {[RMem (ss_ptr s)]} ∪ ({[RConn (ss_conn s)]} ∪ live)) (core ++ table_res (sv_sessions sv)))
    by (apply Forall_forall; intros r Hr; specialize (Hlv r Hr); set_solver).
  unfold add_session. destruct (find_session scid (sv_sessions sv)) eqn:Ef; [by constructor|].
  apply find_session_none in Ef. constructor; cbn [with_sessions sv_sessions sv_fd sv_cfg]; try done.
  - rewrite map_app. apply NoDup_app. split_and!; [done|simpl; set_solver|apply NoDup_singleton].
  - rewrite map_app. apply Forall_app. split; [done|by constructor].
  - rewrite table_res_app, app_assoc. apply NoDup_app. split_and!; [done| |].
    + intros r Hr%Hlv. simpl. set_solver.
    + simpl. repeat constructor; set_solver.
  - rewrite table_res_app, app_assoc. apply Forall_app. split; [done|]. repeat constructor; simpl; set_solver.
Qed.

Lemma del_session_split l1 k s l2 : NoDup (map fst (l1 ++ (k, s) :: l2)) ->
  del_session k (l1 ++ (k, s) :: l2) = l1 ++ l2.
Proof.
  intros Hn. assert (Hout : forall l, k ∉ map fst l -> del_session k l = l).
  { induction l as [|[k' s'] l IH]; [done|]. intros Hk. simpl in *. unfold del_session in *. simpl.
    rewrite bool_decide_eq_false_2 by set_solver. simpl. rewrite IH by set_solver. done. }
  rewrite map_app in Hn. apply NoDup_app in Hn as (_ & Hd & Hn). simpl in Hn. apply NoDup_cons in Hn as [Hk _].
  unfold del_session in *. rewrite List.filter_app. simpl. rewrite bool_decide_eq_true_2 by done. simpl.
  rewrite !Hout; [done|done|]. intros Hin. apply (Hd k Hin). simpl. set_solver.
Qed.

(** Removing a session whose resources have been released. *)
Lemma inv_del core live sv l1 k s l2 :
  inv core live sv -> sv_sessions sv = l1 ++ (k, s) :: l2 ->
  inv core (live ∖ {[RConn (ss_conn s)]} ∖ {[RMem (ss_ptr s)]}) (with_sessions (del_session k (sv_sessions sv)) sv) /\
  del_session k (sv_sessions sv) = l1 ++ l2.
Proof.
  intros [Hk Hlen Hn Hlv Hfd Hcfg] Hs. rewrite Hs in *. rewrite del_session_split by done. split; [|done].
  rewrite map_app in Hk, Hlen. rewrite table_res_app, app_assoc in Hn, Hlv. simpl in *.
  apply NoDup_app in Hk as (Hk1 & Hk2 & [Hk3 Hk4]%NoDup_cons). apply Forall_app in Hlen as [Hl1 Hl2].
  apply NoDup_app in Hn as (Hn1 & Hn2 & Hn3).
  change (table_res ((k, s) :: l2)) with ([RMem (ss_ptr s); RConn (ss_conn s)] ++ table_res l2) in *.
  apply NoDup_app in Hn3 as (_ & Hn4 & Hn5).
  constructor; cbn [with_sessions sv_sessions sv_fd sv_cfg]; try done.
  - rewrite map_app. apply NoDup_app. split_and!; [done| |done].
    intros k' Hk' Hin. apply (Hk2 k' Hk'). by apply list_elem_of_further.
  - rewrite map_app. apply Forall_app. split; [done|by inversion Hl2].
  - rewrite table_res_app, app_assoc. apply NoDup_app. split_and!; [done| |done].
    intros r Hr Hr2. apply (Hn2 r Hr). apply elem_of_app. by right.
  - rewrite table_res_app, app_assoc. rewrite Forall_forall in Hlv |- *. intros r Hr.
    assert (Hr2 : r ∉ [RMem (ss_ptr s); RConn (ss_conn s)]).
    { intros Hin. apply elem_of_app in Hr as [Hr|Hr]; [apply (Hn2 r Hr), elem_of_app; by left|by apply (Hn4 r Hin)]. }
    rewrite !not_elem_of_cons in Hr2. apply elem_of_difference. rewrite elem_of_difference, !elem_of_singleton.
    split_and!; [|tauto..]. apply Hlv.
    apply elem_of_app in Hr as [Hr|Hr]; apply elem_of_app; [by left|right; apply elem_of_app; by right].
Qed.

(* ------------------------------------------------------------------------ *)
(** ** The loop keeps the table *)

Lemma fresh_open_close fd (live : gset res) : RSock fd ∉ live -> ({[RSock fd]} ∪ live) ∖ {[RSock fd]} = live.
Proof. intros. apply leibniz_equiv. set_solver. Qed.

Lemma safe_generate_cid n live (Q : option (list byte) -> pstate ownership -> Prop) :
  (forall r, match r with Some cid => length cid = n | None => True end -> Q r live) ->
  safe ownership (generate_cid n) live Q.
Proof.
  intros HQ. unfold generate_cid. own_call fd Hfd; [done|]. destruct (Z.ltb_spec fd 0); [by apply HQ|].
  own_call r Hr; [set_solver|]. own_call u Hu; [set_solver|]. rewrite fresh_open_close by done.
  apply HQ. destruct r; [case_bool_decide|]; done.
Qed.

(** A call that needs one live thing and changes nothing. *)
Ltac own_use := let r := fresh "r" in let H := fresh in own_call r H.

Lemma safe_receive core live sv : inv core live sv ->
  safe ownership (receive_datagram sv) live (fun sv' live' => inv core live' sv').
Proof.
  intros Hi. pose proof (inv_core _ _ _ _ Hi (inv_fd _ _ _ Hi)) as Hfd. pose proof (inv_core _ _ _ _ Hi (inv_cfg _ _ _ Hi)) as Hcfg.
  unfold receive_datagram. own_call r Hr; [done|]. destruct r as [e|data from ts]; [done|].
  own_call info Hinf; [done|]. destruct info as [dcid|]; [|done].
  destruct (find_session dcid (sv_sessions sv)) as [s|] eqn:Ef.
  - apply find_session_in, (inv_session _ _ _ _ _ Hi) in Ef as [_ Hc]. by own_call u Hu.
  - apply safe_bind. apply safe_generate_cid. intros [scid|] Hlen; [|done].
    own_call conn Hconn; [done|]. destruct conn as [conn|]; [|done].
    own_call ptr Hptr; [done|]. own_call u Hu; [set_solver|].
    apply (inv_add core live sv scid (mkSess ptr conn from)); [done|done|set_solver|done].
Qed.

Lemma safe_receive_all core n : forall live sv, inv core live sv ->
  safe ownership (receive_all n sv) live (fun sv' live' => inv core live' sv').
Proof.
  induction n as [|n IH]; intros live sv Hi; cbn [receive_all]; [done|]. apply safe_bind.
  eapply safe_mono; [by apply safe_receive|]. intros sv' live' Hi'. by apply IH.
Qed.

Lemma safe_transmit fuel : forall fd s (live : gset res), RSock fd ∈ live -> RConn (ss_conn s) ∈ live ->
  safe ownership (transmit fuel fd s) live (fun _ live' => live' = live).
Proof.
  induction fuel as [|fuel IH]; intros fd s live Hfd Hc; cbn [transmit]; [done|].
  own_call p Hp; [done|]. destruct p as [e|data to]; [done|]. own_call w Hw; [done|]. by apply IH.
Qed.

Lemma throw_harmless msg live : safe ownership (sys (Throw msg)) live (fun _ live' => live' = live).
Proof. by own_call u Hu. Qed.

(** The destructor is given the session and its connection. *)
Lemma safe_dtor s (live : gset res) : RConn (ss_conn s) ∈ live -> RMem (ss_ptr s) ∈ live ->
  safe ownership (quicpro_session_dtor_internal s) live
    (fun _ live' => live' = live ∖ {[RConn (ss_conn s)]} ∖ {[RMem (ss_ptr s)]}).
Proof. intros Hc Hm. unfold quicpro_session_dtor_internal. by own_call u Hu. Qed.

Section Loop.
Variable on_error : net unit.
Hypothesis on_error_harmless : forall live, safe ownership on_error live (fun _ live' => live' = live).
Variable closable : bool.

Lemma safe_destroy core : forall live sv, inv core live sv ->
  safe ownership (destroy_sessions (sv_sessions sv)) live (fun _ live' => inv core live' (with_sessions [] sv)).
Proof.
  intros live sv. remember (sv_sessions sv) as l eqn:El. revert live sv El.
  induction l as [|[k s] l IH]; intros live sv El Hi; cbn [destroy_sessions].
  { destruct sv; simpl in *; by subst. }
  destruct (inv_session core live sv k s Hi) as [Hm Hc]; [rewrite <- El; apply list_elem_of_here|].
  apply safe_bind. eapply safe_mono; [by apply safe_dtor|]. intros [] ? ->.
  destruct (inv_del core live sv [] k s l Hi) as [Hi' Hd]; [done|].
  exact (IH _ (with_sessions (del_session k (sv_sessions sv)) sv) (eq_sym Hd) Hi').
Qed.

Lemma safe_close core live sv (Q : unit -> pstate ownership -> Prop) : inv core live sv ->
  (forall live', Q tt live') -> safe ownership (quicpro_server_close sv) live Q.
Proof.
  intros Hi HQ. unfold quicpro_server_close. apply safe_bind. eapply safe_mono; [by apply safe_destroy|].
  intros [] live' Hi'. pose proof (inv_core _ _ _ _ Hi' (inv_fd _ _ _ Hi')) as Hfd.
  pose proof (inv_core _ _ _ _ Hi' (inv_cfg _ _ _ Hi')) as Hcfg. simpl in Hfd, Hcfg.
  own_call u Hu; [done|]. own_call u' Hu'; [set_solver|]. destruct u'. apply HQ.
Qed.

Lemma safe_handlers core live sv s streams : inv core live sv -> RMem (ss_ptr s) ∈ live ->
  safe ownership (call_handlers closable sv s streams) live (fun r live' => r = Done tt -> live' = live).
Proof.
  intros Hi Hm. induction streams as [|id streams IH]; cbn [call_handlers]; [done|].
  own_call z Hz; [done|]. own_call c Hc; [done|]. destruct (c && closable); [|exact IH].
  apply safe_bind. by eapply safe_close.
Qed.

Lemma safe_obind {A B} (p : net (outcome unit A)) (f : A -> net (outcome unit B)) live (R : A -> gset res -> Prop)
    (Q : outcome unit B -> gset res -> Prop) :
  safe ownership p live (fun r live' => forall a, r = Done a -> R a live') ->
  (forall r live', (forall b, r <> Done b) -> Q r live') ->
  (forall a live', R a live' -> safe ownership (f a) live' Q) ->
  safe ownership (io_obind p f) live Q.
Proof.
  intros Hp Hfail Hf. apply safe_bind. eapply safe_mono; [exact Hp|]. intros [a| | |] live' Hr; [by apply Hf, Hr|..];
    simpl; by apply Hfail.
Qed.

(** Serving one session of the table: it stays, or is removed with its resources. *)
Lemma safe_serve_session core fuel live sv l1 k s l2 : inv core live sv -> sv_sessions sv = l1 ++ (k, s) :: l2 ->
  safe ownership (serve_session closable fuel sv k s) live (fun r live' => forall sv', r = Done sv' ->
    inv core live' sv' /\ exists l1', sv_sessions sv' = l1' ++ l2).
Proof.
  intros Hi Hs. destruct (inv_session core live sv k s Hi) as [Hm Hc]; [rewrite Hs; set_solver|].
  pose proof (inv_core _ _ _ _ Hi (inv_fd _ _ _ Hi)) as Hfd.
  unfold serve_session. own_call u Hu; [done|].
  apply (safe_obind _ _ _ (fun _ live' => live' = live)); [|by intros ? ? H ? ->; destruct (H sv')|].
  { eapply safe_mono; [by apply safe_transmit|]. by intros ? ? -> ?. }
  intros _ ? ->. own_call est He; [done|].
  apply (safe_obind _ _ _ (fun _ live' => live' = live)); [|by intros ? ? H ? ->; destruct (H sv')|].
  { destruct est; [|done]. own_call streams Hst; [done|]. eapply safe_mono; [by apply (safe_handlers core)|].
    intros ? ? H []. exact H. }
  intros _ ? ->. own_call closed Hcl; [done|]. destruct closed.
  - apply safe_bind. eapply safe_mono; [by apply safe_dtor|]. intros [] ? -> sv' [= <-].
    destruct (inv_del core live sv l1 k s l2 Hi Hs) as [Hi' Hd]. split; [exact Hi'|]. exists l1. exact Hd.
  - intros sv' [= <-]. split; [done|]. exists (l1 ++ [(k, s)]). by rewrite <- app_assoc.
Qed.

Lemma safe_serve_all core fuel l : forall live sv l1, inv core live sv -> sv_sessions sv = l1 ++ l ->
  safe ownership (serve_all closable fuel sv l) live (fun r live' => forall sv', r = Done sv' -> inv core live' sv').
Proof.
  induction l as [|[k s] l IH]; intros live sv l1 Hi Hs; cbn [serve_all]; [by intros sv' [= <-]|].
  eapply safe_obind; [by eapply safe_serve_session| |]; [by intros ? ? H ? ->; destruct (H sv')|].
  intros sv' live' [Hi' [l1' Hs']]. by apply (IH _ _ l1').
Qed.

Lemma safe_listen_loop core fuel ep : RSock ep ∈ core -> forall live sv, inv core live sv ->
  safe ownership (listen_loop on_error closable fuel ep sv) live
    (fun r live' => forall sv', r = Done sv' -> inv core live' sv').
Proof.
  intros Hep. induction fuel as [|fuel IH]; intros live sv Hi; cbn [listen_loop]; [done|].
  own_call r Hr; [by eapply inv_core|]. destruct r as [e|n].
  - destruct (e =? EINTR); [by apply IH|]. apply safe_bind. eapply safe_mono; [apply on_error_harmless|].
    by intros [] ? -> sv' [= <-].
  - apply safe_bind. eapply safe_mono; [by apply safe_receive_all|]. intros sv1 live1 Hi1.
    eapply safe_obind; [by apply (safe_serve_all core _ _ _ _ [])| |]; [by intros ? ? H ? ->; destruct (H sv')|].
    intros sv2 live2 Hi2. by apply IH.
Qed.
End Loop.

End Kept.

Lemma listen_keeps fuel sv core live tr r :
  inv (sv_fd sv) (sv_cfg sv) core live sv -> runs (quicpro_server_listen fuel sv) tr r -> honest ownership live tr ->
  exists live', psteps ownership live tr = Some live' /\
    forall sv' b, r = Done (sv', b) -> inv (sv_fd sv) (sv_cfg sv) core live' sv'.
Proof.
  intros Hi Hr Hh.
  refine (safe_runs ownership _ live (fun r live' => forall sv' b, r = Done (sv', b) -> inv _ _ core live' sv') tr r _ Hr Hh).
  pose proof (inv_core _ _ _ _ _ _ Hi (inv_fd _ _ _ _ _ Hi)) as Hfd.
  unfold quicpro_server_listen. own_call ep Hep; [done|]. destruct Hep as [Hge Hf].
  destruct (Z.eqb_spec ep (-1)) as [->|Hne].
  { own_call u Hu; [done|]. by intros sv' b [= <- _]. }
  destruct Hf as [|Hf]; [done|]. rewrite (proj2 (Z.ltb_ge ep 0)) by lia.
  own_call a Ha; [set_solver|]. destruct (a =? -1).
  { own_call u Hu; [done|]. own_call u' Hu'; [set_solver|]. rewrite fresh_open_close by done.
    by intros sv' b [= <- _]. }
  apply (safe_obind _ _ _ (fun sv' live' => inv (sv_fd sv) (sv_cfg sv) (RSock ep :: core) live' sv')).
  - apply (safe_listen_loop (sv_fd sv) (sv_cfg sv) _ (throw_harmless _)); [set_solver|by apply inv_extend].
  - by intros ? ? H ? ? ->; destruct (H (sv', b)).
  - intros sv1 live1 Hi1. own_call u Hu; [by eapply inv_core; [exact Hi1|set_solver]|].
    intros sv' b [= <- _]. apply inv_shrink; [congruence|done|exact Hi1].
Qed.

(* ------------------------------------------------------------------------ *)
(** ** Creating a server *)

Definition created (live : gset res) (r : option server) (live' : gset res) : Prop :=
  match r with
  | None => live' = live
  | Some sv => 0 <= sv_fd sv /\ sv_sessions sv = [] /\
      (RMem (sv_ptr sv) ∉ live) /\ (RSock (sv_fd sv) ∉ live) /\ (RCfg (sv_cfg sv) ∉ live) /\
      live' = {[RCfg (sv_cfg sv)]} ∪ ({[RSock (sv_fd sv)]} ∪ ({[RMem (sv_ptr sv)]} ∪ live))
  end.

Lemma safe_fail_socket fd p msg live : RSock fd ∉ live -> RMem p ∉ live ->
  safe ownership (fail (Some fd) p msg) ({[RSock fd]} ∪ ({[RMem p]} ∪ live)) (created live).
Proof.
  intros Hs Hp. unfold fail. own_call u Hu; [done|]. own_call u' Hu'; [set_solver|].
  own_call u2 Hu2; [set_solver|]. apply leibniz_equiv. set_solver.
Qed.

Lemma safe_settings cfg v (live : gset res) : RCfg cfg ∈ live ->
  safe ownership (apply_php_config_to_quiche cfg v) live (fun _ live' => live' = live).
Proof.
  intros Hc. unfold apply_php_config_to_quiche. destruct v; try done.
  induction ht as [|[k v] ht IH]; cbn [apply_settings]; [done|]. apply safe_bind.
  apply (safe_mono ownership _ _ (fun _ live' => live' = live)); [|by intros [] ? ->].
  unfold apply_setting. destruct k as [|key]; [done|].
  repeat case_match; first [done | by own_call r Hr].
Qed.

Lemma safe_create host port v live :
  safe ownership (quicpro_server_create host port v) live (created live).
Proof.
  unfold quicpro_server_create. own_call p Hp; [done|]. own_call fd Hfd; [done|].
  destruct (Z.ltb_spec fd 0) as [|Hpos].
  { unfold fail. own_call u Hu; [done|]. own_call u' Hu'; [set_solver|]. apply leibniz_equiv. set_solver. }
  own_call r1 Hr1; [set_solver|]. destruct (r1 <? 0); [apply safe_fail_socket; set_solver|].
  own_call r2 Hr2; [set_solver|]. destruct (r2 <? 0); [apply safe_fail_socket; set_solver|].
  apply safe_bind. apply (safe_mono ownership _ _ (fun _ l => l = {[RSock fd]} ∪ ({[RMem p]} ∪ live))).
  { unfold server_address. own_call a6 H6; [done|]. destruct a6; [done|]. by own_call a4 H4. }
  intros [a|] ? ->; [|apply safe_fail_socket; set_solver].
  own_call r3 Hr3; [set_solver|]. destruct (r3 <? 0); [apply safe_fail_socket; set_solver|].
  own_call c Hc; [done|]. destruct c as [c|]; [|apply safe_fail_socket; set_solver].
  apply safe_bind. eapply safe_mono; [apply safe_settings; set_solver|]. intros [] ? ->. simpl.
  split_and!; set_solver.
Qed.

(* ------------------------------------------------------------------------ *)
(** ** Calls of a run *)

(** The datagrams that arrived, the connections given one, and the ids offered to
    [quiche_accept] with its answers, in order. *)
Definition arrivals (tr : list nevent) : list (list byte * string) :=
  omap (fun e : nevent => match e with Ev (Recvfrom _ _) (Recv d from _) => Some (d, from) | _ => None end) tr.
Definition fed_conns (tr : list nevent) : list (Z * list byte * string) :=
  omap (fun e : nevent => match ev_op e with ConnRecv c d from => Some (c, d, from) | _ => None end) tr.
Definition accepts (tr : list nevent) : list (list byte * option Z) :=
  omap (fun e : nevent => match e return option (list byte * option Z) with
                | Ev (QuicheAccept scid _ _) r => Some (scid, r) | _ => None end) tr.
(** The ids that the random source gave whole. *)
Definition random_ids (tr : list nevent) : list (list byte) :=
  omap (fun e : nevent => match e with
                | Ev (ReadFd _ n) (Some id) => if decide (length id = n) then Some id else None
                | _ => None
                end) tr.

(** The destination ids that quiche read from the datagrams. *)
Definition destinations (tr : list nevent) : list (list byte) :=
  omap (fun e : nevent => match e return option (list byte) with Ev (HeaderInfo _) r => r | _ => None end) tr.

Lemma cid_exact n tr r : runs (generate_cid n) tr r ->
  fed_conns tr = [] /\ accepts tr = [] /\ arrivals tr = [] /\ random_ids tr = match r with Some id => [id] | None => [] end.
Proof.
  unfold generate_cid. intros (fd & t & -> & H). cbn [io_bind] in H. destruct (fd <? 0); [by destruct H as [-> ->]|].
  destruct H as (q & ? & -> & ? & ? & -> & -> & ->). split_and!; try done. unfold random_ids. simpl.
  destruct q as [id|]; [|done]. simpl. destruct (decide (length id = n)) as [He|He].
  - by rewrite bool_decide_eq_true_2.
  - by rewrite bool_decide_eq_false_2.
Qed.

Lemma routing sv tr sv' dcid : runs (receive_datagram sv) tr sv' -> destinations tr = [dcid] ->
  exists data from, arrivals tr = [(data, from)] /\
  match find_session dcid (sv_sessions sv) with
  | Some s => sv' = sv /\ accepts tr = [] /\ random_ids tr = [] /\ fed_conns tr = [(ss_conn s, data, from)]
  | None =>
      (sv' = sv /\ fed_conns tr = [] /\
       ((random_ids tr = [] /\ accepts tr = []) \/ exists scid, random_ids tr = [scid] /\ accepts tr = [(scid, None)])) \/
      exists scid conn ptr, random_ids tr = [scid] /\ accepts tr = [(scid, Some conn)] /\
        fed_conns tr = [(conn, data, from)] /\
        sv' = with_sessions (add_session scid (mkSess ptr conn from) (sv_sessions sv)) sv
  end.
Proof.
  unfold receive_datagram. intros (r & t1 & -> & H) Hd. cbn [io_bind] in H.
  destruct r as [e|d from ts]; [by destruct H as [-> _]|].
  destruct H as (info & t2 & -> & H). cbn [io_bind] in H. destruct info as [dcid'|]; [|by destruct H as [-> _]].
  exists d, from. assert (dcid' = dcid) as -> by (by injection Hd). clear Hd.
  destruct (find_session dcid (sv_sessions sv)) as [s|]; [by destruct H as (u & t3 & -> & -> & ->)|].
  apply runs_bind in H as (t3 & t4 & scid & -> & (Hf & Ha & Hv & Hi)%cid_exact & H).
  change (arrivals (?a :: ?b :: t3 ++ t4)) with ((d, from) :: arrivals (t3 ++ t4)).
  change (accepts (?a :: ?b :: t3 ++ t4)) with (accepts (t3 ++ t4)).
  change (random_ids (?a :: ?b :: t3 ++ t4)) with (random_ids (t3 ++ t4)).
  change (fed_conns (?a :: ?b :: t3 ++ t4)) with (fed_conns (t3 ++ t4)).
  unfold accepts, fed_conns, arrivals, random_ids in *. rewrite !omap_app, Hf, Ha, Hv, Hi.
  destruct scid as [scid|]; [|destruct H as [-> ->]; split; [done|left; by split_and!; [..|left]]].
  destruct H as (conn & t5 & -> & H). cbn [io_bind] in H.
  destruct conn as [conn|]; [|destruct H as [-> ->]; split; [done|left; split_and!; [done|done|right; by exists scid]]].
  destruct H as (ptr & t6 & -> & u & t7 & -> & -> & ->). split; [done|right]. by exists scid, conn, ptr.
Qed.

(* ------------------------------------------------------------------------ *)
(** ** The accounts of the loop *)

(** What happens to sessions and their resources in a trace. *)
Inductive entry :=
| Accepted (scid : list byte) (conn : Z)
| Allocated (ptr : Z)
| FoundClosed (conn : Z)
| Destroyed (ptr conn : Z)
| Registered (ptr resource : Z)
| Handled (resource : Z).

Definition entry_of (e : nevent) : option entry :=
  match e with
  | Ev (QuicheAccept scid _ _) (Some conn) => Some (Accepted scid conn)
  | Ev Ecalloc ptr => Some (Allocated ptr)
  | Ev (ConnIsClosed conn) true => Some (FoundClosed conn)
  | Ev (SessionDtor ptr conn) _ => Some (Destroyed ptr conn)
  | Ev (RegisterSession ptr) r => Some (Registered ptr r)
  | Ev (CallHandler r _) _ => Some (Handled r)
  | _ => None
  end.
Definition ledger (tr : list nevent) : list entry := omap entry_of tr.

Lemma ledger_app t1 t2 : ledger (t1 ++ t2) = ledger t1 ++ ledger t2.
Proof. apply omap_app. Qed.

Definition new_ids (l : list entry) : list (list byte) := omap (fun e => match e with Accepted i _ => Some i | _ => None end) l.
Definition new_conns (l : list entry) : list Z := omap (fun e => match e with Accepted _ c => Some c | _ => None end) l.
Definition new_ptrs (l : list entry) : list Z := omap (fun e => match e with Allocated p => Some p | _ => None end) l.
Definition found_closed (l : list entry) : list Z := omap (fun e => match e with FoundClosed c => Some c | _ => None end) l.
Definition destroyed (l : list entry) : list (Z * Z) := omap (fun e => match e with Destroyed p c => Some (p, c) | _ => None end) l.
Definition registered (l : list entry) : list Z := omap (fun e => match e with Registered _ r => Some r | _ => None end) l.
Definition handled (l : list entry) : list Z := omap (fun e => match e with Handled r => Some r | _ => None end) l.

Definition keys (l : table) : list (list byte) := map fst l.
Definition sessions (l : table) : list (Z * Z) := map (fun p => (ss_ptr p.2, ss_conn p.2)) l.

(** From the table [t] to the table [t'] by the entries [l]: the sessions there were and the
    new ones are those destroyed and those there are, but for sessions that were [lost]
    because their random id was taken; destroyed are exactly those whose connection was
    found closed; each handler was called with the resource registered for it. *)
Record accounted (t : table) (l : list entry) (t' : table) : Prop := mkAccounted {
  ac_pairs : length (new_ptrs l) = length (new_conns l);
  ac_keys : keys t' ⊆+ keys t ++ new_ids l;
  ac_nodup : NoDup (keys t) -> NoDup (keys t');
  ac_sessions : exists lost, sessions t ++ zip (new_ptrs l) (new_conns l) ≡ₚ destroyed l ++ sessions t' ++ lost /\
    (NoDup (keys t ++ new_ids l) -> lost = []);
  ac_closed : map snd (destroyed l) = found_closed l;
  ac_handled : handled l = registered l;
}.

Lemma NoDup_sub {A} (l1 l2 : list A) : l1 ⊆+ l2 -> NoDup l2 -> NoDup l1.
Proof. intros (k & ->)%submseteq_Permutation. by intros [? _]%NoDup_app. Qed.

Lemma accounted_nil t : accounted t [] t.
Proof. constructor; try done; [by rewrite app_nil_r|]. exists []. by rewrite !app_nil_r. Qed.

Lemma zip_app_eq {A B} (a1 a2 : list A) (b1 b2 : list B) : length a1 = length b1 ->
  zip (a1 ++ a2) (b1 ++ b2) = zip a1 b1 ++ zip a2 b2.
Proof. intros. by apply zip_with_app. Qed.

Lemma accounted_trans t t1 t2 l l' : accounted t l t1 -> accounted t1 l' t2 -> accounted t (l ++ l') t2.
Proof.
  intros [Hp Hk Hd (lo & Hs & Hl) Hc Hh] [Hp' Hk' Hd' (lo' & Hs' & Hl') Hc' Hh'].
  assert (Hkk : keys t1 ++ new_ids l' ⊆+ keys t ++ new_ids (l ++ l')).
  { unfold new_ids. rewrite omap_app, app_assoc. by apply submseteq_app. }
  constructor.
  - unfold new_ptrs, new_conns in *. rewrite !omap_app, !length_app. lia.
  - by etrans.
  - by intros ?%Hd%Hd'.
  - exists (lo ++ lo'). split.
    + unfold new_ptrs, new_conns, destroyed in *. rewrite !omap_app, zip_app_eq, app_assoc, Hs by done.
      rewrite <-!app_assoc. f_equiv. rewrite (Permutation_app_comm lo), app_assoc, Hs', <-!app_assoc.
      do 2 f_equiv. apply Permutation_app_comm.
    + intros Hn. rewrite Hl'; [rewrite Hl; [done|]|].
      * unfold new_ids in Hn |- *. rewrite omap_app, app_assoc in Hn. by apply NoDup_app in Hn as [? _].
      * by eapply NoDup_sub.
  - unfold destroyed, found_closed in *. by rewrite !omap_app, map_app, Hc, Hc'.
  - unfold handled, registered in *. by rewrite !omap_app, Hh, Hh'.
Qed.

(** Calls that concern no session. *)
Definition off_ledger (o : nop) : Prop :=
  match o with
  | QuicheAccept _ _ _ | Ecalloc | ConnIsClosed _ | SessionDtor _ _ | RegisterSession _ | CallHandler _ _ => False
  | _ => True
  end.

Lemma off_ledger_none {A} (p : net A) tr a : calls_only off_ledger p -> runs p tr a -> ledger tr = [].
Proof. intros Hp Hr%Hp. induction Hr as [|[o r] tr Ho _ IH]; [done|]. by destruct o. Qed.

Lemma receive_accounted sv tr sv' : runs (receive_datagram sv) tr sv' ->
  accounted (sv_sessions sv) (ledger tr) (sv_sessions sv').
Proof.
  unfold receive_datagram. intros (r & t1 & -> & H). cbn [io_bind] in H. change (ledger (_ :: t1)) with (ledger t1).
  destruct r as [e|d from ts]; [destruct H as [-> ->]; apply accounted_nil|].
  destruct H as (info & t2 & -> & H). cbn [io_bind] in H. change (ledger (_ :: t2)) with (ledger t2).
  destruct info as [dcid|]; [|destruct H as [-> ->]; apply accounted_nil].
  destruct (find_session dcid (sv_sessions sv)) as [s|]; [destruct H as (u & t3 & -> & -> & ->); apply accounted_nil|].
  apply runs_bind in H as (t3 & t4 & scid & -> & Hg & H). rewrite ledger_app.
  rewrite (off_ledger_none (generate_cid QUICHE_MAX_CONN_ID_LEN) _ _ ltac:(unfold generate_cid; repeat first [calls_only_step ltac:(exact I)|case_match]) Hg).
  destruct scid as [scid|]; [|destruct H as [-> ->]; apply accounted_nil].
  destruct H as (conn & t5 & -> & H). cbn [io_bind] in H. destruct conn as [conn|]; [|destruct H as [-> ->]; apply accounted_nil].
  destruct H as (ptr & t6 & -> & u & t7 & -> & -> & ->).
  change (ledger _) with [Accepted scid conn; Allocated ptr]. cbn [app]. unfold add_session.
  destruct (find_session scid (sv_sessions sv)) eqn:Ef; cbn [with_sessions sv_sessions].
  - constructor; try done; cbn [app].
    + apply submseteq_inserts_r. done.
    + exists [(ptr, conn)]. split; [done|]. intros Hn%NoDup_app. destruct Hn as (_ & Hd & _). exfalso.
      apply (Hd scid); [|by apply list_elem_of_singleton]. apply find_session_in in Ef.
      apply list_elem_of_fmap. by exists (scid, s).
  - constructor; try done.
    + unfold keys. rewrite map_app. done.
    + apply find_session_none in Ef. unfold keys. rewrite map_app. intros Hn. apply NoDup_app.
      split_and!; [done|simpl; set_solver|apply NoDup_singleton].
    + exists []. split; [|done]. unfold sessions. rewrite map_app, app_nil_r. done.
Qed.

Lemma receive_all_accounted n : forall sv tr sv', runs (receive_all n sv) tr sv' ->
  accounted (sv_sessions sv) (ledger tr) (sv_sessions sv').
Proof.
  induction n as [|n IH]; intros sv tr sv'; cbn [receive_all]; [intros [-> ->]; apply accounted_nil|].
  intros (t1 & t2 & sv1 & -> & H1%receive_accounted & H2%IH)%runs_bind. rewrite ledger_app. by eapply accounted_trans.
Qed.

Lemma handlers_accounted closable sv s t streams : forall tr u, runs (call_handlers closable sv s streams) tr (Done u) ->
  accounted t (ledger tr) t.
Proof.
  induction streams as [|id streams IH]; intros tr u; cbn [call_handlers]; [intros [-> _]; apply accounted_nil|].
  intros (z & t0 & -> & b & t1 & -> & Hr). cbn [io_bind] in Hr. destruct (b && closable).
  { by apply runs_bind in Hr as (? & ? & ? & _ & _ & [_ ?]). }
  apply IH in Hr. change (ledger _) with ([Registered (ss_ptr s) z; Handled z] ++ ledger t1).
  eapply accounted_trans; [|exact Hr]. constructor; try done; [by rewrite app_nil_r|]. exists []. by rewrite !app_nil_r.
Qed.

Lemma transmit_off fuel fd s : calls_only off_ledger (transmit fuel fd s).
Proof. induction fuel as [|fuel IH]; cbn [transmit]; repeat first [exact IH|calls_only_step ltac:(exact I)|case_match]. Qed.

Lemma serve_session_accounted closable fuel sv l1 k s l2 tr sv' : NoDup (keys (sv_sessions sv)) ->
  sv_sessions sv = l1 ++ (k, s) :: l2 -> runs (serve_session closable fuel sv k s) tr (Done sv') ->
  accounted (sv_sessions sv) (ledger tr) (sv_sessions sv') /\ exists l1', sv_sessions sv' = l1' ++ l2.
Proof.
  intros Hn Hs (u & t & -> & Hr). cbn [io_bind] in Hr. change (ledger (_ :: t)) with (ledger t).
  apply runs_bind in Hr as (t1 & t2 & o & -> & H1 & Hr). rewrite ledger_app, (off_ledger_none _ _ _ (transmit_off _ _ _) H1).
  destruct o as [v| | |]; [|by destruct Hr..]. destruct Hr as (est & t3 & -> & Hr). cbn [io_bind] in Hr.
  apply runs_bind in Hr as (t4 & t5 & o & -> & H2 & Hr). destruct o as [w| | |]; [|by destruct Hr..].
  change (ledger (_ :: t4 ++ t5)) with (ledger (t4 ++ t5)). rewrite ledger_app. cbn [app].
  assert (H4 : accounted (sv_sessions sv) (ledger t4) (sv_sessions sv)).
  { destruct est; [|destruct H2 as [-> _]; apply accounted_nil]. destruct H2 as (streams & t6 & -> & H2).
    change (ledger (_ :: t6)) with (ledger t6). cbn [io_bind] in H2. eapply handlers_accounted, H2. }
  destruct Hr as (closed & t6 & -> & Hr). cbn [io_bind] in Hr. destruct closed.
  - destruct Hr as (x & t7 & -> & -> & [= ->]). cbn [with_sessions sv_sessions].
    assert (Hd : del_session k (sv_sessions sv) = l1 ++ l2) by (rewrite Hs in Hn |- *; by apply del_session_split).
    split; [|by exists l1]. eapply accounted_trans; [exact H4|]. rewrite Hd, Hs. constructor; try done.
    + unfold keys. rewrite !map_app, app_nil_r. simpl. apply submseteq_app; [done|]. by apply submseteq_cons.
    + apply NoDup_sub. unfold keys. rewrite !map_app. apply submseteq_app; [done|]. by apply submseteq_cons.
    + exists []. split; [|done]. unfold sessions. rewrite !map_app, !app_nil_r. simpl. by rewrite Permutation_middle.
  - destruct Hr as [-> [= ->]]. rewrite app_nil_r. split; [done|]. exists (l1 ++ [(k, s)]). by rewrite <-app_assoc.
Qed.

Lemma serve_all_accounted closable fuel l : forall sv l1 tr sv', NoDup (keys (sv_sessions sv)) ->
  sv_sessions sv = l1 ++ l -> runs (serve_all closable fuel sv l) tr (Done sv') ->
  accounted (sv_sessions sv) (ledger tr) (sv_sessions sv').
Proof.
  induction l as [|[k s] l IH]; intros sv l1 tr sv' Hn Hs; cbn [serve_all]; [intros [-> [= ->]]; apply accounted_nil|].
  intros (t1 & t2 & o & -> & H1 & H2)%runs_bind. destruct o as [sv1| | |]; [|by destruct H2..].
  destruct (serve_session_accounted _ _ _ _ _ _ _ _ _ Hn Hs H1) as [Ha [l1' Hs']]. rewrite ledger_app.
  eapply accounted_trans; [exact Ha|]. eapply IH; [|exact Hs'|exact H2].
  by apply (ac_nodup _ _ _ Ha).
Qed.

Lemma loop_accounted on_error closable fuel ep : calls_only off_ledger on_error -> forall sv tr sv', NoDup (keys (sv_sessions sv)) ->
  runs (listen_loop on_error closable fuel ep sv) tr (Done sv') -> accounted (sv_sessions sv) (ledger tr) (sv_sessions sv').
Proof.
  intros He. induction fuel as [|fuel IH]; intros sv tr sv' Hn; cbn [listen_loop]; [by intros [_ ?]|].
  intros (r & t & -> & Hr). cbn [io_bind] in Hr. change (ledger (_ :: t)) with (ledger t). destruct r as [e|n].
  - destruct (e =? EINTR); [by apply IH|]. apply runs_bind in Hr as (t1 & t2 & u & -> & H1 & [-> [= ->]]).
    rewrite app_nil_r, (off_ledger_none _ _ _ He H1). apply accounted_nil.
  - apply runs_bind in Hr as (t1 & t2 & sv1 & -> & H1%receive_all_accounted & Hr). rewrite ledger_app.
    eapply accounted_trans; [exact H1|]. apply (ac_nodup _ _ _ H1) in Hn.
    apply runs_bind in Hr as (t3 & t4 & o & -> & H2 & Hr). destruct o as [sv2| | |]; [|by destruct Hr..].
    apply (serve_all_accounted _ _ _ _ []) in H2; [|done|done]. rewrite ledger_app.
    eapply accounted_trans; [exact H2|]. apply IH; [by apply (ac_nodup _ _ _ H2)|done].
Qed.

Lemma listen_accounted fuel sv tr sv' b : NoDup (keys (sv_sessions sv)) ->
  runs (quicpro_server_listen fuel sv) tr (Done (sv', b)) -> accounted (sv_sessions sv) (ledger tr) (sv_sessions sv').
Proof.
  intros Hn (ep & t & -> & Hr). cbn [io_bind] in Hr. change (ledger (_ :: t)) with (ledger t).
  destruct (ep =? -1); [destruct Hr as (? & ? & -> & -> & [= -> _]); apply accounted_nil|].
  destruct Hr as (q & t1 & -> & Hr). cbn [io_bind] in Hr. change (ledger (_ :: t1)) with (ledger t1).
  destruct (q =? -1); [destruct Hr as (? & ? & -> & ? & ? & -> & -> & [= -> _]); apply accounted_nil|].
  apply runs_bind in Hr as (t2 & t3 & o & -> & H1 & Hr). destruct o as [sv1| | |]; [|by destruct Hr..].
  destruct Hr as (u & t4 & -> & -> & [= -> _]). rewrite ledger_app, app_nil_r.
  eapply loop_accounted; [|done|exact H1]. repeat calls_only_step ltac:(exact I).
Qed.

(* ------------------------------------------------------------------------ *)
(** ** How the loop ends *)

(** A handler closed the server; [epoll_wait] failed for good. *)
Definition handler_closed (e : nevent) : bool := match e with Ev (CallHandler _ _) b => b | _ => false end.
Definition wait_failed (e : nevent) : bool :=
  match e with Ev (EpollWait _) (EpollErr errno) => negb (errno =? EINTR) | _ => false end.

(** Programs in which a closing handler can only be the last thing that happens. *)
Definition stops {A} (p : net (outcome unit A)) : Prop :=
  forall tr r, runs p tr r -> Exists (fun e => handler_closed e = true) tr -> r = Undefined.
Definition handlerless (o : nop) : Prop := match o with CallHandler _ _ => False | _ => True end.

Lemma handlerless_none {A} (p : net A) tr a : calls_only handlerless p -> runs p tr a ->
  ~ Exists (fun e => handler_closed e = true) tr.
Proof.
  intros Hp Hr%Hp [[o r] [Hin He]]%Exists_exists. rewrite Forall_forall in Hr. specialize (Hr _ Hin). by destruct o.
Qed.

Lemma stops_calm {A} (p : net (outcome unit A)) : calls_only handlerless p -> stops p.
Proof. intros Hp tr r Hr Hx. exfalso. by eapply handlerless_none. Qed.
Lemma stops_bind {A B} (p : net A) (f : A -> net (outcome unit B)) :
  calls_only handlerless p -> (forall a, stops (f a)) -> stops (io_bind p f).
Proof.
  intros Hp Hf tr r (t1 & t2 & a & -> & H1 & H2)%runs_bind [Hx|Hx]%Exists_app; [|by eapply Hf].
  exfalso. by eapply handlerless_none.
Qed.
Lemma stops_obind {A B} (p : net (outcome unit A)) (f : A -> net (outcome unit B)) :
  stops p -> (forall a, stops (f a)) -> stops (io_obind p f).
Proof.
  intros Hp Hf tr r (t1 & t2 & a & -> & H1 & H2)%runs_bind [Hx|Hx]%Exists_app.
  - rewrite (Hp _ _ H1 Hx) in H2. by destruct H2 as [_ ->].
  - destruct a; [by eapply Hf|destruct H2 as [-> _]; inversion Hx..].
Qed.

Ltac calm := repeat first [calls_only_step ltac:(exact I)|case_match].

(** Receiving and sending call no handler and bind nothing. *)
Definition bindless (o : nop) : Prop := match o with Bind _ _ _ => False | _ => True end.
Definition traffic (o : nop) : Prop := match o with CallHandler _ _ | Bind _ _ _ => False | _ => True end.

Lemma traffic_calm {A} (p : net A) : calls_only traffic p -> calls_only handlerless p.
Proof. apply calls_only_mono. by intros []. Qed.
Lemma traffic_bindless {A} (p : net A) : calls_only traffic p -> calls_only bindless p.
Proof. apply calls_only_mono. by intros []. Qed.

Lemma traffic_transmit fuel fd s : calls_only traffic (transmit fuel fd s).
Proof. induction fuel as [|fuel IH]; cbn [transmit]; repeat first [exact IH|calls_only_step ltac:(exact I)|case_match]. Qed.

Lemma traffic_receive n : forall sv, calls_only traffic (receive_all n sv).
Proof.
  induction n as [|n IH]; intros sv; cbn [receive_all]; [calm|]. apply calls_only_bind; [|intros; apply IH].
  unfold receive_datagram, generate_cid. calm.
Qed.

Section Ending.
Variable on_error : net unit.
Hypothesis on_error_calm : calls_only handlerless on_error.

Lemma stops_handlers sv s streams : stops (call_handlers true sv s streams).
Proof.
  induction streams as [|id streams IH]; cbn [call_handlers]; [apply stops_calm; calm|].
  intros tr r (z & t0 & -> & b & t & -> & Hr). cbn [io_bind] in Hr. rewrite andb_true_r in Hr. destruct b.
  - intros _. by apply runs_bind in Hr as (? & ? & ? & _ & _ & [_ ->]).
  - intros [Hx|[Hx|Hx]%Exists_cons]%Exists_cons; [done|done|by eapply IH].
Qed.

Lemma stops_serve fuel l : forall sv, stops (serve_all true fuel sv l).
Proof.
  induction l as [|[k s] l IH]; intros sv; cbn [serve_all]; [apply stops_calm; calm|].
  apply stops_obind; [|intros; apply IH]. unfold serve_session.
  apply stops_bind; [calm|intros _]. apply stops_obind; [apply stops_calm, traffic_calm, traffic_transmit|intros _].
  apply stops_bind; [calm|intros est]. apply stops_obind; [|intros _].
  - destruct est; [|apply stops_calm; calm]. apply stops_bind; [calm|intros; apply stops_handlers].
  - apply stops_bind; [calm|intros closed]. apply stops_calm. destruct closed; [|calm].
    unfold quicpro_session_dtor_internal. calm.
Qed.

Lemma stops_loop fuel ep : forall sv, stops (listen_loop on_error true fuel ep sv).
Proof.
  induction fuel as [|fuel IH]; intros sv; cbn [listen_loop]; [apply stops_calm; calm|].
  apply stops_bind; [calm|intros [e|n]].
  - destruct (e =? EINTR); [apply IH|]. apply stops_calm, calls_only_bind; [done|intros; calm].
  - apply stops_bind; [apply traffic_calm, traffic_receive|intros sv1]. apply stops_obind; [apply stops_serve|intros; apply IH].
Qed.
End Ending.

Lemma loop_done_failed on_error closable fuel ep : forall sv tr sv',
  runs (listen_loop on_error closable fuel ep sv) tr (Done sv') -> Exists (fun e => wait_failed e = true) tr.
Proof.
  induction fuel as [|fuel IH]; intros sv tr sv'; cbn [listen_loop]; [by intros [_ ?]|].
  intros (r & t & -> & Hr). cbn [io_bind] in Hr. destruct r as [e|n].
  - destruct (e =? EINTR) eqn:E; [right; by eapply IH|left]. simpl. by rewrite E.
  - right. apply runs_bind in Hr as (t1 & t2 & sv1 & -> & _ & Hr). apply Exists_app. right.
    apply runs_bind in Hr as (t3 & t4 & o & -> & _ & Hr). apply Exists_app. right.
    destruct o; [by eapply IH|by destruct Hr..].
Qed.

(* ------------------------------------------------------------------------ *)
(** ** The properties *)

(** Creating a server leaks nothing and releases nothing twice: a failure at any step
    gives back everything acquired before it, a success leaves exactly the record, the
    socket and the configuration of the server. *)
Theorem server_create_ownership host port options live tr r :
  runs (quicpro_server_create host port options) tr r -> honest ownership live tr ->
  exists live', psteps ownership live tr = Some live' /\ created live r live'.
Proof. intros Hr Hh. eapply safe_runs; [apply safe_create|done|done]. Qed.

(** C8: The server loop keeps its table.  Whatever arrives, every socket, connection and
    session used is live, the ids are distinct and of full length, and the sessions share
    nothing with each other or with the rest.  When it returns, the sessions there were and
    those accepted are exactly those handed to the destructor, each once, and those in the
    table, but for a session whose random id was taken already; handed to the destructor
    were exactly those whose connection was found closed, in that order; and every handler
    was called with the resource registered for it. *)
Theorem server_listen_keeps_table fuel sv core live tr r :
  inv (sv_fd sv) (sv_cfg sv) core live sv -> runs (quicpro_server_listen fuel sv) tr r -> honest ownership live tr ->
  exists live', psteps ownership live tr = Some live' /\
    forall sv' b, r = Done (sv', b) ->
      inv (sv_fd sv) (sv_cfg sv) core live' sv' /\ accounted (sv_sessions sv) (ledger tr) (sv_sessions sv').
Proof.
  intros Hi Hr Hh. destruct (listen_keeps fuel sv core live tr r Hi Hr Hh) as (live' & Hp & H). exists live'. split; [done|].
  intros sv' b ->. split; [by eapply H|]. eapply listen_accounted; [|exact Hr]. by destruct Hi.
Qed.


(** The loop returns only after [epoll_wait] has failed.  A handler that calls
    [quicpro_server_close], the one thing that clears [is_listening], ends it in undefined
    behaviour: the session being served and the table being walked are gone. *)
Theorem listen_ends_only_on_error on_error fuel ep sv tr r :
  calls_only handlerless on_error ->
  runs (listen_loop on_error true fuel ep sv) tr r ->
  (forall sv', r = Done sv' -> Exists (fun e => wait_failed e = true) tr) /\
  (Exists (fun e => handler_closed e = true) tr -> r = Undefined).
Proof.
  intros He Hr. split.
  - intros sv' ->. by eapply loop_done_failed.
  - intros Hx. by eapply (stops_loop on_error He).
Qed.

(** The addresses bound. *)
Definition bound (tr : list nevent) : list string :=
  omap (fun e => match ev_op e with Bind _ a _ => Some a | _ => None end) tr.

Lemma bindless_none {A} (p : net A) tr a : calls_only bindless p -> runs p tr a -> bound tr = [].
Proof. intros Hp Hr%Hp. induction Hr as [|[o r] tr Ho _ IH]; [done|]. by destruct o. Qed.

(** The answers of [inet_pton]. *)
Definition lookups (tr : list nevent) : list (option string) :=
  omap (fun e : nevent => match e return option (option string) with Ev (InetPton _ _) r => Some r | _ => None end) tr.

Lemma bindless_destroy l : calls_only bindless (destroy_sessions l).
Proof.
  induction l as [|[k s] l IH]; cbn [destroy_sessions]; [calm|]. apply calls_only_call; [exact I|intros; exact IH].
Qed.

Lemma bindless_handlers closable sv s streams : calls_only bindless (call_handlers closable sv s streams).
Proof.
  induction streams as [|id streams IH]; cbn [call_handlers]; [calm|]. apply calls_only_call; [exact I|intros z].
  apply calls_only_call; [exact I|intros c]. cbn [io_bind]. destruct (c && closable); [|exact IH]. unfold quicpro_server_close.
  apply calls_only_bind; [|intros; calm]. apply calls_only_bind; [apply bindless_destroy|intros; calm].
Qed.

Lemma bindless_serve closable fuel l : forall sv, calls_only bindless (serve_all closable fuel sv l).
Proof.
  induction l as [|[k s] l IH]; intros sv; cbn [serve_all]; [calm|].
  apply calls_only_bind; [|intros []; first [apply IH|calm]]. unfold serve_session.
  apply calls_only_call; [exact I|intros ?]. cbn [io_bind].
  apply calls_only_bind; [apply traffic_bindless, traffic_transmit|intros []; [|calm..]].
  apply calls_only_call; [exact I|intros est]. cbn [io_bind].
  apply calls_only_bind; [destruct est; [|calm]|intros []; [|calm..]].
  - apply calls_only_call; [exact I|intros streams]. apply bindless_handlers.
  - apply calls_only_call; [exact I|intros closed]. cbn [io_bind]. destruct closed; [|calm].
    unfold quicpro_session_dtor_internal. calm.
Qed.

Lemma bindless_loop closable fuel ep : forall sv, calls_only bindless (listen_loop (Ret tt) closable fuel ep sv).
Proof.
  induction fuel as [|fuel IH]; intros sv; cbn [listen_loop]; [calm|].
  apply calls_only_call; [exact I|]. intros [e|n]; cbn [io_bind]; [destruct (e =? EINTR); [apply IH|calm]|].
  apply calls_only_bind; [apply traffic_bindless, traffic_receive|intros sv1].
  apply calls_only_bind; [apply bindless_serve|intros []; first [apply IH|calm]].
Qed.

(** The HTTP/3 server asked to listen on an address that is not an IPv6 one (an IPv4
    address, a name, a typing error) listens on all interfaces. *)
Theorem http3_listens_everywhere fuel host port options tr r :
  runs (Http3.quicpro_http3_server_listen fuel host port options) tr r ->
  head (lookups tr) = Some None -> Forall (fun a => a = zeros 16) (bound tr).
Proof.
  intros (fd & t & -> & Hr) Hx. cbn [io_bind] in Hr. change (bound (_ :: t)) with (bound t).
  destruct (fd <? 0); [by destruct Hr as (? & ? & -> & -> & _)|].
  destruct Hr as (r1 & t1 & -> & r2 & t2 & -> & a & t3 & -> & r3 & t4 & -> & Hr). cbn [io_bind] in Hr.
  assert (a = None) as -> by (by injection Hx).
  match goal with |- Forall _ (bound ?l) => change (bound l) with (zeros 16 :: bound t4) end.
  cut (bound t4 = []); [intros ->; by repeat constructor|]. eapply bindless_none; [|exact Hr].
  destruct (r3 <? 0); [calm|]. apply calls_only_call; [exact I|intros [cfg|]; [|calm]].
  apply calls_only_bind; [unfold Http3.apply_config_to_quiche; calm|intros _].
  apply calls_only_call; [exact I|intros ep]. apply calls_only_call; [exact I|intros _].
  apply calls_only_bind; [by apply bindless_loop|intros []; [|calm..]].
  do 2 (apply calls_only_call; [exact I|intros _]). apply calls_only_bind; [by apply bindless_destroy|intros; calm].
Qed.

(* ------------------------------------------------------------------------ *)
(** ** Concrete runs *)

Module ServerDemo.
(** One client sends the same first datagram twice; [epoll_wait] fails at the third call. *)
Definition client_world (o : nop) (n : Z) : nans o * Z :=
  match o return nans o * Z with
  | EpollWait _ => (if n <? 20 then EpollEvents 2 else EpollErr 9, n + 1)
  | Recvfrom _ _ => (Recv [Byte.x01] "peer" None, n + 1)
  | HeaderInfo d => (Some d, n + 1)
  | ReadFd _ k => (Some (replicate k (z2b n)), n + 1)
  | ConnReadable _ => ([0], n + 1)
  | o => kind_world o n
  end.
(** As above, and the handler closes the server. *)
Definition closing_world (o : nop) (n : Z) : nans o * Z :=
  match o return nans o * Z with CallHandler _ _ => (true, n + 1) | o => client_world o n end.
(** An IPv4 address is given. *)
Definition v4_world (o : nop) (n : Z) : nans o * Z :=
  match o return nans o * Z with InetPton _ _ => (None, n + 1) | o => kind_world o n end.

Definition create_run := exec kind_world (quicpro_server_create "::1" 4433 ZNull) 1.
Definition sv0 : server := mkServer 1 2 7 [].
Definition core0 : list res := [RMem 1; RSock 2; RCfg 7].
Definition live0 : gset res := list_to_set core0.
Definition listen_run := exec client_world (quicpro_server_listen 10 sv0) 10.
Definition datagram_run := exec client_world (receive_datagram sv0) 10.
Definition closing_run := exec closing_world (listen_loop (Ret tt) true 10 3 sv0) 10.
Definition http3_run := exec v4_world (Http3.quicpro_http3_server_listen 10 "127.0.0.1" 443 ZNull) 1.
End ServerDemo.
Import ServerDemo.

Lemma server_create_ownership_witness : exists live',
  psteps ownership ∅ create_run.1.2 = Some live' /\ created ∅ (Some sv0) live'.
Proof.
  change (Some sv0) with (create_run.1.1).
  apply (server_create_ownership "::1" 4433 ZNull);
    [exact (exec_runs kind_world (quicpro_server_create "::1" 4433 ZNull) 1)|by apply honestb_sound; vm_compute].
Defined.

Lemma server_listen_keeps_table_witness : exists live',
  psteps ownership live0 listen_run.1.2 = Some live' /\
  forall sv' b, listen_run.1.1 = Done (sv', b) -> inv 2 7 core0 live' sv' /\ accounted [] (ledger listen_run.1.2) (sv_sessions sv').
Proof.
  apply (server_listen_keeps_table 10 sv0).
  - constructor; try done; try by repeat constructor.
    all: unfold core0, live0; repeat constructor; set_solver.
  - exact (exec_runs client_world (quicpro_server_listen 10 sv0) 10).
  - by apply honestb_sound; vm_compute.
Defined.


Lemma listen_ends_only_on_error_witness : closing_run.1.1 = Undefined.
Proof.
  destruct (listen_ends_only_on_error (Ret tt) 10 3 sv0 closing_run.1.2 closing_run.1.1) as [_ H].
  - calm.
  - exact (exec_runs closing_world (listen_loop (Ret tt) true 10 3 sv0) 10).
  - apply H, Exists_exists. exists (Ev (CallHandler 31 0) true). split; [by apply (list_elem_of_lookup_2 _ 22)|done].
Defined.

Lemma http3_listens_everywhere_witness : bound http3_run.1.2 = [zeros 16].
Proof.
  assert (Hf : Forall (fun a => a = zeros 16) (bound http3_run.1.2)).
  { apply (http3_listens_everywhere 10 "127.0.0.1" 443 ZNull http3_run.1.2 http3_run.1.1).
      - exact (exec_runs v4_world (Http3.quicpro_http3_server_listen 10 "127.0.0.1" 443 ZNull) 1).
    - reflexivity. }
  reflexivity.
Defined.
