(* ===== verification/Http2.v ===== *)
(** * The HTTP/2 server

    [extension/src/server/http2.c]: the callbacks that nghttp2 calls for the frames of a
    connection, the source of a response body, and the event handler of a connection.
    nghttp2 and the TLS library are the environment: a wake-up says what they answer, and
    the frames of [nghttp2_session_mem_recv] are the callbacks it makes, in order.

    The request array handed to PHP is the one kept in the stream ([ZVAL_COPY] shares it).
    The body of the response stays in the string of the handler's array, which is released
    when [on_frame_recv_callback] returns: [rb_kept] says whether that string lives on
    (because something else refers to it). *)

From Stdlib Require Import ZArith Lia String Strings.Byte.
From stdpp Require Import base tactics list gmap strings pretty.
From S2P Require Import Prelude Zend.

Local Open Scope Z_scope.

Record response_body_data_source := mkSource {
  rb_data : list byte;
  rb_offset : nat;
  rb_kept : bool;
}.

Record http2_stream_t := mkStream {
  request_headers : hashtable;
  request_body : option (list byte);
  response_body : option response_body_data_source;
}.

(** What the server has done for a stream: the handler's argument, a response. *)
Inductive action :=
| Called (id : Z) (request : hashtable)
| Submitted (id : Z) (status : string) (body : option (list byte)).

(** The connection: whether its nghttp2 session exists, the streams' data, the log. *)
Record http2_session_t := mkSession {
  ngh2_session : bool;
  streams : gmap Z http2_stream_t;
  log : list action;
}.

Definition with_stream (id : Z) (st : http2_stream_t) (c : http2_session_t) : http2_session_t :=
  mkSession (ngh2_session c) (<[id := st]> (streams c)) (log c).

(** What the PHP handler gives: [None] when the call fails, else its value and whether the
    body in it is referred to from elsewhere. *)
Definition handler_answer : Type := option (zval * bool).

Inductive h2_event :=
| BeginHeaders (id : Z) (request : bool)
| Header (id : Z) (request : bool) (name value : string)
| DataChunk (id : Z) (data : list byte)
| FrameRecv (id : Z) (headers end_stream : bool) (answer : handler_answer)
| StreamClose (id : Z).

Definition event_id (e : h2_event) : Z :=
  match e with BeginHeaders id _ | Header id _ _ _ | DataChunk id _ | FrameRecv id _ _ _ | StreamClose id => id end.

(* ------------------------------------------------------------------------ *)
(** ** The callbacks *)

Section Callbacks.
Context `{ZendConv}.

Definition on_begin_headers_callback (id : Z) (request : bool) (c : http2_session_t) : http2_session_t :=
  if request then with_stream id (mkStream [] None None) c else c.

(** [add_assoc_stringl]: the name up to its NUL, as a key; a repeated name is replaced. *)
Definition on_header_callback (id : Z) (request : bool) (name value : string) (c : http2_session_t) : http2_session_t :=
  if request then
    match streams c !! id with
    | None => c
    | Some st =>
        with_stream id (mkStream (ht_update (symtable_key (cstr name)) (ZString value) (request_headers st))
                          (request_body st) (response_body st)) c
    end
  else c.

Definition on_data_chunk_recv_callback (id : Z) (data : list byte) (c : http2_session_t) : http2_session_t :=
  match streams c !! id with
  | None => c
  | Some st =>
      with_stream id (mkStream (request_headers st)
        (Some (match request_body st with Some b => b ++ data | None => data end)) (response_body st)) c
  end.

(** [char status_str[4]]: three characters and the terminator. *)
Definition status_str (retval : hashtable) : string :=
  String.substring 0 3 (pretty (match ht_find (KStr "status") retval with Some v => zval_get_long v | None => 200 end)).

Definition with_body (st : http2_stream_t) : hashtable :=
  match request_body st with
  | Some b => ht_update (KStr "body") (ZString (string_of_list_byte b)) (request_headers st)
  | None => request_headers st
  end.

Definition on_frame_recv_callback (id : Z) (headers end_stream : bool) (answer : handler_answer)
    (c : http2_session_t) : http2_session_t :=
  if negb headers || negb end_stream then c
  else
    match streams c !! id with
    | None => c
    | Some st =>
        let request := with_body st in
        let done (src : option response_body_data_source) (acts : list action) :=
          mkSession (ngh2_session c) (<[id := mkStream request (request_body st) src]> (streams c))
            (log c ++ Called id request :: acts) in
        match answer with
        | Some (ZArray retval, kept) =>
            match ht_find (KStr "body") retval with
            | Some (ZString body) =>
                let data := list_byte_of_string body in
                done (Some (mkSource data 0 kept)) [Submitted id (status_str retval) (Some data)]
            | _ => done (response_body st) [Submitted id (status_str retval) None]
            end
        | _ => done (response_body st) []
        end
    end.

Definition on_stream_close_callback (id : Z) (c : http2_session_t) : http2_session_t :=
  mkSession (ngh2_session c) (delete id (streams c)) (log c).

Definition callback (e : h2_event) : http2_session_t -> http2_session_t :=
  match e with
  | BeginHeaders id request => on_begin_headers_callback id request
  | Header id request name value => on_header_callback id request name value
  | DataChunk id data => on_data_chunk_recv_callback id data
  | FrameRecv id headers end_stream answer => on_frame_recv_callback id headers end_stream answer
  | StreamClose id => on_stream_close_callback id
  end.

Definition mem_recv (es : list h2_event) (c : http2_session_t) : http2_session_t :=
  foldl (fun c e => callback e c) c es.

(** [response_read_callback]: the bytes copied, and whether they are the last. *)
Definition response_read_callback (length_ : nat) (src : response_body_data_source)
  : outcome unit (list byte * bool * response_body_data_source) :=
  let remaining := (length (rb_data src) - rb_offset src)%nat in
  let to_copy := if (length_ <? remaining)%nat then length_ else remaining in
  if (0 <? to_copy)%nat && negb (rb_kept src) then Undefined
  else
    let src' := mkSource (rb_data src) (rb_offset src + to_copy) (rb_kept src) in
    Done (take to_copy (drop (rb_offset src) (rb_data src)), bool_decide (rb_offset src' = length (rb_data src)), src').

(** nghttp2 asks again, with the room it has, until the end is flagged. *)
Fixpoint read_body (lengths : list nat) (src : response_body_data_source) : outcome unit (list byte * bool) :=
  match lengths with
  | [] => Done ([], false)
  | n :: lengths' =>
      let! '(got, eof, src) := response_read_callback n src in
      if eof then Done (got, true)
      else let! '(rest, eof) := read_body lengths' src in Done (got ++ rest, eof)
  end.

(* ------------------------------------------------------------------------ *)
(** ** The connection *)

Inductive ssl_accept := AcceptDone | AcceptAgain | AcceptFailed.
Inductive ssl_read := ReadBytes | ReadZero | ReadAgain | ReadFailed.

(** The event mask and the answers: the handshake, the read, the callbacks that the bytes
    read lead to and whether all were consumed, and whether sending succeeds. *)
Record wakeup := mkWakeup {
  w_epollin : bool;
  w_epollout : bool;
  w_accept : ssl_accept;
  w_read : ssl_read;
  w_events : list h2_event;
  w_consumed : bool;
  w_sent : bool;
}.

(** [None] is a closed connection.  Using the null session is undefined. *)
Definition do_handshake (w : wakeup) (c : http2_session_t) : option http2_session_t :=
  if ngh2_session c then Some c
  else match w_accept w with
       | AcceptDone => Some (mkSession true (streams c) (log c))
       | AcceptAgain => Some c
       | AcceptFailed => None
       end.

Definition do_read (w : wakeup) (c : http2_session_t) : outcome unit (option http2_session_t) :=
  if w_epollin w then
    match w_read w with
    | ReadBytes =>
        if ngh2_session c then
          let c' := mem_recv (w_events w) c in
          Done (if w_consumed w then Some c' else None)
        else Undefined
    | ReadZero | ReadFailed => Done None
    | ReadAgain => Done (Some c)
    end
  else Done (Some c).

Definition do_send (w : wakeup) (c : http2_session_t) : outcome unit (option http2_session_t) :=
  if w_epollout w then
    if ngh2_session c then Done (if w_sent w then Some c else None) else Undefined
  else Done (Some c).

Definition handle_client_event (w : wakeup) (c : http2_session_t) : outcome unit (option http2_session_t) :=
  match do_handshake w c with
  | None => Done None
  | Some c =>
      let! c := do_read w c in
      match c with
      | None => Done None
      | Some c => do_send w c
      end
  end.

Fixpoint serve (ws : list wakeup) (c : http2_session_t) : outcome unit (option http2_session_t) :=
  match ws with
  | [] => Done (Some c)
  | w :: ws' =>
      let! c := handle_client_event w c in
      match c with
      | None => Done None
      | Some c => serve ws' c
      end
  end.

(** A connection as [accept] leaves it. *)
Definition fresh_session : http2_session_t := mkSession false ∅ [].

(** The events of the loop, in the order of the batches: the listening socket, with the
    clients that [accept] gives until it fails, or a connection.  A connection is known by
    the address of its data; an address that has been freed is not in the map. *)
Inductive server_event :=
| Accepted (ptrs : list Z)
| ClientReady (ptr : Z) (w : wakeup).

Definition on_server_event (e : server_event) (m : gmap Z http2_session_t) : outcome unit (gmap Z http2_session_t) :=
  match e with
  | Accepted ptrs => Done (foldl (fun m p => <[p := fresh_session]> m) m ptrs)
  | ClientReady p w =>
      match m !! p with
      | None => Undefined
      | Some c =>
          let! c := handle_client_event w c in
          Done (match c with Some c => <[p := c]> m | None => delete p m end)
      end
  end.

Fixpoint event_loop (es : list server_event) (m : gmap Z http2_session_t) : outcome unit (gmap Z http2_session_t) :=
  match es with
  | [] => Done m
  | e :: es' => let! m := on_server_event e m in event_loop es' m
  end.
End Callbacks.

(** [quicpro_http2_server_listen] starts only with both files. *)
Definition listen_files (options_zv : zval) : option (string * string) :=
  let file (key : string) (opts : hashtable) : option string :=
    match ht_find (KStr key) opts with Some (ZString s) => Some (cstr s) | _ => None end in
  match options_zv with
  | ZArray opts =>
      match file "cert_file" opts, file "key_file" opts with
      | Some cert, Some key => Some (cert, key)
      | _, _ => None
      end
  | _ => None
  end.

(** [alpn_select_proto_cb], on what [nghttp2_select_next_protocol] returns. *)
Inductive alpn_result := SSL_TLSEXT_ERR_OK | SSL_TLSEXT_ERR_NOACK.
Definition alpn_select_proto_cb (selected : Z) : alpn_result :=
  if selected <=? 0 then SSL_TLSEXT_ERR_NOACK else SSL_TLSEXT_ERR_OK.

(** [send_callback], on what [SSL_write] returns and the error it leaves. *)
Inductive send_result := SentBytes (n : positive) | NGHTTP2_ERR_WOULDBLOCK | NGHTTP2_ERR_CALLBACK_FAILURE.
Definition send_callback (bytes_written : Z) (want_write : bool) : send_result :=
  match bytes_written with
  | Z.pos n => SentBytes n
  | _ => if want_write then NGHTTP2_ERR_WOULDBLOCK else NGHTTP2_ERR_CALLBACK_FAILURE
  end.
