(* ===== verification/Http2Props.v ===== *)
(** * The HTTP/2 server: streams, bodies and the null session *)

From Stdlib Require Import ZArith Lia String Strings.Byte.
From stdpp Require Import base tactics list gmap strings pretty.
From S2P Require Import Prelude Zend Http2.

Local Open Scope Z_scope.
Set Warnings "-clear-no-such-hyp".

(* ------------------------------------------------------------------------ *)
(** ** Streams do not see each other *)

Definition action_id (a : action) : Z := match a with Called id _ | Submitted id _ _ => id end.
Definition log_of (id : Z) (c : http2_session_t) : list action := filter (fun a => action_id a = id) (log c).
(** All there is of a stream in a connection. *)
Definition view (id : Z) (c : http2_session_t) : option http2_stream_t * list action := (streams c !! id, log_of id c).

Lemma log_of_app id c b sts acts : log_of id (mkSession b sts (log c ++ acts)) =
  log_of id c ++ filter (fun a => action_id a = id) acts.
Proof. unfold log_of. simpl. by rewrite filter_app. Qed.

Section Views.
Context `{ZendConv}.

(** A callback for another stream changes nothing, one for this stream depends on nothing
    else. *)
Lemma view_other e id c : event_id e <> id -> view id (callback e c) = view id c.
Proof.
  destruct e as [i r|i r n v|i d|i h es a|i]; simpl; intros Hne; unfold view.
  - unfold on_begin_headers_callback. destruct r; [|done]. simpl. by rewrite lookup_insert_ne.
  - unfold on_header_callback. destruct r; [|done]. destruct (streams c !! i); [|done]. simpl. by rewrite lookup_insert_ne.
  - unfold on_data_chunk_recv_callback. destruct (streams c !! i); [|done]. simpl. by rewrite lookup_insert_ne.
  - unfold on_frame_recv_callback. destruct (negb h || negb es); [done|]. destruct (streams c !! i) as [st|]; [|done].
    repeat case_match; cbn [streams]; rewrite lookup_insert_ne, log_of_app by done; simpl;
      rewrite !filter_cons_False by done; by rewrite app_nil_r.
  - simpl. by rewrite lookup_delete_ne.
Qed.

Lemma view_same e id c c' : event_id e = id -> view id c = view id c' -> view id (callback e c) = view id (callback e c').
Proof.
  intros <-. unfold view, log_of. intros [= Hs Hl]. destruct e as [i r|i r n v|i d|i h es a|i]; simpl in *.
  - unfold on_begin_headers_callback. destruct r; simpl; rewrite ?lookup_insert_eq; by rewrite ?Hs, Hl.
  - unfold on_header_callback. rewrite Hs. destruct r; [destruct (streams c' !! i) eqn:E|]; simpl;
      rewrite ?lookup_insert_eq; by rewrite ?Hs, ?E, Hl.
  - unfold on_data_chunk_recv_callback. rewrite Hs. destruct (streams c' !! i) eqn:E; simpl;
      rewrite ?lookup_insert_eq; by rewrite ?Hs, ?E, Hl.
  - unfold on_frame_recv_callback. rewrite Hs. destruct (negb h || negb es); [by rewrite Hs, Hl|].
    destruct (streams c' !! i) as [st|] eqn:E; [|by rewrite Hs, E, Hl].
    repeat case_match; cbn [streams log]; by rewrite !lookup_insert_eq, !filter_app, Hl.
  - by rewrite !lookup_delete_eq, Hl.
Qed.

Lemma mem_recv_cons e es c : mem_recv (e :: es) c = mem_recv es (callback e c).
Proof. done. Qed.

Lemma view_mem_recv id es : forall c c', view id c = view id c' ->
  view id (mem_recv es c) = view id (mem_recv (filter (fun e => event_id e = id) es) c').
Proof.
  induction es as [|e es IH]; intros c c' Hv; [done|]. rewrite filter_cons, mem_recv_cons. case_decide.
  - rewrite mem_recv_cons. by apply IH, view_same.
  - apply IH. by rewrite view_other.
Qed.

(* ------------------------------------------------------------------------ *)
(** ** The life of a request *)

(** The frames of one request: the header block, then the body if there is one.  The end of
    the stream is on the last frame. *)
Definition request (id : Z) (hdrs : list (string * string)) (chunks : list (list byte)) (answer : handler_answer)
  : list h2_event :=
  BeginHeaders id true :: map (fun h => Header id true h.1 h.2) hdrs ++
  [FrameRecv id true (bool_decide (chunks = [])) answer] ++
  map (DataChunk id) chunks ++
  (match chunks with [] => [] | _ => [FrameRecv id false true answer] end).

(** The array of the headers: a repeated name keeps its last value. *)
Definition header_array (hdrs : list (string * string)) : hashtable :=
  foldl (fun ht h => ht_update (symtable_key (cstr h.1)) (ZString h.2) ht) [] hdrs.

Lemma mem_recv_app es es' c : mem_recv (es ++ es') c = mem_recv es' (mem_recv es c).
Proof. apply foldl_app. Qed.

Lemma headers_stream id hdrs : forall c st, streams c !! id = Some st ->
  mem_recv (map (fun h => Header id true h.1 h.2) hdrs) c =
  mkSession (ngh2_session c) (<[id := mkStream
    (foldl (fun ht h => ht_update (symtable_key (cstr h.1)) (ZString h.2) ht) (request_headers st) hdrs)
    (request_body st) (response_body st)]> (streams c)) (log c).
Proof.
  induction hdrs as [|h hdrs IH]; intros c st Hs; simpl.
  - destruct c, st. simpl in *. by rewrite insert_id.
  - unfold on_header_callback. rewrite Hs. rewrite (IH _ (mkStream (ht_update (symtable_key (cstr h.1)) (ZString h.2)
      (request_headers st)) (request_body st) (response_body st))) by (simpl; by rewrite lookup_insert_eq).
    simpl. by rewrite insert_insert_eq.
Qed.

Lemma data_log id chunks : forall c, log (mem_recv (map (DataChunk id) chunks) c) = log c.
Proof.
  induction chunks as [|d chunks IH]; intros c; [done|]. simpl. rewrite IH. unfold on_data_chunk_recv_callback.
  by destruct (streams c !! id).
Qed.

Definition answered (id : Z) (req : hashtable) (answer : handler_answer) : list action :=
  Called id req ::
  match answer with
  | Some (ZArray retval, _) =>
      [Submitted id (status_str retval)
        (match ht_find (KStr "body") retval with Some (ZString b) => Some (list_byte_of_string b) | _ => None end)]
  | _ => []
  end.

Lemma request_log id hdrs chunks answer : log (mem_recv (request id hdrs chunks answer) (mkSession true ∅ [])) =
  match chunks with [] => answered id (header_array hdrs) answer | _ => [] end.
Proof.
  unfold request. rewrite mem_recv_cons, mem_recv_app. cbn [callback on_begin_headers_callback].
  rewrite (headers_stream id hdrs _ (mkStream [] None None)) by (simpl; by rewrite lookup_insert_eq).
  rewrite !mem_recv_app. change (mem_recv [?e]) with (callback e). cbn [callback].
  destruct chunks as [|d chunks].
  - rewrite bool_decide_eq_true_2 by done. cbn [mem_recv foldl map]. unfold on_frame_recv_callback. simpl.
    rewrite lookup_insert_eq. unfold header_array, answered, with_body. simpl. repeat case_match; simplify_eq; done.
  - rewrite bool_decide_eq_false_2 by done. unfold on_frame_recv_callback at 1. cbn [negb orb].
    change (mem_recv [FrameRecv id false true answer] ?c) with c. by rewrite data_log.
Qed.
End Views.

(* ------------------------------------------------------------------------ *)
(** ** The body of a response *)

Lemma read_body_from lengths : forall body off, Forall (fun n => 0 < n)%nat lengths -> lengths <> [] -> (off <= length body)%nat ->
  read_body lengths (mkSource body off true) =
  Done (take (sum_list lengths) (drop off body), bool_decide (length body - off <= sum_list lengths)%nat).
Proof.
  induction lengths as [|n lengths IH]; intros body off Hpos Hne Ho; [done|]. apply Forall_cons in Hpos as [Hn Hpos].
  cbn [read_body]. unfold response_read_callback. cbn [rb_data rb_offset rb_kept negb]. rewrite andb_false_r. cbn [obind].
  set (k := if (n <? length body - off)%nat then n else (length body - off)%nat).
  assert (Hk : k = Nat.min n (length body - off)) by (unfold k; destruct (Nat.ltb_spec n (length body - off)); lia).
  clearbody k. subst k. simpl sum_list. case_bool_decide as Heof.
  - rewrite bool_decide_eq_true_2 by lia. rewrite !take_ge by (rewrite length_drop; lia). done.
  - destruct lengths as [|m lengths].
    + cbn [read_body obind]. simpl sum_list. rewrite Nat.add_0_r, bool_decide_eq_false_2 by lia.
      rewrite app_nil_r, Nat.min_l by lia. done.
    + rewrite IH by (done || lia). cbn [obind]. rewrite Nat.min_l by lia.
      rewrite <- drop_drop, take_take_drop. f_equal. f_equal. apply bool_decide_ext. lia.
Qed.

(* ------------------------------------------------------------------------ *)
(** ** The properties *)

(** C20: The streams of a connection do not affect each other: what a stream's callbacks
    leave in its data, in the handler's calls and in the responses is the same whatever
    frames of other streams come between its own. *)
Theorem streams_independent `{ZendConv} id es c :
  view id (mem_recv es c) = view id (mem_recv (filter (fun e => event_id e = id) es) c).
Proof. by apply view_mem_recv. Qed.

(** A request without a body gets one call of the handler, with its headers, and one
    response when the handler returns an array.  A request with a body gets neither: the
    end of the stream is then on a DATA frame, which the server does not look at. *)
Theorem request_answered_iff_bodyless `{ZendConv} id hdrs chunks answer es :
  filter (fun e => event_id e = id) es = request id hdrs chunks answer ->
  log_of id (mem_recv es (mkSession true ∅ [])) =
  match chunks with [] => answered id (header_array hdrs) answer | _ => [] end.
Proof.
  intros Hf. pose proof (view_mem_recv id es (mkSession true ∅ []) _ eq_refl) as Hv. rewrite Hf in Hv.
  apply (f_equal snd) in Hv. cbn [view snd] in Hv. rewrite Hv. unfold log_of. rewrite request_log.
  destruct chunks; [|done]. unfold answered. rewrite filter_cons_True by done. f_equal.
  repeat case_match; first [done|by rewrite filter_cons_True].
Qed.

(** The body of a response goes out whole and in order, however little nghttp2 takes
    at a time, and its end is flagged exactly with its last byte; but when the string
    belongs only to the array that the handler returned, its memory is gone when it is
    first read. *)
Theorem response_body_delivered body lengths :
  lengths <> [] -> Forall (fun n => 0 < n)%nat lengths ->
  read_body lengths (mkSource body 0 true) =
    Done (take (sum_list lengths) body, bool_decide (length body <= sum_list lengths)%nat) /\
  (body <> [] -> read_body lengths (mkSource body 0 false) = Undefined).
Proof.
  intros Hne Hpos. split.
  - rewrite read_body_from by (done || lia). by rewrite drop_0, Nat.sub_0_r.
  - intros Hb. destruct lengths as [|n lengths]; [done|]. apply Forall_cons in Hpos as [Hn _].
    cbn [read_body]. unfold response_read_callback. cbn [rb_data rb_offset rb_kept negb]. rewrite Nat.sub_0_r, andb_true_r.
    assert (0 < length body)%nat by (destruct body; [done|simpl; lia]).
    destruct (Nat.ltb_spec n (length body)); rewrite (proj2 (Nat.ltb_lt 0 _)) by lia; done.
Qed.

Lemma mem_recv_ngh2 `{ZendConv} es : forall c, ngh2_session (mem_recv es c) = ngh2_session c.
Proof.
  induction es as [|e es IH]; intros c; [done|]. rewrite mem_recv_cons, IH. destruct e; simpl;
    unfold on_begin_headers_callback, on_header_callback, on_data_chunk_recv_callback, on_frame_recv_callback;
    repeat case_match; done.
Qed.

Lemma established_defined `{ZendConv} w c : ngh2_session c = true ->
  (let! c := do_read w c in match c with None => Done None | Some c => do_send w c end) <> Undefined.
Proof.
  intros En. pose proof (mem_recv_ngh2 (w_events w) c) as Hk. rewrite En in Hk. unfold do_read, do_send.
  rewrite En. destruct (w_epollin w), (w_read w), (w_consumed w), (w_epollout w); cbn [obind]; rewrite ?En, ?Hk; done.
Qed.

(** A wake-up while the TLS handshake is still going on uses the nghttp2 session that
    does not exist yet exactly when the socket is writable, or when the read completes
    the handshake and brings data; afterwards no wake-up does. *)
Theorem null_session_exact `{ZendConv} w c :
  handle_client_event w c = Undefined <->
  ngh2_session c = false /\ w_accept w = AcceptAgain /\
  ((w_epollin w = true /\ w_read w = ReadBytes) \/
   (w_epollout w = true /\ (w_epollin w = true -> w_read w = ReadAgain))).
Proof.
  unfold handle_client_event, do_handshake. destruct (ngh2_session c) eqn:En.
  - split; [intros Hu; by apply established_defined in Hu|by intros [? _]].
  - destruct (w_accept w).
    + split; [intros Hu; by apply established_defined in Hu|by intros (_ & ? & _)].
    + unfold do_read, do_send. destruct (w_epollin w), (w_read w), (w_epollout w); cbn [obind]; rewrite ?En;
        cbn [obind]; naive_solver.
    + split; [done|]. by intros (_ & ? & _).
Qed.

(** The wake-ups of one connection among the events of the loop. *)
Definition wakeups_of (p : Z) : list server_event -> list wakeup :=
  omap (fun e => match e with ClientReady p' w => if bool_decide (p' = p) then Some w else None | Accepted _ => None end).
Definition accepted_in (es : list server_event) : list Z :=
  concat (map (fun e => match e with Accepted ps => ps | ClientReady _ _ => [] end) es).

Lemma accepted_lookup ps p : p ∉ ps -> forall m : gmap Z http2_session_t,
  foldl (fun m p => <[p := fresh_session]> m) m ps !! p = m !! p.
Proof. induction ps as [|p' ps IH]; intros Hp m; [done|]. simpl. rewrite IH by set_solver. rewrite lookup_insert_ne; set_solver. Qed.

Lemma closed_gets_nothing `{ZendConv} p es : forall m m', event_loop es m = Done m' -> m !! p = None -> p ∉ accepted_in es ->
  m' !! p = None /\ wakeups_of p es = [].
Proof.
  induction es as [|[ps|p' w] es IH]; intros m m' Hl Hm Hp; cbn [event_loop on_server_event obind] in Hl.
  - by injection Hl as <-.
  - unfold accepted_in in Hp. simpl in Hp. rewrite not_elem_of_app in Hp. destruct Hp as [Hp1 Hp2].
    eapply IH; [exact Hl|by rewrite accepted_lookup|done].
  - destruct (m !! p') as [c|] eqn:Ep; [|done].
    destruct (handle_client_event w c) as [c'| | |] eqn:Eh; cbn [obind] in Hl; try done.
    assert (p' <> p) by congruence. cbn. rewrite bool_decide_eq_false_2 by done.
    eapply IH; [exact Hl| |done]. destruct c'; [rewrite lookup_insert_ne|rewrite lookup_delete_ne]; done.
Qed.

(** The connections of the loop do not affect each other: a connection is at the end
    what its own wake-ups make of it, gone if one of them closed it, whatever happens to
    the other connections in between; and no event is taken for a connection that is gone
    unless the loop itself is undefined. *)
Theorem connections_independent `{ZendConv} p es m m' c :
  event_loop es m = Done m' -> m !! p = Some c -> p ∉ accepted_in es ->
  serve (wakeups_of p es) c = Done (m' !! p).
Proof.
  revert m c. induction es as [|[ps|p' w] es IH]; intros m c Hl Hm Hp; cbn [event_loop on_server_event obind] in Hl.
  - injection Hl as <-. by rewrite Hm.
  - unfold accepted_in in Hp. simpl in Hp. rewrite not_elem_of_app in Hp. destruct Hp as [Hp1 Hp2].
    eapply IH; [exact Hl|by rewrite accepted_lookup|done].
  - destruct (m !! p') as [c0|] eqn:Ep; [|done].
    destruct (handle_client_event w c0) as [c'| | |] eqn:Eh; cbn [obind] in Hl; try done.
    change (p ∉ accepted_in es) in Hp. cbn [wakeups_of omap list_omap].
    destruct (decide (p' = p)) as [->|Hne].
    + rewrite bool_decide_eq_true_2 by done. simplify_eq. cbn [serve]. rewrite Eh. cbn [obind].
      destruct c' as [c'|]; [eapply IH; [exact Hl|by rewrite lookup_insert_eq|done]|].
      destruct (closed_gets_nothing p es _ _ Hl) as [-> _]; [by rewrite lookup_delete_eq|done|done].
    + rewrite bool_decide_eq_false_2 by done. eapply IH; [exact Hl| |done].
      destruct c'; [rewrite lookup_insert_ne|rewrite lookup_delete_ne]; done.
Qed.

(* ------------------------------------------------------------------------ *)
(** ** Concrete runs *)

Module Http2Demo.
Definition ok : handler_answer := Some (ZArray [(KStr "status", ZLong 204); (KStr "body", ZString "hi")], true).
Definition interleaved : list h2_event :=
  [BeginHeaders 1 true; BeginHeaders 3 true; Header 1 true ":path" "/a"; Header 3 true ":path" "/b";
   FrameRecv 1 true true ok; FrameRecv 3 true false ok; DataChunk 3 [Byte.x41]; FrameRecv 3 false true ok].
End Http2Demo.
Import Http2Demo.

Lemma request_answered_iff_bodyless_witness : let _ := demo_conv in
  log_of 1 (mem_recv interleaved (mkSession true ∅ [])) =
    [Called 1 [(KStr ":path", ZString "/a")]; Submitted 1 "204" (Some [Byte.x68; Byte.x69])] /\
  log_of 3 (mem_recv interleaved (mkSession true ∅ [])) = [].
Proof.
  intros conv. split.
  - apply (request_answered_iff_bodyless 1 [(":path", "/a")] [] ok). reflexivity.
  - apply (request_answered_iff_bodyless 3 [(":path", "/b")] [[Byte.x41]] ok). reflexivity.
Defined.

Lemma response_body_delivered_witness :
  read_body [2; 5]%nat (mkSource [Byte.x41; Byte.x42; Byte.x43] 0 true) = Done ([Byte.x41; Byte.x42; Byte.x43], true) /\
  read_body [2; 5]%nat (mkSource [Byte.x41; Byte.x42; Byte.x43] 0 false) = Undefined.
Proof.
  destruct (response_body_delivered [Byte.x41; Byte.x42; Byte.x43] [2; 5]%nat) as [H1 H2]; [done|by repeat constructor|].
  split; [exact H1|by apply H2].
Defined.

Definition demo_wakeup (es : list h2_event) (r : ssl_read) : wakeup := mkWakeup true false AcceptDone r es true true.
Definition demo_events : list server_event :=
  [ClientReady 1 (demo_wakeup [BeginHeaders 1 true] ReadBytes); Accepted [3]; ClientReady 3 (demo_wakeup [] ReadZero);
   ClientReady 1 (demo_wakeup [FrameRecv 1 true true ok] ReadBytes)].
Definition demo_clients : gmap Z http2_session_t := {[1 := fresh_session]}.

Lemma connections_independent_witness : let _ := demo_conv in
  exists c', serve (wakeups_of 1 demo_events) fresh_session = Done (Some c') /\ length (log c') = 2%nat.
Proof.
  intros conv. destruct (event_loop demo_events demo_clients) as [m'| | |] eqn:El; try (vm_compute in El; discriminate).
  rewrite (connections_independent 1 demo_events demo_clients m' fresh_session); [|exact El|reflexivity|unfold accepted_in; set_solver].
  assert (Hl : match event_loop demo_events demo_clients with
               | Done m => match m !! 1 with Some c' => length (log c') = 2%nat | None => False end
               | _ => False end) by (vm_compute; reflexivity).
  rewrite El in Hl. destruct (m' !! 1) as [c'|]; [|destruct Hl]. exists c'. by split.
Defined.
