(* ===== verification/Http2Memory.v ===== *)
(** * The memory of HTTP/2 streams

    The callbacks of [extension/src/server/http2.c] at the level of single allocations: for every
    stream its [http2_stream_t], the array of its headers and the body as far as it has come.
    [on_stream_close_callback] releases them.  [close_http2_session] and the
    [nghttp2_session_del] it calls make no callback, so what is live when a connection is
    closed is lost. *)

From Stdlib Require Import ZArith Lia String Strings.Byte.
From stdpp Require Import base tactics list gmap strings.
From S2P Require Import Prelude Zend Heap Http2.

Local Open Scope Z_scope.
Set Warnings "-clear-no-such-hyp,-missing-scheme".

(** The pointers of a stream: the struct, [request_headers], [request_body]. *)
Record stream_mem := mkSM { sm_self : Z; sm_headers : Z; sm_body : option Z }.
Definition stream_ptrs (s : stream_mem) : list Z := [sm_headers s] ++ ptr (sm_body s) ++ [sm_self s].

(** The streams that nghttp2 has the data of, by their number. *)
Definition begin_headers (id : Z) (request : bool) (m : gmap Z stream_mem) : mem (gmap Z stream_mem) :=
  if request then
    let$ self := emalloc in
    let$ headers := emalloc in
    mret (<[id := mkSM self headers None]> m)
  else mret m.

(** [erealloc] gives a new block for the old one, if there was one. *)
Definition data_chunk (id : Z) (m : gmap Z stream_mem) : mem (gmap Z stream_mem) :=
  match m !! id with
  | None => mret m
  | Some s =>
      let$ _ := efree_if (sm_body s) in
      let$ body := emalloc in
      mret (<[id := mkSM (sm_self s) (sm_headers s) (Some body)]> m)
  end.

(** The reference that [ZVAL_COPY] takes of the array for the handler's argument is dropped
    at the end. *)
Definition frame_recv (id : Z) (headers end_stream : bool) (m : gmap Z stream_mem) : mem (gmap Z stream_mem) :=
  if negb headers || negb end_stream then mret m
  else
    match m !! id with
    | None => mret m
    | Some _ => let$ request_zv := emalloc in let$ _ := efree request_zv in mret m
    end.

Definition stream_close (id : Z) (m : gmap Z stream_mem) : mem (gmap Z stream_mem) :=
  match m !! id with
  | None => mret m
  | Some s =>
      let$ _ := efree (sm_headers s) in
      let$ _ := efree_if (sm_body s) in
      let$ _ := efree (sm_self s) in
      mret (delete id m)
  end.

Definition callback_mem (e : h2_event) (m : gmap Z stream_mem) : mem (gmap Z stream_mem) :=
  match e with
  | BeginHeaders id request => begin_headers id request m
  | Header _ _ _ _ => mret m
  | DataChunk id _ => data_chunk id m
  | FrameRecv id headers end_stream _ => frame_recv id headers end_stream m
  | StreamClose id => stream_close id m
  end.

Fixpoint recv_mem (es : list h2_event) (m : gmap Z stream_mem) : mem (gmap Z stream_mem) :=
  match es with [] => mret m | e :: es' => let$ m' := callback_mem e m in recv_mem es' m' end.

(* ------------------------------------------------------------------------ *)
(** ** What is live *)

(** The blocks of a stream: struct and array, and the body once a chunk has come. *)
Definition stream_blocks (st : http2_stream_t) : nat := 2 + Nat.b2n (is_some (request_body st)).
Definition open_blocks (sts : gmap Z http2_stream_t) : nat := sum_list (map (fun x => stream_blocks x.2) (map_to_list sts)).

(** A second header block for a number that is open replaces the stream's data. *)
Definition replaced (e : h2_event) (c : http2_session_t) : nat :=
  match e with
  | BeginHeaders id true => match streams c !! id with Some st => stream_blocks st | None => 0 end
  | _ => 0
  end.
Fixpoint replaced_seq `{ZendConv} (es : list h2_event) (c : http2_session_t) : nat :=
  match es with [] => 0 | e :: es' => replaced e c + replaced_seq es' (callback e c) end.

Definition conn_ptrs (m : gmap Z stream_mem) : list Z := concat (map (fun x => stream_ptrs x.2) (map_to_list m)).

(** The pointers are those of the streams. *)
Definition same_shape (s : stream_mem) (st : http2_stream_t) : Prop := is_some (sm_body s) = is_some (request_body st).
Definition shaped (m : gmap Z stream_mem) (sts : gmap Z http2_stream_t) : Prop := map_relation (fun _ => same_shape)
  (fun _ _ => False) (fun _ _ => False) m sts.

Lemma shaped_iff m sts : shaped m sts <-> forall id, match m !! id, sts !! id with
  | Some s, Some st => same_shape s st | None, None => True | _, _ => False end.
Proof. unfold shaped, map_relation, option_relation. split; intros H id; specialize (H id); by destruct (m !! id), (sts !! id). Qed.

Lemma conn_ptrs_delete m id s : m !! id = Some s -> conn_ptrs m ≡ₚ stream_ptrs s ++ conn_ptrs (delete id m).
Proof. intros Hm. unfold conn_ptrs. by rewrite <- (map_to_list_delete m id s Hm). Qed.
Lemma conn_ptrs_insert m id s : conn_ptrs (<[id := s]> m) ≡ₚ stream_ptrs s ++ conn_ptrs (delete id m).
Proof. rewrite (conn_ptrs_delete _ id s) by apply lookup_insert_eq. by rewrite delete_insert_eq. Qed.
Lemma conn_ptrs_absent m id : m !! id = None -> conn_ptrs (delete id m) = conn_ptrs m.
Proof. intros Hm. by rewrite delete_id. Qed.

Lemma stream_ptrs_length s st : same_shape s st -> length (stream_ptrs s) = stream_blocks st.
Proof. unfold same_shape, stream_blocks. intros H. rewrite <- H. unfold stream_ptrs. by destruct (sm_body s). Qed.

Lemma shaped_insert m sts id s st : shaped m sts -> same_shape s st -> shaped (<[id := s]> m) (<[id := st]> sts).
Proof.
  rewrite !shaped_iff. intros H Hs i. destruct (decide (i = id)) as [->|Hne]; [by rewrite !lookup_insert_eq|].
  rewrite !lookup_insert_ne by done. apply H.
Qed.
Lemma shaped_delete m sts id : shaped m sts -> shaped (delete id m) (delete id sts).
Proof.
  rewrite !shaped_iff. intros H i. destruct (decide (i = id)) as [->|Hne]; [by rewrite !lookup_delete_eq|].
  rewrite !lookup_delete_ne by done. apply H.
Qed.

Lemma shaped_blocks m : forall sts, shaped m sts -> length (conn_ptrs m) = open_blocks sts.
Proof.
  induction m as [|id s m Hid IH] using map_ind; intros sts Hs.
  - assert (sts = ∅) as ->; [|done]. apply map_empty. intros i. pose proof (proj1 (shaped_iff _ _) Hs i) as H.
    rewrite lookup_empty in H. by destruct (sts !! i).
  - pose proof (proj1 (shaped_iff _ _) Hs id) as H. rewrite lookup_insert_eq in H.
    destruct (sts !! id) as [st|] eqn:Est; [|done].
    rewrite conn_ptrs_insert, length_app, (stream_ptrs_length s st H), conn_ptrs_absent by done.
    pose proof (shaped_delete _ _ id Hs) as Hd. rewrite delete_insert_id in Hd by done. rewrite (IH _ Hd).
    unfold open_blocks. rewrite <- (map_to_list_delete sts id st Est). done.
Qed.

Section Memory.
Context `{ZendConv}.

(** One callback: the streams' blocks stay those of the streams, and what it replaces is
    lost. *)
Lemma callback_mem_spec e c m lost : shaped m (streams c) ->
  triple (conn_ptrs m ++ lost) (callback_mem e m) (fun m' S => shaped m' (streams (callback e c)) /\
    exists more, S ≡ₚ conn_ptrs m' ++ more ++ lost /\ length more = replaced e c).
Proof.
  intros Hs. pose proof (proj1 (shaped_iff _ _) Hs) as Hi.
  assert (Hsame : forall (P : http2_session_t), shaped m (streams P) -> replaced e c = 0%nat ->
    triple (conn_ptrs m ++ lost) (mret m) (fun m' S => shaped m' (streams P) /\
      exists more, S ≡ₚ conn_ptrs m' ++ more ++ lost /\ length more = replaced e c)).
  { intros P HP H0. apply triple_ret. split; [done|]. exists []. by rewrite H0. }
  destruct e as [id request|id request name value|id data|id headers end_stream answer|id]; cbn [callback_mem callback].
  - unfold begin_headers, on_begin_headers_callback. destruct request; [|by apply Hsame].
    apply triple_alloc; intros self. apply triple_alloc; intros hd. apply triple_ret. cbn [with_stream streams replaced].
    split; [by apply shaped_insert|]. specialize (Hi id). destruct (m !! id) as [s|] eqn:Em.
    + destruct (streams c !! id) as [st|]; [|done]. exists (stream_ptrs s). split; [|by apply stream_ptrs_length].
      rewrite (conn_ptrs_delete m id s Em), conn_ptrs_insert. unfold stream_ptrs at 2. cbn. solve_Permutation.
    + destruct (streams c !! id); [done|]. exists []. split; [|done]. rewrite conn_ptrs_insert, conn_ptrs_absent by done.
      unfold stream_ptrs. cbn. solve_Permutation.
  - apply Hsame; [|done]. unfold on_header_callback. destruct request; [|done].
    destruct (streams c !! id) as [st|] eqn:Est; [|done]. cbn [with_stream streams]. specialize (Hi id). rewrite Est in Hi.
    destruct (m !! id) as [s|] eqn:Em; [|done]. rewrite <- (insert_id m id s Em). by apply shaped_insert.
  - unfold data_chunk, on_data_chunk_recv_callback. specialize (Hi id).
    destruct (m !! id) as [s|] eqn:Em, (streams c !! id) as [st|] eqn:Est; try done; [|by apply Hsame].
    eapply (triple_release _ (ptr (sm_body s)) ([sm_headers s; sm_self s] ++ conn_ptrs (delete id m) ++ lost)); [apply destroys_efree_if| |].
    { rewrite (conn_ptrs_delete m id s Em). unfold stream_ptrs. cbn. solve_Permutation. }
    apply triple_alloc; intros body. apply triple_ret. cbn [with_stream streams]. split; [by apply shaped_insert|].
    exists []. split; [|done]. rewrite conn_ptrs_insert. unfold stream_ptrs. cbn. solve_Permutation.
  - unfold frame_recv, on_frame_recv_callback. destruct (negb headers || negb end_stream); [by apply Hsame|]. specialize (Hi id).
    destruct (m !! id) as [s|] eqn:Em, (streams c !! id) as [st|] eqn:Est; try done; [|by apply Hsame].
    apply triple_alloc; intros q. apply (triple_release _ [q] (conn_ptrs m ++ lost)); [apply destroys_efree|reflexivity|]. apply Hsame; [|done].
    rewrite <- (insert_id m id s Em). repeat case_match; cbn [streams]; by apply shaped_insert.
  - unfold stream_close, on_stream_close_callback. cbn [streams]. specialize (Hi id).
    destruct (m !! id) as [s|] eqn:Em.
    + set (R := conn_ptrs (delete id m) ++ lost).
      assert (conn_ptrs m ++ lost ≡ₚ [sm_headers s] ++ ptr (sm_body s) ++ [sm_self s] ++ R) as ->
        by (rewrite (conn_ptrs_delete m id s Em); unfold stream_ptrs, R; solve_Permutation).
      apply (triple_release _ [sm_headers s] (ptr (sm_body s) ++ [sm_self s] ++ R)); [apply destroys_efree|done|].
      apply (triple_release _ (ptr (sm_body s)) ([sm_self s] ++ R)); [apply destroys_efree_if|done|].
      apply (triple_release _ [sm_self s] R); [apply destroys_efree|done|].
      apply triple_ret. split; [by apply shaped_delete|]. by exists [].
    + apply (Hsame (on_stream_close_callback id c)); [|done]. cbn [on_stream_close_callback streams].
      rewrite <- (delete_id m id Em). by apply shaped_delete.
Qed.

Lemma recv_mem_spec es : forall c m lost, shaped m (streams c) ->
  triple (conn_ptrs m ++ lost) (recv_mem es m) (fun m' S => shaped m' (streams (mem_recv es c)) /\
    exists more, S ≡ₚ conn_ptrs m' ++ more ++ lost /\ length more = replaced_seq es c).
Proof.
  induction es as [|e es IH]; intros c m lost Hs; cbn [recv_mem replaced_seq].
  { apply triple_ret. split; [done|]. by exists []. }
  eapply triple_bind; [by apply callback_mem_spec|]. intros m1 S (Hs1 & more & HS & Hm). rewrite HS.
  eapply triple_mono; [by apply IH|]. intros m2 S2 (Hs2 & more2 & HS2 & Hm2). split; [done|].
  exists (more2 ++ more). split; [by rewrite HS2, <- app_assoc|]. rewrite length_app. lia.
Qed.
End Memory.


(** Three streams, one of them with a body and one closed: five blocks are lost with the
    connection. *)
Example http2_streams_lost : let _ := demo_conv in
  let es := [BeginHeaders 1 true; BeginHeaders 3 true; DataChunk 3 [Byte.x61]; DataChunk 3 [Byte.x62]; BeginHeaders 5 true; StreamClose 1] in
  match recv_mem es ∅ (1, []) with Done (m, (_, L)) => (map fst (map_to_list m), length L) = ([5; 3], 5%nat) | _ => False end.
Proof. vm_compute. reflexivity. Qed.
