(* ===== verification/Listeners.v ===== *)
(** * The HTTP/1.1 and HTTP/2 listeners

    [quicpro_http1_server_listen] of [extension/src/server/http1.c] and
    [quicpro_http2_server_listen] of [http2.c]: the TLS context, the listening socket, the
    epoll instance, and the loop that accepts clients and hands their events to the
    connection's handler, with what closing a connection releases.

    The two loops are the same text up to the handler, so the loop is written once against
    the interface [Handler], of which the two protocols are instances.  The memory of a
    connection is known by its address: [clients] is the part of the heap that holds live
    connections.  The flag [is_listening] is never cleared, so the loop does not end: a run
    is observed after a number of rounds. *)

From Stdlib Require Import ZArith Lia String.
From stdpp Require Import base tactics sets list gmap strings.
From S2P Require Import Prelude Zend Io.
From S2P Require Http1 Http2.

Local Open Scope Z_scope.
Set Warnings "-clear-no-such-hyp".

(** The calls; [W] is what the TLS library, nghttp2 and the PHP handler answer while one
    event of a connection is handled.  The tag of a registration is [None] for the server
    and the connection's address otherwise. *)
Inductive lop :=
| Throw (message : string)
| CtxNew
| CtxSetOptions (ctx options : Z)
| CtxSetServername (ctx : Z)
| CtxSetAlpn (ctx : Z)
| CtxUseCertificate (ctx : Z) (file : string)
| CtxUsePrivateKey (ctx : Z) (file : string)
| CtxFree (ctx : Z)
| Socket
| SetSockOpt (fd : Z) (name : string) (value : Z)
| InetPton (addr : string)
| Bind (fd : Z) (addr : string) (port : Z)
| Listen (fd : Z)
| FcntlGetfl (fd : Z)
| FcntlSetfl (fd flags : Z)
| EpollCreate
| EpollAdd (epoll_fd fd : Z) (tag : option Z)
| EpollDel (epoll_fd fd : Z)
| EpollWait (epoll_fd : Z)
| Accept (fd : Z)
| Close (fd : Z)
| Ecalloc
| Efree (p : Z)
| SslNew (ctx : Z)
| SslSetFd (ssl fd : Z)
| SslShutdown (ssl : Z)
| SslFree (ssl : Z)
| BufferNew (owner : Z)
| BufferFree (owner : Z)
| Wake (p : Z).

(** [EpollWait]: [None] is an error; at most [MAX_EVENTS] events otherwise. *)
Definition lans (W : Type) (o : lop) : Type :=
  match o with
  | CtxNew | SslNew _ => option Z
  | CtxUseCertificate _ _ | CtxUsePrivateKey _ _ | Socket | SetSockOpt _ _ _ | Bind _ _ _ | Listen _
  | FcntlGetfl _ | FcntlSetfl _ _ | EpollCreate | EpollAdd _ _ _ | Accept _ | Ecalloc => Z
  | InetPton _ => option string
  | EpollWait _ => option (list (option Z))
  | Wake _ => W
  | _ => unit
  end.

Definition O_NONBLOCK : Z := 2048.
Definition MAX_EVENTS : nat := 128.

(** [http1_server_t] and [http2_server_t]: the members that are set. *)
Record server := mkServer { ssl_ctx : Z; listen_fd : Z; epoll_fd : Z }.

(** A connection's memory: descriptor, TLS connection, and the state of its handler. *)
Record client (C : Type) := mkClient { c_fd : Z; c_ssl : Z; c_conn : C }.
Arguments mkClient {C} c_fd c_ssl c_conn.
Arguments c_fd {C} c.
Arguments c_ssl {C} c.
Arguments c_conn {C} c.

Definition with_conn {C} (cl : client C) (c : C) : client C := mkClient (c_fd cl) (c_ssl cl) c.

(** What a connection's handler does with an event: its three stages, whether the
    connection owns a buffer (the response, or the nghttp2 session), and what closing it
    calls. *)
Class Handler (C W : Type) := {
  fresh_client : C;
  handshake : W -> C -> option C;
  reading : W -> C -> outcome unit (option C);
  writing : W -> C -> outcome unit (option C);
  has_buffer : C -> bool;
  teardown : Z -> Z -> client C -> io (lans W) unit;
}.

Definition handle `{Handler C W} (w : W) (c : C) : outcome unit (option C) :=
  match handshake w c with
  | None => Done None
  | Some c1 =>
      let! o := reading w c1 in
      match o with None => Done None | Some c2 => writing w c2 end
  end.

(* ------------------------------------------------------------------------ *)
(** ** The loop *)

Section Loop.
Context {C W : Type} `{Handler C W}.

Abbreviation lio := (io (lans W)).
Abbreviation lcall := (@call lop (lans W)).

Definition set_nonblocking (fd : Z) : lio Z :=
  let* flags := lcall (FcntlGetfl fd) in
  if flags =? -1 then Ret (-1) else lcall (FcntlSetfl fd (Z.lor flags O_NONBLOCK)).

(** What handling an event comes to; the last is undefined behaviour of the handler. *)
Inductive handled := Kept (c : C) | Closed | Undef (w : W) (c : C).

Definition grow (p : Z) (c c' : C) : lio unit :=
  if has_buffer c' && negb (has_buffer c) then lcall (BufferNew p) else Ret tt.

Definition handle_client (epfd p : Z) (cl : client C) : lio handled :=
  let c := c_conn cl in
  let* w := lcall (Wake p) in
  match handshake w c with
  | None => let* _ := teardown epfd p cl in Ret Closed
  | Some c1 =>
      let* _ := grow p c c1 in
      match reading w c1 with
      | Done None => let* _ := teardown epfd p (with_conn cl c1) in Ret Closed
      | Done (Some c2) =>
          let* _ := grow p c1 c2 in
          match writing w c2 with
          | Done None => let* _ := teardown epfd p (with_conn cl c2) in Ret Closed
          | Done (Some c3) => Ret (Kept c3)
          | _ => Ret (Undef w c)
          end
      | _ => Ret (Undef w c)
      end
  end.

(** The state of the loop: it goes on with its connections; it is still accepting; the
    handler's behaviour is undefined; memory that is not a live connection is used; a TLS
    connection that [SSL_new] did not make is used. *)
Inductive progress :=
| Going (clients : gmap Z (client C))
| Accepting
| HandlerUndefined (w : W) (c : C)
| Dangling
| NullTls.

Definition then_ (p : lio progress) (k : gmap Z (client C) -> lio progress) : lio progress :=
  let* r := p in match r with Going m => k m | _ => Ret r end.

(** [while (1)] over [accept] until it fails. *)
Fixpoint accept_clients (fuel : nat) (sv : server) (clients : gmap Z (client C)) : lio progress :=
  match fuel with
  | O => Ret Accepting
  | S fuel' =>
      let* client_fd := lcall (Accept (listen_fd sv)) in
      if client_fd <? 0 then Ret (Going clients)
      else
        let* _ := set_nonblocking client_fd in
        let* conn := lcall Ecalloc in
        let* ssl := lcall (SslNew (ssl_ctx sv)) in
        match ssl with
        | None => Ret NullTls
        | Some ssl =>
            let* _ := lcall (SslSetFd ssl client_fd) in
            let* _ := lcall (EpollAdd (epoll_fd sv) client_fd (Some conn)) in
            accept_clients fuel' sv (<[conn := mkClient client_fd ssl fresh_client]> clients)
        end
  end.

Definition on_event (fuel : nat) (sv : server) (tag : option Z) (clients : gmap Z (client C)) : lio progress :=
  match tag with
  | None => accept_clients fuel sv clients
  | Some p =>
      match clients !! p with
      | None => Ret Dangling
      | Some cl =>
          let* r := handle_client (epoll_fd sv) p cl in
          match r with
          | Kept c => Ret (Going (<[p := with_conn cl c]> clients))
          | Closed => Ret (Going (delete p clients))
          | Undef w c => Ret (HandlerUndefined w c)
          end
      end
  end.

Fixpoint on_events (fuel : nat) (sv : server) (tags : list (option Z)) (clients : gmap Z (client C)) : lio progress :=
  match tags with
  | [] => Ret (Going clients)
  | tag :: tags' => then_ (on_event fuel sv tag clients) (on_events fuel sv tags')
  end.

(** The connections after a number of rounds; an error of [epoll_wait] is a round without
    events. *)
Fixpoint rounds (n fuel : nat) (sv : server) (clients : gmap Z (client C)) : lio progress :=
  match n with
  | O => Ret (Going clients)
  | S n' =>
      let* events := lcall (EpollWait (epoll_fd sv)) in
      then_ (on_events fuel sv (match events with Some tags => tags | None => [] end) clients) (rounds n' fuel sv)
  end.

(* ------------------------------------------------------------------------ *)
(** ** Setting up *)

(** [Refused]: an exception and [false]; [NoContext]: the context that [SSL_CTX_new] did not
    make is used; otherwise the server is in its loop. *)
Inductive listened := Refused | Running (sv : server) (p : progress) | NoContext.

Definition start_loop (n fuel : nat) (ctx fd : Z) : lio listened :=
  let* epfd := lcall EpollCreate in
  let* _ := lcall (EpollAdd epfd fd None) in
  let sv := mkServer ctx fd epfd in
  let* p := rounds n fuel sv ∅ in
  Ret (Running sv p).

(** [http1.c]: a socket, and no more; the file names are fixed and the results unused.
    The options say: no SSL 2 and 3, no TLS 1.0 and 1.1. *)
Definition SSL_OP_NO_OLD : Z := Z.lor (Z.shiftl 1 25) (Z.lor (Z.shiftl 1 26) (Z.shiftl 1 28)).

Definition quicpro_http1_server_listen (n fuel : nat) : lio listened :=
  let* ctx := lcall CtxNew in
  match ctx with
  | None => Ret NoContext
  | Some ctx =>
      let* _ := lcall (CtxSetOptions ctx SSL_OP_NO_OLD) in
      let* _ := lcall (CtxSetServername ctx) in
      let* _ := lcall (CtxUseCertificate ctx "path/to/default-cert.pem") in
      let* _ := lcall (CtxUsePrivateKey ctx "path/to/default-key.pem") in
      let* fd := lcall Socket in
      start_loop n fuel ctx fd
  end.

Definition refuse_tls (ctx : Z) : lio listened :=
  let* _ := lcall (CtxFree ctx) in
  let* _ := lcall (Throw "Failed to load TLS certificate/key.") in
  Ret Refused.

Definition refuse_bind (ctx fd : Z) : lio listened :=
  let* _ := lcall (Throw "HTTP/2 server failed to bind/listen") in
  let* _ := lcall (Close fd) in
  let* _ := lcall (CtxFree ctx) in
  Ret Refused.

(** The address is [::] when [inet_pton] does not understand the host. *)
Definition bind_address (host : string) : lio string :=
  let* a := lcall (InetPton (cstr host)) in
  Ret (match a with Some a => a | None => string_of_list_ascii (replicate 16 (Ascii.ascii_of_nat 0)) end).

(** [http2.c], with the two files of the configuration ([Http2.listen_files]). *)
Definition quicpro_http2_server_listen (n fuel : nat) (host : string) (port : Z) (files : option (string * string))
  : lio listened :=
  match files with
  | None =>
      let* _ := lcall (Throw "HTTP/2 server requires 'cert_file' and 'key_file' in configuration.") in
      Ret Refused
  | Some (cert_file, key_file) =>
      let* ctx := lcall CtxNew in
      match ctx with
      | None => Ret NoContext
      | Some ctx =>
          let* _ := lcall (CtxSetAlpn ctx) in
          let* r := lcall (CtxUseCertificate ctx cert_file) in
          if r <=? 0 then refuse_tls ctx
          else
            let* r := lcall (CtxUsePrivateKey ctx key_file) in
            if r <=? 0 then refuse_tls ctx
            else
              let* fd := lcall Socket in
              let* _ := lcall (SetSockOpt fd "SO_REUSEADDR" 1) in
              let* _ := lcall (SetSockOpt fd "IPV6_V6ONLY" 0) in
              let* a := bind_address host in
              let* r := lcall (Bind fd a (port mod 2 ^ 16)) in
              if r <? 0 then refuse_bind ctx fd
              else
                let* r := set_nonblocking fd in
                if r <? 0 then refuse_bind ctx fd
                else
                  let* r := lcall (Listen fd) in
                  if r <? 0 then refuse_bind ctx fd
                  else start_loop n fuel ctx fd
      end
  end.
End Loop.
Arguments handled : clear implicits.
Arguments progress : clear implicits.
Arguments listened : clear implicits.

(* ------------------------------------------------------------------------ *)
(** ** The two handlers *)

Section Handlers.
Context `{ZendConv}.

(** [http1.c]: the buffer is the response, from the moment it is formatted. *)
Definition write_buffer_set (c : Http1.http1_client_connection_t) : bool :=
  match Http1.state c with Http1.STATE_WRITING => true | _ => false end.

Definition close_client_connection (epfd p : Z) (cl : client Http1.http1_client_connection_t)
  : io (lans Http1.wakeup) unit :=
  let* _ := call (EpollDel epfd (c_fd cl)) in
  let* _ := call (SslShutdown (c_ssl cl)) in
  let* _ := call (SslFree (c_ssl cl)) in
  let* _ := call (Close (c_fd cl)) in
  let* _ := if write_buffer_set (c_conn cl) then call (BufferFree p) else Ret tt in
  call (Efree p).

#[export] Instance http1_handler : Handler Http1.http1_client_connection_t Http1.wakeup := {|
  fresh_client := Http1.fresh_connection;
  handshake w c := match Http1.do_handshake w c with Done o => o | _ => None end;
  reading := Http1.do_read;
  writing w c := Done (Http1.do_write w c).1;
  has_buffer := write_buffer_set;
  teardown := close_client_connection;
|}.

(** [http2.c]: the buffer is the nghttp2 session.  A connection has an accepted descriptor and
    its TLS object, so the tests of [fd] and [ssl] always hold. *)
Definition close_http2_session (epfd p : Z) (cl : client Http2.http2_session_t) : io (lans Http2.wakeup) unit :=
  let* _ := call (EpollDel epfd (c_fd cl)) in
  let* _ := if Http2.ngh2_session (c_conn cl) then call (BufferFree p) else Ret tt in
  let* _ := call (SslShutdown (c_ssl cl)) in
  let* _ := call (SslFree (c_ssl cl)) in
  let* _ := call (Close (c_fd cl)) in
  call (Efree p).

#[export] Instance http2_handler : Handler Http2.http2_session_t Http2.wakeup := {|
  fresh_client := Http2.fresh_session;
  handshake := Http2.do_handshake;
  reading := Http2.do_read;
  writing := Http2.do_send;
  has_buffer := Http2.ngh2_session;
  teardown := close_http2_session;
|}.
End Handlers.

(* ------------------------------------------------------------------------ *)
(** ** The protocol *)

Inductive lres := RCtx (h : Z) | RFd (fd : Z) | RMem (p : Z) | RSsl (h : Z) | RBuf (owner : Z).
#[export] Instance lres_eq_dec : EqDecision lres.
Proof. solve_decision. Defined.
Definition lres_code (r : lres) : nat * Z :=
  match r with RCtx h => (0, h) | RFd h => (1, h) | RMem h => (2, h) | RSsl h => (3, h) | RBuf h => (4, h) end%nat.
Definition lres_decode (c : nat * Z) : option lres :=
  match c with
  | (0, h) => Some (RCtx h) | (1, h) => Some (RFd h) | (2, h) => Some (RMem h) | (3, h) => Some (RSsl h)
  | (4, h) => Some (RBuf h) | _ => None
  end%nat.
#[export] Instance lres_countable : Countable lres.
Proof. apply (inj_countable lres_code lres_decode). by intros []. Defined.

(** What is live; the descriptors registered with the epoll instance, with their tags; and
    what is known of sockets. *)
Record lstate := mkL { live : gset lres; reg : gset (Z * option Z); facts : gset (Z * string) }.

(** A negative descriptor is harmless: the call fails. *)
Definition fd_res (fd : Z) : gset lres := if fd <? 0 then ∅ else {[RFd fd]}.

Section Protocol.
Context {W : Type}.
Abbreviation levent := (event (lans W)).

Definition acquired (e : levent) : gset lres :=
  match e with
  | Ev CtxNew (Some h) => {[RCtx h]}
  | Ev Socket fd | Ev EpollCreate fd | Ev (Accept _) fd => fd_res fd
  | Ev Ecalloc p => {[RMem p]}
  | Ev (SslNew _) (Some h) => {[RSsl h]}
  | Ev (BufferNew p) _ => {[RBuf p]}
  | _ => ∅
  end.

Definition released (o : lop) : gset lres :=
  match o with
  | CtxFree h => {[RCtx h]}
  | Close fd => fd_res fd
  | Efree p => {[RMem p]}
  | SslFree h => {[RSsl h]}
  | BufferFree p => {[RBuf p]}
  | _ => ∅
  end.

Definition needed (o : lop) : gset lres :=
  match o with
  | CtxSetOptions h _ | CtxSetServername h | CtxSetAlpn h | CtxUseCertificate h _ | CtxUsePrivateKey h _
  | CtxFree h | SslNew h => {[RCtx h]}
  | SetSockOpt fd _ _ | Bind fd _ _ | Listen fd | FcntlGetfl fd | FcntlSetfl fd _ | EpollWait fd | Accept fd
  | Close fd => fd_res fd
  | EpollAdd epfd fd _ | EpollDel epfd fd => fd_res epfd ∪ fd_res fd
  | SslSetFd h fd => {[RSsl h]} ∪ fd_res fd
  | SslShutdown h | SslFree h => {[RSsl h]}
  | Efree p | Wake p => {[RMem p]}
  | BufferNew p => {[RMem p]}
  | BufferFree p => {[RBuf p]}
  | _ => ∅
  end.

(** The facts about a socket, learned from calls that succeed. *)
Definition socket_facts (fd : Z) : gset (Z * string) := {[(fd, "bound"); (fd, "nonblocking"); (fd, "listening")]}.
Definition learned (e : levent) : gset (Z * string) :=
  match e with
  | Ev (Bind fd _ _) r => if r <? 0 then ∅ else {[(fd, "bound")]}
  | Ev (FcntlSetfl fd flags) r => if (r <? 0) || negb (Z.testbit flags 11) then ∅ else {[(fd, "nonblocking")]}
  | Ev (Listen fd) r => if r <? 0 then ∅ else {[(fd, "listening")]}
  | _ => ∅
  end.
Definition forgotten (e : levent) : gset (Z * string) :=
  match e with
  | Ev Socket fd | Ev (Accept _) fd | Ev EpollCreate fd => if fd <? 0 then ∅ else socket_facts fd
  | _ => ∅
  end.

(** A new epoll instance has no registrations. *)
Definition reg_after (s : lstate) (e : levent) : gset (Z * option Z) :=
  match e with
  | Ev EpollCreate _ => ∅
  | Ev (EpollAdd _ fd tag) r => if r <? 0 then reg s else {[(fd, tag)]} ∪ reg s
  | Ev (EpollDel _ fd) _ | Ev (Close fd) _ => filter (fun x => x.1 <> fd) (reg s)
  | _ => reg s
  end.

(** The environment: fresh handles; [accept] succeeds on listening sockets only; [epoll_wait] reports each registration at most
    once, and nothing else. *)
Definition l_promise (s : lstate) (e : levent) : Prop :=
  match e with
  | Ev (BufferNew _) _ => True
  | _ => acquired e ## live s
  end /\
  match e with
  | Ev (Accept fd) r => 0 <= r -> (fd, "listening") ∈ facts s
  | Ev (EpollWait _) (Some tags) => NoDup tags /\ forall tag, tag ∈ tags -> exists fd, (fd, tag) ∈ reg s
  | _ => True
  end.

(** Which calls are allowed: with what they need live; a buffer is not made over another
    one; and, in the strict protocol, connections are waited for only on a socket that is
    bound, non-blocking and listening. *)
Definition allowed (strict : bool) (s : lstate) (o : lop) : Prop :=
  needed o ⊆ live s /\
  match o with
  | BufferNew p => RBuf p ∉ live s
  | Accept fd => if strict then socket_facts fd ⊆ facts s else True
  | _ => True
  end.
#[global] Instance allowed_dec strict s o : Decision (allowed strict s o).
Proof. unfold allowed. destruct o; try apply _. destruct strict; apply _. Defined.

Definition l_after (s : lstate) (e : levent) : lstate :=
  mkL (acquired e ∪ (live s ∖ released (ev_op e))) (reg_after s e) (learned e ∪ (facts s ∖ forgotten e)).

Definition l_step (strict : bool) (s : lstate) (e : levent) : option lstate :=
  if decide (allowed strict s (ev_op e)) then Some (l_after s e) else None.

Definition listening (strict : bool) : protocol (lans W) := Protocol lstate l_promise (l_step strict).
End Protocol.

(** What the server and a connection own. *)
Definition server_owns (sv : server) : gset lres := {[RCtx (ssl_ctx sv)]} ∪ fd_res (listen_fd sv) ∪ fd_res (epoll_fd sv).
Definition client_owns `{Handler C W} (p : Z) (cl : client C) : gset lres :=
  {[RMem p; RFd (c_fd cl); RSsl (c_ssl cl)]} ∪ if has_buffer (c_conn cl) then {[RBuf p]} else ∅.

(** What a handler promises to the loop: a buffer is kept until the connection is closed,
    and closing releases what the connection owns and its registration, and nothing else. *)
Class HandlerLaws (C W : Type) `{Handler C W} := {
  fresh_no_buffer : has_buffer fresh_client = false;
  handshake_buffer : forall w c c', handshake w c = Some c' -> has_buffer c = true -> has_buffer c' = true;
  reading_buffer : forall w c c', reading w c = Done (Some c') -> has_buffer c = true -> has_buffer c' = true;
  writing_buffer : forall w c c', writing w c = Done (Some c') -> has_buffer c' = has_buffer c;
  handle_cases : forall w c, handle w c = Undefined \/ exists o, handle w c = Done o;
  teardown_safe : forall strict epfd p cl s, 0 <= c_fd cl -> fd_res epfd ∪ client_owns p cl ⊆ live s ->
    safe (listening strict) (teardown epfd p cl) s (fun _ s' =>
      live s' = live s ∖ client_owns p cl /\ reg s' = filter (fun x => x.1 <> c_fd cl) (reg s) /\ facts s' = facts s);
}.
