(* ===== verification/ListenerProps.v ===== *)
(** * The listeners: who owns what, and which memory is used

    The loop against the protocol [listening], for any handler that keeps [HandlerLaws];
    then the handlers of HTTP/1.1 and HTTP/2 as instances, and the two servers. *)

From Stdlib Require Import ZArith Lia String.
From stdpp Require Import base tactics sets list gmap strings.
From S2P Require Import Prelude Zend Io Listeners.
From S2P Require Http1 Http2.
From S2P Require Import Http2Props.

Local Open Scope Z_scope.
Set Warnings "-clear-no-such-hyp,-missing-scheme".

Lemma l_safe_step {W A} strict o (k : lans W o -> io (lans W) A) s Q :
  allowed strict s o ->
  (forall r, l_promise s (Ev o r) -> safe (listening strict) (k r) (l_after s (Ev o r)) Q) ->
  safe (listening strict) (Call o k) s Q.
Proof.
  intros Ha Hk r Hp. exists (l_after s (Ev o r)). split; [|by apply Hk].
  cbn [pstep listening]. unfold l_step. cbn [ev_op]. by rewrite decide_True.
Qed.

Lemma diff_none `{Countable A} (X : gset A) : X ∖ ∅ = X.
Proof. apply set_eq. set_solver. Qed.

(** A call that changes nothing but perhaps facts of no interest. *)
Ltac l_call r Hr :=
  cbn [io_bind call]; apply l_safe_step; [unfold allowed; cbn [needed]; split; [|try done]|intros r Hr; cbv beta].

(** The state after a call, as a triple. *)
Ltac l_state :=
  cbv beta iota zeta delta [l_after acquired released learned forgotten reg_after ev_op]; cbn [live reg facts];
  rewrite ?diff_none, ?(left_id_L ∅ (∪)).

Lemma fd_res_nonneg fd : 0 <= fd -> fd_res fd = {[RFd fd]}.
Proof. intros Hfd. unfold fd_res. by rewrite (proj2 (Z.ltb_ge fd 0)). Qed.

Lemma safe_set_nonblocking {W} strict fd s (Q : Z -> lstate -> Prop) : fd_res fd ⊆ live s ->
  (forall r f, facts s ⊆ f -> (0 <= r -> (fd, "nonblocking") ∈ f) -> Q r (mkL (live s) (reg s) f)) ->
  safe (listening strict) (set_nonblocking (W := W) fd) s Q.
Proof.
  intros Hfd HQ. unfold set_nonblocking. l_call flags Hflags; [done|]. cbn [lans] in flags |- *.
  replace (l_after s _) with s by (destruct s; l_state; f_equal; set_solver).
  destruct (Z.eqb_spec flags (-1)); [destruct s; apply HQ; [done|lia]|].
  l_call r Hr; [done|]. cbn [lans] in r |- *. l_state. apply HQ; [set_solver|]. intros Hr0.
  rewrite (proj2 (Z.ltb_ge r 0)) by lia. unfold O_NONBLOCK. rewrite Z.lor_spec. change (Z.testbit 2048 11) with true.
  rewrite orb_true_r. cbn [negb orb]. set_solver.
Qed.

Section Counting.
Context {C W : Type} `{Handler C W}.
Abbreviation lio := (io (lans W)).

(** The loop is still accepting only when that many clients have come. *)
Definition clients_accepted (tr : list (event (lans W))) : nat :=
  length (List.filter (fun e : event (lans W) => match e with Ev (Accept _) r => 0 <=? r | _ => false end) tr).

Lemma clients_accepted_app t1 t2 : clients_accepted (t1 ++ t2) = (clients_accepted t1 + clients_accepted t2)%nat.
Proof. unfold clients_accepted. by rewrite List.filter_app, length_app. Qed.

Lemma accepting_clients fuel sv : forall m tr, runs (accept_clients (W := W) fuel sv m) tr Accepting -> (fuel <= clients_accepted tr)%nat.
Proof.
  induction fuel as [|fuel IH]; intros m tr Hr; [lia|]. cbn [accept_clients io_bind call runs] in Hr.
  destruct Hr as (fd & tr' & -> & Hr). cbn [lans] in fd. destruct (Z.ltb_spec fd 0) as [|Hfd]; [by destruct Hr|].
  change (clients_accepted (Ev (Accept (listen_fd sv)) fd :: tr')) with (clients_accepted ([Ev (Accept (listen_fd sv)) fd] ++ tr')).
  rewrite clients_accepted_app. replace (clients_accepted [_]) with 1%nat.
  2:{ unfold clients_accepted. simpl. by rewrite (proj2 (Z.leb_le 0 fd)). }
  apply runs_bind in Hr as (t1 & t2 & u & -> & _ & Hr). rewrite clients_accepted_app. cbn [io_bind call runs] in Hr.
  destruct Hr as (p & t3 & -> & ssl & t4 & -> & Hr). cbn [lans] in ssl. destruct ssl as [ssl|]; [|by destruct Hr].
  cbn [io_bind call runs] in Hr. destruct Hr as (u1 & t5 & -> & u2 & t6 & -> & Hr). apply IH in Hr.
  change (?a :: ?b :: ?c :: ?d :: t6) with ([a; b; c; d] ++ t6). rewrite clients_accepted_app. lia.
Qed.

(** A TLS connection or a context that is not there was refused by the library. *)
Definition answered_null (tr : list (event (lans W))) : Prop :=
  exists e, e ∈ tr /\ match e with Ev (SslNew _) None | Ev CtxNew None => True | _ => False end.

Lemma null_tls_clients fuel sv : forall m tr, runs (accept_clients (W := W) fuel sv m) tr NullTls -> answered_null tr.
Proof.
  induction fuel as [|fuel IH]; intros m tr Hr; [by destruct Hr|]. cbn [accept_clients io_bind call runs] in Hr.
  destruct Hr as (fd & tr' & -> & Hr). cbn [lans] in fd. destruct (Z.ltb_spec fd 0); [by destruct Hr|].
  apply runs_bind in Hr as (t1 & t2 & u & -> & _ & Hr). cbn [io_bind call runs] in Hr.
  destruct Hr as (p & t3 & -> & ssl & t4 & -> & Hr). cbn [lans] in ssl. destruct ssl as [ssl|].
  - cbn [io_bind call runs] in Hr. destruct Hr as (u1 & t5 & -> & u2 & t6 & -> & Hr).
    destruct (IH _ _ Hr) as (e & He & Hn). exists e. split; [|done]. set_solver.
  - eexists. split; [right; apply elem_of_app; right; right; by left|done].
Qed.

(** What stops the loop while it accepts clients shows in the trace of the whole loop. *)
Section Stops.
Variables (R : progress C W) (T : list (event (lans W)) -> Prop) (fuel : nat).
Hypothesis HR : R = Accepting \/ R = NullTls.
Hypothesis HT : forall t1 t t2, T t -> T (t1 ++ t ++ t2).
Hypothesis Haccept : forall sv m tr, runs (accept_clients (W := W) fuel sv m) tr R -> T tr.

Lemma stop_then (p : lio (progress C W)) k tr : runs (then_ p k) tr R ->
  (forall t, runs p t R -> T t) -> (forall m t, runs (k m) t R -> T t) -> T tr.
Proof.
  intros (t1 & t2 & r & -> & H1 & H2)%runs_bind Hp Hk.
  destruct r; cbn [runs] in H2; try (destruct H2 as [-> ->]; apply (HT []), Hp; done).
  rewrite <- (app_nil_r t2). apply HT. by eapply Hk.
Qed.

Lemma stop_rounds n sv : forall m tr, runs (rounds (W := W) n fuel sv m) tr R -> T tr.
Proof.
  induction n as [|n IH]; intros m tr Hr; cbn [rounds io_bind call runs] in Hr; [by destruct HR as [-> | ->], Hr|].
  destruct Hr as (ev & tr' & -> & Hr). rewrite <- (app_nil_r tr'). apply (HT [_]).
  eapply stop_then; [exact Hr| |exact IH]. clear tr' Hr. generalize m.
  induction (match ev with Some tags => tags | None => [] end) as [|tag tags IHt]; intros m' tr Hr; cbn [on_events runs] in Hr;
    [by destruct HR as [-> | ->], Hr|].
  eapply stop_then; [exact Hr| |exact IHt]. clear Hr. intros t Hr. destruct tag as [p|]; cbn [on_event] in Hr; [|by eapply Haccept].
  destruct (m' !! p); [|by destruct HR as [-> | ->], Hr]. apply runs_bind in Hr as (? & ? & h & -> & _ & Hr).
  by destruct HR as [-> | ->], h, Hr.
Qed.
End Stops.

Lemma accepting_rounds n fuel sv m tr : runs (rounds (W := W) n fuel sv m) tr Accepting -> (fuel <= clients_accepted tr)%nat.
Proof.
  apply (stop_rounds Accepting (fun t => (fuel <= clients_accepted t)%nat)); [by left| |intros; by eapply accepting_clients].
  intros t1 t t2. rewrite !clients_accepted_app. lia.
Qed.
Lemma null_tls_rounds n fuel sv m tr : runs (rounds (W := W) n fuel sv m) tr NullTls -> answered_null tr.
Proof.
  apply (stop_rounds NullTls answered_null); [by right| |intros; by eapply null_tls_clients].
  intros t1 t t2 (e & He & Hn). exists e. set_solver.
Qed.
End Counting.

(* ------------------------------------------------------------------------ *)
(** ** The invariant of the loop *)

Section Loop.
Context {C W : Type} `{HandlerLaws C W}.
Variables (strict : bool) (base : gset lres).
Hypothesis base_no_buffer : forall p, RBuf p ∉ base.

Abbreviation lio := (io (lans W)).

Definition owned (m : gmap Z (client C)) (p : Z) : gset lres :=
  match m !! p with Some cl => client_owns p cl | None => ∅ end.

(** Everything live is the caller's, the server's or a connection's; nobody shares; the
    registrations are those of connections that are still there. *)
Record inv (sv : server) (m : gmap Z (client C)) (s : lstate) : Prop := {
  inv_live : forall x, (x ∈ live s) <-> x ∈ base \/ x ∈ server_owns sv \/ exists p, x ∈ owned m p;
  inv_fd : forall p cl, m !! p = Some cl -> 0 <= c_fd cl;
  inv_apart : forall p x, x ∈ owned m p -> (x ∉ base) /\ x ∉ server_owns sv;
  inv_owner : forall p q x, x ∈ owned m p -> x ∈ owned m q -> p = q;
  inv_reg : forall fd p, (fd, Some p) ∈ reg s -> exists cl, m !! p = Some cl /\ c_fd cl = fd;
  inv_facts : strict = true -> socket_facts (listen_fd sv) ⊆ facts s;
}.

(** One connection is added, changed or removed. *)
Lemma inv_replace sv m m' p s s' : inv sv m s ->
  (forall q, q <> p -> m' !! q = m !! q) ->
  (forall x, x ∈ live s' <-> x ∈ live s /\ x ∉ owned m p \/ x ∈ owned m' p) ->
  (forall x, x ∈ owned m' p -> x ∉ owned m p -> x ∉ live s) ->
  (forall cl, m' !! p = Some cl -> 0 <= c_fd cl) ->
  (forall fd q, (fd, Some q) ∈ reg s' -> exists cl, m' !! q = Some cl /\ c_fd cl = fd) ->
  (strict = true -> socket_facts (listen_fd sv) ⊆ facts s') ->
  inv sv m' s'.
Proof.
  intros [Hl Hf Ha Ho Hr Hc] Hm Hl' Hnew Hfd Hreg Hfacts.
  assert (Hq : forall q, q <> p -> owned m' q = owned m q) by (intros q Hne; unfold owned; by rewrite Hm).
  assert (Hold : forall x, x ∈ owned m' p -> x ∈ owned m p \/ x ∉ live s).
  { intros x Hx. destruct (decide (x ∈ owned m p)); [by left|right; by apply Hnew]. }
  split; [| | | |done|done].
  - intros x. rewrite Hl'. split.
    + intros [[[?|[?|[q Hx]]]%Hl Hn]|Hx]; [by left|by right; left| |by right; right; exists p].
      right. right. exists q. rewrite Hq; [done|]. by intros ->.
    + intros [Hx|[Hx|[q Hx]]].
      * left. split; [apply Hl; by left|]. intros Hp. by destruct (Ha _ _ Hp).
      * left. split; [apply Hl; by right; left|]. intros Hp. by destruct (Ha _ _ Hp).
      * destruct (decide (q = p)) as [->|Hne]; [by right|]. rewrite Hq in Hx by done. left.
        split; [apply Hl; right; right; by exists q|]. intros Hp. apply Hne. by eapply Ho.
  - intros q cl Hcl. destruct (decide (q = p)) as [->|Hne]; [by apply Hfd|]. rewrite Hm in Hcl by done. by eapply Hf.
  - intros q x Hx. destruct (decide (q = p)) as [->|Hne]; [|rewrite Hq in Hx by done; by eapply Ha].
    destruct (Hold x Hx) as [Hp|Hn]; [by eapply Ha|]. split; intros Hb; apply Hn, Hl; [by left|by right; left].
  - intros q q' x Hx Hx'. destruct (decide (q = p)) as [->|Hne], (decide (q' = p)) as [->|Hne']; [done| | |].
    + rewrite Hq in Hx' by done. destruct (Hold x Hx) as [Hp|Hn]; [by eapply Ho|]. destruct Hn. apply Hl. right. right. by exists q'.
    + rewrite Hq in Hx by done. destruct (Hold x Hx') as [Hp|Hn]; [by eapply Ho|]. destruct Hn. apply Hl. right. right. by exists q.
    + rewrite !Hq in * by done. by eapply Ho.
Qed.

Lemma owned_live sv m s p cl : inv sv m s -> m !! p = Some cl -> client_owns p cl ⊆ live s.
Proof.
  intros Hi Hp x Hx. apply (inv_live _ _ _ Hi). right. right. exists p. unfold owned. by rewrite Hp.
Qed.
Lemma server_live sv m s : inv sv m s -> server_owns sv ⊆ live s.
Proof. intros Hi x Hx. apply (inv_live _ _ _ Hi). by right; left. Qed.

Lemma safe_teardown epfd sv m s p cl : inv sv m s -> fd_res epfd ⊆ server_owns sv -> m !! p = Some cl ->
  safe (listening strict) (teardown epfd p cl) s (fun _ s' => inv sv (delete p m) s').
Proof.
  intros Hi He Hp. pose proof (owned_live _ _ _ _ _ Hi Hp) as Hown. pose proof (server_live _ _ _ Hi) as Hsv.
  eapply safe_mono; [apply teardown_safe; [by eapply inv_fd|set_solver]|].
  intros [] s' (Hl & Hr & Hf). apply (inv_replace sv m _ p s); [done| | | | | |].
  - intros q Hne. by rewrite lookup_delete_ne.
  - intros x. rewrite Hl. unfold owned. rewrite Hp, lookup_delete_eq. set_solver.
  - intros x. unfold owned at 1. rewrite lookup_delete_eq. set_solver.
  - by rewrite lookup_delete_eq.
  - intros fd q Hin. rewrite Hr in Hin. apply elem_of_filter in Hin as [Hne Hin]. cbn [fst] in Hne.
    destruct (inv_reg _ _ _ Hi _ _ Hin) as (cl' & Hq & <-). exists cl'. rewrite lookup_delete_ne; [done|]. congruence.
  - rewrite Hf. apply (inv_facts _ _ _ Hi).
Qed.

Lemma reg_same (m : gmap Z (client C)) p cl c s fd q : m !! p = Some cl ->
  (forall fd q, (fd, Some q) ∈ reg s -> exists cl, m !! q = Some cl /\ c_fd cl = fd) ->
  (fd, Some q) ∈ reg s -> exists cl', <[p := with_conn cl c]> m !! q = Some cl' /\ c_fd cl' = fd.
Proof.
  intros Hp Hr (cl' & Hq & Hfd)%Hr. destruct (decide (q = p)) as [->|Hne].
  - exists (with_conn cl c). rewrite lookup_insert_eq. split; [done|]. cbn. congruence.
  - exists cl'. by rewrite lookup_insert_ne.
Qed.

(** A connection's state changes, with its buffer as it was. *)
Lemma inv_same_buffer sv m s p cl c : inv sv m s -> m !! p = Some cl -> has_buffer c = has_buffer (c_conn cl) ->
  inv sv (<[p := with_conn cl c]> m) s.
Proof.
  intros Hi Hp Hb. assert (Heq : owned (<[p := with_conn cl c]> m) p = owned m p).
  { unfold owned, client_owns. rewrite lookup_insert_eq, Hp. cbn. by rewrite Hb. }
  apply (inv_replace sv m _ p s); [done| | | | | |].
  - intros q Hne. by rewrite lookup_insert_ne.
  - intros x. rewrite Heq. pose proof (owned_live _ _ _ _ _ Hi Hp). unfold owned. rewrite Hp.
    destruct (decide (x ∈ client_owns p cl)); set_solver.
  - rewrite Heq. done.
  - rewrite lookup_insert_eq. intros cl' [= <-]. exact (inv_fd _ _ _ Hi _ _ Hp).
  - intros fd q. apply reg_same; [done|apply (inv_reg _ _ _ Hi)].
  - apply (inv_facts _ _ _ Hi).
Qed.

Lemma owned_buffer m p q : RBuf p ∈ owned m q -> p = q.
Proof. unfold owned, client_owns. repeat case_match; set_solver. Qed.

Lemma safe_grow sv m s p cl c : inv sv m s -> m !! p = Some cl ->
  (has_buffer (c_conn cl) = true -> has_buffer c = true) ->
  safe (listening strict) (grow (W := W) p (c_conn cl) c) s (fun _ s' => inv sv (<[p := with_conn cl c]> m) s').
Proof.
  intros Hi Hp Hk. unfold grow. destruct (has_buffer c) eqn:Ec, (has_buffer (c_conn cl)) eqn:Eb; cbn [andb negb];
    try (apply inv_same_buffer; by rewrite ?Ec, ?Eb); [|by specialize (Hk eq_refl)].
  assert (Hnb : RBuf p ∉ live s).
  { rewrite (inv_live _ _ _ Hi). intros [Hx|[Hx|[q Hx]]]; [by eapply base_no_buffer| |].
    - unfold server_owns, fd_res in Hx. repeat case_match; set_solver.
    - assert (q = p) as -> by (apply owned_buffer in Hx; congruence). revert Hx. unfold owned, client_owns.
      rewrite Hp, Eb. set_solver. }
  l_call u Hu.
  { apply singleton_subseteq_l, (owned_live _ _ _ _ _ Hi Hp). unfold client_owns. set_solver. }
  l_state. apply (inv_replace sv m _ p s); [done| | | | | |].
  - intros q Hne. by rewrite lookup_insert_ne.
  - intros x. pose proof (owned_live _ _ _ _ _ Hi Hp) as Hown. unfold owned. rewrite lookup_insert_eq, Hp.
    unfold client_owns in *. cbn [c_conn c_fd c_ssl with_conn live]. rewrite Eb in *. rewrite Ec.
    destruct (decide (x ∈ ({[RMem p; RFd (c_fd cl); RSsl (c_ssl cl)]} : gset lres))); set_solver.
  - intros x. unfold owned. rewrite lookup_insert_eq, Hp. unfold client_owns. cbn. rewrite Eb, Ec.
    intros Hx Hn. assert (x = RBuf p) as -> by set_solver. done.
  - rewrite lookup_insert_eq. intros cl' [= <-]. exact (inv_fd _ _ _ Hi _ _ Hp).
  - intros fd q. cbn [reg]. apply reg_same; [done|apply (inv_reg _ _ _ Hi)].
  - cbn [facts]. intros Hs. pose proof (inv_facts _ _ _ Hi Hs). set_solver.
Qed.

(** ** The loop keeps it *)

Lemma with_conn_twice (cl : client C) c c' : with_conn (with_conn cl c) c' = with_conn cl c'.
Proof. done. Qed.
Lemma inv_conn sv m s p cl : inv sv m s -> m !! p = Some cl -> <[p := with_conn cl (c_conn cl)]> m = m.
Proof. intros _ Hp. rewrite insert_id; [done|]. rewrite Hp. by destruct cl. Qed.

Definition handled_ok (sv : server) (m : gmap Z (client C)) (p : Z) (cl : client C) (r : handled C W) (s : lstate) : Prop :=
  match r with
  | Kept c => inv sv (<[p := with_conn cl c]> m) s
  | Closed => inv sv (delete p m) s
  | Undef w c => handle w c = Undefined
  end.

Lemma not_done_undefined w c : (forall o, handle w c <> Done o) -> handle w c = Undefined.
Proof. intros Hn. destruct (handle_cases w c) as [?|[o Ho]]; [done|]. by destruct (Hn o). Qed.

Lemma safe_close_client epfd sv m s p cl c : inv sv (<[p := with_conn cl c]> m) s -> fd_res epfd ⊆ server_owns sv ->
  safe (listening strict) (let* _ := teardown epfd p (with_conn cl c) in Ret (Closed (W := W))) s
    (fun r s' => handled_ok sv m p cl r s').
Proof.
  intros Hi He. apply safe_bind. eapply safe_mono; [eapply (safe_teardown _ _ _ _ p); [done|done|apply lookup_insert_eq]|].
  intros [] s'. cbn [handled_ok safe]. by rewrite delete_insert_eq.
Qed.

Lemma safe_handle_client sv m s p cl : inv sv m s -> m !! p = Some cl ->
  safe (listening strict) (handle_client (W := W) (epoll_fd sv) p cl) s (handled_ok sv m p cl).
Proof.
  intros Hi Hp. assert (He : fd_res (epoll_fd sv) ⊆ server_owns sv) by (unfold server_owns; set_solver).
  unfold handle_client. l_call w Hw; [|cbn [lans] in w |- *].
  { apply singleton_subseteq_l, (owned_live _ _ _ _ _ Hi Hp). unfold client_owns. set_solver. }
  replace (l_after s _) with s by (destruct s; l_state; f_equal; set_solver). clear Hw.
  assert (Hun : forall r, handle w (c_conn cl) = r -> (forall o, r <> Done o) -> handle w (c_conn cl) = Undefined).
  { intros r Hr Hn. apply not_done_undefined. intros o. rewrite Hr. apply Hn. }
  unfold handle in Hun at 1. destruct (handshake w (c_conn cl)) as [c1|] eqn:E1.
  2:{ rewrite <- (inv_conn _ _ _ _ _ Hi Hp) in Hi. replace cl with (with_conn cl (c_conn cl)) at 1 by by destruct cl. by apply safe_close_client. }
  apply safe_bind. eapply safe_mono; [eapply safe_grow; [done|done|by eapply handshake_buffer]|]. intros u1 s1 Hi1.
  destruct (reading w c1) as [o| | |] eqn:E2; [|by apply (Hun _ eq_refl)..].
  destruct o as [c2|]; [|by apply safe_close_client].
  apply safe_bind. eapply safe_mono; [eapply (safe_grow _ _ _ p (with_conn cl c1)); [exact Hi1|apply lookup_insert_eq|by eapply reading_buffer]|].
  intros u2 s2 Hi2. rewrite insert_insert_eq, with_conn_twice in Hi2.
  cbn [obind] in Hun. destruct (writing w c2) as [o| | |] eqn:E3; [|by apply (Hun _ eq_refl)..].
  destruct o as [c3|]; [|by apply safe_close_client].
  cbn [safe handled_ok].
  pose proof (inv_same_buffer sv _ s2 p (with_conn cl c2) c3 Hi2 ltac:(apply lookup_insert_eq) (writing_buffer _ _ _ E3)) as Hi3.
  by rewrite insert_insert_eq in Hi3.
Qed.

Definition progress_ok (sv : server) (Q : gmap Z (client C) -> Prop) (r : progress C W) (s : lstate) : Prop :=
  match r with
  | Going m => inv sv m s /\ Q m
  | Accepting => True
  | HandlerUndefined w c => handle w c = Undefined
  | Dangling => False
  | NullTls => True
  end.

(** A client that has just been accepted. *)
Lemma inv_accept sv m s p fd ssl r f : inv sv m s -> 0 <= fd -> RMem p ∉ live s -> RFd fd ∉ live s -> RSsl ssl ∉ live s ->
  (strict = true -> socket_facts (listen_fd sv) ⊆ f) ->
  (forall fd' q, (fd', Some q) ∈ r -> (fd', Some q) ∈ reg s \/ (fd', q) = (fd, p)) ->
  inv sv (<[p := mkClient fd ssl fresh_client]> m) (mkL ({[RSsl ssl]} ∪ ({[RMem p]} ∪ ({[RFd fd]} ∪ live s))) r f).
Proof.
  intros Hi Hfd Hp Hf Hs Hfacts Hreg.
  assert (Hm : m !! p = None).
  { destruct (m !! p) as [cl|] eqn:E; [|done]. destruct Hp. apply (owned_live _ _ _ _ _ Hi E). unfold client_owns. set_solver. }
  assert (Hown : owned (<[p := mkClient fd ssl fresh_client]> m) p = {[RMem p; RFd fd; RSsl ssl]}).
  { unfold owned, client_owns. rewrite lookup_insert_eq. cbn. rewrite fresh_no_buffer. apply set_eq. set_solver. }
  assert (Hno : owned m p = ∅) by (unfold owned; by rewrite Hm).
  apply (inv_replace sv m _ p s); [done| | | | | |done]; rewrite ?Hown, ?Hno.
  - intros q Hne. by rewrite lookup_insert_ne.
  - cbn [live]. clear. set_solver.
  - clear -Hp Hf Hs. set_solver.
  - rewrite lookup_insert_eq. by intros cl [= <-].
  - cbn [reg]. intros fd' q [Hin|[= -> ->]]%Hreg; [|exists (mkClient fd ssl fresh_client); by rewrite lookup_insert_eq].
    destruct (inv_reg _ _ _ Hi _ _ Hin) as (cl & Hq & Hc). exists cl. rewrite lookup_insert_ne; [done|]. congruence.
Qed.

Lemma server_fds sv m s : inv sv m s ->
  fd_res (listen_fd sv) ⊆ live s /\ fd_res (epoll_fd sv) ⊆ live s /\ RCtx (ssl_ctx sv) ∈ live s.
Proof. intros Hi%server_live. unfold server_owns in Hi. set_solver. Qed.

Lemma safe_accept_clients fuel sv : forall m s, inv sv m s ->
  safe (listening strict) (accept_clients (W := W) fuel sv m) s (progress_ok sv (fun m' => dom m ⊆ dom m')).
Proof.
  induction fuel as [|fuel IH]; intros m s Hi; cbn [accept_clients]; [done|].
  destruct (server_fds _ _ _ Hi) as (Hl & He & Hc).
  l_call fd Hfd; [done| |].
  { destruct strict eqn:Es; [|done]. by apply (inv_facts _ _ _ Hi). }
  cbn [lans] in fd |- *. destruct Hfd as [Hfresh _]. cbn [acquired] in Hfresh. unfold fd_res in Hfresh. l_state. unfold fd_res at 1.
  destruct (Z.ltb_spec fd 0) as [|Hfd].
  { replace (mkL _ _ _) with s by (destruct s; cbn; f_equal; set_solver). by split. }
  assert (Hne : fd <> listen_fd sv).
  { intros ->. apply (Hfresh (RFd (listen_fd sv))); [set_solver|]. apply Hl. rewrite fd_res_nonneg by done. set_solver. }
  apply safe_bind. apply safe_set_nonblocking; [rewrite fd_res_nonneg by done; clear; set_solver|].
  cbn [live reg facts]. intros _ f Hf _.
  assert (Hff : strict = true -> socket_facts (listen_fd sv) ⊆ f).
  { intros Hs. pose proof (inv_facts _ _ _ Hi Hs) as Hsf. etrans; [|exact Hf]. clear -Hsf Hne. unfold socket_facts in *. set_solver. }
  l_call p Hp; [clear; set_solver|]. destruct Hp as [Hp _]. cbn [acquired live lans] in Hp, p |- *. l_state.
  l_call ssl Hssl; [clear -Hc; set_solver|]. destruct Hssl as [Hssl Hnone]. cbn [acquired live lans] in Hssl, ssl |- *. l_state.
  destruct ssl as [ssl|]; [|done].
  l_call u Hu; [rewrite fd_res_nonneg by done; clear; set_solver|]. l_state.
  l_call r Hr; [cbn [live]; rewrite !union_subseteq; split; [clear -He; set_solver|]|].
  { rewrite fd_res_nonneg by done. clear; set_solver. }
  cbn [lans] in r |- *. l_state.
  match goal with |- safe _ _ (mkL ?L ?R ?F) _ =>
    assert (Hi' : inv sv (<[p := mkClient fd ssl fresh_client]> m) (mkL L R F)) end.
  { apply (inv_accept sv m s p fd ssl); [done|done|clear -Hp; set_solver|clear -Hfresh; set_solver|clear -Hssl; set_solver| |].
    - intros Hs. specialize (Hff Hs). clear -Hff. set_solver.
    - intros fd' q. case_match; [by left|]. rewrite elem_of_union, elem_of_singleton. intros [[= -> ->]|]; [by right|by left]. }
  eapply safe_mono; [by apply IH|]. intros [m'| | | |] s' Hok; cbn [progress_ok] in *; try done.
  destruct Hok as [? Hd]. split; [done|]. rewrite dom_insert in Hd. clear -Hd. set_solver.
Qed.

Definition pending (tags : list (option Z)) (m : gmap Z (client C)) : Prop :=
  NoDup tags /\ forall p, Some p ∈ tags -> p ∈ dom m.

Lemma safe_on_event fuel sv tag tags m s : inv sv m s -> pending (tag :: tags) m ->
  safe (listening strict) (on_event (W := W) fuel sv tag m) s (progress_ok sv (pending tags)).
Proof.
  intros Hi [Hnd Hall]. apply NoDup_cons in Hnd as [Hni Hnd].
  assert (Hkeep : forall m' : gmap Z (client C), (forall q, q ∈ dom m -> Some q <> tag -> q ∈ dom m') -> pending tags m').
  { intros m' Hm. split; [done|]. intros q Hq. apply Hm; [apply Hall; by right|]. by intros <-. }
  destruct tag as [p|]; cbn [on_event].
  - destruct (m !! p) as [cl|] eqn:Ep; [|exfalso; apply not_elem_of_dom in Ep; apply Ep, Hall; by left].
    apply safe_bind. eapply safe_mono; [by apply safe_handle_client|]. intros [c| |w c] s' Hok; cbn [handled_ok] in Hok; [| |done].
    + split; [done|]. apply Hkeep. intros q Hq _. rewrite dom_insert. set_solver.
    + split; [done|]. apply Hkeep. intros q Hq Hne. rewrite dom_delete. set_solver.
  - eapply safe_mono; [by apply safe_accept_clients|]. intros [m'| | | |] s' Hok; cbn [progress_ok] in *; try done.
    destruct Hok as [? Hd]. split; [done|]. apply Hkeep. intros q Hq _. by apply Hd.
Qed.

Lemma safe_then (P Q : gmap Z (client C) -> Prop) sv (p : lio (progress C W)) k s :
  safe (listening strict) p s (progress_ok sv P) ->
  (forall m s', inv sv m s' -> P m -> safe (listening strict) (k m) s' (progress_ok sv Q)) ->
  safe (listening strict) (then_ p k) s (progress_ok sv Q).
Proof.
  intros Hp Hk. apply safe_bind. eapply safe_mono; [exact Hp|].
  intros [m| |w c| |] s' Hok; cbn [progress_ok safe] in *; try done. destruct Hok. by apply Hk.
Qed.

Lemma safe_on_events fuel sv tags : forall m s, inv sv m s -> pending tags m ->
  safe (listening strict) (on_events (W := W) fuel sv tags m) s (progress_ok sv (fun _ => True)).
Proof.
  induction tags as [|tag tags IH]; intros m s Hi Hp; cbn [on_events]; [done|].
  eapply safe_then; [by apply safe_on_event|]. auto.
Qed.

Lemma safe_rounds fuel sv n : forall m s, inv sv m s ->
  safe (listening strict) (rounds (W := W) n fuel sv m) s (progress_ok sv (fun _ => True)).
Proof.
  induction n as [|n IH]; intros m s Hi; cbn [rounds]; [done|].
  l_call ev Hev; [by apply (server_fds _ _ _ Hi)|]. cbn [lans] in ev |- *.
  replace (l_after s _) with s by (destruct s; l_state; f_equal; set_solver).
  eapply safe_then; [apply safe_on_events; [done|]|auto].
  destruct ev as [tags|]; [|split; [constructor|set_solver]]. destruct Hev as [_ [Hnd Hreg]]. split; [done|].
  intros p (fd & Hin)%Hreg. destruct (inv_reg _ _ _ Hi _ _ Hin) as (cl & Hp & _). by eapply elem_of_dom_2.
Qed.

(** ** Setting up *)

(** What a run of a listener leaves. *)
Definition listened_ok (r : listened C W) (s : lstate) : Prop :=
  match r with
  | Refused => live s = base
  | NoContext => True
  | Running sv p => progress_ok sv (fun _ => True) p s
  end.

Lemma start_inv ctx fd epfd r f : (strict = true -> socket_facts fd ⊆ f) -> (forall fd' p, (fd', Some p) ∉ r) ->
  inv (mkServer ctx fd epfd) ∅ (mkL (fd_res epfd ∪ (fd_res fd ∪ ({[RCtx ctx]} ∪ base))) r f).
Proof.
  intros Hf Hr. split; [| | | | |exact Hf].
  - intros x. unfold server_owns, owned. cbn [live ssl_ctx listen_fd epoll_fd]. setoid_rewrite lookup_empty. set_solver.
  - intros p cl. by rewrite lookup_empty.
  - intros p x. unfold owned. rewrite lookup_empty. set_solver.
  - intros p q x. unfold owned. rewrite lookup_empty. set_solver.
  - intros fd' p Hin. by destruct (Hr fd' p).
Qed.

Lemma safe_start_loop n fuel ctx fd r f : (strict = true -> socket_facts fd ⊆ f) ->
  safe (listening strict) (start_loop (C := C) (W := W) n fuel ctx fd) (mkL (fd_res fd ∪ ({[RCtx ctx]} ∪ base)) r f) listened_ok.
Proof.
  intros Hf. unfold start_loop. l_call epfd He; [clear; set_solver|]. cbn [lans] in epfd |- *.
  destruct He as [He _]. cbn [acquired live] in He. l_state.
  assert (Hf' : strict = true -> socket_facts fd ⊆ f ∖ (if epfd <? 0 then ∅ else socket_facts epfd)).
  { intros Hs. specialize (Hf Hs). destruct (Z.ltb_spec epfd 0) as [|Hep]; [clear -Hf; set_solver|].
    assert (fd <> epfd); [|unfold socket_facts in *; set_solver]. intros ->. rewrite fd_res_nonneg in He by done. set_solver. }
  l_call u Hu; [cbn [live]; clear; set_solver|]. cbn [lans] in u |- *. l_state.
  apply safe_bind. eapply safe_mono; [apply safe_rounds, start_inv|done].
  - exact Hf'.
  - clear. intros fd' p. case_match; set_solver.
Qed.
End Loop.

(* ------------------------------------------------------------------------ *)
(** ** The handlers keep the laws *)

Lemma filter_twice (fd : Z) (r : gset (Z * option Z)) :
  filter (fun x => x.1 <> fd) (filter (fun x => x.1 <> fd) r) = filter (fun x => x.1 <> fd) r.
Proof. apply set_eq. intros x. rewrite !elem_of_filter. naive_solver. Qed.

(** Closing, call by call; the branch is on the buffer. *)
Ltac closed cl :=
  cbn [safe live reg facts]; rewrite ?(fd_res_nonneg (c_fd cl)) by done; rewrite ?filter_twice; split; [apply set_eq; set_solver|done].
Ltac close_calls cl :=
  repeat (let u := fresh "u" in let Hu := fresh "Hu" in
    l_call u Hu; [cbn [live]; rewrite ?(fd_res_nonneg (c_fd cl)) by done; set_solver|l_state]).

Section Laws.
Context `{ZendConv}.

Lemma http1_handle w c : handle w c =
  match Http1.handle_client_event w c with Done (c', _) => Done c' | Failed e => Failed e | Undefined => Undefined | NoFuel => NoFuel end.
Proof.
  unfold handle, Http1.handle_client_event. cbn [handshake reading writing http1_handler].
  unfold Http1.do_handshake at 1 2. destruct (decide _); [destruct (Http1.w_accept w)|]; cbn [obind];
    try (destruct (Http1.do_read w _) as [[c2|]| | |]; cbn [obind]; [by destruct (Http1.do_write w c2)|done..]); done.
Qed.

Lemma http2_handle w c : handle w c = Http2.handle_client_event w c.
Proof. reflexivity. Qed.

Lemma http1_reading_cases w c : Http1.do_read w c = Undefined \/ exists o, Http1.do_read w c = Done o.
Proof.
  unfold Http1.do_read, Http1.header_end, Http1.build_response. repeat (case_match; cbn [obind]); eauto.
Qed.

#[export] Instance http1_laws : HandlerLaws Http1.http1_client_connection_t Http1.wakeup.
Proof.
  split; cbn [fresh_client handshake reading writing has_buffer teardown http1_handler]; unfold write_buffer_set.
  - done.
  - intros w c c'. unfold Http1.do_handshake. intros Hr Hb. destruct (Http1.state c) eqn:Es; try done.
    rewrite decide_False in Hr by done. injection Hr as <-. by rewrite Es.
  - intros w c c'. unfold Http1.do_read, Http1.header_end, Http1.build_response.
    intros Hr Hb. destruct (Http1.state c) eqn:Es; try done. rewrite andb_false_r in Hr. injection Hr as <-. by rewrite Es.
  - intros w c c'. unfold Http1.do_write. destruct (_ && _); [|by intros [= <-]].
    destruct (Http1.w_write w); [case_match|case_match|]; cbn [fst]; by intros [= <-].
  - intros w c. unfold handle. cbn [handshake reading writing http1_handler]. case_match; [|eauto].
    destruct (http1_reading_cases w h) as [->|[[c2|] ->]]; cbn [obind]; eauto.
  - intros strict epfd p cl s Hfd Hown. destruct s as [L R F]. cbn [live reg facts] in *.
    unfold client_owns in *. cbn [has_buffer http1_handler] in *. unfold close_client_connection.
    destruct (write_buffer_set (c_conn cl)); close_calls cl; closed cl.
Qed.

#[export] Instance http2_laws : HandlerLaws Http2.http2_session_t Http2.wakeup.
Proof.
  split; cbn [fresh_client handshake reading writing has_buffer teardown http2_handler].
  - done.
  - intros w c c'. unfold Http2.do_handshake. repeat case_match; intros; simplify_eq; done.
  - intros w c c'. unfold Http2.do_read. repeat case_match; intros; simplify_eq; by rewrite ?mem_recv_ngh2.
  - intros w c c'. unfold Http2.do_send. repeat case_match; intros; simplify_eq; done.
  - intros w c. rewrite http2_handle. unfold Http2.handle_client_event, Http2.do_read, Http2.do_send.
    repeat (case_match; cbn [obind]); eauto.
  - intros strict epfd p cl s Hfd Hown. destruct s as [L R F]. cbn [live reg facts] in *.
    unfold client_owns in *. cbn [has_buffer http2_handler] in *. unfold close_http2_session.
    destruct (Http2.ngh2_session (c_conn cl)); close_calls cl; closed cl.
Qed.
End Laws.

(* ------------------------------------------------------------------------ *)
(** ** The HTTP/2 server *)

Section Http2Server.
Context `{ZendConv}.

Lemma safe_refuse_tls strict ctx base r f : RCtx ctx ∉ base ->
  safe (listening strict) (refuse_tls (C := Http2.http2_session_t) (W := Http2.wakeup) ctx) (mkL ({[RCtx ctx]} ∪ base) r f)
    (listened_ok strict base).
Proof.
  intros Hc. unfold refuse_tls. l_call u Hu; [clear; set_solver|]. l_state. l_call u' Hu'; [clear; set_solver|]. l_state.
  cbn [safe listened_ok live]. apply set_eq. set_solver.
Qed.

Lemma safe_refuse_bind strict ctx fd base r f : RCtx ctx ∉ base -> fd_res fd ## base ->
  safe (listening strict) (refuse_bind (C := Http2.http2_session_t) (W := Http2.wakeup) ctx fd)
    (mkL (fd_res fd ∪ ({[RCtx ctx]} ∪ base)) r f) (listened_ok strict base).
Proof.
  intros Hc Hd. unfold refuse_bind. l_call u Hu; [clear; set_solver|]. l_state. l_call u1 Hu1; [clear; set_solver|]. l_state.
  assert (RCtx ctx ∉ fd_res fd) by (unfold fd_res; case_match; set_solver).
  l_call u2 Hu2; [set_solver|]. l_state. cbn [safe listened_ok live]. apply set_eq. set_solver.
Qed.

Lemma safe_http2_listen base n fuel host port files r f : (forall p, RBuf p ∉ base) ->
  safe (listening true) (quicpro_http2_server_listen (C := Http2.http2_session_t) (W := Http2.wakeup) n fuel host port files)
    (mkL base r f) (listened_ok true base).
Proof.
  intros Hb. unfold quicpro_http2_server_listen. destruct files as [[cert key]|].
  2:{ l_call u Hu; [clear; set_solver|]. l_state. done. }
  l_call ctx Hctx; [clear; set_solver|]. cbn [lans] in ctx |- *. destruct Hctx as [Hc Hn].
  destruct ctx as [ctx|]; [|done]. cbn [acquired live] in Hc. clear Hn. assert (Hc' : RCtx ctx ∉ base) by set_solver. l_state.
  l_call u Hu; [clear; set_solver|]. l_state.
  l_call r1 Hr1; [clear; set_solver|]. cbn [lans] in r1 |- *. l_state. destruct (r1 <=? 0); [by apply safe_refuse_tls|].
  l_call r2 Hr2; [clear; set_solver|]. cbn [lans] in r2 |- *. l_state. destruct (r2 <=? 0); [by apply safe_refuse_tls|].
  l_call fd Hfd; [clear; set_solver|]. cbn [lans] in fd |- *. destruct Hfd as [Hfd _]. cbn [acquired live] in Hfd. l_state.
  assert (Hd : fd_res fd ## base) by set_solver. clear Hfd.
  l_call u1 Hu1; [clear; set_solver|]. l_state. l_call u2 Hu2; [clear; set_solver|]. l_state.
  unfold bind_address. l_call a Ha; [clear; set_solver|]. l_state.
  l_call r3 Hr3; [clear; set_solver|]. cbn [lans] in r3 |- *. l_state. destruct (r3 <? 0); [by apply safe_refuse_bind|].
  apply safe_bind, (safe_set_nonblocking true); [clear; set_solver|]. cbn [live reg facts]. intros r4 f4 Hf4 Hnb.
  destruct (Z.ltb_spec r4 0); [by apply safe_refuse_bind|].
  l_call r5 Hr5; [clear; set_solver|]. cbn [lans] in r5 |- *. l_state. destruct (r5 <? 0); [by apply safe_refuse_bind|].
  apply (safe_start_loop true base Hb). intros _. specialize (Hnb ltac:(done)). clear -Hf4 Hnb. unfold socket_facts. set_solver.
Qed.

(** A run that reaches the loop ends with a run of the rounds. *)
Lemma http2_reaches_rounds n fuel host port files tr sv p :
  runs (quicpro_http2_server_listen (C := Http2.http2_session_t) (W := Http2.wakeup) n fuel host port files) tr (Running sv p) ->
  exists t1 t2, tr = t1 ++ t2 /\ runs (rounds (C := Http2.http2_session_t) (W := Http2.wakeup) n fuel sv ∅) t2 p.
Proof.
  intros Hr. unfold quicpro_http2_server_listen, refuse_tls, refuse_bind, bind_address, set_nonblocking, start_loop in Hr.
  assert (Hcons : forall (e : event (lans Http2.wakeup)) t (Q : list (event (lans Http2.wakeup)) -> Prop),
    (exists t1 t2, t = t1 ++ t2 /\ Q t2) -> exists t1 t2, e :: t = t1 ++ t2 /\ Q t2)
    by (intros e t Q (t1 & t2 & -> & ?); by exists (e :: t1), t2).
  repeat first
    [ progress cbn [io_bind call runs] in Hr
    | match type of Hr with
      | exists _, _ => let r := fresh "r" in destruct Hr as [r Hr]
      | ?tr = _ :: _ /\ _ => destruct Hr as [-> Hr]; apply Hcons
      | _ = [] /\ _ => by destruct Hr
      | context [match ?x with _ => _ end] => destruct x eqn:?
      end ].
  all: apply runs_bind in Hr as (t1 & t2 & pr & -> & Hl & [-> Hp]); injection Hp as -> ->; exists [], t1; by rewrite app_nil_r.
Qed.

Lemma http2_accepting n fuel host port files tr sv :
  runs (quicpro_http2_server_listen (C := Http2.http2_session_t) (W := Http2.wakeup) n fuel host port files) tr (Running sv Accepting) ->
  (fuel <= clients_accepted tr)%nat.
Proof.
  intros (t1 & t2 & -> & Hr%accepting_rounds)%http2_reaches_rounds. rewrite clients_accepted_app. lia.
Qed.
Lemma http2_null_tls n fuel host port files tr sv :
  runs (quicpro_http2_server_listen (C := Http2.http2_session_t) (W := Http2.wakeup) n fuel host port files) tr (Running sv NullTls) ->
  answered_null tr.
Proof. intros (t1 & t2 & -> & (e & He & Hn)%null_tls_rounds)%http2_reaches_rounds. exists e. set_solver. Qed.
Lemma http2_no_context n fuel host port files tr :
  runs (quicpro_http2_server_listen (C := Http2.http2_session_t) (W := Http2.wakeup) n fuel host port files) tr NoContext ->
  answered_null tr.
Proof.
  intros Hr. unfold quicpro_http2_server_listen, refuse_tls, refuse_bind, bind_address, set_nonblocking, start_loop in Hr.
  repeat first
    [ progress cbn [io_bind call runs] in Hr
    | match type of Hr with
      | exists _, _ => let r := fresh "r" in destruct Hr as [r Hr]
      | ?tr = _ :: _ /\ _ => destruct Hr as [-> Hr]
      | _ = [] /\ _ => first [by destruct Hr|destruct Hr as [-> _]; eexists; split; [by left|done]]
      | context [match ?x with _ => _ end] => destruct x
      end ].
  all: by apply runs_bind in Hr as (? & ? & ? & _ & _ & [_ ?]).
Qed.

(** What the outcome of a listener says, with the server's and the connections' resources
    spelt out. *)
Definition http2_outcome (fuel : nat) (s : lstate) (tr : list (event (lans Http2.wakeup))) (r : listened Http2.http2_session_t Http2.wakeup) (s' : lstate) : Prop :=
  match r with
  | Refused => live s' = live s
  | Running sv (Going clients) =>
      (forall x, (x ∈ live s') <-> x ∈ live s \/ x ∈ server_owns sv \/
         exists p cl, clients !! p = Some cl /\ x ∈ client_owns p cl) /\
      (forall p q cl cl' x, clients !! p = Some cl -> clients !! q = Some cl' ->
         x ∈ client_owns p cl -> x ∈ client_owns q cl' -> p = q)
  | Running sv Accepting => (fuel <= clients_accepted tr)%nat
  | Running sv (HandlerUndefined w c) => Http2.handle_client_event w c = Undefined
  | Running _ Dangling => False
  | Running _ NullTls | NoContext => answered_null tr
  end.

Lemma inv_spelt base sv m s : inv (C := Http2.http2_session_t) (W := Http2.wakeup) true base sv m s ->
  (forall x, (x ∈ live s) <-> x ∈ base \/ x ∈ server_owns sv \/ exists p cl, m !! p = Some cl /\ x ∈ client_owns p cl) /\
  (forall p q cl cl' x, m !! p = Some cl -> m !! q = Some cl' -> x ∈ client_owns p cl -> x ∈ client_owns q cl' -> p = q).
Proof.
  intros [Hl _ _ Ho _ _]. split.
  - intros x. rewrite Hl. unfold owned. split; (intros [?|[?|Hx]]; [by left|by right; left|right; right]).
    + destruct Hx as [p Hx]. destruct (m !! p) as [cl|] eqn:E; [by exists p, cl|set_solver].
    + destruct Hx as (p & cl & E & Hx). exists p. by rewrite E.
  - intros p q cl cl' x Hp Hq Hx Hx'. apply (Ho p q x); unfold owned; [by rewrite Hp|by rewrite Hq].
Qed.
End Http2Server.

(** C9: The HTTP/2 server in every run, whatever OpenSSL, the sockets and epoll answer
    and in whatever order clients come and go: a start that is refused leaves nothing
    behind; a server in its loop holds exactly its context, its two descriptors and what
    its connections own (each its descriptor, TLS connection, nghttp2 session and
    [http2_session_t]), each owned by one connection; every connection that is closed has
    given back these four, once; no event is taken for memory that has been freed; and
    connections are accepted only on a socket that is bound, non-blocking and listening.
    The only ways out of the loop are undefined behaviour of the handler itself, and the use
    of a context or a TLS connection after the library has answered that there is none.  (The
    memory of a connection's streams is not among the four: see [Http2Memory].) *)
Theorem http2_listener_ownership `{ZendConv} n fuel host port options s tr r :
  (forall p, RBuf p ∉ live s) ->
  runs (quicpro_http2_server_listen (C := Http2.http2_session_t) (W := Http2.wakeup) n fuel host port
          (Http2.listen_files options)) tr r ->
  honest (listening true) s tr ->
  exists s', psteps (listening true) s tr = Some s' /\ http2_outcome fuel s tr r s'.
Proof.
  intros Hb Hr Hh. destruct s as [L R F]. cbn [live] in Hb.
  destruct (safe_runs (listening true) _ _ _ _ _ (safe_http2_listen L n fuel host port _ R F Hb) Hr Hh) as (s' & Hs & Hok).
  exists s'. split; [exact Hs|]. unfold http2_outcome. destruct r as [|sv [m| |w c| |]|]; cbn in *; try done.
  - destruct Hok as [Hi _]. by apply inv_spelt.
  - by eapply http2_accepting.
  - by eapply http2_null_tls.
  - by eapply http2_no_context.
Qed.

(* ------------------------------------------------------------------------ *)
(** ** The HTTP/1.1 server *)

Section Http1Server.
Context `{ZendConv}.
Abbreviation C1 := Http1.http1_client_connection_t.
Abbreviation W1 := Http1.wakeup.

(** Nobody is accepted on a socket that is not listening. *)
Lemma safe_deaf_accept fuel sv L R F : fd_res (listen_fd sv) ⊆ L -> (listen_fd sv, "listening") ∉ F ->
  safe (listening false) (accept_clients (C := C1) (W := W1) (S fuel) sv ∅) (mkL L R F)
    (fun r s' => r = Going ∅ /\ s' = mkL L R F).
Proof.
  intros Hl Hf. cbn [accept_clients]. l_call fd Hfd; [done|]. cbn [lans] in fd |- *. destruct Hfd as [_ Hlis].
  l_state. unfold fd_res at 1. destruct (Z.ltb_spec fd 0); [|by destruct Hf; apply Hlis].
  split; [done|]. by rewrite diff_none, !(left_id_L ∅ (∪)).
Qed.

Lemma safe_deaf_rounds fuel sv L R F n : fd_res (listen_fd sv) ⊆ L -> fd_res (epoll_fd sv) ⊆ L ->
  (listen_fd sv, "listening") ∉ F -> (forall fd p, (fd, Some p) ∉ R) ->
  safe (listening false) (rounds (C := C1) (W := W1) n (S fuel) sv ∅) (mkL L R F)
    (fun r s' => r = Going ∅ /\ s' = mkL L R F).
Proof.
  intros Hl He Hf HR. induction n as [|n IH]; cbn [rounds]; [done|].
  l_call ev Hev; [done|]. cbn [lans] in ev |- *. l_state.
  assert (Htags : Forall (fun t => t = None) (match ev with Some tags => tags | None => [] end)).
  { destruct ev as [tags|]; [|constructor]. destruct Hev as [_ [_ Hreg]]. apply Forall_forall.
    intros [p|] Hin; [|done]. destruct (Hreg _ Hin) as [fd Hfd]. by destruct (HR fd p). }
  unfold then_ at 1. apply safe_bind. eapply (safe_mono (listening false) _ _ (fun (r : progress C1 W1) (s' : lstate) => r = Going ∅ /\ s' = mkL L R F)).
  - clear Hev. revert Htags. generalize (match ev with Some tags => tags | None => [] end).
    induction l as [|t tags IHt]; intros Ht; [done|]. apply Forall_cons in Ht as [-> Ht]. cbn [on_events on_event].
    unfold then_. apply safe_bind. eapply safe_mono; [by apply safe_deaf_accept|]. intros r s' [-> ->]. by apply IHt.
  - intros r s' [-> ->]. exact IH.
Qed.
End Http1Server.

(** The HTTP/1.1 server in every run in which there is a context: it holds its context and its
    two descriptors, goes round its loop for ever, and has never accepted a client, since its
    socket is never made to listen. *)
Theorem http1_listener_deaf `{ZendConv} n fuel s tr r : facts s = ∅ ->
  runs (quicpro_http1_server_listen (C := Http1.http1_client_connection_t) (W := Http1.wakeup) n (S fuel)) tr r ->
  honest (listening false) s tr -> r <> NoContext ->
  exists sv s', psteps (listening false) s tr = Some s' /\ r = Running sv (Going ∅) /\ live s' = server_owns sv ∪ live s.
Proof.
  intros Hf Hr Hh Hctx. destruct s as [L R F]. cbn [facts live] in *. subst F.
  cut (safe (listening false) (quicpro_http1_server_listen (C := Http1.http1_client_connection_t) (W := Http1.wakeup) n (S fuel)) (mkL L R ∅)
    (fun r s' => r = NoContext \/ exists sv, r = Running sv (Going ∅) /\ live s' = server_owns sv ∪ L)).
  { intros Hs. destruct (safe_runs _ _ _ _ _ _ Hs Hr Hh) as (s' & Hp & [?|(sv & -> & Hl)]); [done|]. by exists sv, s'. }
  clear Hr Hh Hctx. unfold quicpro_http1_server_listen.
  l_call ctx Hctx; [clear; set_solver|]. cbn [lans] in ctx |- *. destruct ctx as [ctx|]; [|by left].
  l_state. do 4 (let u := fresh "u" in let Hu := fresh "Hu" in l_call u Hu; [clear; set_solver|]; l_state).
  l_call fd Hfd; [clear; set_solver|]. cbn [lans] in fd |- *. l_state.
  unfold start_loop. l_call epfd He; [clear; set_solver|]. cbn [lans] in epfd |- *. l_state.
  l_call u4 Hu4; [clear; set_solver|]. cbn [lans] in u4 |- *. l_state.
  apply safe_bind. eapply safe_mono; [apply safe_deaf_rounds; cbn [listen_fd epoll_fd]; try (clear; set_solver)|].
  - clear. intros fd' p. case_match; set_solver.
  - intros p s' [-> ->]. right. eexists. split; [done|]. cbn [live]. unfold server_owns. cbn [ssl_ctx listen_fd epoll_fd].
    apply set_eq. clear. set_solver.
Qed.

(* ------------------------------------------------------------------------ *)
(** ** Concrete runs *)

(** A decision procedure for the promises. *)
Definition l_promiseb {W} (s : lstate) (e : event (lans W)) : bool :=
  match e with Ev (BufferNew _) _ => true | _ => bool_decide (acquired e ## live s) end &&
  match e with
  | Ev (Accept fd) r => (r <? 0) || bool_decide ((fd, "listening") ∈ facts s)
  | Ev (EpollWait _) (Some tags) =>
      bool_decide (NoDup tags) && forallb (fun t => bool_decide (t ∈ map snd (elements (reg s)))) tags
  | _ => true
  end.

Lemma l_promiseb_sound {W} s (e : event (lans W)) : l_promiseb s e = true -> l_promise s e.
Proof.
  unfold l_promiseb, l_promise. intros [H1 H2]%andb_true_iff. split.
  - destruct e as [[] r]; try (by apply bool_decide_eq_true in H1); done.
  - destruct e as [[] r]; try done; cbn [lans] in r; try (by destruct r).
    + destruct r as [tags|]; [|done]. apply andb_true_iff in H2 as [Hn Ha]. apply bool_decide_eq_true in Hn. split; [done|].
      intros t Ht. rewrite forallb_forall in Ha. apply list_elem_of_In, Ha, bool_decide_eq_true in Ht.
      apply list_elem_of_fmap in Ht as ([fd t'] & -> & Hin). exists fd. by apply elem_of_elements.
    + intros Hr. apply orb_true_iff in H2 as [H2|H2]; [apply Z.ltb_lt in H2; lia|by apply bool_decide_eq_true in H2].
Qed.

Fixpoint l_honestb {W} (strict : bool) (s : lstate) (tr : list (event (lans W))) : bool :=
  match tr with
  | [] => true
  | e :: tr' => l_promiseb s e && match l_step strict s e with Some s' => l_honestb strict s' tr' | None => true end
  end.

Lemma l_honestb_sound {W} strict (tr : list (event (lans W))) : forall s, l_honestb strict s tr = true -> honest (listening strict) s tr.
Proof.
  induction tr as [|e tr IH]; intros s; cbn [l_honestb honest]; [done|]. intros [Hp Ht]%andb_true_iff.
  split; [by apply l_promiseb_sound|]. intros s' Hs. cbn in Hs. rewrite Hs in Ht. by apply IH.
Qed.

(** Every call succeeds with a new handle; the second wait reports the client, the others
    the listener, to which one client comes. *)
Definition demo_world {W} (w : W) (o : lop) (n : Z) : lans W o * Z :=
  (match o return lans W o with
   | CtxNew | SslNew _ => Some n
   | CtxUseCertificate _ _ | CtxUsePrivateKey _ _ => 1
   | Socket | EpollCreate | Ecalloc => n
   | Accept _ => if n <? 20 then n else -1
   | SetSockOpt _ _ _ | Bind _ _ _ | Listen _ | FcntlGetfl _ | FcntlSetfl _ _ | EpollAdd _ _ _ => 0
   | InetPton _ => None
   | EpollWait _ => if n <? 20 then Some [None] else if n <? 25 then Some [Some 19] else Some [None]
   | Wake _ => w
   | _ => tt
   end, n + 1).

Definition demo_files : zval := ZArray [(KStr "cert_file", ZString "c.pem"); (KStr "key_file", ZString "k.pem")].
Definition demo_closing : Http2.wakeup := Http2.mkWakeup true false Http2.AcceptDone Http2.ReadZero [] true true.
Definition demo_h2 `{ZendConv} :=
  exec (demo_world demo_closing) (quicpro_http2_server_listen 3 5 "::" 443 (Http2.listen_files demo_files)) 1.
Definition demo_h1 `{ZendConv} :=
  exec (demo_world (Http1.mkWakeup true true Http1.AcceptDone [] Http1.WriteAgain None))
    (quicpro_http1_server_listen 2 1) 30.
Definition demo_start : lstate := mkL {[RMem 0]} ∅ ∅.

Lemma http2_listener_ownership_witness : let _ := demo_conv in
  exists sv s', demo_h2.1.1 = Running sv (Going ∅) /\ psteps (listening true) demo_start demo_h2.1.2 = Some s' /\
    (forall x, x ∈ live s' <-> x ∈ live demo_start \/ x ∈ server_owns sv).
Proof.
  intros conv. destruct (http2_listener_ownership 3 5 "::" 443 demo_files demo_start demo_h2.1.2 demo_h2.1.1) as (s' & Hs & Ho).
  - unfold demo_start. cbn [live]. set_solver.
  - exact (exec_runs (demo_world demo_closing) (quicpro_http2_server_listen 3 5 "::" 443 (Http2.listen_files demo_files)) 1).
  - apply l_honestb_sound. vm_compute. reflexivity.
  - assert (Hr : demo_h2.1.1 = Running (mkServer 1 5 13) (Going ∅)) by (vm_compute; reflexivity).
    exists (mkServer 1 5 13), s'. split; [exact Hr|]. split; [exact Hs|]. rewrite Hr in Ho. destruct Ho as [Ho _].
    intros x. rewrite Ho. split; [intros [?|[?|(p & cl & Hp & _)]]; [by left|by right|by rewrite lookup_empty in Hp]|].
    intros [?|?]; [by left|by right; left].
Defined.

Lemma http1_listener_deaf_witness : let _ := demo_conv in
  exists sv, demo_h1.1.1 = Running sv (Going ∅).
Proof.
  intros conv. destruct (http1_listener_deaf 2 0 demo_start demo_h1.1.2 demo_h1.1.1) as (sv & s' & _ & Hr & _).
  - reflexivity.
  - exact (exec_runs (demo_world (Http1.mkWakeup true true Http1.AcceptDone [] Http1.WriteAgain None))
      (quicpro_http1_server_listen 2 1) 30).
  - apply l_honestb_sound. vm_compute. reflexivity.
  - vm_compute. discriminate.
  - exists sv. exact Hr.
Defined.
