(* ===== verification/Mcp.v ===== *)
(** * The MCP client

    [extension/src/mcp/mcp.c]: one request over an HTTP/3 stream and the loop that waits for
    its response.  quiche's HTTP/3 layer, the clock and the exceptions are the environment.

    [quicpro_mcp_connect] makes no connection: the pointers of its session are constants
    ([Placeholder]), and using them is undefined. *)

From Stdlib Require Import ZArith Lia String Ascii.
From stdpp Require Import base tactics list strings.
From S2P Require Import Prelude Zend Io.

Local Open Scope string_scope.
Local Open Scope Z_scope.

(** An event of [quiche_h3_conn_poll]. *)
Inductive h3_event_type := H3Headers | H3Data | H3Finished | H3Other.

Inductive mop :=
| SendRequest (headers : list (string * string))
| SendBody (stream_id : Z) (payload : string)
| Time
| H3Poll
| RecvBody (stream_id : Z) (size : Z)
| IsClosed
| Usleep (us : Z)
| CloseConn (application : bool) (error_code : Z) (reason : string)
| Raise (message : string).

(** [RecvBody] answers with a negative code or with the bytes. *)
Definition mans (o : mop) : Type :=
  match o with
  | SendRequest _ | SendBody _ _ | Time => Z
  | H3Poll => option (Z * h3_event_type)
  | RecvBody _ _ => positive + string
  | IsClosed => bool
  | _ => unit
  end.

Abbreviation mcp := (io mans).
Abbreviation mevent := (event mans).
Abbreviation msys := (@call mop mans).

Inductive pointer := Null | Placeholder | Live.
Record mcp_session := mkMcp { m_host : string; m_conn : pointer; m_h3 : pointer }.

(** [quicpro_mcp_connect], after the configuration has been found. *)
Definition quicpro_mcp_connect (host : string) : mcp_session := mkMcp host Placeholder Placeholder.

(** What the function sees of a configuration resource ([qp_fetch_cfg], null for another kind
    of resource): its quiche configuration and whether it is frozen. *)
Record cfg_wrapper := mkWrapper { w_cfg : option Z; w_frozen : bool }.

(** The whole function: the session and the configuration afterwards, or the exception.  A
    frozen configuration is accepted; [quicpro_cfg_mark_frozen] freezes it. *)
Definition mcp_connect (host : string) (config_wrapper : option cfg_wrapper) : outcome string (mcp_session * cfg_wrapper) :=
  match config_wrapper with
  | Some (mkWrapper (Some cfg) _) => Done (quicpro_mcp_connect host, mkWrapper (Some cfg) true)
  | _ => Failed "Invalid configuration resource provided to quicpro_mcp_connect."
  end.

(** *** The request *)

(** [snprintf] into [path[256]]: what is in the buffer, and the length it returns. *)
Definition path_text (service_name method_name : string) : string := "/" ++ cstr service_name ++ "/" ++ cstr method_name.
Definition path_buffer (text : string) : string := String.substring 0 255 text ++ String Ascii.zero EmptyString.

(** The value of the header: [path_len] bytes from the buffer, undefined beyond it. *)
Definition path_value (service_name method_name : string) : outcome unit string :=
  let text := path_text service_name method_name in
  let path_len := String.length text in
  if (path_len <=? 256)%nat then Done (String.substring 0 path_len (path_buffer text)) else Undefined.

Definition request_headers (path host : string) : list (string * string) := [
  (":method", "POST"); (":scheme", "https"); (":path", path); (":authority", cstr host);
  ("content-type", "application/vnd.quicpro.proto")].

Definition timeout_of (opts : option hashtable) : Z :=
  match opts with
  | Some ht => match ht_find (KStr "timeout_ms") ht with Some (ZLong t) => t | _ => 30000 end
  | None => 30000
  end.

(** *** Waiting *)

(** The inner loop: [Done] with [true] when the response is complete, [false] when quiche
    has no more events. *)
Fixpoint drain_events (fuel : nat) (stream_id : Z) (buf : string) : mcp (outcome unit (bool * string)) :=
  match fuel with
  | O => Ret NoFuel
  | S fuel' =>
      let* ev := msys H3Poll in
      match ev with
      | None => Ret (Done (false, buf))
      | Some (id, ty) =>
          if negb (id =? stream_id) then drain_events fuel' stream_id buf
          else match ty with
               | H3Data =>
                   let* r := msys (RecvBody stream_id 8192) in
                   match r with
                   | inl _ =>
                       let* _ := msys (Raise "Failed to receive MCP response body") in Ret (Failed tt)
                   | inr bytes => drain_events fuel' stream_id (buf ++ bytes)
                   end
               | H3Finished => Ret (Done (true, buf))
               | H3Headers | H3Other => drain_events fuel' stream_id buf
               end
      end
  end.

Fixpoint poll_loop (fuel : nat) (stream_id start_time timeout_ms : Z) (buf : string) : mcp (outcome unit string) :=
  match fuel with
  | O => Ret NoFuel
  | S fuel' =>
      let* now := if 0 <? timeout_ms then msys Time else Ret 0 in
      if (0 <? timeout_ms) && (timeout_ms <? s64 (now * 1000) - start_time) then
        let* _ := msys (Raise "MCP request timed out") in Ret (Failed tt)
      else
        let*! '(finished, buf) := drain_events fuel stream_id buf in
        if finished : bool then Ret (Done buf)
        else
          let* closed := msys IsClosed in
          if closed : bool then
            let* _ := msys (Raise "MCP connection closed while waiting for response") in Ret (Failed tt)
          else
            let* _ := msys (Usleep 1000) in
            poll_loop fuel' stream_id start_time timeout_ms buf
  end.

Definition mcp_poll_for_response (fuel : nat) (stream_id timeout_ms : Z) : mcp (outcome unit string) :=
  let* start := msys Time in
  poll_loop fuel stream_id (s64 (start * 1000)) timeout_ms EmptyString.

(** [quicpro_mcp_request]: [Failed] is [false] with an exception. *)
Definition quicpro_mcp_request (fuel : nat) (s : option mcp_session) (service_name method_name payload : string)
    (opts : option hashtable) : mcp (outcome unit string) :=
  match s with
  | Some (mkMcp host conn h3) =>
      match conn, h3 with
      | Null, _ | _, Null =>
          let* _ := msys (Raise "Invalid or closed MCP connection resource provided.") in Ret (Failed tt)
      | Live, Live =>
          match path_value service_name method_name with
          | Done path =>
              let* stream_id := msys (SendRequest (request_headers path host)) in
              if stream_id <? 0 then
                let* _ := msys (Raise "MCP request failed: could not send H3 headers") in Ret (Failed tt)
              else
                let* sent := msys (SendBody stream_id payload) in
                if sent <? 0 then
                  let* _ := msys (Raise "MCP request failed: could not send H3 body") in Ret (Failed tt)
                else mcp_poll_for_response fuel stream_id (timeout_of opts)
          | Failed e => Ret (Failed e)
          | Undefined => Ret Undefined
          | NoFuel => Ret NoFuel
          end
      | _, _ => Ret Undefined
      end
  | None =>
      let* _ := msys (Raise "Invalid or closed MCP connection resource provided.") in Ret (Failed tt)
  end.

(** [quicpro_mcp_close]: the value returned, and the resource, which is gone afterwards. *)
Definition quicpro_mcp_close (s : option mcp_session) : mcp (outcome unit (option mcp_session * bool)) :=
  match s with
  | None => Ret (Done (None, false))
  | Some s =>
      match m_conn s with
      | Null => Ret (Done (None, true))
      | Placeholder => Ret Undefined
      | Live => let* _ := msys (CloseConn true 0 "MCP_CLOSE") in Ret (Done (None, true))
      end
  end.
