(* ===== verification/McpProps.v ===== *)
(** * The MCP client: the response is what was received on the request's stream *)

From Stdlib Require Import ZArith Lia String Ascii.
From stdpp Require Import base tactics list strings.
From S2P Require Import Prelude Zend Io Mcp.

Local Open Scope Z_scope.
Set Warnings "-clear-no-such-hyp".
#[local] Arguments String.append !_ _ / : simpl nomatch.

(** The pieces of the body of a stream that quiche gave, the exceptions, the end of the
    stream. *)
Definition received (id : Z) (tr : list mevent) : list string :=
  omap (fun e : mevent => match e with
                          | Ev (RecvBody i _) (inr b) => if i =? id then Some b else None
                          | _ => None
                          end) tr.
Definition raised (tr : list mevent) : list string :=
  omap (fun e : mevent => match ev_op e with Raise m => Some m | _ => None end) tr.
Definition finish (id : Z) : mevent := Ev H3Poll (Some (id, H3Finished)).
Definition finishes (id : Z) (e : mevent) : bool :=
  match e with Ev H3Poll (Some (i, H3Finished)) => i =? id | _ => false end.

(** Bytes are read after every data event of the stream, once, and never otherwise. *)
Fixpoint reads_own (id : Z) (tr : list mevent) : Prop :=
  match tr with
  | [] => True
  | Ev H3Poll (Some (i, H3Data)) :: t =>
      if i =? id then match t with
                      | Ev (RecvBody j size) _ :: t' => j = id /\ size = 8192 /\ reads_own id t'
                      | _ => False
                      end
      else reads_own id t
  | Ev (RecvBody _ _) _ :: _ => False
  | _ :: t => reads_own id t
  end.

Lemma reads_own_app id n : forall a b, (length a <= n)%nat -> reads_own id a -> reads_own id b -> reads_own id (a ++ b).
Proof.
  induction n as [|n IH]; intros [|[o x] a] b Hl; simpl in Hl; try done; [lia|]. intros Ha Hb.
  assert (Hgo : reads_own id a -> reads_own id (a ++ b)) by (intros; apply IH; [lia|done|done]).
  destruct o; try (by apply Hgo); try done. destruct x as [[i []]|]; try (by apply Hgo).
  simpl in Ha |- *. destruct (i =? id); [|by apply Hgo]. destruct a as [|[o' x'] a]; [done|]. destruct o'; try done.
  simpl in *. destruct Ha as (? & ? & ?). split_and!; [done|done|]. apply IH; [lia|done|done].
Qed.

(** A stretch of waiting that neither ended nor failed. *)
Definition waiting (id : Z) (tr : list mevent) : Prop := reads_own id tr /\ raised tr = [] /\ existsb (finishes id) tr = false.

Lemma waiting_app id a b : waiting id a -> waiting id b -> waiting id (a ++ b).
Proof.
  intros (H1 & H2 & H3) (H4 & H5 & H6). split_and!.
  - by eapply reads_own_app.
  - unfold raised in *. by rewrite omap_app, H2, H5.
  - by rewrite existsb_app, H3, H6.
Qed.
Lemma waiting_cons id e b : waiting id [e] -> waiting id b -> waiting id (e :: b).
Proof. apply (waiting_app id [e]). Qed.
Lemma received_app id a b : received id (a ++ b) = received id a ++ received id b.
Proof. apply omap_app. Qed.

Lemma waiting_nil id : waiting id [].
Proof. done. Qed.

(** One event that ends nothing. *)
Ltac waiting_event := split_and!; [simpl; by repeat case_match|done|done].

(** Why a request may fail while it waits: the exception and the calls before it. *)
Definition cause (id start timeout : Z) (t : list mevent) (m : string) : Prop :=
  (m = "MCP request timed out" /\ exists t' now, t = t' ++ [Ev Time now] /\ 0 < timeout < s64 (now * 1000) - start) \/
  (m = "Failed to receive MCP response body" /\ exists t' e, t = t' ++ [Ev (RecvBody id 8192) (inl e)]) \/
  (m = "MCP connection closed while waiting for response" /\ exists t', t = t' ++ [Ev IsClosed true]).

(** What a run of a loop with [fuel] amounts to, from the body so far. *)
Definition waited (id start timeout : Z) (fuel : nat) (buf : string) (tr : list mevent) (r : outcome unit string) : Prop :=
  match r with
  | Done body => exists t, tr = t ++ [finish id] /\ waiting id t /\ body = (buf ++ concats (received id t))%string
  | Failed _ => exists t m, tr = t ++ [Ev (Raise m) tt] /\ waiting id t /\ cause id start timeout t m
  | Undefined => False
  | NoFuel => (fuel <= length tr)%nat /\ waiting id tr
  end.

Lemma cause_front id start timeout a t m : cause id start timeout t m -> cause id start timeout (a ++ t) m.
Proof.
  intros [[-> (t' & now & -> & ?)]|[[-> (t' & e & ->)]|[-> (t' & ->)]]]; [left|right; left|right; right];
    (split; [done|]); exists (a ++ t'); rewrite app_assoc; eauto.
Qed.

(** A stretch of waiting in front. *)
Lemma waited_front id start timeout fuel fuel' buf buf' t1 t2 r :
  waiting id t1 -> buf' = (buf ++ concats (received id t1))%string -> (fuel' <= length t1 + fuel)%nat ->
  waited id start timeout fuel buf' t2 r -> waited id start timeout fuel' buf (t1 ++ t2) r.
Proof.
  intros Hw -> Hf. destruct r as [b|e| |]; simpl; try done.
  - intros (t & -> & Ht & ->). exists (t1 ++ t). rewrite app_assoc, received_app, concats_app, str_app_assoc.
    split_and!; [done|by apply waiting_app|done].
  - intros (t & m & -> & Ht & Hc). exists (t1 ++ t), m. rewrite app_assoc.
    split_and!; [done|by apply waiting_app|by apply cause_front].
  - intros []. split; [rewrite length_app; lia|by apply waiting_app].
Qed.

(** The inner loop: as the outer one, but it may also stop because there are no events. *)
Lemma drain_waited id start timeout fuel : forall buf tr r, runs (drain_events fuel id buf) tr r ->
  match r with
  | Done (false, b) => waiting id tr /\ b = (buf ++ concats (received id tr))%string
  | Done (true, b) => waited id start timeout fuel buf tr (Done b)
  | Failed e => waited id start timeout fuel buf tr (Failed e)
  | Undefined => False
  | NoFuel => waited id start timeout fuel buf tr NoFuel
  end.
Proof.
  induction fuel as [|fuel IH]; intros buf tr r; cbn [drain_events].
  { intros [-> ->]. split; [simpl; lia|apply waiting_nil]. }
  intros (ev & t & -> & Hr). cbn [io_bind] in Hr. destruct ev as [[i ty]|].
  2:{ destruct Hr as [-> ->]. split; [waiting_event|by rewrite str_app_nil]. }
  assert (Hgo : forall t1 t2 buf', waiting id t1 -> (1 <= length t1)%nat -> buf' = (buf ++ concats (received id t1))%string ->
    runs (drain_events fuel id buf') t2 r ->
    match r with
    | Done (false, b) => waiting id (t1 ++ t2) /\ b = (buf ++ concats (received id (t1 ++ t2)))%string
    | Done (true, b) => waited id start timeout (S fuel) buf (t1 ++ t2) (Done b)
    | Failed e => waited id start timeout (S fuel) buf (t1 ++ t2) (Failed e)
    | Undefined => False
    | NoFuel => waited id start timeout (S fuel) buf (t1 ++ t2) NoFuel
    end).
  { intros t1 t2 buf' Hw Hl -> Hr2%IH. destruct r as [[[] b]|e| |]; try (eapply (waited_front _ _ _ fuel); [done|done|lia|exact Hr2]); [|done].
    destruct Hr2 as [? ->]. split; [by apply waiting_app|]. by rewrite received_app, concats_app, str_app_assoc. }
  destruct (Z.eqb_spec i id) as [->|Hne]; cbn [negb] in Hr.
  2:{ apply (Hgo [_] t buf); [|done|by rewrite str_app_nil|done]. pose proof (proj2 (Z.eqb_neq _ _) Hne) as He.
      split_and!; destruct ty; simpl; by rewrite ?He. }
  destruct ty.
  - apply (Hgo [_] t buf); [waiting_event|done|by rewrite str_app_nil|done].
  - destruct Hr as ([p|b] & t2 & -> & Hr).
    + destruct Hr as ([] & ? & -> & -> & ->). exists [Ev H3Poll (Some (id, H3Data)); Ev (RecvBody id 8192) (inl p)].
      eexists. split_and!; [done| |].
      * split_and!; [by simpl; rewrite Z.eqb_refl|done|done].
      * right; left. split; [done|]. by eexists [_], p.
    + cbn [io_bind] in Hr. apply (Hgo [_; _] t2 (buf ++ b)%string); [|simpl; lia| |done].
      * split_and!; [by simpl; rewrite Z.eqb_refl|done|done].
      * simpl. rewrite Z.eqb_refl. simpl. by rewrite str_app_nil.
  - destruct Hr as [-> ->]. exists []. split_and!; [done|apply waiting_nil|by rewrite str_app_nil].
  - apply (Hgo [_] t buf); [waiting_event|done|by rewrite str_app_nil|done].
Qed.

Lemma poll_waited id start timeout fuel : forall buf tr r,
  runs (poll_loop fuel id start timeout buf) tr r -> waited id start timeout fuel buf tr r.
Proof.
  induction fuel as [|fuel IH]; intros buf tr r; cbn [poll_loop].
  { intros [-> ->]. split; [simpl; lia|apply waiting_nil]. }
  intros (t0 & t1 & now & -> & Ht & Hr)%runs_bind.
  assert (H0 : waiting id t0 /\ received id t0 = [] /\ (0 < timeout -> t0 = [Ev Time now])).
  { destruct (Z.ltb_spec 0 timeout); [destruct Ht as (? & ? & -> & -> & ->)|destruct Ht as [-> _]];
      (split_and!; [|done|try done; lia]); [waiting_event|apply waiting_nil]. }
  destruct H0 as (H0 & H0' & Hnow). destruct (_ && _) eqn:Hlate.
  { apply andb_true_iff in Hlate as [Hl1%Z.ltb_lt Hl2%Z.ltb_lt]. destruct Hr as ([] & ? & -> & -> & ->).
    exists t0. eexists. split_and!; [done|done|]. left. split; [done|]. exists [], now. by rewrite Hnow. }
  apply (waited_front _ _ _ (S fuel) _ _ buf); [done|by rewrite H0', str_app_nil|lia|]. clear t0 Ht H0 H0' Hnow Hlate now.
  apply runs_bind in Hr as (t2 & t3 & o & -> & Hd%(drain_waited id start timeout) & Hr).
  destruct o as [[[] b]|e| |]; [destruct Hr as [-> ->]; by rewrite app_nil_r| |destruct Hr as [-> ->]; by rewrite app_nil_r|done
    |destruct Hr as [-> ->]; by rewrite app_nil_r].
  destruct Hd as [Hw ->]. destruct Hr as (c & t4 & -> & Hr). cbn [io_bind] in Hr. destruct c.
  - destruct Hr as ([] & ? & -> & -> & ->). exists (t2 ++ [Ev IsClosed true]). eexists.
    split_and!; [by rewrite <-app_assoc|apply waiting_app; [done|waiting_event]|right; right; by split; [|eexists]].
  - destruct Hr as (u & t5 & -> & Hr%IH). change (Ev IsClosed false :: Ev (Usleep 1000) u :: t5) with ([Ev IsClosed false; Ev (Usleep 1000) u : mevent] ++ t5).
    rewrite app_assoc. eapply (waited_front _ _ _ fuel); [|..|exact Hr].
    + apply waiting_app; [done|]. apply waiting_cons; waiting_event.
    + rewrite received_app. simpl. by rewrite app_nil_r.
    + rewrite length_app. simpl. lia.
Qed.

Lemma mcp_path_text service_name method_name :
  let text := path_text service_name method_name in
  ((String.length text <= 255)%nat -> path_value service_name method_name = Done text) /\
  (String.length text = 256%nat ->
     path_value service_name method_name = Done (String.substring 0 255 text ++ String Ascii.zero EmptyString)%string) /\
  ((256 < String.length text)%nat -> path_value service_name method_name = Undefined).
Proof.
  intros text. unfold path_value. fold text. generalize text as s. clear text. intros s.
  assert (Hsub : forall n (s : string), (String.length s <= n)%nat -> String.substring 0 n s = s).
  { intros n. induction n as [|n IH]; intros [|c s'] Hl; simpl in *; [done|lia|done|]. by rewrite IH by lia. }
  assert (Hpre : forall (a b : string), String.substring 0 (String.length a) (a ++ b) = a).
  { intros a b. induction a as [|c a IH]; simpl; [by destruct b|by rewrite IH]. }
  assert (Hlen : forall n (s : string), (n <= String.length s)%nat -> String.length (String.substring 0 n s) = n).
  { intros n. induction n as [|n IH]; intros [|c s'] Hl; simpl in *; [done|done|lia|]. by rewrite IH by lia. }
  split_and!; intros Hs.
  - rewrite (proj2 (Nat.leb_le _ _)) by lia. f_equal. unfold path_buffer. rewrite (Hsub 255%nat) by lia. apply Hpre.
  - rewrite (proj2 (Nat.leb_le _ _)) by lia. f_equal. rewrite Hs. unfold path_buffer. apply Hsub.
    rewrite length_str_app, Hlen by lia. simpl. lia.
  - by rewrite (proj2 (Nat.leb_gt _ _)) by lia.
Qed.

(* ------------------------------------------------------------------------ *)
(** ** The properties *)

(** The path of a request is [/service/method] exactly when that has at most 255
    characters; with one more its last character is replaced by a zero byte, and with more
    than that bytes behind the buffer are sent. *)
Theorem mcp_path_exact service_name method_name :
  let text := path_text service_name method_name in
  ((String.length text <= 255)%nat -> path_value service_name method_name = Done text) /\
  (String.length text = 256%nat ->
     path_value service_name method_name = Done (String.substring 0 255 text ++ String Ascii.zero EmptyString)%string) /\
  ((256 < String.length text)%nat -> path_value service_name method_name = Undefined).
Proof. apply mcp_path_text. Qed.

(** C30: A request on an open connection with a path that fits sends its headers and its
    payload and then waits.  While it waits it reads the body after every data event of its
    own stream, once, and reads nothing else.  When quiche reports the end of that stream it
    returns at once the pieces received on that stream, joined in order.  It fails only when
    sending failed, the time is over, the body could not be read or the connection was
    closed, with the one exception for that, and never after the end of the stream was
    reported; it runs out of fuel only when it has made as many calls. *)
Theorem mcp_request_correct fuel host service_name method_name payload opts tr r :
  (String.length (path_text service_name method_name) <= 255)%nat ->
  runs (quicpro_mcp_request fuel (Some (mkMcp host Live Live)) service_name method_name payload opts) tr r ->
  exists id t, tr = Ev (SendRequest (request_headers (path_text service_name method_name) host)) id :: t /\
    if id <? 0 then t = [Ev (Raise "MCP request failed: could not send H3 headers") tt] /\ r = Failed tt
    else exists sent t', t = Ev (SendBody id payload) sent :: t' /\
      if sent <? 0 then t' = [Ev (Raise "MCP request failed: could not send H3 body") tt] /\ r = Failed tt
      else exists start t'', t' = Ev Time start :: t'' /\
        waited id (s64 (start * 1000)) (timeout_of opts) fuel EmptyString t'' r.
Proof.
  intros Hlen. unfold quicpro_mcp_request. rewrite (proj1 (mcp_path_text _ _) Hlen).
  intros (id & t1 & -> & Hr). cbn [io_bind] in Hr. exists id, t1. split; [done|]. destruct (id <? 0).
  { by destruct Hr as ([] & ? & -> & -> & ->). }
  destruct Hr as (sent & t2 & -> & Hr). cbn [io_bind] in Hr. exists sent, t2. split; [done|]. destruct (sent <? 0).
  { by destruct Hr as ([] & ? & -> & -> & ->). }
  destruct Hr as (start & t3 & -> & Hr%poll_waited). by exists start, t3.
Qed.

(* ------------------------------------------------------------------------ *)
(** ** A concrete exchange *)

Module McpDemo.
(** Headers, an event of another stream, a body in two pieces, the end. *)
Definition peer (o : mop) (n : Z) : mans o * Z :=
  match o return mans o * Z with
  | SendRequest _ => (4, n)
  | SendBody _ p => (Z.of_nat (String.length p), n)
  | Time => (100, n)
  | H3Poll => (match n with
               | 0 => Some (4, H3Headers) | 1 => Some (8, H3Data) | 2 => Some (4, H3Data) | 3 => None
               | 4 => Some (4, H3Data) | 5 => Some (4, H3Finished) | _ => None
               end, n + 1)
  | RecvBody _ _ => (inr (if n =? 3 then "ab"%string else "c"%string), n)
  | IsClosed => (false, n)
  | Usleep _ | CloseConn _ _ _ | Raise _ => (tt, n)
  end.
Definition request_run := exec peer (quicpro_mcp_request 20 (Some (mkMcp "h" Live Live)) "svc" "get" "x" None) 0.
End McpDemo.
Import McpDemo.

Lemma mcp_request_correct_witness :
  request_run.1.1 = Done "abc"%string /\ received 4 request_run.1.2 = ["ab"; "c"]%string /\
  exists id t, request_run.1.2 = Ev (SendRequest (request_headers "/svc/get" "h")) id :: t /\
    (0 <= id -> exists sent t', t = Ev (SendBody id "x") sent :: t').
Proof.
  split; [vm_compute; reflexivity|]. split; [vm_compute; reflexivity|].
  destruct (mcp_request_correct 20 "h" "svc" "get" "x" None request_run.1.2 request_run.1.1) as (id & t & Ht & H);
    [simpl; lia|exact (exec_runs peer (quicpro_mcp_request 20 (Some (mkMcp "h" Live Live)) "svc" "get" "x" None) 0)|].
  exists id, t. split; [exact Ht|]. intros Hid. rewrite (proj2 (Z.ltb_ge _ _) Hid) in H.
  destruct H as (sent & t' & -> & _). by exists sent, t'.
Defined.
