(* ===== verification/Tickets.v ===== *)
(** * Session tickets, TLS files, the last error

    [extension/src/server/tls.c] and [extension/src/client/tls.c]: a TLS session ticket is
    imported into a connection and kept with the session, and exported from there.  Also
    the process-wide file names of [server/tls.c] and the error buffer of
    [extension/src/php_quicpro.c].

    [quicpro_ticket_ring_put] is declared and called but defined nowhere: a parameter. *)

From Stdlib Require Import ZArith Lia String Ascii.
From stdpp Require Import base tactics list gmap strings.
From S2P Require Import Prelude Zend Io Net Sessions Polling.

Local Open Scope string_scope.
Local Open Scope Z_scope.

(* ------------------------------------------------------------------------ *)
(** ** The last error *)

Definition QUICPRO_ERR_LEN : nat := 256.

(** The buffer after [quicpro_set_error], read as a C string. *)
Definition quicpro_set_error (msg : option string) : string :=
  match msg with
  | None => EmptyString
  | Some m => String.substring 0 (QUICPRO_ERR_LEN - 1) (cstr m)
  end.

(* ------------------------------------------------------------------------ *)
(** ** Tickets of a server-side session *)

Section Tickets.
Context `{SessionLayout}.

(** What an import says besides the session it leaves. *)
Inductive import_result := Imported | OutOfBounds | Rejected.

Section Ring.
Variable quicpro_ticket_ring_put : list byte -> net unit.

Definition quicpro_export_session_ticket (s : quicpro_session_t) : net string :=
  match s_ticket s with
  | [] => Ret EmptyString
  | ticket => let* _ := quicpro_ticket_ring_put ticket in Ret (string_of_list_byte ticket)
  end.

Definition quicpro_import_session_ticket (s : quicpro_session_t) (blob : list byte)
  : net (outcome unit (import_result * quicpro_session_t)) :=
  if (length blob =? 0)%nat || (ticket_size <? length blob)%nat then Ret (Done (OutOfBounds, s))
  else
    match s_conn s with
    | None => Ret Undefined
    | Some conn =>
        let* rc := sys (ConnSetSession conn blob) in
        if rc <? 0 then Ret (Done (Rejected, s))
        else
          let* _ := quicpro_ticket_ring_put blob in
          Ret (Done (Imported, with_ticket blob s))
    end.
End Ring.

(* ------------------------------------------------------------------------ *)
(** ** Tickets of a client session *)

(** [None] is [false] with an exception. *)
Definition quicpro_client_tls_export_session_ticket (s : option quicpro_session_t) : option string :=
  match s with
  | Some s0 =>
      match s_conn s0 with
      | Some _ => Some (string_of_list_byte (s_ticket s0))
      | None => None
      end
  | None => None
  end.

Definition quicpro_client_tls_import_session_ticket (s : option quicpro_session_t) (blob : list byte)
  : net (bool * option quicpro_session_t) :=
  let reject (message : string) := let* _ := sys (Throw message) in Ret (false, s) in
  match s with
  | Some s0 =>
      match s_conn s0 with
      | Some conn =>
          if (length blob =? 0)%nat || (ticket_size <? length blob)%nat
          then reject "Session ticket length is out of bounds or zero."
          else
            let* rc := sys (ConnSetSession conn blob) in
            if rc <? 0 then reject "libquiche rejected the provided session ticket"
            else Ret (true, Some (with_ticket blob s0))
      | None => reject "Invalid or uninitialized Quicpro\Session resource provided."
      end
  | None => reject "Invalid or uninitialized Quicpro\Session resource provided."
  end.
End Tickets.

(* ------------------------------------------------------------------------ *)
(** ** The file names *)

(** A static pointer to memory of the request in which it was allocated; a request's memory
    is gone when it ends. *)
Record global_path := mkPath { p_request : nat; p_text : string }.
Record tls_globals := mkGlobals { g_ca_file : option global_path; g_cert_file : option global_path; g_key_file : option global_path }.

(** [efree] of a pointer of request [p_request] in request [now]; null is ignored. *)
Definition efree_path (now : nat) (p : option global_path) : outcome unit unit :=
  match p with
  | None => Done tt
  | Some p => if bool_decide (p_request p = now) then Done tt else Undefined
  end.

Definition quicpro_set_ca_file (now : nat) (path : string) (g : tls_globals) : outcome unit tls_globals :=
  let! _ := efree_path now (g_ca_file g) in
  Done (mkGlobals (Some (mkPath now path)) (g_cert_file g) (g_key_file g)).

Definition quicpro_set_client_cert (now : nat) (cert key : string) (g : tls_globals) : outcome unit tls_globals :=
  let! _ := efree_path now (g_cert_file g) in
  let! _ := efree_path now (g_key_file g) in
  Done (mkGlobals (g_ca_file g) (Some (mkPath now cert)) (Some (mkPath now key))).

(* ------------------------------------------------------------------------ *)
(** ** Statistics *)

(** What quiche reports; the counters are 64-bit. *)
Record quiche_stats := mkStats { qs_recv : Z; qs_sent : Z; qs_lost : Z }.
Record quiche_path_stats := mkPathStats { ps_rtt : Z; ps_cwnd : Z }.

(** [quicpro_get_stats] of a session whose connection exists.  The result of
    [quiche_conn_path_stats] is not looked at: [None] leaves its structure unset. *)
Definition quicpro_get_stats (qs : quiche_stats) (ps : option quiche_path_stats) : outcome unit hashtable :=
  match ps with
  | None => Undefined
  | Some ps =>
      Done [(KStr "pkt_rx", ZLong (s64 (qs_recv qs))); (KStr "pkt_tx", ZLong (s64 (qs_sent qs)));
            (KStr "lost", ZLong (s64 (qs_lost qs))); (KStr "rtt_ns", ZLong (s64 (ps_rtt ps)));
            (KStr "cwnd", ZLong (s64 (ps_cwnd ps)))]
  end.

(* ------------------------------------------------------------------------ *)
(** ** Default files of clients

    [client/tls.c]; [qp_config_tls_crypto_apply_userland_config_entry] is called there and
    defined nowhere: a parameter, which stores an entry or refuses it. *)

Section ClientFiles.
Context {G : Type}.
Variable apply_entry : string -> string -> G -> option G.

Definition quicpro_client_tls_set_ca_file (path : string) (g : G) : bool * G :=
  match apply_entry "tls_default_ca_file" path g with Some g => (true, g) | None => (false, g) end.

Definition quicpro_client_tls_set_client_cert (cert key : string) (g : G) : bool * G :=
  match apply_entry "tls_default_cert_file" cert g with
  | None => (false, g)
  | Some g =>
      match apply_entry "tls_default_key_file" key g with Some g => (true, g) | None => (false, g) end
  end.

(** The two files are not set as one: when only the key is refused, the certificate stays. *)
Lemma client_cert_without_key cert key g g1 :
  apply_entry "tls_default_cert_file" cert g = Some g1 -> apply_entry "tls_default_key_file" key g1 = None ->
  quicpro_client_tls_set_client_cert cert key g = (false, g1).
Proof. intros H1 H2. unfold quicpro_client_tls_set_client_cert. by rewrite H1, H2. Qed.
End ClientFiles.

(* ------------------------------------------------------------------------ *)
(** ** Properties *)

(** A ticket imported into a client session is the one exported from it, and a session
    never holds more than its buffer takes; but the first [quicpro_poll] of the session
    forgets the ticket, so that afterwards none is exported. *)
Theorem ticket_roundtrip_until_poll `{SessionLayout} s conn blob tr s' :
  s_conn s = Some conn ->
  runs (quicpro_client_tls_import_session_ticket (Some s) blob) tr (true, Some s') ->
  (0 < length blob <= ticket_size)%nat /\
  quicpro_client_tls_export_session_ticket (Some s') = Some (string_of_list_byte blob) /\
  forall fuel napi cached timeout tr2 s2 c ok,
    runs (Poll.quicpro_poll fuel napi cached (Some s') timeout) tr2 (Done (Some s2, c, ok)) ->
    s_ticket s2 = [].
Proof.
  intros Hc Hr. cbn [quicpro_client_tls_import_session_ticket] in Hr. rewrite Hc in Hr.
  destruct (_ || _) eqn:Eb; [by destruct Hr as (? & ? & _ & _ & ?)|]. apply orb_false_iff in Eb as [E1 E2].
  apply Nat.eqb_neq in E1. apply Nat.ltb_ge in E2. destruct Hr as (rc & t & -> & Hr). cbn [io_bind] in Hr.
  destruct (rc <? 0); [by destruct Hr as (? & ? & _ & _ & ?)|]. destruct Hr as [_ [= ->]].
  split_and!; [lia|lia| |].
  - cbn [quicpro_client_tls_export_session_ticket with_ticket s_conn]. by rewrite Hc.
  - intros fuel napi cached timeout tr2 s2 c ok. unfold Poll.quicpro_poll. cbn [with_ticket s_conn]. rewrite Hc.
    intros (t0 & ? & -> & Hr). cbn [io_bind] in Hr. apply runs_bind in Hr as (? & ? & s1 & -> & _ & Hr).
    apply runs_bind in Hr as (? & ? & [budget c'] & -> & _ & Hr). destruct Hr as (start & ? & -> & Hr).
    cbn [io_bind] in Hr. apply runs_bind in Hr as (? & ? & [] & -> & _ & Hr); destruct Hr as [_ Hr]; by simplify_eq.
Qed.

Module TicketDemo.
Definition layout : SessionLayout.
Proof. refine {| host_size := 256; ticket_size := 512; scid_size := 16 |}. lia. Defined.
Definition s0 : quicpro_session_t :=
  mkSession 13 11 (Some 15) (Some 17) (Some 16) (Some 1) "h" [] 0 true false [] None.
Definition blob : list byte := [Byte.x01; Byte.x02].
Definition import_run := exec kind_world (@quicpro_client_tls_import_session_ticket layout (Some s0) blob) 0.
End TicketDemo.

Lemma ticket_roundtrip_until_poll_witness :
  quicpro_client_tls_export_session_ticket (Some (with_ticket TicketDemo.blob TicketDemo.s0)) =
  Some (string_of_list_byte TicketDemo.blob).
Proof.
  apply (@ticket_roundtrip_until_poll TicketDemo.layout TicketDemo.s0 15 TicketDemo.blob TicketDemo.import_run.1.2);
    [reflexivity|].
  exact (exec_runs kind_world (@quicpro_client_tls_import_session_ticket TicketDemo.layout (Some TicketDemo.s0) TicketDemo.blob) 0).
Defined.
