(* ===== verification/Resources.v ===== *)
(** * Resources: what PHP code can reach

    [extension/src/php_quicpro.c]: the resource types, the module's start ([MINIT]), the
    table of functions, and the engine's list of resources that they work on.  A resource
    is an entry with a type; a function fetches a resource by comparing its type with one
    of the globals [le_quicpro], [le_quicpro_session], [le_quicpro_cfg].

    The functions themselves are those of [Sessions], [Polling] and [Tickets]; here they
    act on the engine's list, as steps of PHP code.  Three names in the table
    ([quicpro_send_request], [quicpro_receive_response], [quicpro_cancel_stream]) have no
    function anywhere in the sources and are left out. *)

From Stdlib Require Import ZArith Lia String.
From stdpp Require Import base tactics list gmap strings relations.
From S2P Require Import Prelude Zend Io Net Sessions Polling Tickets.

Local Open Scope Z_scope.
Set Warnings "-clear-no-such-hyp,-missing-scheme".

(** The type globals of a module that has just been loaded: zero, as [php_quicpro.c] defines
    them without a value.  Nothing in the sources ever assigns [le_quicpro_session]; its value
    is a parameter, of which zero is the source's. *)
Record type_ids := mkIds { le_quicpro : Z; le_quicpro_session : Z; le_quicpro_cfg : Z }.
Definition ids_at_load (session_type : Z) : type_ids := mkIds 0 session_type 0.

Inductive list_dtor := SessionDtor | ConfigDtor | OtherDtor.
#[export] Instance list_dtor_eq_dec : EqDecision list_dtor.
Proof. solve_decision. Defined.

(** The engine: the destructors by type and the next type, the resources by number. *)
Record engine := mkEngine {
  list_destructors : gmap Z list_dtor;
  next_type : Z;
  entries : gmap Z (Z * quicpro_session_t);
}.

Definition zend_register_list_destructors_ex (d : list_dtor) (e : engine) : Z * engine :=
  (next_type e, mkEngine (<[next_type e := d]> (list_destructors e)) (next_type e + 1) (entries e)).

Definition zend_register_resource (id : Z) (s : quicpro_session_t) (type : Z) (e : engine) : engine :=
  mkEngine (list_destructors e) (next_type e) (<[id := (type, s)]> (entries e)).

Definition zend_fetch_resource (e : engine) (id type : Z) : option quicpro_session_t :=
  match entries e !! id with
  | Some (t, s) => if t =? type then Some s else None
  | None => None
  end.

(** A resource is dropped: its destructor, which must be there. *)
Definition zend_list_free (id : Z) (e : engine) : outcome unit (option (list_dtor * quicpro_session_t) * engine) :=
  match entries e !! id with
  | None => Done (None, e)
  | Some (t, s) =>
      match list_destructors e !! t with
      | Some d => Done (Some (d, s), mkEngine (list_destructors e) (next_type e) (delete id (entries e)))
      | None => Undefined
      end
  end.

(* ------------------------------------------------------------------------ *)
(** ** The module *)

Definition PHP_QUICPRO_VERSION : string := "0.1.0".

Record module := mkModule { ids : type_ids; eng : engine; quicpro_last_error : string; tls_files : tls_globals }.

Definition with_engine (w : module) (e : engine) : module := mkModule (ids w) e (quicpro_last_error w) (tls_files w).

(** [PHP_MINIT_FUNCTION]: one type is registered and the error is cleared; the other
    globals stay as they are. *)
Definition PHP_MINIT (w : module) : module :=
  let '(t, e) := zend_register_list_destructors_ex SessionDtor (eng w) in
  mkModule (mkIds t (le_quicpro_session (ids w)) (le_quicpro_cfg (ids w))) e (quicpro_set_error None) (tls_files w).

(** [quicpro_register_config_resource] of [config.c], which nothing calls. *)
Definition quicpro_register_config_resource (w : module) : module :=
  let '(t, e) := zend_register_list_destructors_ex ConfigDtor (eng w) in
  mkModule (mkIds (le_quicpro (ids w)) (le_quicpro_session (ids w)) t) e (quicpro_last_error w) (tls_files w).

Definition quicpro_get_error (w : module) : string := quicpro_last_error w.
Definition quicpro_get_last_error (w : module) : zval := ZString (quicpro_get_error w).
Definition quicpro_version : zval := ZString PHP_QUICPRO_VERSION.

Definition session_of (w : module) (id : Z) : option quicpro_session_t :=
  zend_fetch_resource (eng w) id (le_quicpro_session (ids w)).

(** [quicpro_close] of [server/session.c]: a resource of type [le_quicpro]; fetching
    another one raises a type error. *)
Definition legacy_session_of (w : module) (id : Z) : option quicpro_session_t :=
  zend_fetch_resource (eng w) id (le_quicpro (ids w)).
Definition quicpro_close (w : module) (id : Z) : net bool := Object.close (legacy_session_of w id).

(** [quicpro_funcs], as what PHP code can call, and what a call returns: a value, a thrown
    error, or a resource. *)
Inductive php_call :=
| Connect (host : string) (port : Z) (cfg : option Z) (opts : option hashtable)
| CloseCall (id : Z)
| PollCall (id timeout_ms : Z)
| ExportTicket (id : Z)
| ImportTicket (id : Z) (blob : list byte)
| GetStats (id : Z)
| SetCaFile (now : nat) (path : string)
| SetClientCert (now : nat) (cert key : string)
| GetLastError
| Version
| Unset (id : Z).

Inductive php_result := RValue (v : zval) | RThrow | RResource (id : Z).

Section Steps.
Context `{SessionLayout}.
Variable quicpro_ticket_ring_put : list byte -> net unit.

Inductive php_step (w : module) : php_call -> php_result -> module -> Prop :=
| step_connect host port cfg opts tr s id :
    runs (Legacy.quicpro_connect host port cfg opts) tr (inl s) -> entries (eng w) !! id = None ->
    php_step w (Connect host port cfg opts) (RResource id)
      (with_engine w (zend_register_resource id s (le_quicpro (ids w)) (eng w)))
| step_connect_fails host port cfg opts tr msg :
    runs (Legacy.quicpro_connect host port cfg opts) tr (inr msg) ->
    php_step w (Connect host port cfg opts) (RValue ZFalse)
      (mkModule (ids w) (eng w) (quicpro_set_error (Some msg)) (tls_files w))
| step_close_rejected id tr b :
    legacy_session_of w id = None -> runs (quicpro_close w id) tr b -> php_step w (CloseCall id) RThrow w
| step_close id s tr b :
    legacy_session_of w id = Some s -> runs (quicpro_close w id) tr b -> php_step w (CloseCall id) (RValue (zbool b)) w
| step_poll_rejected id timeout :
    session_of w id = None -> php_step w (PollCall id timeout) RThrow w
| step_poll id timeout s fuel napi cached tr s' cached' ok :
    session_of w id = Some s ->
    runs (Poll.quicpro_poll fuel napi cached (Some s) timeout) tr (Done (Some s', cached', ok)) ->
    php_step w (PollCall id timeout) (RValue (zbool ok))
      (with_engine w (zend_register_resource id s' (le_quicpro_session (ids w)) (eng w)))
| step_export_rejected id : session_of w id = None -> php_step w (ExportTicket id) RThrow w
| step_export id s tr t :
    session_of w id = Some s -> runs (quicpro_export_session_ticket quicpro_ticket_ring_put s) tr t ->
    php_step w (ExportTicket id) (RValue (ZString t)) w
| step_import_rejected id blob : session_of w id = None -> php_step w (ImportTicket id blob) RThrow w
| step_import id blob s tr r s' :
    session_of w id = Some s -> runs (quicpro_import_session_ticket quicpro_ticket_ring_put s blob) tr (Done (r, s')) ->
    php_step w (ImportTicket id blob) (RValue (match r with Imported => ZTrue | _ => ZFalse end))
      (mkModule (ids w) (zend_register_resource id s' (le_quicpro_session (ids w)) (eng w))
        (match r with Rejected => quicpro_set_error (Some "libquiche rejected the session ticket") | _ => quicpro_last_error w end)
        (tls_files w))
| step_stats_rejected id : session_of w id = None -> php_step w (GetStats id) RThrow w
| step_stats id s qs ps ht :
    session_of w id = Some s -> quicpro_get_stats qs ps = Done ht -> php_step w (GetStats id) (RValue (ZArray ht)) w
| step_ca now path g :
    quicpro_set_ca_file now path (tls_files w) = Done g ->
    php_step w (SetCaFile now path) (RValue ZTrue) (mkModule (ids w) (eng w) (quicpro_last_error w) g)
| step_cert now cert key g :
    quicpro_set_client_cert now cert key (tls_files w) = Done g ->
    php_step w (SetClientCert now cert key) (RValue ZTrue) (mkModule (ids w) (eng w) (quicpro_last_error w) g)
| step_last_error : php_step w GetLastError (RValue (quicpro_get_last_error w)) w
| step_version : php_step w Version (RValue quicpro_version) w
| step_unset id d e :
    zend_list_free id (eng w) = Done (d, e) -> php_step w (Unset id) (RValue ZNull) (with_engine w e).

(** What PHP code can bring about. *)
Definition reachable (w0 w : module) : Prop := rtc (fun w1 w2 => exists c r, php_step w1 c r w2) w0 w.
End Steps.

(* ------------------------------------------------------------------------ *)
(** ** What the types come to *)

Definition loaded (session_type : Z) (e : engine) : module :=
  mkModule (ids_at_load session_type) e "" (mkGlobals None None None).

(** Every resource has the type that [MINIT] registered, which is not the type of sessions. *)
Record typed (w : module) : Prop := {
  typed_apart : le_quicpro (ids w) <> le_quicpro_session (ids w);
  typed_dtor : list_destructors (eng w) !! le_quicpro (ids w) = Some SessionDtor;
  typed_entries : forall id t s, entries (eng w) !! id = Some (t, s) -> t = le_quicpro (ids w);
}.

Lemma typed_minit t0 e : t0 < next_type e -> entries e = ∅ -> typed (PHP_MINIT (loaded t0 e)).
Proof.
  intros Hn He. split; cbn.
  - lia.
  - apply lookup_insert_eq.
  - intros id t s. rewrite He, lookup_empty. done.
Qed.

Lemma typed_no_session w id : typed w -> session_of w id = None.
Proof.
  intros [Ha _ He]. unfold session_of, zend_fetch_resource. destruct (entries (eng w) !! id) as [[t s]|] eqn:E; [|done].
  rewrite (He _ _ _ E). by rewrite (proj2 (Z.eqb_neq _ _)).
Qed.

Lemma typed_free w id : typed w -> zend_list_free id (eng w) <> Undefined.
Proof.
  intros [_ Hd He]. unfold zend_list_free. destruct (entries (eng w) !! id) as [[t s]|] eqn:E; [|done].
  by rewrite (He _ _ _ E), Hd.
Qed.

Section Reach.
Context `{SessionLayout}.
Variable ring : list byte -> net unit.

Lemma typed_step w c r w' : typed w -> php_step ring w c r w' -> typed w'.
Proof.
  intros Hw Hs. pose proof (fun id => typed_no_session w id Hw) as Hno. destruct Hw as [Ha Hd He].
  destruct Hs as [host port cfg opts tr s id Hr Hid| | | | | | | | | | | | | | | |id d e Hf]; try done;
    try match goal with H1 : session_of w ?id = Some _ |- _ => by rewrite Hno in H1 end.
  - split; [done|done|]. intros id' t s'. cbn. destruct (decide (id = id')) as [->|Hne].
    + rewrite lookup_insert_eq. by intros [= <- _].
    + rewrite lookup_insert_ne by done. apply He.
  - unfold zend_list_free in Hf. destruct (entries (eng w) !! id) as [[t s]|] eqn:E; [|by injection Hf as _ <-].
    destruct (list_destructors (eng w) !! t); [|done]. injection Hf as _ <-. split; [done|done|]. cbn.
    intros id' t' s' Hl. apply lookup_delete_Some in Hl as [_ Hl]. by eapply He.
Qed.

Lemma typed_reachable w w' : typed w -> reachable ring w w' -> typed w'.
Proof. intros Hw. induction 1 as [|w1 w2 w3 (c & r & Hs) _ IH]; [done|]. apply IH. by eapply typed_step. Qed.
End Reach.

(** C25: In every state that PHP code can reach through the extension's table of functions,
    all resources have the type that the start of the module registered, so that each can be
    destroyed; none of them is a session to the functions that poll, export and import
    tickets or read statistics, which therefore refuse every resource and change nothing.
    ([t0] is the value of [le_quicpro_session]: zero, or any other number that the engine is
    not yet to hand out.) *)
Theorem session_functions_refuse_all `{SessionLayout} ring t0 e w c r w' :
  t0 < next_type e -> entries e = ∅ -> reachable ring (PHP_MINIT (loaded t0 e)) w -> php_step ring w c r w' ->
  (forall id t s, entries (eng w) !! id = Some (t, s) -> t = le_quicpro (ids w)) /\
  (forall id, zend_list_free id (eng w) <> Undefined) /\
  match c with
  | PollCall _ _ | ExportTicket _ | ImportTicket _ _ | GetStats _ => r = RThrow /\ w' = w
  | _ => True
  end.
Proof.
  intros Hn He Hr Hs. assert (Hw : typed w) by (eapply typed_reachable; [by apply typed_minit|done]).
  split; [apply (typed_entries w Hw)|]. split; [intros id; by apply typed_free|].
  pose proof (fun id => typed_no_session w id Hw) as Hno.
  destruct Hs; try done; match goal with H1 : session_of w ?id = Some _ |- _ => by rewrite Hno in H1 end.
Qed.

(** [le_quicpro_session] being zero like the others, a session made by the functions that use
    it is a configuration to those that use [le_quicpro_cfg], and has no destructor. *)
Lemma session_type_is_config_type e s id : list_destructors e !! 0 = None -> 1 <= next_type e ->
  let w := PHP_MINIT (loaded 0 e) in
  let e' := zend_register_resource id s (le_quicpro_session (ids w)) (eng w) in
  zend_fetch_resource e' id (le_quicpro_cfg (ids w)) = Some s /\ zend_list_free id e' = Undefined.
Proof.
  intros Hd Hn w e'. subst w e'. unfold zend_fetch_resource, zend_list_free. cbn. rewrite lookup_insert_eq. split; [done|].
  rewrite lookup_insert_ne by lia. by rewrite Hd.
Qed.

(** A connection that fails leaves its reason, whole, for [quicpro_get_last_error]. *)
Lemma connect_failure_reported `{SessionLayout} host port cfg opts tr msg :
  runs (Legacy.quicpro_connect host port cfg opts) tr (inr msg) -> quicpro_set_error (Some msg) = msg.
Proof.
  intros Hr. unfold Legacy.quicpro_connect in Hr. cbv zeta in Hr.
  destruct cfg as [cfg|]; [|by destruct Hr as [_ [= ->]]].
  destruct Hr as (a & t & -> & Hr). cbn [io_bind] in Hr. destruct a as [[h ais]|]; [|by destruct Hr as [_ [= ->]]].
  apply runs_bind in Hr as (t1 & t2 & r & -> & _ & Hr). destruct r as [[fd addr]|].
  2:{ destruct Hr as (? & ? & _ & Hr). by destruct Hr as [_ [= ->]]. }
  destruct Hr as (p & t3 & -> & Hr). cbn [io_bind] in Hr. destruct Hr as (scid & t4 & -> & Hr). cbn [io_bind] in Hr.
  destruct Hr as (conn & t5 & -> & Hr). cbn [io_bind] in Hr. destruct conn as [conn|].
  - destruct Hr as (? & ? & _ & ? & ? & _ & ? & ? & _ & Hr). by destruct Hr.
  - destruct Hr as (? & ? & _ & ? & ? & _ & ? & ? & _ & Hr). by destruct Hr as [_ [= ->]].
Qed.

(* ------------------------------------------------------------------------ *)
(** ** A concrete history *)

Module ResourceDemo.
Definition empty_engine : engine := mkEngine ∅ 1 ∅.
Definition started : module := PHP_MINIT (loaded 0 empty_engine).
Definition run := exec kind_world (@Legacy.quicpro_connect TicketDemo.layout "h" 443 (Some 1) None) 10.
End ResourceDemo.

Lemma session_functions_refuse_all_witness : let _ := TicketDemo.layout in let ring := fun _ : list byte => Ret tt in
  exists w, reachable ring ResourceDemo.started w /\ is_Some (entries (eng w) !! 5) /\
    (forall r w', php_step ring w (PollCall 5 0) r w' -> r = RThrow /\ w' = w) /\
    php_step ring w (PollCall 5 0) RThrow w.
Proof.
  intros layout ring.
  destruct ResourceDemo.run.1.1 as [s|msg] eqn:Er; [|vm_compute in Er; discriminate].
  set (w := with_engine ResourceDemo.started (zend_register_resource 5 s 1 (eng ResourceDemo.started))).
  assert (Hreach : reachable ring ResourceDemo.started w).
  { apply rtc_once. exists (Connect "h" 443 (Some 1) None), (RResource 5).
    apply (step_connect ring ResourceDemo.started "h" 443 (Some 1) None ResourceDemo.run.1.2 s 5); [|reflexivity].
    rewrite <- Er. exact (exec_runs kind_world (@Legacy.quicpro_connect TicketDemo.layout "h" 443 (Some 1) None) 10). }
  exists w. split; [exact Hreach|]. split; [eexists; apply lookup_insert_eq|]. split.
  - intros r w' Hs. apply (session_functions_refuse_all ring 0 ResourceDemo.empty_engine w (PollCall 5 0) r w');
      [reflexivity|reflexivity|exact Hreach|exact Hs].
  - apply step_poll_rejected. reflexivity.
Defined.
