(* ===== verification/Objects.v ===== *)
(** * PHP objects around native state

    The wrappers of [extension/php_quicpro.h] put a native pointer in front of the engine's
    object, and the engine hands out the address of the latter: every access goes back by
    the offset.  [quicpro_session_create] of [extension/src/server/session.c] makes such an
    object and installs the handlers, with the offset by which the engine later finds the
    block to release.

    A block is known by the address the allocator gave.  The abstract side is a map from
    objects to their native pointers, in which no address arithmetic is left. *)

From Stdlib Require Import ZArith Lia String.
From stdpp Require Import base tactics list gmap strings.
From S2P Require Import Prelude Zend.

Local Open Scope Z_scope.

(** [quicpro_session_object], and in the same way [quicpro_mcp_object] and
    [quicpro_ws_object]: one pointer, then the engine's object of 56 bytes. *)
Record native_object := mkNative { sess : option Z; std_class : Z; std_handlers : bool }.
Definition XtOffsetOf_std : Z := 8.
Definition sizeof_object : Z := 64.

(** Pointers are 64 bits wide. *)
Definition php_quicpro_obj_from_zend (obj : Z) : Z := u64 (obj - XtOffsetOf_std).
Definition php_quicpro_mcp_obj_from_zend (obj : Z) : Z := u64 (obj - XtOffsetOf_std).
Definition php_quicpro_ws_obj_from_zend (obj : Z) : Z := u64 (obj - XtOffsetOf_std).

(** [quicpro_session_handlers]: zeroes at load, so [free_obj] is null. *)
Inductive free_handler := zend_object_std_free | quicpro_session_free.
Record object_handlers := mkHandlers { offset : Z; free_obj : option free_handler }.
Definition std_object_handlers : object_handlers := mkHandlers 0 (Some zend_object_std_free).

Record objects := mkObjects { handlers : object_handlers; store : gmap Z native_object }.
Definition objects_at_load : objects := mkObjects (mkHandlers 0 None) ∅.

(** A PHP value as far as the helpers look at it. *)
Inductive zarg := NotObject | AnObject (obj : Z).

(** Reading the wrapper of an object that is not there is undefined. *)
Definition quicpro_obj_fetch (w : objects) (zobj : zarg) : outcome unit (option Z) :=
  match zobj with
  | NotObject => Done None
  | AnObject obj =>
      match store w !! php_quicpro_obj_from_zend obj with
      | Some intern => Done (sess intern)
      | None => Undefined
      end
  end.

(** [base] is what [ecalloc] returned. *)
Definition quicpro_session_create (w : objects) (base ce : Z) : Z * objects :=
  let h := match free_obj (handlers w) with
           | None => mkHandlers XtOffsetOf_std (Some quicpro_session_free)
           | Some _ => handlers w
           end in
  (u64 (base + XtOffsetOf_std), mkObjects h (<[base := mkNative None ce true]> (store w))).

(** The last step of the constructor: [intern->sess = s]. *)
Definition store_session (w : objects) (obj s : Z) : outcome unit objects :=
  match store w !! php_quicpro_obj_from_zend obj with
  | Some intern =>
      Done (mkObjects (handlers w)
        (<[php_quicpro_obj_from_zend obj := mkNative (Some s) (std_class intern) (std_handlers intern)]> (store w)))
  | None => Undefined
  end.

(** [quicpro_session_free_obj]: the session it tears down, and the wrapper after it. *)
Definition free_session_object (w : objects) (obj : Z) : outcome unit (option Z * objects) :=
  match store w !! php_quicpro_obj_from_zend obj with
  | Some intern =>
      Done (sess intern,
        mkObjects (handlers w)
          (<[php_quicpro_obj_from_zend obj := mkNative None (std_class intern) (std_handlers intern)]> (store w)))
  | None => Undefined
  end.

(** The engine, when the last reference is gone: the object's [free_obj], then the block that
    lies [offset] before the object. *)
Definition zend_objects_store_del (w : objects) (obj : Z) : outcome unit (option Z * objects) :=
  let! '(torn, w) :=
    match free_obj (handlers w) with
    | Some quicpro_session_free => free_session_object w obj
    | Some zend_object_std_free => Done (None, w)
    | None => Undefined
    end in
  match store w !! u64 (obj - offset (handlers w)) with
  | Some _ => Done (torn, mkObjects (handlers w) (delete (u64 (obj - offset (handlers w))) (store w)))
  | None => Undefined
  end.

(* ------------------------------------------------------------------------ *)
(** ** Objects as a map *)

Inductive object_call :=
| New (base ce : Z)
| Construct (obj s : Z)
| Fetch (obj : Z)
| Release (obj : Z).

Inductive object_result := RObject (obj : Z) | RUnit | RSession (s : option Z).

Definition object_step (w : objects) (c : object_call) : outcome unit (object_result * objects) :=
  match c with
  | New base ce => let '(obj, w) := quicpro_session_create w base ce in Done (RObject obj, w)
  | Construct obj s => let! w := store_session w obj s in Done (RUnit, w)
  | Fetch obj => let! s := quicpro_obj_fetch w (AnObject obj) in Done (RSession s, w)
  | Release obj => let! '(s, w) := zend_objects_store_del w obj in Done (RSession s, w)
  end.

Abbreviation object_map := (gmap Z (option Z)).

(** The specification: every call names an object that lives. *)
Definition object_spec (m : object_map) (c : object_call) : option (object_result * object_map) :=
  match c with
  | New base _ => let obj := base + XtOffsetOf_std in Some (RObject obj, <[obj := None]> m)
  | Construct obj s => match m !! obj with Some _ => Some (RUnit, <[obj := Some s]> m) | None => None end
  | Fetch obj => match m !! obj with Some s => Some (RSession s, m) | None => None end
  | Release obj => match m !! obj with Some s => Some (RSession s, delete obj m) | None => None end
  end.

(** The allocator: a new block inside the address space. *)
Definition fresh_block (m : object_map) (c : object_call) : bool :=
  match c with
  | New base _ => (0 <? base) && (base + sizeof_object <=? 2 ^ 64) && bool_decide (m !! (base + XtOffsetOf_std) = None)
  | _ => true
  end.

(** Running both sides over a list of calls. *)
Fixpoint object_run (w : objects) (cs : list object_call) : outcome unit (list object_result * objects) :=
  match cs with
  | [] => Done ([], w)
  | c :: cs' =>
      let! '(x, w) := object_step w c in
      let! '(xs, w) := object_run w cs' in
      Done (x :: xs, w)
  end.
Fixpoint object_spec_run (m : object_map) (cs : list object_call) : option (list object_result * object_map) :=
  match cs with
  | [] => Some ([], m)
  | c :: cs' =>
      match object_spec m c with
      | Some (x, m) => match object_spec_run m cs' with Some (xs, m) => Some (x :: xs, m) | None => None end
      | None => None
      end
  end.
Fixpoint fresh_blocks (m : object_map) (cs : list object_call) : bool :=
  match cs with
  | [] => true
  | c :: cs' => fresh_block m c && match object_spec m c with Some (_, m') => fresh_blocks m' cs' | None => true end
  end.

(* ------------------------------------------------------------------------ *)
(** ** Refinement *)

Definition session_handlers : object_handlers := mkHandlers XtOffsetOf_std (Some quicpro_session_free).

(** The blocks and the objects are the same ones, eight bytes apart; the handlers are
    installed as soon as there is an object. *)
Record refines (w : objects) (m : object_map) : Prop := {
  ref_store : forall b, sess <$> store w !! b = m !! (b + XtOffsetOf_std);
  ref_range : forall obj s, m !! obj = Some s -> XtOffsetOf_std < obj /\ obj + (sizeof_object - XtOffsetOf_std) <= 2 ^ 64;
  ref_handlers : handlers w = session_handlers \/ free_obj (handlers w) = None /\ m = ∅;
}.

Lemma from_zend_range obj : XtOffsetOf_std < obj -> obj + (sizeof_object - XtOffsetOf_std) <= 2 ^ 64 ->
  u64 (obj - XtOffsetOf_std) = obj - XtOffsetOf_std.
Proof. unfold XtOffsetOf_std, sizeof_object, u64. intros. apply Z.mod_small. lia. Qed.

(** From an object to its wrapper and back. *)
Lemma refines_wrapper w m obj s : refines w m -> m !! obj = Some s ->
  exists o, php_quicpro_obj_from_zend obj = obj - XtOffsetOf_std /\ store w !! (obj - XtOffsetOf_std) = Some o /\ sess o = s /\
    handlers w = session_handlers.
Proof.
  intros Hr Hm. destruct (ref_range _ _ Hr _ _ Hm) as [H1 H2]. pose proof (ref_store _ _ Hr (obj - XtOffsetOf_std)) as Hs.
  rewrite Z.sub_add, Hm in Hs. apply fmap_Some in Hs as (o & Ho & ->). exists o. split_and!; [by apply from_zend_range|done|done|].
  destruct (ref_handlers _ _ Hr) as [?|[_ ->]]; [done|]. by rewrite lookup_empty in Hm.
Qed.

Lemma refines_update w m obj o o' s : refines w m -> handlers w = session_handlers -> m !! obj = Some s ->
  store w !! (obj - XtOffsetOf_std) = Some o ->
  refines (mkObjects (handlers w) (<[obj - XtOffsetOf_std := o']> (store w))) (<[obj := sess o']> m).
Proof.
  intros Hr Hh Hm Ho. constructor; cbn [store handlers].
  - intros b. destruct (decide (b = obj - XtOffsetOf_std)) as [->|Hb].
    + by rewrite lookup_insert_eq, Z.sub_add, lookup_insert_eq.
    + rewrite !lookup_insert_ne by lia. apply (ref_store _ _ Hr).
  - intros obj' s'. destruct (decide (obj = obj')) as [<-|Hb].
    + intros _. exact (ref_range _ _ Hr _ _ Hm).
    + rewrite lookup_insert_ne by done. apply (ref_range _ _ Hr).
  - by left.
Qed.

Lemma refines_new w m base ce : refines w m -> fresh_block m (New base ce) = true ->
  refines (quicpro_session_create w base ce).2 (<[base + XtOffsetOf_std := None]> m) /\
  (quicpro_session_create w base ce).1 = base + XtOffsetOf_std.
Proof.
  intros Hr [[H0%Z.ltb_lt H1%Z.leb_le]%andb_true_iff Hn%bool_decide_eq_true]%andb_true_iff. split.
  - constructor; cbn [quicpro_session_create snd store handlers].
    + intros b. destruct (decide (b = base)) as [->|Hb]; [by rewrite !lookup_insert_eq|].
      rewrite !lookup_insert_ne by lia. apply (ref_store _ _ Hr).
    + intros obj s. destruct (decide (base + XtOffsetOf_std = obj)) as [<-|Hb]; [intros _; lia|].
      rewrite lookup_insert_ne by done. apply (ref_range _ _ Hr).
    + left. destruct (ref_handlers _ _ Hr) as [->|[-> _]]; reflexivity.
  - cbn. unfold u64, XtOffsetOf_std, sizeof_object in *. apply Z.mod_small. lia.
Qed.

Lemma refines_release w m obj s : refines w m -> m !! obj = Some s ->
  exists w', zend_objects_store_del w obj = Done (s, w') /\ refines w' (delete obj m).
Proof.
  intros Hr Hm. destruct (refines_wrapper _ _ _ _ Hr Hm) as (o & Hp & Ho & <- & Hh).
  destruct (ref_range _ _ Hr _ _ Hm) as [H1 H2]. unfold zend_objects_store_del. rewrite Hh. cbn [session_handlers free_obj].
  unfold free_session_object. rewrite Hp, Ho. cbn [obind store handlers offset]. rewrite Hh. cbn [session_handlers offset].
  rewrite (from_zend_range obj H1 H2), lookup_insert_eq. eexists. split; [done|]. rewrite delete_insert_eq. constructor; cbn [store handlers].
  - intros b. destruct (decide (b = obj - XtOffsetOf_std)) as [->|Hb].
    + by rewrite lookup_delete_eq, Z.sub_add, lookup_delete_eq.
    + rewrite !lookup_delete_ne by lia. apply (ref_store _ _ Hr).
  - intros obj' s' [_ Hm']%lookup_delete_Some. by eapply (ref_range _ _ Hr).
  - by left.
Qed.

Lemma object_step_refines w m c x m' : refines w m -> fresh_block m c = true -> object_spec m c = Some (x, m') ->
  exists w', object_step w c = Done (x, w') /\ refines w' m'.
Proof.
  intros Hr Hf Hs. destruct c as [base ce|obj s|obj|obj]; cbn [object_spec object_step] in *.
  - injection Hs as <- <-. destruct (refines_new w m base ce Hr Hf) as [H1 H2].
    destruct (quicpro_session_create w base ce) as [obj w']. cbn in *. subst. by eexists.
  - destruct (m !! obj) as [v|] eqn:Hm; [|done]. injection Hs as <- <-.
    destruct (refines_wrapper _ _ _ _ Hr Hm) as (o & Hp & Ho & _ & Hh). unfold store_session. rewrite Hp, Ho. cbn [obind].
    eexists. split; [done|]. by eapply (refines_update w m obj o (mkNative (Some s) _ _)).
  - destruct (m !! obj) as [v|] eqn:Hm; [|done]. injection Hs as <- <-.
    destruct (refines_wrapper _ _ _ _ Hr Hm) as (o & Hp & Ho & <- & _). unfold quicpro_obj_fetch. rewrite Hp, Ho. by eexists.
  - destruct (m !! obj) as [v|] eqn:Hm; [|done]. injection Hs as <- <-.
    destruct (refines_release _ _ _ _ Hr Hm) as (w' & -> & Hr'). by exists w'.
Qed.

Lemma object_run_refines cs : forall w m xs m', refines w m -> fresh_blocks m cs = true ->
  object_spec_run m cs = Some (xs, m') -> exists w', object_run w cs = Done (xs, w') /\ refines w' m'.
Proof.
  induction cs as [|c cs IH]; intros w m xs m' Hr Hf Hs; cbn [object_spec_run object_run fresh_blocks] in *.
  { injection Hs as <- <-. by exists w. }
  apply andb_true_iff in Hf as [Hc Hf]. destruct (object_spec m c) as [[x m1]|] eqn:Hx; [|done].
  destruct (object_spec_run m1 cs) as [[ys m2]|] eqn:Hys; [|done]. injection Hs as <- <-.
  destruct (object_step_refines _ _ _ _ _ Hr Hc Hx) as (w1 & -> & Hr1). cbn [obind].
  destruct (IH w1 m1 ys m2 Hr1 Hf Hys) as (w2 & -> & Hr2). by exists w2.
Qed.

(** C35: Refinement of a map from objects to sessions: from the loading of the module on,
    over any sequence of creations, constructions, look-ups and releases of living objects,
    whatever addresses the allocator gives, the wrappers behave as the map: a look-up gives
    what the last construction stored, or null; a release tears down exactly that session
    and gives back exactly the block that was allocated; other objects are untouched; no
    access leaves a living block. *)
Theorem objects_refine_map cs xs m : fresh_blocks ∅ cs = true -> object_spec_run ∅ cs = Some (xs, m) ->
  exists w, object_run objects_at_load cs = Done (xs, w) /\
    (forall obj, m !! obj = None -> store w !! (obj - XtOffsetOf_std) = None) /\
    forall obj s, m !! obj = Some s -> quicpro_obj_fetch w (AnObject obj) = Done s.
Proof.
  intros Hf Hs. destruct (object_run_refines cs objects_at_load ∅ xs m) as (w & Hw & Hr); [|done|done|].
  - constructor; cbn [store objects_at_load handlers]; [intros b; by rewrite !lookup_empty| |by right].
    intros obj s Ho. by rewrite lookup_empty in Ho.
  - exists w. split; [done|]. split.
    + intros obj Hm. pose proof (ref_store _ _ Hr (obj - XtOffsetOf_std)) as H. rewrite Z.sub_add, Hm in H.
      by destruct (store w !! (obj - XtOffsetOf_std)).
    + intros obj s Hm. destruct (refines_wrapper _ _ _ _ Hr Hm) as (o & Hp & Ho & <- & _).
      unfold quicpro_obj_fetch. by rewrite Hp, Ho.
Qed.

(** A second call of the constructor forgets the first session: nothing tears it down. *)
Lemma second_constructor_leaks m obj s1 s2 : m !! obj = Some None ->
  exists m', object_spec_run m [Construct obj s1; Construct obj s2; Release obj] =
    Some ([RUnit; RUnit; RSession (Some s2)], m').
Proof.
  intros Hm. cbn [object_spec_run object_spec]. rewrite Hm. rewrite lookup_insert_eq. rewrite lookup_insert_eq. by eexists.
Qed.

Lemma objects_refine_map_witness :
  let cs := [New 4096 7; New 8192 7; Construct 8200 99; Fetch 8200; Fetch 4104; Release 8200; Fetch 4104] in
  exists w, object_run objects_at_load cs =
    Done ([RObject 4104; RObject 8200; RUnit; RSession (Some 99); RSession None; RSession (Some 99); RSession None], w) /\
    quicpro_obj_fetch w (AnObject 4104) = Done None.
Proof.
  destruct (objects_refine_map [New 4096 7; New 8192 7; Construct 8200 99; Fetch 8200; Fetch 4104; Release 8200; Fetch 4104]
    [RObject 4104; RObject 8200; RUnit; RSession (Some 99); RSession None; RSession (Some 99); RSession None]
    {[4104 := None]}) as (w & Hw & _ & Hf).
  - vm_compute. reflexivity.
  - vm_compute. reflexivity.
  - exists w. split; [exact Hw|]. apply Hf. vm_compute. reflexivity.
Defined.
