(* ===== verification/Cancel.v ===== *)
(** * Cancellation handlers

    [extension/src/server/cancel.c]: a PHP callable kept with a stream and called once when
    the stream is cancelled.  The references that the extension takes and gives back are
    recorded; the object of a bound callable is counted like the callable.  The handler is
    PHP code: it may register another handler for the stream while it runs. *)

From Stdlib Require Import ZArith Lia String.
From stdpp Require Import base tactics list gmap strings.
From S2P Require Import Prelude.

Local Open Scope Z_scope.

Record callable := mkCallable { fn : Z; obj : option Z }.

Record stream := mkStream {
  stream_id : Z;
  has_cancel_handler : bool;
  function_name : option Z;                  (** [None] is [IS_UNDEF] *)
  object : option Z;
}.

(** What happens, in order. *)
Inductive act := AddRef (v : Z) | Release (v : Z) | Invoke (f : Z) (stream_id : Z).

Definition each (mk : Z -> act) (v : option Z) : list act := match v with Some v => [mk v] | None => [] end.

(** The part of [quicpro_server_on_cancel] after the stream has been found. *)
Definition set_handler (f : callable) (st : stream) : stream * list act :=
  (mkStream (stream_id st) true (Some (fn f)) (obj f),
   (if has_cancel_handler st then each Release (function_name st) ++ each Release (object st) else [])
   ++ AddRef (fn f) :: each AddRef (obj f)).

Inductive on_cancel_error := InvalidSession | UnknownStream.

Definition quicpro_server_on_cancel (streams : option (gmap Z stream)) (id : Z) (f : callable)
  : outcome on_cancel_error (gmap Z stream * list act) :=
  match streams with
  | None => Failed InvalidSession
  | Some m =>
      match m !! u64 id with
      | None => Failed UnknownStream
      | Some st => let '(st', acts) := set_handler f st in Done (<[u64 id := st']> m, acts)
      end
  end.

(** [quicpro_internal_invoke_cancel_handler]; [again] is what the handler registers. *)
Definition invoke_cancel_handler (again : option callable) (st : stream) : stream * list act :=
  if negb (has_cancel_handler st) then (st, [])
  else
    let called := match function_name st with Some f => [Invoke f (stream_id st)] | None => [] end in
    let '(st1, acts) := match again with Some f => set_handler f st | None => (st, []) end in
    (mkStream (stream_id st1) false None None,
     called ++ acts ++ each Release (function_name st1) ++ each Release (object st1)).

(* ------------------------------------------------------------------------ *)
(** ** Histories *)

Inductive cancel_op := Register (f : callable) | Cancelled (again : option callable).

Definition step (o : cancel_op) (st : stream) : stream * list act :=
  match o with Register f => set_handler f st | Cancelled again => invoke_cancel_handler again st end.

Fixpoint history (os : list cancel_op) (st : stream) : stream * list act :=
  match os with
  | [] => (st, [])
  | o :: os' => let '(st1, a1) := step o st in let '(st2, a2) := history os' st1 in (st2, a1 ++ a2)
  end.

Definition fresh_stream (id : Z) : stream := mkStream id false None None.

(** References taken minus references given back, of one value. *)
Definition weight (v : Z) (a : act) : Z :=
  match a with
  | AddRef w => if v =? w then 1 else 0
  | Release w => if v =? w then -1 else 0
  | Invoke _ _ => 0
  end.
Definition balance (v : Z) (l : list act) : Z := foldr (fun a n => weight v a + n) 0 l.

(** The references a stream holds. *)
Definition holds (v : Z) (st : stream) : Z :=
  (match function_name st with Some w => if v =? w then 1 else 0 | None => 0 end) +
  (match object st with Some w => if v =? w then 1 else 0 | None => 0 end).

(** A stream without a handler holds nothing. *)
Definition wf (st : stream) : Prop :=
  (has_cancel_handler st = false -> function_name st = None /\ object st = None) /\
  (has_cancel_handler st = true -> is_Some (function_name st)).

Lemma balance_app v l1 l2 : balance v (l1 ++ l2) = balance v l1 + balance v l2.
Proof. unfold balance. induction l1 as [|a l1 IH]; simpl; [done|]. rewrite IH. lia. Qed.

Lemma balance_each_add v o : balance v (each AddRef o) = match o with Some w => if v =? w then 1 else 0 | None => 0 end.
Proof. destruct o; unfold balance; simpl; lia. Qed.
Lemma balance_each_release v o : balance v (each Release o) = - match o with Some w => if v =? w then 1 else 0 | None => 0 end.
Proof. destruct o as [w|]; unfold balance; simpl; [destruct (v =? w)|]; lia. Qed.

Lemma set_handler_spec f st v : wf st ->
  wf (set_handler f st).1 /\ holds v (set_handler f st).1 = holds v st + balance v (set_handler f st).2.
Proof.
  intros [Hn Hs]. unfold set_handler, wf, holds. cbn [fst snd has_cancel_handler function_name object].
  split; [split; [done|eauto]|]. rewrite balance_app. change (AddRef (fn f) :: ?l) with ([AddRef (fn f)] ++ l).
  rewrite balance_app, balance_each_add. destruct (has_cancel_handler st).
  - rewrite balance_app, !balance_each_release. unfold balance. simpl. lia.
  - destruct (Hn eq_refl) as [-> ->]. unfold balance. simpl. lia.
Qed.

Lemma invoke_spec again st v : wf st ->
  wf (invoke_cancel_handler again st).1 /\
  holds v (invoke_cancel_handler again st).1 = holds v st + balance v (invoke_cancel_handler again st).2.
Proof.
  intros Hw. unfold invoke_cancel_handler. destruct (has_cancel_handler st) eqn:Eh; cbn [negb].
  2:{ unfold balance. simpl. split; [done|lia]. }
  assert (Hset : exists st1 acts, match again with Some f => set_handler f st | None => (st, []) end = (st1, acts) /\
    holds v st1 = holds v st + balance v acts).
  { destruct again as [f|]; [|exists st, []; split; [done|unfold balance; simpl; lia]].
    destruct (set_handler_spec f st v Hw) as [_ H]. destruct (set_handler f st) as [st1 acts]. eauto. }
  destruct Hset as (st1 & acts & -> & Hh). cbn [fst snd]. split; [by split|].
  rewrite !balance_app, !balance_each_release. unfold holds in *. cbn [function_name object].
  assert (Hc : balance v (match function_name st with Some f => [Invoke f (stream_id st)] | None => [] end) = 0)
    by (by destruct (function_name st)).
  rewrite Hc. lia.
Qed.

Lemma history_spec os v : forall st, wf st ->
  wf (history os st).1 /\ holds v (history os st).1 = holds v st + balance v (history os st).2.
Proof.
  induction os as [|o os IH]; intros st Hw; cbn [history]; [split; [done|unfold balance; simpl; lia]|].
  assert (Ho : wf (step o st).1 /\ holds v (step o st).1 = holds v st + balance v (step o st).2)
    by (destruct o; [by apply set_handler_spec|by apply invoke_spec]).
  destruct (step o st) as [st1 a1]. destruct Ho as [Hw1 H1]. cbn [fst snd] in *.
  destruct (IH st1 Hw1) as [Hw2 H2]. destruct (history os st1) as [st2 a2]. cbn [fst snd] in *.
  rewrite balance_app. split; [done|lia].
Qed.

(** C40: Over any history of registrations and cancellations of a stream, also when handlers
    register handlers, the references taken and given back balance: the extension holds
    exactly the callable registered last, and its object, as long as it has not been used,
    and a cancellation without a handler does nothing. *)
Theorem cancel_references_balance id os v :
  let r := history os (fresh_stream id) in
  balance v r.2 = holds v r.1 /\ wf r.1 /\
  (has_cancel_handler r.1 = false -> forall again, invoke_cancel_handler again r.1 = (r.1, [])).
Proof.
  intros r. destruct (history_spec os v (fresh_stream id)) as [Hw Hh]; [by split|]. fold r in Hw, Hh.
  split_and!; [unfold holds at 2 in Hh; simpl in Hh; lia|done|].
  intros Hf again. unfold invoke_cancel_handler. by rewrite Hf.
Qed.

(** A handler is called at most once, and one that registers another handler while it
    runs loses it: after every cancellation the stream has no handler. *)
Theorem cancel_handler_once again st :
  has_cancel_handler (invoke_cancel_handler again st).1 = false /\
  (forall again', (invoke_cancel_handler again' (invoke_cancel_handler again st).1).2 = []) /\
  (length (List.filter (fun a => match a with Invoke _ _ => true | _ => false end) (invoke_cancel_handler again st).2) <= 1)%nat.
Proof.
  assert (Hoff : has_cancel_handler (invoke_cancel_handler again st).1 = false).
  { unfold invoke_cancel_handler. destruct (has_cancel_handler st) eqn:E; simpl; [by case_match|done]. }
  split_and!; [done|intros again'; unfold invoke_cancel_handler at 1; by rewrite Hoff|].
  assert (Hno : forall mk o, (forall w, match mk w with Invoke _ _ => false | _ => true end = true) ->
    List.filter (fun a => match a with Invoke _ _ => true | _ => false end) (each mk o) = []).
  { intros mk [w|] Hmk; [|done]. specialize (Hmk w). simpl. by destruct (mk w). }
  unfold invoke_cancel_handler. destruct (has_cancel_handler st) eqn:E; simpl; [|lia].
  destruct again as [f|]; unfold set_handler; rewrite ?E; cbn [fst snd];
    rewrite ?List.filter_app, ?Hno by done; destruct (function_name st); simpl; rewrite ?Hno by done; simpl; lia.
Qed.
