(* ===== verification/ConfigBuild.v ===== *)
(** * Building a configuration

    [extension/src/config/config.c]: the dispatcher that builds a [quicpro_cfg_t] from its
    twenty modules.  The modules' functions ([quicpro_config_*_init], [..._apply_defaults],
    [..._apply_ini], [..._parse_options], [..._dtor], [..._finalize]) are declared under
    [include/] and defined nowhere: they are the class [Modules]. *)

From Stdlib Require Import ZArith Lia String.
From stdpp Require Import base tactics sets list strings.
From S2P Require Import Prelude Zend.
Set Warnings "-clear-no-such-hyp".

(** The parts of the struct that the phases visit; [include/config/config.h] declares one
    more, [orchestrator], which none of them does. *)
Inductive modname :=
| app_protocols | bare_metal | autoscale | cluster | admin_api | compute_ai | serialization | mcp | cdn | storage
| observability | quic | router | security | smart_contract | dns | ssh | state | tcp | tls.
#[export] Instance modname_eq_dec : EqDecision modname.
Proof. solve_decision. Defined.

(** The order in which every phase visits the modules; the options of the security module
    are not parsed with the others. *)
Definition all_modules : list modname :=
  [app_protocols; bare_metal; autoscale; cluster; admin_api; compute_ai; serialization; mcp; cdn; storage;
   observability; quic; router; security; smart_contract; dns; ssh; state; tcp; tls].
Definition option_modules : list modname :=
  [app_protocols; bare_metal; autoscale; cluster; admin_api; compute_ai; serialization; mcp; cdn; storage;
   observability; quic; router; smart_contract; dns; ssh; state; tcp; tls].

(** What the modules do with their parts of the configuration, on zeroed memory at first. *)
Class Modules (M Q : Type) := {
  zeroed : M;
  init : modname -> M -> M;
  apply_defaults : modname -> M -> M;
  apply_ini : modname -> M -> M;
  parse_options : modname -> hashtable -> M -> M;
  allow_config_override : M -> bool;
  quiche_config_new : Q;
  finalize : modname -> M -> Q -> Q;
}.

Section Build.
Context {M Q : Type} `{Modules M Q}.

(** The struct, its parts by name; the handle is [quiche_cfg] in the header and [q_cfg] in
    the code of this file. *)
Record quicpro_cfg_t := mkCfg { parts : modname -> M; q_cfg : Q; frozen : bool }.

Definition update (m : modname) (f : M -> M) (c : quicpro_cfg_t) : quicpro_cfg_t :=
  mkCfg (fun m' => if decide (m' = m) then f (parts c m') else parts c m') (q_cfg c) (frozen c).

Definition each (ms : list modname) (f : modname -> M -> M) (c : quicpro_cfg_t) : quicpro_cfg_t :=
  foldl (fun c m => update m (f m) c) c ms.

Definition quicpro_config_init_all_modules := each all_modules init.
Definition quicpro_config_apply_defaults := each all_modules apply_defaults.
Definition quicpro_config_apply_ini_settings := each all_modules apply_ini.
Definition quicpro_config_apply_php_options (opts : hashtable) :=
  each option_modules (fun m => parse_options m opts).

Definition quicpro_config_finalize_and_build (c : quicpro_cfg_t) : quicpro_cfg_t :=
  let fin m q := finalize m (parts c m) q in
  mkCfg (parts c) (fin app_protocols (fin quic (fin tls (q_cfg c)))) (frozen c).

Definition with_security (opts : hashtable) (c : quicpro_cfg_t) : quicpro_cfg_t :=
  update security (parse_options security opts) (update security (apply_ini security) c).

(** The configuration after the three phases that do not look at the options. *)
Definition base_config : quicpro_cfg_t :=
  quicpro_config_apply_ini_settings (quicpro_config_apply_defaults (quicpro_config_init_all_modules
    (mkCfg (fun _ => zeroed) quiche_config_new false))).

(** [None]: the policy exception, after the configuration has been freed. *)
Definition quicpro_config_new_from_options (zopts : zval) : option quicpro_cfg_t :=
  let cfg := base_config in
  match zopts with
  | ZArray opts =>
      let cfg := with_security opts cfg in
      if negb (allow_config_override (parts cfg security)) && negb (bool_decide (opts = [])) then None
      else Some (quicpro_config_finalize_and_build (quicpro_config_apply_php_options opts cfg))
  | _ => Some (quicpro_config_finalize_and_build cfg)
  end.

Definition quicpro_config_mark_frozen (c : option quicpro_cfg_t) : option quicpro_cfg_t :=
  match c with Some c => Some (mkCfg (parts c) (q_cfg c) true) | None => None end.

(* ------------------------------------------------------------------------ *)
(** ** Phases *)

Lemma each_parts ms f : NoDup ms -> forall c m,
  parts (each ms f c) m = if decide (m ∈ ms) then f m (parts c m) else parts c m.
Proof.
  induction 1 as [|m0 ms Hn Hnd IH]; intros c m; [by rewrite decide_False by set_solver|].
  change (each (m0 :: ms) f c) with (each ms f (update m0 (f m0) c)). rewrite IH. cbn [update parts].
  destruct (decide (m = m0)) as [->|Hne].
  - rewrite decide_False, (decide_True (P := m0 ∈ m0 :: ms)) by set_solver. done.
  - destruct (decide (m ∈ ms)); [rewrite decide_True by set_solver|rewrite decide_False by set_solver]; done.
Qed.

Lemma each_rest ms f : forall c, q_cfg (each ms f c) = q_cfg c /\ frozen (each ms f c) = frozen c.
Proof.
  induction ms as [|m ms IH]; intros c; [done|]. change (each (m :: ms) f c) with (each ms f (update m (f m) c)).
  destruct (IH (update m (f m) c)) as [-> ->]. done.
Qed.

Lemma all_modules_all m : m ∈ all_modules.
Proof. destruct m; unfold all_modules; set_solver. Qed.
Lemma all_modules_nodup : NoDup all_modules.
Proof. apply (bool_decide_eq_true_1 _). vm_compute. reflexivity. Qed.
Lemma option_modules_nodup : NoDup option_modules.
Proof. apply (bool_decide_eq_true_1 _). vm_compute. reflexivity. Qed.
Lemma option_modules_not_security m : m ∈ option_modules <-> m <> security.
Proof.
  split; [intros Hm ->; unfold option_modules in Hm; set_solver|]. destruct m; try done; intros _; unfold option_modules; set_solver.
Qed.

(** The baseline of a module: its defaults, then the ini settings. *)
Definition baseline (m : modname) : M := apply_ini m (apply_defaults m (init m zeroed)).

(** The QUIC configuration the final parts give. *)
Definition built (p : modname -> M) : Q :=
  finalize app_protocols (p app_protocols) (finalize quic (p quic) (finalize tls (p tls) quiche_config_new)).

Lemma baseline_parts m : parts base_config m = baseline m.
Proof.
  unfold base_config, quicpro_config_apply_ini_settings, quicpro_config_apply_defaults, quicpro_config_init_all_modules.
  pose proof (all_modules_all m). rewrite !each_parts, !decide_True by (apply all_modules_nodup || done). done.
Qed.

Lemma base_rest : q_cfg base_config = quiche_config_new /\ frozen base_config = false.
Proof.
  unfold base_config, quicpro_config_apply_ini_settings, quicpro_config_apply_defaults, quicpro_config_init_all_modules.
  split; [rewrite !(fun ms f c => proj1 (each_rest ms f c))|rewrite !(fun ms f c => proj2 (each_rest ms f c))]; done.
Qed.

Lemma finalize_built c : q_cfg c = quiche_config_new ->
  q_cfg (quicpro_config_finalize_and_build c) = built (parts (quicpro_config_finalize_and_build c)).
Proof. intros Hq. unfold quicpro_config_finalize_and_build, built. cbn. by rewrite Hq. Qed.

Lemma finalize_frozen c : frozen (quicpro_config_finalize_and_build c) = frozen c.
Proof. reflexivity. Qed.

Lemma finalize_parts c : parts (quicpro_config_finalize_and_build c) = parts c.
Proof. reflexivity. Qed.

Lemma with_security_rest opts c :
  q_cfg (with_security opts c) = q_cfg c /\ frozen (with_security opts c) = frozen c.
Proof. split; reflexivity. Qed.

Lemma options_rest opts :
  let c := quicpro_config_apply_php_options opts (with_security opts base_config) in
  q_cfg c = quiche_config_new /\ frozen c = false.
Proof.
  cbv zeta. unfold quicpro_config_apply_php_options.
  destruct (each_rest option_modules (fun m => parse_options m opts) (with_security opts base_config)) as [-> ->].
  destruct (with_security_rest opts base_config) as [-> ->]. apply base_rest.
Qed.

Lemma with_security_security opts :
  parts (with_security opts base_config) security = parse_options security opts (apply_ini security (baseline security)).
Proof. unfold with_security. cbn [update parts]. by rewrite !decide_True, baseline_parts by done. Qed.

Lemma with_security_other opts m : m <> security -> parts (with_security opts base_config) m = baseline m.
Proof. intros Hm. unfold with_security. cbn [update parts]. by rewrite !decide_False, baseline_parts by done. Qed.

Lemma options_parts opts :
  let c := quicpro_config_apply_php_options opts (with_security opts base_config) in
  parts c security = parse_options security opts (apply_ini security (baseline security)) /\
  forall m, m <> security -> parts c m = parse_options m opts (baseline m).
Proof.
  cbv zeta. unfold quicpro_config_apply_php_options. split; [|intros m Hm]; rewrite each_parts by apply option_modules_nodup.
  - rewrite decide_False, with_security_security; [done|]. by intros Hm%option_modules_not_security.
  - rewrite decide_True, with_security_other by (done || by apply option_modules_not_security). done.
Qed.
End Build.

(** A configuration is built in layers: every module has its defaults, over them the
    ini settings, over those the options, in that order and each once (the ini settings of
    the security module twice); the QUIC configuration is made from the final parts of the
    TLS, QUIC and application protocol modules, in that order; with options and without the
    permission to override, which is looked up after the options themselves have been given
    to the security module, there is no configuration at all. *)
Theorem config_layers {M Q} `{Modules M Q} zopts :
  let sec opts := parse_options security opts (apply_ini security (baseline security)) in
  match quicpro_config_new_from_options zopts with
  | None => exists opts, zopts = ZArray opts /\ opts <> [] /\ allow_config_override (sec opts) = false
  | Some c =>
      frozen c = false /\ q_cfg c = built (parts c) /\
      match zopts with
      | ZArray opts =>
          (opts = [] \/ allow_config_override (sec opts) = true) /\ parts c security = sec opts /\
          forall m, m <> security -> parts c m = parse_options m opts (baseline m)
      | _ => forall m, parts c m = baseline m
      end
  end.
Proof.
  intros sec. unfold quicpro_config_new_from_options. cbv zeta. destruct base_rest as [Hbq Hbf].
  destruct zopts as [| | | | | | |opts| | |];
    try by (rewrite finalize_frozen, finalize_built, finalize_parts by done; split; [|split]; [..|apply baseline_parts]).
  rewrite with_security_security. fold (sec opts).
  destruct (negb (allow_config_override (sec opts)) && negb (bool_decide (opts = []))) eqn:Ep.
  - apply andb_prop in Ep as [Ha Ho]. exists opts. repeat split; [|by destruct (allow_config_override _)].
    intros ->. by rewrite bool_decide_true in Ho.
  - destruct (options_rest opts) as [Hq Hf].
    rewrite finalize_frozen, finalize_built, finalize_parts by exact Hq. split; [exact Hf|]. split; [reflexivity|].
    split; [|apply options_parts]. apply andb_false_iff in Ep as [Ha|Ho]; [right; by destruct (allow_config_override _)|].
    left. apply negb_false_iff in Ho. by apply bool_decide_eq_true in Ho.
Qed.
