(* ===== verification/ConfigMemory.v ===== *)
(** * The life of a configuration object

    [extension/src/config/config.c]: [quicpro_config_new_from_options] with what it takes,
    [quicpro_config_free], the destructor of the resource, and [quicpro_new_config].  What a
    module's [..._init] takes, its [..._dtor] gives back: one block per module. *)

From Stdlib Require Import ZArith Lia String.
From stdpp Require Import base tactics list gmap strings.
From S2P Require Import Prelude Zend Heap ConfigBuild.

Local Open Scope Z_scope.
Set Warnings "-clear-no-such-hyp,-missing-scheme".

(** The struct, the QUIC configuration if quiche made one, and the parts, by module. *)
Record cfg_mem := mkCM { cm_self : Z; cm_q_cfg : option Z; cm_parts : modname -> Z }.

(** The order in which [quicpro_config_free] destroys the parts. *)
Definition dtor_modules : list modname :=
  [app_protocols; bare_metal; autoscale; cluster; admin_api; compute_ai; serialization; mcp; cdn; storage;
   observability; quic; router; security; smart_contract; dns; ssh; state; tcp; tls].

Definition cfg_ptrs (c : cfg_mem) : list Z := ptr (cm_q_cfg c) ++ map (cm_parts c) dtor_modules ++ [cm_self c].

Definition quicpro_config_free (c : option cfg_mem) : mem unit :=
  match c with
  | None => mret tt
  | Some c =>
      let$ _ := efree_if (cm_q_cfg c) in
      let$ _ := Heap.each (fun m => efree (cm_parts c m)) dtor_modules in
      efree (cm_self c)
  end.

Definition quicpro_config_resource_dtor (c : option cfg_mem) : mem unit :=
  match c with Some c => quicpro_config_free (Some c) | None => mret tt end.

(** [quicpro_config_init_all_modules] *)
Fixpoint init_parts (ms : list modname) (parts : modname -> Z) : mem (modname -> Z) :=
  match ms with
  | [] => mret parts
  | m :: ms' => let$ p := emalloc in init_parts ms' (fun m' => if decide (m' = m) then p else parts m')
  end.

Section Life.
Context {M Q : Type} `{Modules M Q}.
(** Whether [quiche_config_new] succeeds. *)
Variable quiche_ok : bool.

(** The value is that of [ConfigBuild]; when there is none, the configuration is freed
    before the exception. *)
Definition new_from_options (zopts : zval) : mem (option quicpro_cfg_t * option cfg_mem) :=
  let$ self := emalloc in
  let$ q := emalloc_if quiche_ok in
  let$ parts := init_parts ConfigBuild.all_modules (fun _ => 0) in
  let cm := mkCM self q parts in
  match quicpro_config_new_from_options zopts with
  | None => let$ _ := quicpro_config_free (Some cm) in mret (None, None)
  | Some c => mret (Some c, Some cm)
  end.

(** [quicpro_new_config]: a resource, or an exception ([None]). *)
Definition quicpro_new_config (zopts : zval) : mem (option (quicpro_cfg_t * cfg_mem)) :=
  let$ '(c, cm) := new_from_options zopts in
  mret (match c, cm with Some c, Some cm => Some (c, cm) | _, _ => None end).
End Life.

(* ------------------------------------------------------------------------ *)

Lemma destroys_config c : destroys (quicpro_config_free (Some c)) (cfg_ptrs c).
Proof.
  unfold quicpro_config_free, cfg_ptrs. apply destroys_bind; [auto with mem|]. apply destroys_bind; [|auto with mem].
  generalize dtor_modules. induction l as [|m l IH]; [apply destroys_ret|].
  cbn [Heap.each map]. apply (destroys_bind _ _ [cm_parts c m]); auto with mem.
Qed.

(** Every part that is destroyed has been made, once. *)
Lemma init_parts_spec ms : NoDup ms -> forall parts P,
  triple P (init_parts ms parts) (fun parts' S => S ≡ₚ map parts' ms ++ P /\ forall m, m ∉ ms -> parts' m = parts m).
Proof.
  induction 1 as [|m ms Hm Hnd IH]; intros parts P; cbn [init_parts]; [by apply triple_ret|].
  apply triple_alloc. intros p. eapply triple_mono; [apply IH|].
  intros parts' S [HS Ho]. split.
  - rewrite HS. cbn [map]. rewrite (Ho m Hm), decide_True by done. solve_Permutation.
  - intros m' [Hne Hn]%not_elem_of_cons. rewrite (Ho m' Hn). by rewrite decide_False.
Qed.

Lemma dtor_modules_all : dtor_modules = ConfigBuild.all_modules.
Proof. reflexivity. Qed.

Lemma new_from_options_spec {M Q} `{Modules M Q} ok zopts : triple [] (new_from_options ok zopts) (fun x S =>
  x.1 = quicpro_config_new_from_options zopts /\
  match x.1, x.2 with Some _, Some cm => S ≡ₚ cfg_ptrs cm | None, None => S ≡ₚ [] | _, _ => False end).
Proof.
  unfold new_from_options. apply triple_alloc. intros self. apply triple_alloc_if. intros q.
  eapply triple_bind; [apply init_parts_spec, all_modules_nodup|]. intros parts S [HS _].
  assert (HS' : S ≡ₚ cfg_ptrs (mkCM self q parts)).
  { rewrite HS. unfold cfg_ptrs. cbn [cm_self cm_q_cfg cm_parts]. rewrite dtor_modules_all. solve_Permutation. }
  rewrite HS'. destruct (quicpro_config_new_from_options zopts) as [c|]; [apply triple_ret; cbn [fst snd]; done|].
  apply (triple_release _ (cfg_ptrs (mkCM self q parts)) []); [apply destroys_config|by rewrite app_nil_r|].
  apply triple_ret. cbn [fst snd]. done.
Qed.

(** The life of a configuration object: whether the options are accepted is decided as
    in the abstract construction; a refused configuration has given back everything before
    the exception is thrown; an accepted one owns its struct, the QUIC configuration and the
    twenty parts, and the destructor of its resource releases each of them once; a second
    destruction, or one after another owner has released the QUIC configuration, is
    undefined. *)
Theorem config_life {M Q} `{Modules M Q} ok zopts n : exists r n' L,
  quicpro_new_config ok zopts (n, []) = Done (r, (n', L)) /\
  match r with
  | None => quicpro_config_new_from_options zopts = None /\ L = []
  | Some (c, cm) =>
      quicpro_config_new_from_options zopts = Some c /\ length L = (length dtor_modules + if is_some (cm_q_cfg cm) then 2 else 1)%nat /\
      (exists n2, quicpro_config_resource_dtor (Some cm) (n', L) = Done (tt, (n2, []))) /\
      quicpro_config_resource_dtor (Some cm) (n', []) = Undefined /\
      forall q L', cm_q_cfg cm = Some q -> q ∉ L' -> quicpro_config_resource_dtor (Some cm) (n', L') = Undefined
  end.
Proof.
  destruct (triple_run _ _ n (new_from_options_spec ok zopts)) as ([c cm] & n' & L & E & S & HL & Hc & HS).
  exists (match c, cm with Some c, Some cm => Some (c, cm) | _, _ => None end), n', L.
  unfold quicpro_new_config, mbind. rewrite E. cbn [obind fst snd] in *. split; [done|].
  destruct c as [c|], cm as [cm|]; try done.
  - split; [done|]. split; [rewrite HL, HS; unfold cfg_ptrs; rewrite !length_app, length_map; destruct (cm_q_cfg cm); done|].
    cbn [quicpro_config_resource_dtor]. split; [|split].
    + destruct (destroys_config cm n' L []) as ([] & n2 & L' & S' & E' & HL' & HS'); [by rewrite HL, HS, app_nil_r|].
      exists n2. rewrite E'. do 3 f_equal. apply Permutation_nil. by rewrite HL', HS'.
    + unfold quicpro_config_free, mbind. destruct (cm_q_cfg cm); reflexivity.
    + intros q L' Hq Hn. unfold quicpro_config_free, mbind. rewrite Hq. cbn [efree_if]. unfold efree. cbn [fst snd].
      by rewrite list_remove_notin.
  - split; [done|]. apply Permutation_nil. by rewrite HL, HS.
Qed.
