(* ===== verification/AdminApi.v ===== *)
(** * The admin API

    [extension/src/server/admin_api.c]: a listener in a thread of its own, which talks to
    clients with a certificate only.  [quicpro_admin_api_listen] prepares the TLS context
    and starts the thread; [admin_api_thread_func] is the thread.

    OpenSSL, the sockets and the threads are the environment.  The abstract side is the
    protocol [mutual_tls]: what is live, who owns it, and that nothing is read from or
    written to a connection before its handshake, which a context that demands and checks a
    client certificate has made.  The messages for [stderr] are left out. *)

From Stdlib Require Import ZArith Lia String Strings.Byte Ascii.
From stdpp Require Import base tactics sets list gmap strings.
From S2P Require Import Prelude Zend Io.

Local Open Scope Z_scope.
Set Warnings "-clear-no-such-hyp".

(** [admin_thread_args_t]: its own address, the server, the copy of the host, the rest. *)
Record admin_thread_args_t := mkArgs {
  args_ptr : Z;
  target_server : option Z;
  host : option (Z * string);
  port : Z;
  admin_ssl_ctx : Z;
}.

Definition SSL_VERIFY_PEER : Z := 1.
Definition SSL_VERIFY_FAIL_IF_NO_PEER_CERT : Z := 2.

Inductive top :=
| Throw (message : string)
| CtxNew
| CtxUseCertificate (ctx : Z) (file : string)
| CtxUsePrivateKey (ctx : Z) (file : string)
| CtxSetVerify (ctx mode : Z)
| CtxLoadVerify (ctx : Z) (file : string)
| CtxFree (ctx : Z)
| Malloc
| Strdup (s : string)
| Free (p : Z)
| PthreadCreate (args : admin_thread_args_t)
| PthreadDetach
| Socket
| SetReuse (fd : Z)
| InetPton (addr : string)
| Bind (fd : Z) (addr : string) (port : Z)
| Listen (fd : Z)
| Accept (fd : Z)
| Close (fd : Z)
| IsListening (server : Z)
| SslNew (ctx : Z)
| SslSetFd (ssl fd : Z)
| SslAccept (ssl : Z)
| SslRead (ssl : Z) (size : nat)
| SslWrite (ssl : Z) (data : string)
| SslShutdown (ssl : Z)
| SslFree (ssl : Z)
| LogUpdate (payload : string).

(** Null pointers are [None]; [SslRead]: what was read, or zero or less. *)
Definition tans (o : top) : Type :=
  match o with
  | CtxNew | Malloc | Strdup _ | SslNew _ => option Z
  | CtxUseCertificate _ _ | CtxUsePrivateKey _ _ | CtxLoadVerify _ _ | PthreadCreate _
  | Socket | Bind _ _ _ | Listen _ | Accept _ | SslAccept _ => Z
  | InetPton _ => option string
  | IsListening _ => bool
  | SslRead _ _ => option string
  | _ => unit
  end.

Abbreviation tls := (io tans).
Abbreviation tevent := (event tans).
Abbreviation tcall := (@call top tans).

(* ------------------------------------------------------------------------ *)
(** ** The thread *)

Definition lf : string := String (ascii_of_nat 10) EmptyString.
Definition crlf : string := String (ascii_of_nat 13) lf.
Definition response : string :=
  ("HTTP/1.1 202 Accepted" +:+ crlf +:+ "Content-Length: 9" +:+ crlf +:+ crlf +:+ "Accepted" +:+ lf)%string.

(** One connection: the handshake, one read of up to 4095 bytes, the answer. *)
Definition serve_client (ssl : Z) : tls unit :=
  let* r := tcall (SslAccept ssl) in
  if r <=? 0 then Ret tt
  else
    let* bytes := tcall (SslRead ssl (4096 - 1)) in
    match bytes with
    | Some buffer =>
        let* _ := tcall (LogUpdate (cstr buffer)) in
        tcall (SslWrite ssl response)
    | None => Ret tt
    end.

Fixpoint accept_loop (fuel : nat) (listen_fd : Z) (args : admin_thread_args_t) : tls (outcome unit unit) :=
  match fuel with
  | O => Ret NoFuel
  | S fuel' =>
      match target_server args with
      | None => Ret Undefined
      | Some server =>
          let* listening := tcall (IsListening server) in
          if listening then
            let* client_fd := tcall (Accept listen_fd) in
            if client_fd <? 0 then accept_loop fuel' listen_fd args
            else
              let* ssl := tcall (SslNew (admin_ssl_ctx args)) in
              match ssl with
              | None => Ret Undefined
              | Some ssl =>
                  let* _ := tcall (SslSetFd ssl client_fd) in
                  let* _ := serve_client ssl in
                  let* _ := tcall (SslShutdown ssl) in
                  let* _ := tcall (SslFree ssl) in
                  let* _ := tcall (Close client_fd) in
                  accept_loop fuel' listen_fd args
              end
          else Ret (Done tt)
      end
  end.

Definition thread_cleanup (listen_fd : option Z) (args : admin_thread_args_t) : tls (outcome unit unit) :=
  let* _ := match listen_fd with Some fd => tcall (Close fd) | None => Ret tt end in
  let* _ := tcall (CtxFree (admin_ssl_ctx args)) in
  let* _ := match host args with Some (p, _) => tcall (Free p) | None => Ret tt end in
  let* _ := tcall (Free (args_ptr args)) in
  Ret (Done tt).

(** [addr] starts as zeros, which is the address [::], and stays so when [inet_pton] does
    not understand the host. *)
Definition bind_address (h : string) : tls string :=
  let* a := tcall (InetPton (cstr h)) in
  Ret (match a with Some a => a | None => string_of_list_ascii (replicate 16 (ascii_of_nat 0)) end).

Definition admin_api_thread_func (fuel : nat) (args : admin_thread_args_t) : tls (outcome unit unit) :=
  let* listen_fd := tcall Socket in
  if listen_fd <? 0 then thread_cleanup None args
  else
    let* _ := tcall (SetReuse listen_fd) in
    match host args with
    | None => Ret Undefined
    | Some (_, h) =>
        let* a := bind_address h in
        let* r := tcall (Bind listen_fd a (port args mod 2 ^ 16)) in
        if r <? 0 then thread_cleanup (Some listen_fd) args
        else
          let* r := tcall (Listen listen_fd) in
          if r <? 0 then thread_cleanup (Some listen_fd) args
          else
            let* r := accept_loop fuel listen_fd args in
            match r with Done _ => thread_cleanup (Some listen_fd) args | _ => Ret r end
    end.

(* ------------------------------------------------------------------------ *)
(** ** Starting it *)

Record admin_options := mkOptions {
  cert_file : option string;
  key_file : option string;
  ca_file : option string;
  opt_host : string;
  opt_port : Z;
}.

Definition admin_options_of (options : zval) : admin_options :=
  match options with
  | ZArray opts =>
      let str (key : string) : option string :=
        match ht_find (KStr key) opts with Some (ZString s) => Some (cstr s) | _ => None end in
      mkOptions (str "cert_file") (str "key_file") (str "ca_file")
        (match str "host" with Some h => h | None => "127.0.0.1" end)
        (match ht_find (KStr "port") opts with Some (ZLong n) => n | _ => 2019 end)
  | _ => mkOptions None None None "127.0.0.1" 2019
  end.

Definition fail (message : string) : tls bool :=
  let* _ := tcall (Throw message) in Ret false.
Definition fail_ctx (ctx : Z) (message : string) : tls bool :=
  let* _ := tcall (CtxFree ctx) in fail message.

Definition start_thread (server : option Z) (o : admin_options) (ctx : Z) : tls bool :=
  let* p := tcall Malloc in
  match p with
  | None => fail_ctx ctx "Failed to allocate memory for admin thread arguments"
  | Some p =>
      let* h := tcall (Strdup (opt_host o)) in
      let args := mkArgs p server (match h with Some h => Some (h, opt_host o) | None => None end) (opt_port o) ctx in
      let* r := tcall (PthreadCreate args) in
      if negb (r =? 0) then
        let* _ := tcall (Throw "Failed to create Admin API listener thread") in
        let* _ := tcall (CtxFree ctx) in
        let* _ := match h with Some h => tcall (Free h) | None => Ret tt end in
        let* _ := tcall (Free p) in
        Ret false
      else
        let* _ := tcall PthreadDetach in
        Ret true
  end.

(** [server]: what the resource is fetched as; a resource of another kind gives null, and
    an error that does not stop the function. *)
Definition quicpro_admin_api_listen (server : option Z) (options : zval) : tls bool :=
  let o := admin_options_of options in
  match cert_file o, key_file o, ca_file o with
  | Some cert, Some key, Some ca =>
      let* ssl_ctx := tcall CtxNew in
      match ssl_ctx with
      | None => fail "Failed to create SSL context for Admin API."
      | Some ctx =>
          let* r := tcall (CtxUseCertificate ctx cert) in
          if r <=? 0 then fail_ctx ctx "Failed to load server certificate/key for Admin API."
          else
            let* r := tcall (CtxUsePrivateKey ctx key) in
            if r <=? 0 then fail_ctx ctx "Failed to load server certificate/key for Admin API."
            else
              let* _ := tcall (CtxSetVerify ctx (Z.lor SSL_VERIFY_PEER SSL_VERIFY_FAIL_IF_NO_PEER_CERT)) in
              let* r := tcall (CtxLoadVerify ctx ca) in
              if r <=? 0 then fail_ctx ctx "Failed to load CA file for Admin API client verification."
              else start_thread server o ctx
      end
  | _, _, _ => fail "Admin API config requires 'cert_file', 'key_file', and 'ca_file' for mTLS."
  end.

(* ------------------------------------------------------------------------ *)
(** ** The protocol *)

Inductive tres := RCtx (h : Z) | RMem (p : Z) | RSock (fd : Z) | RSsl (h : Z).
#[export] Instance tres_eq_dec : EqDecision tres.
Proof. solve_decision. Defined.
Definition tres_code (r : tres) : nat * Z :=
  match r with RCtx h => (0, h) | RMem h => (1, h) | RSock h => (2, h) | RSsl h => (3, h) end%nat.
Definition tres_decode (c : nat * Z) : option tres :=
  match c with
  | (0, h) => Some (RCtx h) | (1, h) => Some (RMem h) | (2, h) => Some (RSock h) | (3, h) => Some (RSsl h) | _ => None
  end%nat.
#[export] Instance tres_countable : Countable tres.
Proof. apply (inj_countable tres_code tres_decode). by intros []. Defined.

(** What is live, and what is known of contexts and connections. *)
Record tstate := mkT { live : gset tres; facts : gset (Z * string) }.

(** A context that demands a client certificate and has an authority to check it with. *)
Definition mutual_facts (ctx : Z) : gset (Z * string) :=
  {[(ctx, "certificate"); (ctx, "key"); (ctx, "verify"); (ctx, "ca")]}.
Definition peer_verified (ssl : Z) : Z * string := (ssl, "peer verified").

Definition acquired (e : tevent) : option tres :=
  match e with
  | Ev CtxNew (Some h) => Some (RCtx h)
  | Ev Malloc (Some p) | Ev (Strdup _) (Some p) => Some (RMem p)
  | Ev Socket fd | Ev (Accept _) fd => if fd <? 0 then None else Some (RSock fd)
  | Ev (SslNew _) (Some h) => Some (RSsl h)
  | _ => None
  end.

(** What a thread that is started takes with it. *)
Definition thread_owns (a : admin_thread_args_t) : gset tres :=
  {[RCtx (admin_ssl_ctx a); RMem (args_ptr a)]} ∪ match host a with Some (p, _) => {[RMem p]} | None => ∅ end.

Definition released (e : tevent) : gset tres :=
  match e with
  | Ev (CtxFree h) _ => {[RCtx h]}
  | Ev (Free p) _ => {[RMem p]}
  | Ev (Close fd) _ => {[RSock fd]}
  | Ev (SslFree h) _ => {[RSsl h]}
  | Ev (PthreadCreate a) r => if r =? 0 then thread_owns a else ∅
  | _ => ∅
  end.

Definition needed (o : top) : gset tres :=
  match o with
  | CtxUseCertificate c _ | CtxUsePrivateKey c _ | CtxSetVerify c _ | CtxLoadVerify c _ | CtxFree c => {[RCtx c]}
  | Free p => {[RMem p]}
  | PthreadCreate a => thread_owns a
  | SetReuse fd | Bind fd _ _ | Listen fd | Accept fd | Close fd => {[RSock fd]}
  | IsListening sv => {[RMem sv]}
  | SslNew c => {[RCtx c]}
  | SslSetFd s fd => {[RSsl s; RSock fd]}
  | SslAccept s | SslRead s _ | SslWrite s _ | SslShutdown s | SslFree s => {[RSsl s]}
  | _ => ∅
  end.

(** What must be known before a call: of the context of a connection and of the thread,
    and of a connection before data. *)
Definition required (o : top) : gset (Z * string) :=
  match o with
  | SslNew ctx => mutual_facts ctx
  | PthreadCreate a => mutual_facts (admin_ssl_ctx a)
  | SslRead ssl _ | SslWrite ssl _ => {[peer_verified ssl]}
  | _ => ∅
  end.

Definition learned (e : tevent) : gset (Z * string) :=
  match e with
  | Ev (CtxUseCertificate c _) r => if r <=? 0 then ∅ else {[(c, "certificate")]}
  | Ev (CtxUsePrivateKey c _) r => if r <=? 0 then ∅ else {[(c, "key")]}
  | Ev (CtxSetVerify c mode) _ => if mode =? 3 then {[(c, "verify")]} else ∅
  | Ev (CtxLoadVerify c _) r => if r <=? 0 then ∅ else {[(c, "ca")]}
  | Ev (SslAccept s) r => if r <=? 0 then ∅ else {[peer_verified s]}
  | _ => ∅
  end.

(** A new handle starts with nothing known. *)
Definition forgotten (e : tevent) : gset (Z * string) :=
  match e with
  | Ev CtxNew (Some c) => mutual_facts c
  | Ev (SslNew _) (Some s) => {[peer_verified s]}
  | _ => ∅
  end.

(** The environment: fresh handles, and enough memory for a copy of the host and for the
    connections.  ([strdup] and [SSL_new] can fail; the code uses what they return without a
    test, so what it does then is undefined.  [SSL_CTX_new] may fail, which the code tests.) *)
Definition kept_promise (s : tstate) (e : tevent) : Prop :=
  match acquired e with Some r => r ∉ live s | None => True end /\
  match e with Ev (Strdup _) None | Ev (SslNew _) None => False | _ => True end.

(** A thread starts with a server and a host, and its parts are apart. *)
Definition known_args (o : top) : bool :=
  match o with
  | PthreadCreate a =>
      match target_server a, host a with
      | Some sv, Some (hp, _) => negb (hp =? args_ptr a) && negb (sv =? hp) && negb (sv =? args_ptr a)
      | _, _ => false
      end
  | _ => true
  end.

Definition t_after (s : tstate) (e : tevent) : tstate :=
  mkT (match acquired e with Some r => {[r]} | None => ∅ end ∪ (live s ∖ released e))
      (learned e ∪ (facts s ∖ forgotten e)).

Definition t_step (s : tstate) (e : tevent) : option tstate :=
  if bool_decide (needed (ev_op e) ⊆ live s) && bool_decide (required (ev_op e) ⊆ facts s) && known_args (ev_op e)
  then Some (t_after s e) else None.

Definition mutual_tls : protocol tans := Protocol tstate kept_promise t_step.
