(* ===== verification/AdminProps.v ===== *)
(** * The admin API: who owns what, and no byte without a client certificate

    Against the protocol [mutual_tls]: starting the listener, the thread, and the two
    together, since the thread begins with what was handed to it. *)

From Stdlib Require Import ZArith Lia String Strings.Byte Ascii.
From stdpp Require Import base tactics sets list gmap strings.
From S2P Require Import Prelude Zend Io AdminApi.

Local Open Scope Z_scope.
Set Warnings "-clear-no-such-hyp,-missing-scheme".

Lemma t_safe_step {A} o (k : tans o -> tls A) s Q :
  needed o ⊆ live s -> required o ⊆ facts s -> known_args o = true ->
  (forall r, kept_promise s (Ev o r) -> safe mutual_tls (k r) (t_after s (Ev o r)) Q) ->
  safe mutual_tls (Call o k) s Q.
Proof.
  intros Hn Hr Ha Hk r Hp. exists (t_after s (Ev o r)). split; [|by apply Hk].
  cbn [pstep mutual_tls]. unfold t_step. cbn [ev_op]. by rewrite !bool_decide_eq_true_2, Ha.
Qed.

Lemma diff_nil `{Countable A} (X : gset A) : X ∖ ∅ = X.
Proof. apply set_eq. set_solver. Qed.

(** Small inclusions, the simplest way first. *)
Ltac t_sub :=
  cbv beta iota delta [needed required live facts];
  first [ apply empty_subseteq | apply union_subseteq_l | apply singleton_subseteq_l; assumption
        | apply singleton_subseteq_l; solve [set_solver] | assumption | idtac ].

(** One call: what it needs by sets, then its answer and promise. *)
Ltac t_call r Hr :=
  cbn [io_bind call]; apply t_safe_step;
  [ t_sub | t_sub | try done
  | intros r Hr; unfold kept_promise in Hr;
    cbv beta iota delta [acquired live] in Hr;
    cbv beta iota zeta delta [t_after acquired released learned forgotten live facts];
    rewrite ?diff_nil, ?(left_id_L ∅ (∪)) ].

(** The thread's ending, from what it owns and its socket. *)
Definition sock_res (fd : option Z) : gset tres := match fd with Some fd => {[RSock fd]} | None => ∅ end.

Section Thread.
Variables (args : admin_thread_args_t) (sv hp : Z) (h : string) (rest : gset tres).
Hypothesis Hsv : target_server args = Some sv.
Hypothesis Hh : host args = Some (hp, h).
Hypothesis Hne : hp <> args_ptr args.
(** The rest is live and apart from what the thread owns; the server is part of it. *)
Hypothesis Hrest : thread_owns args ## rest.
Hypothesis Hlive : RMem sv ∈ rest.

Definition owns (fd : option Z) : gset tres := sock_res fd ∪ thread_owns args ∪ rest.

Lemma owns_sock fd : RSock fd ∈ owns (Some fd).
Proof. unfold owns, sock_res. clear. set_solver. Qed.
Lemma owns_ctx fd : RCtx (admin_ssl_ctx args) ∈ owns fd.
Proof. unfold owns, thread_owns. clear. set_solver. Qed.
Lemma owns_server fd : RMem sv ∈ owns fd.
Proof. unfold owns. apply elem_of_union_r, Hlive. Qed.
Lemma owns_apart fd : RSock fd ∉ rest -> ({[RSock fd]} ∪ owns None) = owns (Some fd).
Proof. intros _. unfold owns, sock_res. apply set_eq. clear. set_solver. Qed.

Lemma safe_thread_cleanup fd F : match fd with Some fd => RSock fd ∉ rest | None => True end ->
  safe mutual_tls (thread_cleanup fd args) (mkT (owns fd) F) (fun r s' => r = Done tt /\ live s' = rest).
Proof.
  intros Hfd. unfold owns, sock_res, thread_owns in *. rewrite Hh in *. unfold thread_cleanup. rewrite Hh.
  destruct fd as [fd|]; [t_call u Hu|]; t_call u' Hu'; t_call u2 Hu2; t_call u3 Hu3; (split; [done|]);
    cbn [live]; apply set_eq; set_solver.
Qed.

Lemma safe_serve_client ssl L F (Q : unit -> tstate -> Prop) : RSsl ssl ∈ L ->
  (forall F', F ⊆ F' -> Q tt (mkT L F')) -> safe mutual_tls (serve_client ssl) (mkT L F) Q.
Proof.
  intros Hs HQ. unfold serve_client. t_call r Hr. destruct (r <=? 0) eqn:Er; [apply HQ; set_solver|].
  t_call b Hb. destruct b as [buffer|]; [|apply HQ; set_solver].
  t_call u Hu. t_call u2 Hu2. destruct u2. apply HQ. set_solver.
Qed.

Lemma safe_accept_loop fuel fd : RSock fd ∉ rest -> forall F, mutual_facts (admin_ssl_ctx args) ⊆ F ->
  safe mutual_tls (accept_loop fuel fd args) (mkT (owns (Some fd)) F)
    (fun r s' => r <> Undefined /\ live s' = owns (Some fd)).
Proof.
  intros Hfd. induction fuel as [|fuel IH]; intros F HF; cbn [accept_loop]; [done|]. rewrite Hsv.
  pose proof (owns_sock fd) as Hs. pose proof (owns_ctx (Some fd)) as Hc. pose proof (owns_server (Some fd)) as Hv.
  revert IH Hs Hc Hv. generalize (owns (Some fd)). intros O IH Hs Hc Hv.
  t_call listening Hlis. destruct listening; [|done].
  t_call cfd Hcfd. destruct Hcfd as [Hcfd _]. destruct (cfd <? 0); [rewrite (left_id_L ∅ (∪)); by apply IH|].
  t_call ssl Hssl. destruct ssl as [ssl|]; [|by destruct Hssl].
  destruct Hssl as [Hssl _]. cbn [live] in Hssl.
  t_call u Hu; [clear; set_solver|]. apply safe_bind. apply safe_serve_client; [clear; set_solver|]. intros F' HF'.
  t_call u1 Hu1. t_call u2 Hu2. t_call u3 Hu3.
  match goal with |- safe _ _ (mkT ?L _) _ => replace L with O by (apply set_eq; clear IH; set_solver) end.
  apply IH. etrans; [|exact HF']. unfold mutual_facts, peer_verified in *. clear -HF. set_solver.
Qed.

Lemma safe_thread fuel F : mutual_facts (admin_ssl_ctx args) ⊆ F ->
  safe mutual_tls (admin_api_thread_func fuel args) (mkT (owns None) F)
    (fun r s' => r <> Undefined /\ (r = Done tt -> live s' = rest)).
Proof.
  intros HF.
  assert (Hend : forall fd F', match fd with Some fd => RSock fd ∉ rest | None => True end ->
    safe mutual_tls (thread_cleanup fd args) (mkT (owns fd) F') (fun r s' => r <> Undefined /\ (r = Done tt -> live s' = rest))).
  { intros fd F' Hfd. eapply safe_mono; [by apply safe_thread_cleanup|]. by intros r s' [-> ?]. }
  unfold admin_api_thread_func. t_call fd Hfd. destruct Hfd as [Hfd _].
  destruct (fd <? 0); [rewrite (left_id_L ∅ (∪)); by apply Hend|].
  assert (Hfr : RSock fd ∉ rest) by (intros Hin; apply Hfd; unfold owns; by apply elem_of_union_r).
  rewrite owns_apart by done. pose proof (owns_sock fd) as Hs.
  t_call u Hu. rewrite Hh. unfold bind_address. t_call a Ha.
  t_call r Hr. destruct (r <? 0); [by apply Hend|].
  t_call r' Hr'. destruct (r' <? 0); [by apply Hend|].
  apply safe_bind. eapply safe_mono; [by apply safe_accept_loop|].
  intros res [L F'] [Hu' Hl]. cbn [live] in Hl. subst L. destruct res; [by apply Hend|by split..].
Qed.
End Thread.

(* ------------------------------------------------------------------------ *)
(** ** Starting the thread *)

Lemma safe_fail msg s : safe mutual_tls (fail msg) s (fun _ s' => live s' = live s).
Proof. destruct s as [L F]. unfold fail. by t_call u Hu. Qed.

Lemma safe_fail_ctx ctx msg L F : RCtx ctx ∉ L ->
  safe mutual_tls (fail_ctx ctx msg) (mkT ({[RCtx ctx]} ∪ L) F) (fun _ s' => live s' = L).
Proof.
  intros Hc. unfold fail_ctx. t_call u Hu. eapply safe_mono; [apply safe_fail|]. intros ? s' Hs. refine (eq_trans Hs _). cbn [live].
  apply set_eq. set_solver.
Qed.

Lemma safe_start_thread sv o ctx L F : RCtx ctx ∉ L -> RMem sv ∈ L -> mutual_facts ctx ⊆ F ->
  safe mutual_tls (start_thread (Some sv) o ctx) (mkT ({[RCtx ctx]} ∪ L) F) (fun _ s' => live s' = L).
Proof.
  intros Hc Hsv HF. unfold start_thread. t_call p Hp. destruct Hp as [Hp _].
  destruct p as [p|]; [|rewrite (left_id_L ∅ (∪)); by apply safe_fail_ctx].
  t_call h Hh. destruct h as [h|]; [|by destruct Hh]. destruct Hh as [Hh _].
  assert (h <> p /\ sv <> h /\ sv <> p) as (Hhp & Hsh & Hsp) by (split_and!; intros ->; set_solver).
  cbn [io_bind call]. apply t_safe_step; [unfold thread_owns; cbn; clear; set_solver|done| |].
  { cbn. by rewrite (proj2 (Z.eqb_neq h p)), (proj2 (Z.eqb_neq sv h)), (proj2 (Z.eqb_neq sv p)). }
  intros r _. cbv beta iota zeta delta [t_after acquired released learned forgotten live facts].
  destruct (r =? 0); cbn [negb]; rewrite ?diff_nil, ?(left_id_L ∅ (∪)).
  - t_call u Hu. cbn [safe live]. unfold thread_owns. cbn. apply set_eq. set_solver.
  - t_call u Hu. t_call u1 Hu1. t_call u2 Hu2. t_call u3 Hu3. cbn [safe live].
    apply set_eq. set_solver.
Qed.

Lemma safe_listen sv options s : RMem sv ∈ live s ->
  safe mutual_tls (quicpro_admin_api_listen (Some sv) options) s (fun _ s' => live s' = live s).
Proof.
  intros Hsv. destruct s as [L F]. cbn [live] in *. unfold quicpro_admin_api_listen. cbv zeta.
  set (o := admin_options_of options). destruct (cert_file o) as [cert|], (key_file o) as [key|], (ca_file o) as [ca|];
    try exact (safe_fail _ (mkT L F)).
  t_call c Hc. destruct c as [ctx|]; [|rewrite (left_id_L ∅ (∪)); exact (safe_fail _ (mkT L _))].
  destruct Hc as [Hc _].
  t_call r Hr. destruct (r <=? 0); [by apply safe_fail_ctx|].
  t_call r1 Hr1. destruct (r1 <=? 0); [by apply safe_fail_ctx|].
  t_call u Hu. t_call r2 Hr2. destruct (r2 <=? 0); [by apply safe_fail_ctx|].
  apply safe_start_thread; [done|done|]. unfold mutual_facts. clear. cbn. set_solver.
Qed.

(* ------------------------------------------------------------------------ *)
(** ** Runs *)

(** The threads that a trace starts. *)
Definition started (tr : list tevent) : list admin_thread_args_t :=
  omap (fun e : tevent => match e with Ev (PthreadCreate a) r => if r =? 0 then Some a else None | _ => None end) tr.

(** The flags read, and the connections waited for. *)
Definition flags (tr : list tevent) : list bool :=
  omap (fun e : tevent => match e with Ev (IsListening _) b => Some (b : bool) | _ => None end) tr.
Definition accepts (tr : list tevent) : nat :=
  length (List.filter (fun e : tevent => match ev_op e with Accept _ => true | _ => false end) tr).

Lemma flags_app t1 t2 : flags (t1 ++ t2) = flags t1 ++ flags t2.
Proof. apply omap_app. Qed.
Lemma accepts_app t1 t2 : accepts (t1 ++ t2) = (accepts t1 + accepts t2)%nat.
Proof. unfold accepts. by rewrite List.filter_app, length_app. Qed.

Lemma psteps_each s tr s' e : psteps mutual_tls s tr = Some s' -> e ∈ tr -> exists s1 s2, t_step s1 e = Some s2.
Proof.
  revert s. induction tr as [|e' tr IH]; intros s Hs He; [set_solver|]. cbn [psteps pstep mutual_tls] in Hs.
  destruct (t_step s e') as [s1|] eqn:Es; [|done]. apply elem_of_cons in He as [->|He]; eauto.
Qed.

Lemma started_in tr a : a ∈ started tr -> Ev (PthreadCreate a) 0 ∈ tr.
Proof.
  unfold started. rewrite list_elem_of_omap. intros ([o r] & Hin & He). destruct o; try done.
  destruct (Z.eqb_spec r 0) as [->|]; [|done]. by injection He as ->.
Qed.

Lemma listen_targets server options :
  calls_only (fun o => match o with PthreadCreate a => target_server a = server | _ => True end)
    (quicpro_admin_api_listen server options).
Proof.
  unfold quicpro_admin_api_listen, start_thread, fail_ctx, fail.
  repeat (first [calls_only_step ltac:(done) | case_match]).
Qed.

(** Reading a run of a program with its branches, one call after the other. *)
Ltac run_steps H :=
  repeat first
    [ progress cbn [io_bind call runs] in H
    | match type of H with
      | exists _, _ => let r := fresh "r" in destruct H as [r H]
      | ?tr = _ :: _ /\ _ => destruct H as [-> H]
      | ?tr = [] /\ _ => destruct H as [-> ->]
      | context [match ?x with _ => _ end] => destruct x eqn:?
      end ].

Lemma listen_started server options tr r :
  runs (quicpro_admin_api_listen server options) tr r -> r = negb (bool_decide (started tr = [])).
Proof.
  intros Hr. unfold quicpro_admin_api_listen, start_thread, fail_ctx, fail in Hr. cbv zeta in Hr.
  set (o := admin_options_of options) in Hr. destruct (cert_file o), (key_file o), (ca_file o); run_steps Hr; try done.
  all: unfold started; cbn. all: repeat match goal with H : negb _ = _ |- _ => revert H end.
  all: destruct (_ =? 0); done.
Qed.

(** The state in which a started thread begins: what was handed over, beside the server. *)
Definition thread_state (sv : Z) (a : admin_thread_args_t) : tstate :=
  mkT (thread_owns a ∪ {[RMem sv]}) (mutual_facts (admin_ssl_ctx a)).

Lemma started_thread_safe sv options s tr r s' a : runs (quicpro_admin_api_listen (Some sv) options) tr r ->
  psteps mutual_tls s tr = Some s' -> a ∈ started tr -> forall fuel,
  safe mutual_tls (admin_api_thread_func fuel a) (thread_state sv a)
    (fun r s' => r <> Undefined /\ (r = Done tt -> live s' = {[RMem sv]})).
Proof.
  intros Hr Hs Ha%started_in fuel. destruct (psteps_each _ _ _ _ Hs Ha) as (s1 & s2 & Ht).
  unfold t_step in Ht. cbn [ev_op] in Ht.
  destruct (known_args (PthreadCreate a)) eqn:Hk; [|by rewrite andb_false_r in Ht].
  pose proof (listen_targets _ _ _ _ Hr) as Hall. rewrite Forall_forall in Hall. specialize (Hall _ Ha). cbn in Hall, Hk.
  rewrite Hall in Hk. destruct (host a) as [[hp h]|] eqn:Hh; [|done].
  apply andb_true_iff in Hk as [[H1 H2]%andb_true_iff H3].
  apply negb_true_iff, Z.eqb_neq in H1, H2, H3.
  replace (thread_state sv a) with (mkT (owns a {[RMem sv]} None) (mutual_facts (admin_ssl_ctx a))).
  - apply (safe_thread a sv hp h {[RMem sv]}); try done; [|set_solver]. unfold thread_owns. rewrite Hh. set_solver.
  - unfold thread_state, owns, sock_res. by rewrite (left_id_L ∅ (∪)).
Qed.

Lemma accept_loop_flags args sv : target_server args = Some sv -> forall fuel fd tr r,
  runs (accept_loop fuel fd args) tr r -> r <> Undefined ->
  exists n, accepts tr = n /\ ((r = NoFuel /\ n = fuel /\ flags tr = replicate n true) \/
                              (r = Done tt /\ flags tr = replicate n true ++ [false])).
Proof.
  intros Hsv. induction fuel as [|fuel IH]; intros fd tr r Hr Hu; cbn [accept_loop] in Hr.
  { destruct Hr as [-> ->]. exists 0%nat. split; [done|]. by left. }
  rewrite Hsv in Hr. cbn [io_bind call runs] in Hr. destruct Hr as (b & tr' & -> & Hr).
  destruct b; [|destruct Hr as [-> ->]; exists 0%nat; split; [done|]; by right].
  cbn [io_bind call runs] in Hr. destruct Hr as (cfd & tr1 & -> & Hr).
  change (flags (Ev (IsListening sv) true :: Ev (Accept fd) cfd :: tr1)) with (true :: flags tr1).
  change (accepts (Ev (IsListening sv) true :: Ev (Accept fd) cfd :: tr1)) with (S (accepts tr1)).
  assert (Hstep : forall tr2 tr3, tr1 = tr2 ++ tr3 -> flags tr2 = [] -> accepts tr2 = 0%nat ->
    runs (accept_loop fuel fd args) tr3 r ->
    exists n, S (accepts tr1) = n /\ ((r = NoFuel /\ n = S fuel /\ true :: flags tr1 = replicate n true) \/
      (r = Done tt /\ true :: flags tr1 = replicate n true ++ [false]))).
  { intros tr2 tr3 -> Hf Ha Hr3. destruct (IH fd tr3 r Hr3 Hu) as (n & Hn & Hc). exists (S n).
    rewrite flags_app, accepts_app, Hf, Ha, Hn. split; [done|].
    destruct Hc as [(-> & -> & ->)|(-> & ->)]; [by left|by right]. }
  destruct (cfd <? 0); [by apply (Hstep [] tr1)|]. clear IH.
  cbn [io_bind call runs] in Hr. destruct Hr as (ssl & tr2 & -> & Hr). destruct ssl as [ssl|]; [|by destruct Hr as [_ ->]].
  cbn [io_bind call runs] in Hr. destruct Hr as (u & tr3 & -> & Hr).
  apply runs_bind in Hr as (t1 & t2 & u1 & -> & Hc & Hr). cbn [io_bind call runs] in Hr.
  destruct Hr as (u2 & t3 & -> & u3 & t4 & -> & u4 & t5 & -> & Hr).
  assert (flags t1 = [] /\ accepts t1 = 0%nat) as [Hf Ha] by (unfold serve_client in Hc; run_steps Hc; done).
  apply (Hstep ([Ev (SslNew (admin_ssl_ctx args)) (Some ssl); Ev (SslSetFd ssl cfd) u] ++ t1 ++
    [Ev (SslShutdown ssl) u2; Ev (SslFree ssl) u3; Ev (Close cfd) u4]) t5); [by rewrite <- !app_assoc| | |done];
    rewrite ?flags_app, ?accepts_app, ?Hf, ?Ha; done.
Qed.

Lemma thread_flags args sv fuel tr r : target_server args = Some sv ->
  runs (admin_api_thread_func fuel args) tr r -> r <> Undefined ->
  (r = NoFuel /\ accepts tr = fuel /\ flags tr = replicate fuel true) \/
  (r = Done tt /\ (flags tr = [] /\ accepts tr = 0%nat \/ flags tr = replicate (accepts tr) true ++ [false])).
Proof.
  intros Hsv Hr Hu. unfold admin_api_thread_func, bind_address in Hr.
  assert (Hend : forall fd t r, runs (thread_cleanup fd args) t r -> flags t = [] /\ accepts t = 0%nat /\ r = Done tt).
  { intros fd t r' Ht. unfold thread_cleanup in Ht. run_steps Ht; done. }
  cbn [io_bind call runs] in Hr. destruct Hr as (fd & t & -> & Hr).
  destruct (fd <? 0); [destruct (Hend _ _ _ Hr) as (? & ? & ->); by right; split; [|left]|].
  cbn [io_bind call runs] in Hr. destruct Hr as (u & t1 & -> & Hr).
  destruct (host args) as [[hp h]|]; [|by destruct Hr as [_ ->]].
  cbn [io_bind call runs] in Hr. destruct Hr as (a & t2 & -> & b & t3 & -> & Hr).
  destruct (b <? 0); [destruct (Hend _ _ _ Hr) as (? & ? & ->); by right; split; [|left]|].
  cbn [io_bind call runs] in Hr. destruct Hr as (l & t4 & -> & Hr).
  destruct (l <? 0); [destruct (Hend _ _ _ Hr) as (? & ? & ->); by right; split; [|left]|].
  apply runs_bind in Hr as (t5 & t6 & r' & -> & Hl & Hr).
  match goal with |- context [flags ?x] => change (flags x) with (flags (t5 ++ t6)); change (accepts x) with (accepts (t5 ++ t6)) end.
  rewrite flags_app, accepts_app. destruct r' as [[]|[]| |]; try (destruct Hr as [-> ->]).
  - destruct (Hend _ _ _ Hr) as (-> & -> & ->). rewrite app_nil_r, Nat.add_0_r.
    destruct (accept_loop_flags args sv Hsv fuel fd t5 _ Hl) as (n & Hn & [[]|[_ ->]]); [done|done|]. right. by rewrite Hn; split; [|right].
  - destruct (accept_loop_flags args sv Hsv fuel fd t5 _ Hl) as (n & Hn & [[]|[]]); done.
  - done.
  - destruct (accept_loop_flags args sv Hsv fuel fd t5 _ Hl) as (n & Hn & [(_ & -> & ->)|[]]); [done| |done].
    rewrite app_nil_r, Nat.add_0_r, Hn. by left.
Qed.

(** C6: Refinement of mutual TLS with clear ownership: starting the admin API and its
    thread, whatever OpenSSL and the sockets answer.  The thread is started exactly when
    true is returned, only with a context that has a certificate, a key, an authority and
    demands a client certificate; nothing is read or written on a connection before such a
    handshake; every context, connection, descriptor and allocation is released once, by the
    starter when it fails and by the thread when it ends, and not used afterwards.  The
    server is taken to outlive the thread. *)
Theorem admin_api_mutual_tls sv options s tr r : RMem sv ∈ live s ->
  runs (quicpro_admin_api_listen (Some sv) options) tr r -> honest mutual_tls s tr ->
  (exists s', psteps mutual_tls s tr = Some s' /\ live s' = live s) /\
  r = negb (bool_decide (started tr = [])) /\
  forall a fuel tr2 r2, a ∈ started tr ->
    runs (admin_api_thread_func fuel a) tr2 r2 -> honest mutual_tls (thread_state sv a) tr2 ->
    exists s2, psteps mutual_tls (thread_state sv a) tr2 = Some s2 /\ r2 <> Undefined /\
      (r2 = Done tt -> live s2 = {[RMem sv]}).
Proof.
  intros Hsv Hr Hh. destruct (safe_runs mutual_tls _ _ _ _ _ (safe_listen sv options s Hsv) Hr Hh) as (s' & Hs & Hl).
  split; [by exists s'|]. split; [by eapply listen_started|]. intros a fuel tr2 r2 Ha Hr2 Hh2.
  exact (safe_runs mutual_tls _ _ _ _ _ (started_thread_safe _ _ _ _ _ _ _ Hr Hs Ha fuel) Hr2 Hh2).
Qed.

(** The thread waits for one connection each time it finds the server listening, and
    ends the first time it does not: when the server is not listening yet at the thread's
    first look, no connection is ever accepted. *)
Theorem admin_api_while_listening args sv fuel tr r : target_server args = Some sv ->
  runs (admin_api_thread_func fuel args) tr r -> r <> Undefined ->
  (r = NoFuel /\ accepts tr = fuel /\ flags tr = replicate fuel true) \/
  (r = Done tt /\ (flags tr = [] /\ accepts tr = 0%nat \/ flags tr = replicate (accepts tr) true ++ [false])).
Proof. apply thread_flags. Qed.

(* ------------------------------------------------------------------------ *)
(** ** A listener with one client *)

Definition demo_options : zval :=
  ZArray [(KStr "cert_file", ZString "c.pem"); (KStr "key_file", ZString "k.pem"); (KStr "ca_file", ZString "ca.pem")].

(** Every handle is new; the server stops listening after a while. *)
Definition demo_world (o : top) (n : Z) : tans o * Z :=
  (match o return tans o with
   | CtxNew | Malloc | Strdup _ | SslNew _ => Some n
   | CtxUseCertificate _ _ | CtxUsePrivateKey _ _ | CtxLoadVerify _ _ | SslAccept _ => 1
   | PthreadCreate _ | Bind _ _ _ | Listen _ => 0
   | Socket | Accept _ => n
   | InetPton _ => None
   | IsListening _ => n <? 30
   | SslRead _ _ => Some "{}"%string
   | _ => tt
   end, n + 1).

Definition demo_state : tstate := mkT {[RMem 1]} ∅.
Definition demo_listen := exec demo_world (quicpro_admin_api_listen (Some 1) demo_options) 2.
Definition demo_args : admin_thread_args_t := mkArgs 7 (Some 1) (Some (8, "127.0.0.1"%string)) 2019 2.
Definition demo_thread := exec demo_world (admin_api_thread_func 10 demo_args) 20.

(** A decision procedure for the promises. *)
Definition kept_promiseb (s : tstate) (e : tevent) : bool :=
  match acquired e with Some r => bool_decide (r ∉ live s) | None => true end &&
  match e with Ev (Strdup _) None | Ev (SslNew _) None => false | _ => true end.

Fixpoint t_honestb (s : tstate) (tr : list tevent) : bool :=
  match tr with
  | [] => true
  | e :: tr' => kept_promiseb s e && match t_step s e with Some s' => t_honestb s' tr' | None => true end
  end.

Lemma t_honestb_sound tr : forall s, t_honestb s tr = true -> honest mutual_tls s tr.
Proof.
  induction tr as [|e tr IH]; intros s; cbn [t_honestb honest]; [done|]. intros [[H1 H2]%andb_true_iff Ht]%andb_true_iff.
  split; [split|].
  - destruct (acquired e); [by apply bool_decide_eq_true in H1|done].
  - destruct e as [[] r]; try done; by destruct r.
  - intros s' Hs. cbn in Hs. rewrite Hs in Ht. by apply IH.
Qed.

Lemma admin_api_mutual_tls_witness :
  exists s2, psteps mutual_tls (thread_state 1 demo_args) demo_thread.1.2 = Some s2 /\ live s2 = {[RMem 1]}.
Proof.
  destruct (admin_api_mutual_tls 1 demo_options demo_state demo_listen.1.2 demo_listen.1.1) as (_ & _ & H).
  - unfold demo_state. set_solver.
  - exact (exec_runs demo_world (quicpro_admin_api_listen (Some 1) demo_options) 2).
  - apply t_honestb_sound. vm_compute. reflexivity.
  - destruct (H demo_args 10%nat demo_thread.1.2 demo_thread.1.1) as (s2 & Hs & _ & Hl).
    + by apply (list_elem_of_lookup_2 _ 0).
    + exact (exec_runs demo_world (admin_api_thread_func 10 demo_args) 20).
    + apply t_honestb_sound. vm_compute. reflexivity.
    + exists s2. split; [exact Hs|]. apply Hl. vm_compute. reflexivity.
Defined.

Lemma admin_api_while_listening_witness : flags demo_thread.1.2 = replicate (accepts demo_thread.1.2) true ++ [false].
Proof.
  destruct (admin_api_while_listening demo_args 1 10 demo_thread.1.2 demo_thread.1.1) as [[H _]|[_ [[H _]|H]]];
    [reflexivity|exact (exec_runs demo_world (admin_api_thread_func 10 demo_args) 20)|discriminate|discriminate H|discriminate H|exact H].
Defined.
