(* ===== verification/AdminRace.v ===== *)
(** * The admin thread beside the PHP thread

    [admin_api_thread_func] runs in a detached thread and reads [is_listening] of a server
    that the PHP thread owns: [quicpro_server_listen] sets the flag, [quicpro_server_close]
    clears it, and the server itself is request memory, which the engine takes back at the
    end of the request.  No resource type gives the server a destructor
    ([le_quicpro_server] is registered nowhere).  Any order of the two threads' steps is
    considered.  The flag is a plain [bool] that each turn of the loop reads anew. *)

From Stdlib Require Import ZArith Lia String.
From stdpp Require Import base tactics sets list gmap strings.
From S2P Require Import Prelude Zend Io Interleave AdminApi AdminProps.

Local Open Scope nat_scope.

(** What the threads share: the flag, and whether the request's memory is still there. *)
Record shared := mkShared { is_listening : bool; request_memory : bool }.

(** What the PHP thread does to it. *)
Inductive php_action := ServerListen | ServerClose | RequestEnd.

Definition listen_write (m : shared) : shared := mkShared true (request_memory m).
Definition close_write (m : shared) : shared := mkShared false (request_memory m).

(** Nothing is done with a server after its request. *)
Definition php_write (m : shared) (a : php_action) : option shared :=
  if request_memory m then
    Some (match a with
          | ServerListen => listen_write m
          | ServerClose => close_write m
          | RequestEnd => mkShared (is_listening m) false
          end)
  else None.

(** The answer to the loop's test is the flag; the others come from outside. *)
Definition shared_answer (m : shared) (o : top) : tans o -> Prop :=
  match o return tans o -> Prop with IsListening _ => fun b => b = is_listening m | _ => fun _ => True end.
Definition server_present (m : shared) (o : top) : Prop :=
  match o with IsListening _ => request_memory m = true | _ => True end.

#[export] Instance server_present_dec m o : Decision (server_present m o).
Proof. destruct o; cbn; apply _. Defined.

Abbreviation tlabel := (label tans php_action).
Abbreviation tconfig := (tls (outcome unit unit) * shared)%type.
Abbreviation beside := (@isteps top tans php_action shared shared_answer server_present php_write (outcome unit unit)).

(** Waiting for a client, and any call at all. *)
Definition waits (o : top) : nat := match o with Accept _ => 1 | _ => 0 end.
Definition each (o : top) : nat := 1.

(** The answers while the server does not listen. *)
Definition not_listening (o : top) : tans o -> Prop :=
  match o return tans o -> Prop with IsListening _ => fun b => b = false | _ => fun _ => True end.

Lemma not_listening_answer m o r : is_listening m = false -> shared_answer m o r -> not_listening o r.
Proof. intros Hm. destruct o; cbn; try done. by rewrite Hm. Qed.

(* ------------------------------------------------------------------------ *)
(** ** What is left to do once the server does not listen *)

(** The case distinction a program starts with. *)
Ltac split_head p :=
  lazymatch p with io_bind ?q _ => split_head q | match ?x with _ => _ end => destruct x end.

Section Left.
(** The weights of the loop's test, of waiting for a client and of any other call. *)
Variables (weight : top -> nat) (test wait other : nat).
Hypothesis Htest : forall sv, weight (IsListening sv) = test.
Hypothesis Hwait : forall fd, weight (Accept fd) = wait.
Hypothesis Hother : forall o, (forall sv, o <> IsListening sv) -> (forall fd, o <> Accept fd) -> weight o <= other.

Abbreviation left_calls := (costs weight not_listening).

(** One call more; [count] walks through a program and stops at its loop or its end. *)
Lemma left_call {A} n o (k : tans o -> tls A) : other <= n -> (forall sv, o <> IsListening sv) -> (forall fd, o <> Accept fd) ->
  (forall r, left_calls (n - other) (k r)) -> left_calls n (Call o k).
Proof.
  intros Hn H1 H2 Hk. pose proof (Hother o H1 H2). split; [lia|]. intros r _. eapply costs_mono; [|apply Hk]. lia.
Qed.

Ltac count :=
  repeat (cbn [io_bind call];
          match goal with
          | |- costs _ _ _ (Ret _) => exact I
          | |- costs _ _ _ (Call _ _) => apply left_call; [lia|done|done|intros ?]
          | |- costs _ _ _ ?p => split_head p
          end).

Lemma left_cleanup fd args : left_calls (4 * other) (thread_cleanup fd args).
Proof. unfold thread_cleanup. count. Qed.

Variable args : admin_thread_args_t.
(** The loop together with what the thread does after it. *)
Definition loop_and_end (fuel : nat) (fd : Z) : tls (outcome unit unit) :=
  let* r := accept_loop fuel fd args in
  match r with Done _ => thread_cleanup (Some fd) args | _ => Ret r end.

Lemma left_loop fuel fd : left_calls (test + 4 * other) (loop_and_end fuel fd).
Proof.
  destruct fuel as [|fuel]; [done|]. unfold loop_and_end. cbn [accept_loop io_bind].
  destruct (target_server args) as [sv|]; [|done]. cbn [io_bind call costs]. rewrite Htest. split; [lia|].
  intros r Hr. cbn in Hr. subst r. cbn [io_bind]. eapply costs_mono; [|apply left_cleanup]. lia.
Qed.

(** A client that is being served, and the rest. *)
Definition longest : nat := wait + 9 * other + (test + 4 * other).

Lemma always_call {A} (P : tls A -> Prop) o k : P (Call o k) -> (forall r, always P (k r)) -> always P (Call o k).
Proof. by split. Qed.

Lemma always_left_cleanup fd : always (left_calls longest) (thread_cleanup fd args).
Proof.
  unfold thread_cleanup. destruct fd, (host args) as [[]|]; cbn [io_bind call];
    repeat (apply always_call; [unfold longest; count|intros ?]); done.
Qed.

(** [count], through waiting and up to the loop or the end of the thread. *)
Ltac count_turn :=
  unfold longest; repeat
  first [ progress count
        | match goal with |- costs _ _ _ (Call (Accept ?f) _) => split; [rewrite Hwait; lia|intros ? _; rewrite Hwait] end
        | eapply costs_mono; [|apply left_loop]; lia
        | eapply costs_mono; [|apply left_cleanup]; lia ].

Ltac walk_turn ending :=
  repeat (cbn [io_bind call];
          match goal with
          | |- always _ (Call _ _) => apply always_call; [count_turn|intros ?]
          | |- always _ (Ret _) => done
          | |- always _ ?p => first [split_head p | ending]
          end).

Lemma always_left_loop fd : forall fuel, always (left_calls longest) (loop_and_end fuel fd).
Proof.
  induction fuel as [|fuel IH]; [done|].
  pose proof (left_loop (S fuel) fd) as Hhead. unfold loop_and_end in *. cbn [accept_loop io_bind] in *.
  destruct (target_server args) as [sv|]; [|done]. cbn [io_bind call] in *. apply always_call.
  { eapply costs_mono; [|exact Hhead]. unfold longest. lia. }
  intros []; [|apply always_left_cleanup]. unfold serve_client. walk_turn ltac:(exact IH).
Qed.

(** The thread from its start. *)
Lemma left_thread fuel : left_calls (5 * other + (test + 4 * other)) (admin_api_thread_func fuel args).
Proof. unfold admin_api_thread_func, bind_address. count_turn. Qed.

Lemma always_left_thread fuel : always (left_calls longest) (admin_api_thread_func fuel args).
Proof.
  unfold admin_api_thread_func, bind_address.
  walk_turn ltac:(first [apply always_left_cleanup | apply always_left_loop]).
Qed.
End Left.

(** The two ways of counting. *)
Lemma other_waits o : (forall sv, o <> IsListening sv) -> (forall fd, o <> Accept fd) -> waits o <= 0.
Proof. intros H1 H2. destruct o; cbn; try lia. by destruct (H2 fd). Qed.
Lemma other_each o : (forall sv, o <> IsListening sv) -> (forall fd, o <> Accept fd) -> each o <= 1.
Proof. intros _ _. unfold each. lia. Qed.

Lemma cost_each (tr : list tevent) : cost each tr = length tr.
Proof. induction tr as [|e tr IH]; [done|]. cbn in *. unfold cost in IH. by rewrite IH. Qed.
Lemma cost_waits (tr : list tevent) : cost waits tr = accepts tr.
Proof. induction tr as [|[o r] tr IH]; [done|]. unfold cost, accepts in *. cbn in *. by destruct o; cbn; rewrite ?IH. Qed.

(** The flag stays cleared, the memory stays. *)
Lemma stays_cleared (ls : list php_action) : ServerListen ∉ ls ->
  forall m a m', a ∈ ls -> is_listening m = false -> php_write m a = Some m' -> is_listening m' = false.
Proof.
  intros Hl m a m' Ha Hm Hw. unfold php_write in Hw. destruct (request_memory m); [|done]. injection Hw as <-.
  by destruct a; cbn.
Qed.
Lemma memory_stays (ls : list php_action) : RequestEnd ∉ ls ->
  forall m a m', a ∈ ls -> request_memory m = true -> php_write m a = Some m' -> request_memory m' = true.
Proof.
  intros Hl m a m' Ha Hm Hw. unfold php_write in Hw. rewrite Hm in Hw. injection Hw as <-. by destruct a; cbn.
Qed.

Lemma present_no_fault (c : tconfig) : request_memory c.2 = true -> ~ faults server_present c.
Proof. destruct c as [[r|[] k] m]; cbn; auto. Qed.

Lemma answer_any m o : exists r, shared_answer m o r.
Proof. destruct o; cbn; try (by exists tt); try (by exists 0%Z); try (by exists None); by eexists. Qed.

(* ------------------------------------------------------------------------ *)
(** ** One order, computed

    A schedule says whose turn it is: [None] is the thread's, whose calls are answered by
    [demo_world] and, for the flag, by the state. *)

Definition shared_world (m : shared) (o : top) (n : Z) : tans o * Z :=
  match o return tans o -> tans o * Z with
  | IsListening _ => fun _ => (is_listening m, n + 1)%Z
  | _ => fun r => (r, n + 1)%Z
  end (demo_world o n).1.

Lemma shared_world_answer m o n : shared_answer m o (shared_world m o n).1.
Proof. by destruct o. Qed.

Fixpoint drive (sched : list (option php_action)) (n : Z) (p : tls (outcome unit unit)) (m : shared)
  : option (list tlabel * tconfig) :=
  match sched with
  | [] => Some ([], (p, m))
  | Some a :: sched' =>
      match php_write m a with
      | Some m' => prod_map (cons (Other a)) id <$> drive sched' n p m'
      | None => None
      end
  | None :: sched' =>
      match p with
      | Ret _ => None
      | Call o k =>
          if decide (server_present m o) then
            prod_map (cons (Own (Ev o (shared_world m o n).1))) id <$>
              drive sched' (shared_world m o n).2 (k (shared_world m o n).1) m
          else None
      end
  end.

Lemma drive_sound sched : forall n p m ls c, drive sched n p m = Some (ls, c) -> beside (p, m) ls c.
Proof.
  induction sched as [|[a|] sched IH]; intros n p m ls c Hd; cbn [drive] in Hd.
  - injection Hd as <- <-. constructor.
  - destruct (php_write m a) as [m'|] eqn:Hw; [|done].
    apply fmap_Some in Hd as ([ls' c'] & Hd & [= -> ->]). econstructor; [by constructor|]. by eapply IH.
  - destruct p as [|o k]; [done|]. destruct (decide _) as [Hp|]; [|done].
    apply fmap_Some in Hd as ([ls' c'] & Hd & [= -> ->]). econstructor; [|by eapply IH].
    constructor; [done|]. apply shared_world_answer.
Qed.

(* ------------------------------------------------------------------------ *)
(** ** In any order of the two threads *)

(** C7: Liveness of the end: once [quicpro_server_close] has cleared the flag (or
    whenever the server does not listen) and as long as it is not set again, the thread, in
    any order of its steps and PHP's, waits for at most one more client and makes at most
    fifteen more calls; it is never stuck before its end while the request lives.  A thread
    that starts before the server listens makes at most ten calls and waits for nobody. *)
Theorem admin_thread_stops fuel args m0 ls1 p m ls2 p' m' : is_listening m = false ->
  beside (admin_api_thread_func fuel args, m0) ls1 (p, m) -> beside (p, m) ls2 (p', m') -> ServerListen ∉ others ls2 ->
  (accepts (own ls2) <= 1 /\ length (own ls2) <= 15) /\
  (ls1 = [] -> accepts (own ls2) = 0 /\ length (own ls2) <= 10) /\
  (request_memory m = true -> RequestEnd ∉ others ls2 ->
   (exists r, p' = Ret r) \/ exists e c, istep shared_answer server_present php_write (p', m') (Own e) c).
Proof.
  intros Hm H1 H2 Hl.
  pose proof (fun w => costs_steps shared_answer server_present php_write w not_listening
    (fun m => is_listening m = false) _ _ _ H2 not_listening_answer Hm (stays_cleared _ Hl)) as Hc.
  split; [|split].
  - rewrite <- cost_waits, <- cost_each. split; (apply Hc; cbn [fst]).
    + exact (always_now _ _ (always_steps _ _ _ _ _ _ _ H1
        (always_left_thread waits 0 1 0 (fun _ => eq_refl) (fun _ => eq_refl) other_waits args fuel))).
    + exact (always_now _ _ (always_steps _ _ _ _ _ _ _ H1
        (always_left_thread each 1 1 1 (fun _ => eq_refl) (fun _ => eq_refl) other_each args fuel))).
  - intros ->. inversion H1; subst. rewrite <- cost_waits, <- cost_each.
    pose proof (Hc waits 0 (left_thread waits 0 0 (fun _ => eq_refl) other_waits args fuel)).
    pose proof (Hc each 10 (left_thread each 1 1 (fun _ => eq_refl) other_each args fuel)). lia.
  - intros Hr He. pose proof (isteps_state _ _ _ (fun m => request_memory m = true) _ _ _ H2 Hr (memory_stays _ He)) as Hp.
    destruct (istep_progress shared_answer server_present php_write p' m' (answer_any m') _) as [?|[Hf|?]]; [by left| |by right].
    by destruct (present_no_fault (p', m') Hp).
Qed.

(** *** A thread that is in its loop when the request ends *)

Definition tests_flag (o : top) : bool := match o with IsListening _ => true | _ => false end.

(** At most [n] calls, then the flag is read; there is no way to an orderly end before. *)
Fixpoint reads_flag (p : tls (outcome unit unit)) (n : nat) : Prop :=
  match p with
  | Ret r => r = NoFuel \/ r = Undefined
  | Call o k => tests_flag o = true \/ (0 < n /\ forall r, reads_flag (k r) (pred n))
  end.

(** The answers that keep the thread in its loop. *)
Definition still_listening (o : top) : tans o -> Prop :=
  match o return tans o -> Prop with IsListening _ => fun b => b = true | _ => fun _ => True end.

Fixpoint looping (p : tls (outcome unit unit)) : Prop :=
  match p with
  | Ret r => r = NoFuel \/ r = Undefined
  | Call o k => reads_flag (Call o k) 10 /\ forall r, still_listening o r -> looping (k r)
  end.
Fixpoint entering (p : tls (outcome unit unit)) : Prop :=
  match p with
  | Ret _ => True
  | Call o k => forall r, (tests_flag o = true -> still_listening o r -> looping (k r)) /\ (tests_flag o = false -> entering (k r))
  end.

Section InLoop.
Variables (args : admin_thread_args_t) (sv : Z).
Hypothesis Hsv : target_server args = Some sv.

Lemma reads_flag_loop fuel fd n : reads_flag (loop_and_end args fuel fd) n.
Proof. unfold loop_and_end. destruct fuel; cbn [accept_loop io_bind reads_flag]; [by left|]. rewrite Hsv. by left. Qed.

Ltac flag_read :=
  repeat (cbn [io_bind call];
          match goal with
          | |- reads_flag (Ret _) _ => cbn; auto
          | |- reads_flag (Call _ _) _ => right; split; [lia|intros ?; cbn [pred]]
          | |- reads_flag (io_bind (accept_loop _ _ _) _) _ => apply reads_flag_loop
          | |- reads_flag ?p _ => split_head p
          end).

Lemma looping_loop fd : forall fuel, looping (loop_and_end args fuel fd).
Proof.
  induction fuel as [|fuel IH]; [by left|]. unfold loop_and_end in *. cbn [accept_loop io_bind]. rewrite Hsv. cbn [io_bind call].
  split; [by left|]. intros b Hb. cbn in Hb. subst b. unfold serve_client.
  repeat (cbn [io_bind call];
          match goal with
          | |- looping (Ret _) => cbn; auto
          | |- looping (Call _ _) => split; [flag_read|intros ? _]
          | |- looping (io_bind (accept_loop _ _ _) _) => exact IH
          | |- looping ?p => split_head p
          end).
Qed.

Lemma entering_end fd : entering (thread_cleanup fd args).
Proof.
  unfold thread_cleanup. destruct fd, (host args) as [[]|]; cbn [io_bind call];
    repeat (intros ?; split; [done|intros _]); done.
Qed.

Lemma entering_thread fuel : entering (admin_api_thread_func fuel args).
Proof.
  unfold admin_api_thread_func, bind_address.
  repeat (cbn [io_bind call];
          match goal with
          | |- entering (Ret _) => done
          | |- entering (Call _ _) => intros ?; split; [done|intros _]
          | |- entering (thread_cleanup _ _) => apply entering_end
          | |- entering (io_bind (accept_loop _ _ _) _) => fail 1
          | |- entering ?p => split_head p
          end).
  all: destruct fuel as [|fuel]; cbn [accept_loop io_bind]; [done|]; rewrite Hsv; cbn [io_bind call]; intros b; (split; [|done]).
  all: intros _ Hb; match goal with |- context [thread_cleanup (Some ?f) args] => pose proof (looping_loop f (S fuel)) as Hl end; unfold loop_and_end in Hl; cbn [accept_loop io_bind] in Hl;
    rewrite Hsv in Hl; cbn [io_bind call] in Hl; by apply Hl.
Qed.
End InLoop.

(** The thread goes through its loop as long as every test of the flag has answered yes. *)
Lemma looping_steps (c c' : tconfig) ls : beside c ls c' -> looping c.1 ->
  (forall sv, Ev (IsListening sv) false ∉ own ls) -> looping c'.1.
Proof.
  induction 1 as [c|c l c' ls c'' Hs _ IH]; intros Hc Hno; [done|]. apply IH.
  - destruct Hs as [|o k r m]; [done|]. destruct Hc as [_ Hk]. apply Hk. destruct o; cbn; try done.
    destruct r; [done|]. destruct (Hno server). by left.
  - intros sv Hin. apply (Hno sv). destruct l; [done|by right].
Qed.

Lemma entering_steps (c c' : tconfig) ls sv : beside c ls c' -> entering c.1 ->
  Ev (IsListening sv) true ∈ own ls -> (forall sv, Ev (IsListening sv) false ∉ own ls) -> looping c'.1.
Proof.
  induction 1 as [c|c l c' ls c'' Hs Hrest IH]; intros Hc Hin Hno; [by apply elem_of_nil in Hin|].
  destruct Hs as [|o k r m]; [by apply IH|].
  change (own (Own (Ev o r) :: ls)) with (Ev o r :: own ls) in *. cbn [fst entering] in Hc. destruct (Hc r) as [Hyes Hnext].
  assert (Hno' : forall sv, Ev (IsListening sv) false ∉ own ls) by (intros sv' Hi; apply (Hno sv'); by right).
  destruct (tests_flag o) eqn:Ho.
  - eapply looping_steps; [exact Hrest| |done]. apply Hyes; [done|]. destruct o; try done. cbn.
    destruct r; [done|]. destruct (Hno server). by left.
  - apply IH; [by apply Hnext| |done]. apply elem_of_cons in Hin as [Heq|?]; [|done]. inversion Heq; subst. done.
Qed.

(** Without the request's memory the flag is not read. *)
Lemma reads_flag_steps (c c' : tconfig) ls : beside c ls c' -> forall n, request_memory c.2 = false -> reads_flag c.1 n ->
  length (own ls) <= n /\ request_memory c'.2 = false /\ reads_flag c'.1 (n - length (own ls)).
Proof.
  induction 1 as [c|c l c' ls c'' Hs _ IH]; intros n Hm Hr; [cbn; rewrite Nat.sub_0_r; by split; [apply Nat.le_0_l|]|].
  destruct Hs as [p m a m' Hw|o k r m Hp _]; cbn [fst snd] in *; [by unfold php_write in Hw; rewrite Hm in Hw|].
  change (own (Own (Ev o r) :: ls)) with (Ev o r :: own ls). cbn [length].
  destruct Hr as [Ht|[Hn Hr]]; [destruct o; try done; cbn in Hp; congruence|].
  destruct (IH (pred n) Hm (Hr r)) as (? & ? & ?). split; [lia|]. split; [done|]. by replace (n - S (length (own ls))) with (pred n - length (own ls)) by lia.
Qed.

(** C36: Closing the server does not wait for the admin thread.  A thread that is in its loop (it has
    found the server listening, and not found it closed) when the request ends, in whatever
    order the two threads have come there, makes at most ten more calls and does not come to
    its orderly end: whenever it stops, it is about to read the flag in memory that the
    engine has taken back (or the library has refused it a TLS connection, whose use is undefined
    too; or the turns considered are over). *)
Theorem admin_thread_outlives_request fuel args sv m0 ls1 p m ls2 p' m' : target_server args = Some sv ->
  beside (admin_api_thread_func fuel args, m0) ls1 (p, m) ->
  Ev (IsListening sv) true ∈ own ls1 -> (forall sv, Ev (IsListening sv) false ∉ own ls1) -> request_memory m = false ->
  beside (p, m) ls2 (p', m') ->
  length (own ls2) <= 10 /\ p' <> Ret (Done tt) /\
  (p' = Ret NoFuel \/ p' = Ret Undefined \/ faults server_present (p', m') \/
   exists e c, istep shared_answer server_present php_write (p', m') (Own e) c).
Proof.
  intros Hsv H1 Hin Hno Hm H2.
  pose proof (entering_steps _ _ _ sv H1 (entering_thread args sv Hsv fuel) Hin Hno) as Hl. cbn [fst] in Hl.
  assert (Hr : reads_flag p 10) by (destruct p; [exact Hl|apply Hl]).
  destruct (reads_flag_steps _ _ _ H2 10 Hm Hr) as (Hn & Hm' & Hr'). cbn [fst snd] in *.
  split; [done|]. split; [intros ->; by destruct Hr'|].
  destruct (istep_progress shared_answer server_present php_write p' m' (answer_any m') _) as [[r ->]|[Hf|Hs]]; [|auto..].
  cbn in Hr'. destruct Hr' as [-> | ->]; auto.
Qed.

(* ------------------------------------------------------------------------ *)
(** ** Witnesses: a client is waited for when the server is closed *)

Definition before_close : option (list tlabel * tconfig) :=
  drive ([Some ServerListen] ++ replicate 6 None ++ [Some ServerClose]) 20 (admin_api_thread_func 2 demo_args)
    (mkShared false true).

Lemma admin_thread_stops_witness : exists ls1 p m ls2 c,
  before_close = Some (ls1, (p, m)) /\ drive (replicate 15 None) 27 p m = Some (ls2, c) /\
  (accepts (own ls2) <= 1 /\ length (own ls2) <= 15).
Proof.
  destruct before_close as [[ls1 [p m]]|] eqn:H1; [|by vm_compute in H1].
  destruct (drive (replicate 15 None) 27 p m) as [[ls2 c]|] eqn:H2;
    [|exfalso; vm_compute in H1; injection H1 as <- <- <-; by vm_compute in H2].
  exists ls1, p, m, ls2, c. split; [done|]. split; [done|]. destruct c as [p' m'].
  destruct (admin_thread_stops 2 demo_args (mkShared false true) ls1 p m ls2 p' m') as [H _].
  - vm_compute in H1. injection H1 as <- <- <-. reflexivity.
  - exact (drive_sound _ _ _ _ _ _ H1).
  - exact (drive_sound _ _ _ _ _ _ H2).
  - vm_compute in H1. injection H1 as <- <- <-. vm_compute in H2. injection H2 as <- <- <-.
    cbn. by apply not_elem_of_nil.
  - exact H.
Defined.

(** The server is closed and the request ends while the thread waits for a client. *)
Definition at_request_end : option (list tlabel * tconfig) :=
  drive ([Some ServerListen] ++ replicate 6 None ++ [Some ServerClose; Some RequestEnd]) 20 (admin_api_thread_func 2 demo_args)
    (mkShared false true).

Lemma admin_thread_outlives_request_witness : exists ls1 p m ls2 p' m',
  at_request_end = Some (ls1, (p, m)) /\ drive (replicate 10 None) 27 p m = Some (ls2, (p', m')) /\
  others ls1 = [ServerListen; ServerClose; RequestEnd] /\ length (own ls2) <= 10 /\ faults server_present (p', m').
Proof.
  destruct at_request_end as [[ls1 [p m]]|] eqn:H1; [|by vm_compute in H1].
  destruct (drive (replicate 10 None) 27 p m) as [[ls2 [p' m']]|] eqn:H2;
    [|exfalso; vm_compute in H1; injection H1 as <- <- <-; by vm_compute in H2].
  exists ls1, p, m, ls2, p', m'. split; [done|]. split; [done|].
  assert (Hf : others ls1 = [ServerListen; ServerClose; RequestEnd] /\ faults server_present (p', m')).
  { vm_compute in H1. injection H1 as <- <- <-. vm_compute in H2. injection H2 as <- <- <-. split; [reflexivity|cbn; discriminate]. }
  destruct Hf as [Ho Hf]. split; [exact Ho|]. split; [|exact Hf].
  apply (admin_thread_outlives_request 2 demo_args 1 (mkShared false true) ls1 p m ls2 p' m').
  - reflexivity.
  - exact (drive_sound _ _ _ _ _ _ H1).
  - vm_compute in H1. injection H1 as <- <- <-. cbn. set_solver.
  - vm_compute in H1. injection H1 as <- <- <-. cbn. intros sv Hin.
    repeat (apply elem_of_cons in Hin as [Hin|Hin];
      [by apply (f_equal (fun e : tevent => match e with Ev (IsListening _) b => b | _ => true end)) in Hin|]).
    by apply elem_of_nil in Hin.
  - vm_compute in H1. injection H1 as <- <- <-. reflexivity.
  - exact (drive_sound _ _ _ _ _ _ H2).
Defined.
