(* ===== verification/Signatures.v ===== *)
(** * Signatures

    The signatures the extension declares to the engine ([extension/include/php_quicpro_arginfo.h]
    and the blocks in [src/iibin/iibin.c] and [src/server/session.c]), the parameters the C
    functions parse ([ZEND_PARSE_PARAMETERS_START] up to [..._END] of each), and the tables that
    connect names, functions and signatures.  The engine's conversions between types are the
    class [Coercion]: a declared type and the parser of the same type use the same ones.

    A method of a class whose C function takes the connection as its first parameter is
    declared without it.  A resource has no declared type, so an undeclared parameter may be
    parsed as a resource; that is the only way in which a truthful declaration may say less. *)

From Stdlib Require Import List Arith String Lia.
From stdpp Require Import base tactics list strings.
From S2P Require Import Prelude Zend.

Local Open Scope string_scope.

Inductive ztype := IS_UNDEF | IS_FALSE | IS_LONG | IS_STRING | IS_ARRAY | IS_OBJECT | IS_VOID | _IS_BOOL.
#[export] Instance ztype_eq_dec : EqDecision ztype.
Proof. solve_decision. Defined.

(** [ZEND_ARG_TYPE_INFO] and, with no type, [ZEND_ARG_INFO]. *)
Record arg := Arg { a_name : string; a_type : option ztype; allow_null : bool }.
Record arginfo := ArgInfo { required_num_args : nat; return_type : option (ztype * bool); arg_infos : list arg }.

Inductive z_param :=
| Z_PARAM_STRING | Z_PARAM_LONG | Z_PARAM_BOOL | Z_PARAM_ARRAY | Z_PARAM_ARRAY_OR_NULL
| Z_PARAM_ZVAL | Z_PARAM_RESOURCE | Z_PARAM_OBJECT_OF_CLASS | Z_PARAM_FUNC.
#[export] Instance z_param_eq_dec : EqDecision z_param.
Proof. solve_decision. Defined.

(** [ZEND_PARSE_PARAMETERS_START(min, max)], the parameters before and after
    [Z_PARAM_OPTIONAL]. *)
Record zpp := Zpp { min_num_args : nat; max_num_args : nat; z_required : list z_param; z_optional : list z_param }.

(* ------------------------------------------------------------------------ *)
(** ** Declared signatures *)

(** [include/php_quicpro_arginfo.h] *)
Definition arginfo_Quicpro_Config_new : arginfo := ArgInfo 0 (None)
  [Arg "options" (Some IS_ARRAY) true].

Definition arginfo_Quicpro_MCP___construct : arginfo := ArgInfo 3 (Some (IS_VOID, false))
  [Arg "host" (Some IS_STRING) false;
   Arg "port" (Some IS_LONG) false;
   Arg "config" None false;
   Arg "options" (Some IS_ARRAY) true].

Definition arginfo_Quicpro_MCP_close : arginfo := ArgInfo 0 (Some (IS_VOID, false))
  [].

Definition arginfo_Quicpro_MCP_request : arginfo := ArgInfo 3 (Some (IS_STRING, false))
  [Arg "service_name" (Some IS_STRING) false;
   Arg "method_name" (Some IS_STRING) false;
   Arg "request_payload_binary" (Some IS_STRING) false;
   Arg "options" (Some IS_ARRAY) true].

Definition arginfo_Quicpro_MCP_uploadStream : arginfo := ArgInfo 4 (Some (_IS_BOOL, false))
  [Arg "service_name" (Some IS_STRING) false;
   Arg "method_name" (Some IS_STRING) false;
   Arg "stream_identifier" (Some IS_STRING) false;
   Arg "php_stream_resource" None false].

Definition arginfo_Quicpro_MCP_downloadStream : arginfo := ArgInfo 4 (Some (_IS_BOOL, false))
  [Arg "service_name" (Some IS_STRING) false;
   Arg "method_name" (Some IS_STRING) false;
   Arg "request_payload_binary" (Some IS_STRING) false;
   Arg "php_writable_stream_resource" None false].

Definition arginfo_Quicpro_IIBIN_defineEnum : arginfo := ArgInfo 2 (Some (_IS_BOOL, false))
  [Arg "enumName" (Some IS_STRING) false;
   Arg "enumValues" (Some IS_ARRAY) false].

Definition arginfo_Quicpro_IIBIN_defineSchema : arginfo := ArgInfo 2 (Some (_IS_BOOL, false))
  [Arg "schemaName" (Some IS_STRING) false;
   Arg "schemaDefinition" (Some IS_ARRAY) false].

Definition arginfo_Quicpro_IIBIN_encode : arginfo := ArgInfo 2 (Some (IS_STRING, false))
  [Arg "schemaName" (Some IS_STRING) false;
   Arg "phpData" (Some IS_UNDEF) false].

Definition arginfo_Quicpro_IIBIN_decode : arginfo := ArgInfo 2 (None)
  [Arg "schemaName" (Some IS_STRING) false;
   Arg "binaryData" (Some IS_STRING) false;
   Arg "asObject" (Some _IS_BOOL) true].

Definition arginfo_Quicpro_IIBIN_isDefined : arginfo := ArgInfo 1 (Some (_IS_BOOL, false))
  [Arg "name" (Some IS_STRING) false].

Definition arginfo_Quicpro_Cluster_orchestrate : arginfo := ArgInfo 1 (Some (_IS_BOOL, false))
  [Arg "options" (Some IS_ARRAY) false].

Definition arginfo_Quicpro_Cluster_signalWorkers : arginfo := ArgInfo 2 (Some (_IS_BOOL, false))
  [Arg "signal" (Some IS_LONG) false;
   Arg "pidFile" (Some IS_STRING) false].

Definition arginfo_Quicpro_Cluster_getStats : arginfo := ArgInfo 1 (Some (IS_ARRAY, false))
  [Arg "pidFile" (Some IS_STRING) false].

Definition arginfo_Quicpro_PipelineOrchestrator_run : arginfo := ArgInfo 2 (Some (IS_OBJECT, false))
  [Arg "initialData" None false;
   Arg "pipelineDefinition" (Some IS_ARRAY) false;
   Arg "executionOptions" (Some IS_ARRAY) true].

Definition arginfo_Quicpro_PipelineOrchestrator_registerToolHandler : arginfo := ArgInfo 2 (Some (_IS_BOOL, false))
  [Arg "toolName" (Some IS_STRING) false;
   Arg "handlerConfiguration" (Some IS_ARRAY) false].

Definition arginfo_Quicpro_WebSocket_connect : arginfo := ArgInfo 3 (Some (IS_OBJECT, false))
  [Arg "host" (Some IS_STRING) false;
   Arg "port" (Some IS_LONG) false;
   Arg "path" (Some IS_STRING) false;
   Arg "headers" (Some IS_ARRAY) true;
   Arg "config" None false].

Definition arginfo_Quicpro_MCP_upgradeToWebSocket : arginfo := ArgInfo 1 (Some (IS_OBJECT, false))
  [Arg "path" (Some IS_STRING) false;
   Arg "headers" (Some IS_ARRAY) true].

Definition arginfo_Quicpro_WebSocket_send : arginfo := ArgInfo 1 (Some (_IS_BOOL, false))
  [Arg "data" (Some IS_STRING) false;
   Arg "is_binary" (Some _IS_BOOL) true].

Definition arginfo_Quicpro_WebSocket_receive : arginfo := ArgInfo 0 (Some (IS_STRING, true))
  [Arg "timeout_ms" (Some IS_LONG) true].

Definition arginfo_Quicpro_WebSocket_close : arginfo := ArgInfo 0 (Some (IS_VOID, false))
  [].

Definition arginfo_Quicpro_WebSocket_getStatus : arginfo := ArgInfo 0 (Some (IS_LONG, false))
  [].

Definition arginfo_quicpro_cancel_stream_global : arginfo := ArgInfo 2 (None)
  [Arg "mcp_session_resource" None false;
   Arg "stream_id" (Some IS_LONG) false;
   Arg "how" (Some IS_STRING) true].

(** [src/iibin/iibin.c] *)
Definition arginfo_quicpro_iibin_define_enum : arginfo := ArgInfo 2 (None)
  [Arg "enumName" (Some IS_STRING) false;
   Arg "enumValues" (Some IS_ARRAY) false].

Definition arginfo_quicpro_iibin_define_schema : arginfo := ArgInfo 2 (None)
  [Arg "schemaName" (Some IS_STRING) false;
   Arg "schemaDefinition" (Some IS_ARRAY) false].

Definition arginfo_quicpro_iibin_encode : arginfo := ArgInfo 2 (None)
  [Arg "schemaName" (Some IS_STRING) false;
   Arg "phpData" (Some IS_UNDEF) false].

Definition arginfo_quicpro_iibin_decode : arginfo := ArgInfo 2 (None)
  [Arg "schemaName" (Some IS_STRING) false;
   Arg "binaryData" (Some IS_STRING) false;
   Arg "decodeAsObject" (Some IS_FALSE) true].

Definition arginfo_quicpro_iibin_is_defined : arginfo := ArgInfo 1 (None)
  [Arg "name" (Some IS_STRING) false].

Definition arginfo_quicpro_iibin_is_schema_defined : arginfo := ArgInfo 1 (None)
  [Arg "schemaName" (Some IS_STRING) false].

Definition arginfo_quicpro_iibin_is_enum_defined : arginfo := ArgInfo 1 (None)
  [Arg "enumName" (Some IS_STRING) false].

Definition arginfo_quicpro_iibin_get_defined_schemas : arginfo := ArgInfo 0 (None)
  [].

Definition arginfo_quicpro_iibin_get_defined_enums : arginfo := ArgInfo 0 (None)
  [].

(** [src/server/session.c] *)
Definition arginfo_quicpro_session_construct : arginfo := ArgInfo 3 (None)
  [Arg "host" (Some IS_STRING) false;
   Arg "port" (Some IS_LONG) false;
   Arg "config" None false;
   Arg "numa_node" (Some IS_LONG) true].

Definition arginfo_quicpro_session_close : arginfo := ArgInfo 0 (None)
  [].

(* ------------------------------------------------------------------------ *)
(** ** What the functions parse *)

Definition quicpro_new_config_zpp : zpp := Zpp 0 1 [] [Z_PARAM_ARRAY_OR_NULL].
Definition quicpro_mcp_connect_zpp : zpp := Zpp 3 4 [Z_PARAM_STRING; Z_PARAM_LONG; Z_PARAM_RESOURCE] [Z_PARAM_ARRAY_OR_NULL].
Definition quicpro_mcp_close_zpp : zpp := Zpp 1 1 [Z_PARAM_RESOURCE] [].
Definition quicpro_mcp_request_zpp : zpp := Zpp 4 5 [Z_PARAM_RESOURCE; Z_PARAM_STRING; Z_PARAM_STRING; Z_PARAM_STRING] [Z_PARAM_ARRAY_OR_NULL].
Definition quicpro_iibin_define_enum_zpp : zpp := Zpp 2 2 [Z_PARAM_STRING; Z_PARAM_ARRAY] [].
Definition quicpro_iibin_define_schema_zpp : zpp := Zpp 2 2 [Z_PARAM_STRING; Z_PARAM_ARRAY] [].
Definition quicpro_iibin_encode_zpp : zpp := Zpp 2 2 [Z_PARAM_STRING; Z_PARAM_ZVAL] [].
Definition quicpro_iibin_decode_zpp : zpp := Zpp 2 3 [Z_PARAM_STRING; Z_PARAM_STRING] [Z_PARAM_BOOL].
Definition quicpro_cluster_orchestrate_zpp : zpp := Zpp 1 1 [Z_PARAM_ARRAY] [].
Definition quicpro_cluster_signal_workers_zpp : zpp := Zpp 1 2 [Z_PARAM_LONG] [Z_PARAM_STRING].
Definition quicpro_pipeline_orchestrator_run_zpp : zpp := Zpp 2 3 [Z_PARAM_ZVAL; Z_PARAM_ARRAY] [Z_PARAM_ARRAY_OR_NULL].
Definition quicpro_pipeline_orchestrator_register_tool_zpp : zpp := Zpp 2 2 [Z_PARAM_STRING; Z_PARAM_ARRAY] [].
Definition quicpro_ws_upgrade_zpp : zpp := Zpp 2 3 [Z_PARAM_RESOURCE; Z_PARAM_STRING] [Z_PARAM_ARRAY_OR_NULL].
Definition quicpro_ws_send_zpp : zpp := Zpp 2 3 [Z_PARAM_RESOURCE; Z_PARAM_STRING] [Z_PARAM_BOOL].
Definition quicpro_ws_get_status_zpp : zpp := Zpp 1 1 [Z_PARAM_RESOURCE] [].
Definition QuicSession_construct_zpp : zpp := Zpp 3 4 [Z_PARAM_STRING; Z_PARAM_LONG; Z_PARAM_RESOURCE] [Z_PARAM_LONG].
Definition quicpro_close_zpp : zpp := Zpp 1 1 [Z_PARAM_RESOURCE] [].
Definition quicpro_connect_zpp : zpp := Zpp 3 5 [Z_PARAM_STRING; Z_PARAM_LONG; Z_PARAM_RESOURCE] [Z_PARAM_ARRAY].
Definition quicpro_client_session_ingest_datagram_zpp : zpp := Zpp 5 5 [Z_PARAM_RESOURCE; Z_PARAM_STRING; Z_PARAM_STRING; Z_PARAM_LONG] [].
Definition quicpro_http1_server_listen_zpp : zpp := Zpp 5 5 [Z_PARAM_STRING; Z_PARAM_LONG; Z_PARAM_OBJECT_OF_CLASS; Z_PARAM_FUNC] [].
Definition quicpro_http2_server_listen_zpp : zpp := Zpp 5 5 [Z_PARAM_STRING; Z_PARAM_LONG; Z_PARAM_OBJECT_OF_CLASS; Z_PARAM_FUNC] [].
Definition quicpro_http3_server_listen_zpp : zpp := Zpp 5 5 [Z_PARAM_STRING; Z_PARAM_LONG; Z_PARAM_OBJECT_OF_CLASS; Z_PARAM_FUNC] [].

(* ------------------------------------------------------------------------ *)
(** ** Function and method tables *)

Definition quicpro_funcs : list (string * string) := [
  ("quicpro_connect", "arginfo_quicpro_connect");
  ("quicpro_close", "arginfo_quicpro_close");
  ("quicpro_send_request", "arginfo_quicpro_send_request");
  ("quicpro_receive_response", "arginfo_quicpro_receive_response");
  ("quicpro_poll", "arginfo_quicpro_poll");
  ("quicpro_cancel_stream", "arginfo_quicpro_cancel_stream");
  ("quicpro_export_session_ticket", "arginfo_quicpro_export_session_ticket");
  ("quicpro_import_session_ticket", "arginfo_quicpro_import_session_ticket");
  ("quicpro_set_ca_file", "arginfo_quicpro_set_ca_file");
  ("quicpro_set_client_cert", "arginfo_quicpro_set_client_cert");
  ("quicpro_get_last_error", "arginfo_quicpro_get_last_error");
  ("quicpro_get_stats", "arginfo_quicpro_get_stats");
  ("quicpro_version", "arginfo_quicpro_version")].

Definition quicpro_tls_functions : list (string * string) := [
  ("quicpro_export_session_ticket", "arginfo_quicpro_export_session_ticket");
  ("quicpro_import_session_ticket", "arginfo_quicpro_import_session_ticket");
  ("quicpro_get_stats", "arginfo_quicpro_get_stats");
  ("quicpro_set_ca_file", "arginfo_quicpro_set_ca_file");
  ("quicpro_set_client_cert", "arginfo_quicpro_set_client_cert")].

Definition iibin_methods : list (string * string) := [
  ("quicpro_iibin_define_enum", "arginfo_quicpro_iibin_define_enum");
  ("quicpro_iibin_define_schema", "arginfo_quicpro_iibin_define_schema");
  ("quicpro_iibin_encode", "arginfo_quicpro_iibin_encode");
  ("quicpro_iibin_decode", "arginfo_quicpro_iibin_decode");
  ("quicpro_iibin_is_defined", "arginfo_quicpro_iibin_is_defined");
  ("quicpro_iibin_is_schema_defined", "arginfo_quicpro_iibin_is_schema_defined");
  ("quicpro_iibin_is_enum_defined", "arginfo_quicpro_iibin_is_enum_defined");
  ("quicpro_iibin_get_defined_schemas", "arginfo_quicpro_iibin_get_defined_schemas");
  ("quicpro_iibin_get_defined_enums", "arginfo_quicpro_iibin_get_defined_enums")].

Definition quicpro_iibin_methods : list (string * string) := [
  ("QuicproIIBIN::defineEnum", "arginfo_quicpro_iibin_define_enum");
  ("QuicproIIBIN::defineSchema", "arginfo_quicpro_iibin_define_schema");
  ("QuicproIIBIN::encode", "arginfo_quicpro_iibin_encode");
  ("QuicproIIBIN::decode", "arginfo_quicpro_iibin_decode");
  ("QuicproIIBIN::isDefined", "arginfo_quicpro_iibin_is_defined");
  ("QuicproIIBIN::isSchemaDefined", "arginfo_quicpro_iibin_is_schema_defined");
  ("QuicproIIBIN::isEnumDefined", "arginfo_quicpro_iibin_is_enum_defined");
  ("QuicproIIBIN::getDefinedSchemas", "arginfo_quicpro_iibin_get_defined_schemas");
  ("QuicproIIBIN::getDefinedEnums", "arginfo_quicpro_iibin_get_defined_enums")].

Definition quicpro_session_methods : list (string * string) := [
  ("QuicSession::__construct", "arginfo_quicpro_session_construct");
  ("QuicSession::close", "arginfo_quicpro_session_close")].

Definition arginfo_h_names : list string := [
  "arginfo_Quicpro_Config_new";
  "arginfo_Quicpro_MCP___construct";
  "arginfo_Quicpro_MCP_close";
  "arginfo_Quicpro_MCP_request";
  "arginfo_Quicpro_MCP_uploadStream";
  "arginfo_Quicpro_MCP_downloadStream";
  "arginfo_Quicpro_IIBIN_defineEnum";
  "arginfo_Quicpro_IIBIN_defineSchema";
  "arginfo_Quicpro_IIBIN_encode";
  "arginfo_Quicpro_IIBIN_decode";
  "arginfo_Quicpro_IIBIN_isDefined";
  "arginfo_Quicpro_Cluster_orchestrate";
  "arginfo_Quicpro_Cluster_signalWorkers";
  "arginfo_Quicpro_Cluster_getStats";
  "arginfo_Quicpro_PipelineOrchestrator_run";
  "arginfo_Quicpro_PipelineOrchestrator_registerToolHandler";
  "arginfo_Quicpro_WebSocket_connect";
  "arginfo_Quicpro_MCP_upgradeToWebSocket";
  "arginfo_Quicpro_WebSocket_send";
  "arginfo_Quicpro_WebSocket_receive";
  "arginfo_Quicpro_WebSocket_close";
  "arginfo_Quicpro_WebSocket_getStatus";
  "arginfo_quicpro_cancel_stream_global"].

Definition iibin_c_names : list string := [
  "arginfo_quicpro_iibin_define_enum";
  "arginfo_quicpro_iibin_define_schema";
  "arginfo_quicpro_iibin_encode";
  "arginfo_quicpro_iibin_decode";
  "arginfo_quicpro_iibin_is_defined";
  "arginfo_quicpro_iibin_is_schema_defined";
  "arginfo_quicpro_iibin_is_enum_defined";
  "arginfo_quicpro_iibin_get_defined_schemas";
  "arginfo_quicpro_iibin_get_defined_enums"].

Definition session_c_names : list string := [
  "arginfo_quicpro_session_construct";
  "arginfo_quicpro_session_close"].

(* ------------------------------------------------------------------------ *)
(** ** Acceptance of a call *)

(** The engine: whether a value converts to a type, is an object of the class, or can be
    called. *)
Class Coercion := {
  coerces : ztype -> zval -> bool;
  instance_of : zval -> bool;
  callable : zval -> bool;
}.

Definition is_null (v : zval) : bool := match v with ZNull => true | _ => false end.
Definition is_resource (v : zval) : bool := match v with ZResource _ => true | _ => false end.

Section Acceptance.
Context `{Coercion}.

Definition arg_accepts (a : arg) (v : zval) : bool :=
  match a_type a with
  | None => true
  | Some t => allow_null a && is_null v || coerces t v
  end.

Definition param_accepts (p : z_param) (v : zval) : bool :=
  match p with
  | Z_PARAM_STRING => coerces IS_STRING v
  | Z_PARAM_LONG => coerces IS_LONG v
  | Z_PARAM_BOOL => coerces _IS_BOOL v
  | Z_PARAM_ARRAY => coerces IS_ARRAY v
  | Z_PARAM_ARRAY_OR_NULL => is_null v || coerces IS_ARRAY v
  | Z_PARAM_ZVAL => true
  | Z_PARAM_RESOURCE => is_resource v
  | Z_PARAM_OBJECT_OF_CLASS => instance_of v
  | Z_PARAM_FUNC => callable v
  end.

(** The arguments one by one; arguments that are left are not looked at. *)
Fixpoint all_accepted {A} (accepts : A -> zval -> bool) (ps : list A) (args : list zval) : bool :=
  match ps, args with
  | p :: ps', v :: args' => accepts p v && all_accepted accepts ps' args'
  | _, _ => true
  end.

Definition arginfo_accepts (ai : arginfo) (args : list zval) : bool :=
  (required_num_args ai <=? length args)%nat && (length args <=? length (arg_infos ai))%nat
  && all_accepted arg_accepts (arg_infos ai) args.

Definition zpp_accepts (z : zpp) (args : list zval) : bool :=
  (min_num_args z <=? length args)%nat && (length args <=? max_num_args z)%nat
  && all_accepted param_accepts (z_required z ++ z_optional z) args.
End Acceptance.

(** The declaration of a parameter. *)
Definition declares_param (a : arg) (p : z_param) : bool :=
  match p with
  | Z_PARAM_STRING => bool_decide (a_type a = Some IS_STRING) && negb (allow_null a)
  | Z_PARAM_LONG => bool_decide (a_type a = Some IS_LONG) && negb (allow_null a)
  | Z_PARAM_BOOL => bool_decide (a_type a = Some _IS_BOOL) && negb (allow_null a)
  | Z_PARAM_ARRAY => bool_decide (a_type a = Some IS_ARRAY) && negb (allow_null a)
  | Z_PARAM_ARRAY_OR_NULL => bool_decide (a_type a = Some IS_ARRAY) && allow_null a
  | Z_PARAM_ZVAL | Z_PARAM_RESOURCE => bool_decide (a_type a = None)
  | Z_PARAM_OBJECT_OF_CLASS | Z_PARAM_FUNC => false
  end.

Fixpoint declares_params (l : list arg) (ps : list z_param) : bool :=
  match l, ps with
  | [], [] => true
  | a :: l', p :: ps' => declares_param a p && declares_params l' ps'
  | _, _ => false
  end.

(** The parameters of the method: all, or all but the connection. *)
Definition without_handle (z : zpp) : option zpp :=
  match z_required z with
  | Z_PARAM_RESOURCE :: ps => Some (Zpp (pred (min_num_args z)) (pred (max_num_args z)) ps (z_optional z))
  | _ => None
  end.

Definition truthful (ai : arginfo) (z : zpp) : bool :=
  bool_decide (required_num_args ai = min_num_args z) && bool_decide (length (arg_infos ai) = max_num_args z)
  && declares_params (arg_infos ai) (z_required z ++ z_optional z).

(** A declared signature and the function behind it; [s_self]: the object supplies the
    connection. *)
Record signature := Sig { s_name : string; s_self : bool; s_info : arginfo; s_zpp : zpp }.

Definition agrees (s : signature) : bool :=
  if s_self s then match without_handle (s_zpp s) with Some z => truthful (s_info s) z | None => false end
  else truthful (s_info s) (s_zpp s).

(** The declarations and the functions they are evidently meant for, where the function parses
    its parameters.  For the last five rows a method table of [iibin.c] or [session.c] makes the
    pairing; for the others no table of the sources does, and it is a reading of the names. *)
Definition signatures : list signature := [
  Sig "Config::new" false arginfo_Quicpro_Config_new quicpro_new_config_zpp;
  Sig "MCP::__construct" false arginfo_Quicpro_MCP___construct quicpro_mcp_connect_zpp;
  Sig "MCP::close" true arginfo_Quicpro_MCP_close quicpro_mcp_close_zpp;
  Sig "MCP::request" true arginfo_Quicpro_MCP_request quicpro_mcp_request_zpp;
  Sig "IIBIN::defineEnum" false arginfo_Quicpro_IIBIN_defineEnum quicpro_iibin_define_enum_zpp;
  Sig "IIBIN::defineSchema" false arginfo_Quicpro_IIBIN_defineSchema quicpro_iibin_define_schema_zpp;
  Sig "IIBIN::encode" false arginfo_Quicpro_IIBIN_encode quicpro_iibin_encode_zpp;
  Sig "IIBIN::decode" false arginfo_Quicpro_IIBIN_decode quicpro_iibin_decode_zpp;
  Sig "Cluster::orchestrate" false arginfo_Quicpro_Cluster_orchestrate quicpro_cluster_orchestrate_zpp;
  Sig "Cluster::signalWorkers" false arginfo_Quicpro_Cluster_signalWorkers quicpro_cluster_signal_workers_zpp;
  Sig "PipelineOrchestrator::run" false arginfo_Quicpro_PipelineOrchestrator_run quicpro_pipeline_orchestrator_run_zpp;
  Sig "PipelineOrchestrator::registerToolHandler" false arginfo_Quicpro_PipelineOrchestrator_registerToolHandler
    quicpro_pipeline_orchestrator_register_tool_zpp;
  Sig "MCP::upgradeToWebSocket" true arginfo_Quicpro_MCP_upgradeToWebSocket quicpro_ws_upgrade_zpp;
  Sig "WebSocket::send" true arginfo_Quicpro_WebSocket_send quicpro_ws_send_zpp;
  Sig "WebSocket::getStatus" true arginfo_Quicpro_WebSocket_getStatus quicpro_ws_get_status_zpp;
  Sig "iibin.c: defineEnum" false arginfo_quicpro_iibin_define_enum quicpro_iibin_define_enum_zpp;
  Sig "iibin.c: defineSchema" false arginfo_quicpro_iibin_define_schema quicpro_iibin_define_schema_zpp;
  Sig "iibin.c: encode" false arginfo_quicpro_iibin_encode quicpro_iibin_encode_zpp;
  Sig "iibin.c: decode" false arginfo_quicpro_iibin_decode quicpro_iibin_decode_zpp;
  Sig "Session::__construct" false arginfo_quicpro_session_construct QuicSession_construct_zpp].

Definition untruthful : list string := [
  "IIBIN::encode"; "IIBIN::decode"; "Cluster::signalWorkers"; "WebSocket::send";
  "iibin.c: encode"; "iibin.c: decode"; "Session::__construct"].

Lemma untruthful_exact : map s_name (filter (fun s => agrees s = false) signatures) = untruthful.
Proof. vm_compute. reflexivity. Qed.

(** Parameters parsed as resources hold resources. *)
Definition resources_given (z : zpp) (args : list zval) : bool :=
  all_accepted (fun p v => match p with Z_PARAM_RESOURCE => is_resource v | _ => true end)
    (z_required z ++ z_optional z) args.

Section Truth.
Context `{Coercion}.

Lemma declares_param_accepts a p v : declares_param a p = true ->
  param_accepts p v = arg_accepts a v && match p with Z_PARAM_RESOURCE => is_resource v | _ => true end.
Proof.
  unfold arg_accepts. destruct p, a as [n t [|]]; simpl; intros Hd;
    rewrite ?andb_false_r in Hd; try discriminate; rewrite ?andb_true_r in Hd;
    apply bool_decide_eq_true in Hd as ->; by rewrite ?andb_true_r.
Qed.

Lemma declares_params_accept l : forall ps args, declares_params l ps = true ->
  all_accepted param_accepts ps args = all_accepted arg_accepts l args
    && all_accepted (fun p v => match p with Z_PARAM_RESOURCE => is_resource v | _ => true end) ps args.
Proof.
  induction l as [|a l IH]; intros [|p ps] [|v args] Hd; simpl in *; try done.
  apply andb_true_iff in Hd as [Hp Hd]. rewrite (declares_param_accepts a p v Hp), (IH ps args Hd).
  destruct (arg_accepts a v), (all_accepted arg_accepts l args); simpl; by rewrite ?andb_false_r.
Qed.

Lemma truthful_accepts ai z args : truthful ai z = true ->
  zpp_accepts z args = arginfo_accepts ai args && resources_given z args.
Proof.
  unfold truthful, zpp_accepts, arginfo_accepts, resources_given.
  intros [[Hm%bool_decide_eq_true Hx%bool_decide_eq_true]%andb_true_iff Hd]%andb_true_iff.
  by rewrite Hm, Hx, (declares_params_accept _ _ args Hd), andb_assoc.
Qed.

Lemma without_handle_accepts z z' h args : without_handle z = Some z' -> (0 < min_num_args z <= max_num_args z)%nat ->
  zpp_accepts z (ZResource h :: args) = zpp_accepts z' args /\
  resources_given z (ZResource h :: args) = resources_given z' args.
Proof.
  destruct z as [mn mx [|[] req] opt]; try discriminate. intros [= <-] Hmn. unfold zpp_accepts, resources_given.
  simpl in *. split; [|done]. f_equal. f_equal; [|destruct mx; [lia|done]]. destruct mn; [lia|done].
Qed.
End Truth.

(** In this pairing the declared signatures are truthful, seven of the twenty apart: for every other
    method and every argument list, the C function accepts the call exactly when the
    declaration does and the parameters it parses as resources are resources (the connection
    itself supplied by the object where the method has one). *)
Theorem signatures_truthful `{Coercion} s h args :
  s ∈ signatures -> s_name s ∉ untruthful ->
  let given := if s_self s then ZResource h :: args else args in
  zpp_accepts (s_zpp s) given = arginfo_accepts (s_info s) args && resources_given (s_zpp s) given.
Proof.
  intros Hin Hn. assert (agrees s = true) as Ha.
  { destruct (agrees s) eqn:E; [done|]. destruct Hn. rewrite <-untruthful_exact. apply list_elem_of_fmap.
    exists s. split; [done|]. by apply list_elem_of_filter. }
  assert (0 < min_num_args (s_zpp s) <= max_num_args (s_zpp s) \/ s_self s = false)%nat as Hmn.
  { assert (forallb (fun s => negb (s_self s) || (0 <? min_num_args (s_zpp s))%nat
      && (min_num_args (s_zpp s) <=? max_num_args (s_zpp s))%nat) signatures = true) as Hall by (vm_compute; reflexivity).
    rewrite forallb_forall in Hall. apply list_elem_of_In, Hall in Hin. destruct (s_self s); [left|by right].
    apply andb_true_iff in Hin as [?%Nat.ltb_lt ?%Nat.leb_le]. lia. }
  unfold agrees in Ha. destruct (s_self s); simpl.
  - destruct Hmn as [Hmn|?]; [|done]. destruct (without_handle (s_zpp s)) as [z|] eqn:Ez; [|done].
    destruct (without_handle_accepts _ _ h args Ez Hmn) as [-> ->]. by apply truthful_accepts.
  - by apply truthful_accepts.
Qed.

(** ** The tables *)

(** No row of the function tables of the module, of the TLS file and of [iibin_api.c] names a
    signature that the file can see: those of [iibin.c] are local to it. *)
Lemma tables_without_signatures :
  forallb (fun row => negb (bool_decide (row.2 ∈ arginfo_h_names))) (quicpro_funcs ++ quicpro_tls_functions ++ iibin_methods)%list = true.
Proof. vm_compute. reflexivity. Qed.

(** The method tables of [iibin.c] and [session.c] use their own blocks. *)
Lemma methods_with_signatures :
  forallb (fun row => bool_decide (row.2 ∈ iibin_c_names)) quicpro_iibin_methods = true /\
  forallb (fun row => bool_decide (row.2 ∈ session_c_names)) quicpro_session_methods = true.
Proof. split; vm_compute; reflexivity. Qed.

(** Functions that parse fewer parameters than they demand arguments: every call needs one
    argument more, which is ignored. *)
Definition short (z : zpp) : bool := (length (z_required z ++ z_optional z) <? min_num_args z)%nat.
Lemma short_functions : map short
  [quicpro_http1_server_listen_zpp; quicpro_http2_server_listen_zpp; quicpro_http3_server_listen_zpp;
   quicpro_client_session_ingest_datagram_zpp; quicpro_connect_zpp; quicpro_close_zpp]
  = [true; true; true; true; false; false].
Proof. reflexivity. Qed.

Lemma short_ignores_last `{Coercion} z args : short z = true -> zpp_accepts z args = true ->
  min_num_args z = max_num_args z ->
  exists used last, args = (used ++ [last])%list /\ forall v, zpp_accepts z (used ++ [v])%list = true.
Proof.
  unfold short, zpp_accepts. intros Hs%Nat.ltb_lt Ha Hm.
  apply andb_true_iff in Ha as [[Hmin%Nat.leb_le Hmax%Nat.leb_le]%andb_true_iff Hp].
  destruct args as [|last used _] using rev_ind; [simpl in *; lia|].
  exists used, last. split; [done|]. intros v. rewrite length_app in *. simpl in *.
  rewrite !andb_true_iff, !Nat.leb_le. split; [lia|]. revert Hp.
  assert (length (z_required z ++ z_optional z) <= length used)%nat as Hl by (rewrite length_app; lia). revert Hl. clear.
  revert used. induction (z_required z ++ z_optional z)%list as [|p ps IH]; intros [|u used] Hl; simpl in *; try done; [lia|].
  rewrite !andb_true_iff. intros [Hu Hp]. split; [done|]. apply IH; [lia|done].
Qed.

Module SignatureDemo.
(** A strict engine: no conversions. *)
Definition strict : Coercion := {|
  coerces t v := match t, v with
                 | IS_LONG, ZLong _ | IS_STRING, ZString _ | IS_ARRAY, ZArray _ | IS_OBJECT, ZObject _
                 | _IS_BOOL, ZTrue | _IS_BOOL, ZFalse | IS_FALSE, ZFalse => true
                 | _, _ => false
                 end;
  instance_of v := match v with ZObject _ => true | _ => false end;
  callable v := match v with ZString _ => true | _ => false end;
|}.
#[export] Existing Instance strict.

(** The declared and the parsed signature differ on these calls. *)
Lemma encode_declared_wrong args : arginfo_accepts arginfo_Quicpro_IIBIN_encode [ZString "S"; args] = false /\
  zpp_accepts quicpro_iibin_encode_zpp [ZString "S"; args] = true.
Proof. by destruct args. Qed.
Lemma decode_null : arginfo_accepts arginfo_Quicpro_IIBIN_decode [ZString "S"; ZString ""; ZNull] = true /\
  zpp_accepts quicpro_iibin_decode_zpp [ZString "S"; ZString ""; ZNull] = false.
Proof. done. Qed.
Lemma decode_true : arginfo_accepts arginfo_quicpro_iibin_decode [ZString "S"; ZString ""; ZTrue] = false /\
  zpp_accepts quicpro_iibin_decode_zpp [ZString "S"; ZString ""; ZTrue] = true.
Proof. done. Qed.
Lemma signal_without_file : arginfo_accepts arginfo_Quicpro_Cluster_signalWorkers [ZLong 15] = false /\
  zpp_accepts quicpro_cluster_signal_workers_zpp [ZLong 15] = true.
Proof. done. Qed.
Lemma send_null : arginfo_accepts arginfo_Quicpro_WebSocket_send [ZString "x"; ZNull] = true /\
  zpp_accepts quicpro_ws_send_zpp [ZResource 1; ZString "x"; ZNull] = false.
Proof. done. Qed.
Lemma construct_null : arginfo_accepts arginfo_quicpro_session_construct [ZString "h"; ZLong 443; ZResource 1; ZNull] = true /\
  zpp_accepts QuicSession_construct_zpp [ZString "h"; ZLong 443; ZResource 1; ZNull] = false.
Proof. done. Qed.
End SignatureDemo.
Import SignatureDemo.

Lemma signatures_truthful_witness :
  zpp_accepts quicpro_mcp_request_zpp [ZResource 7; ZString "svc"; ZString "m"; ZString "payload"; ZNull] = true.
Proof.
  pose proof (signatures_truthful (Sig "MCP::request" true arginfo_Quicpro_MCP_request quicpro_mcp_request_zpp) 7
    [ZString "svc"; ZString "m"; ZString "payload"; ZNull]) as Ht.
  apply Ht; [apply list_elem_of_In; do 3 right; by left|].
  apply (bool_decide_unpack _). vm_compute. exact I.
Defined.
