(* ===== verification/IibinLife.v ===== *)
(** * IIBIN from the start of the module to its end

    The start and shutdown functions of the two front ends ([extension/src/iibin/iibin.c] and
    [iibin_api.c]), the PHP functions between them and what a script sees over any sequence
    of calls: the class table, the registries, the results.  The registries are those of
    [IibinSchema] (the build uses [iibin_schema.c]).  The registries are kept across PHP
    requests while their entries are memory of the request that defined them, so the end of a
    request is a step too: what was defined before it may be found, but not looked into.

    The second half shows that within a request types only accumulate: what could be encoded
    stays encoded the same way, and a message written at one point is read at any later one. *)

From Stdlib Require Import ZArith Lia String.
From stdpp Require Import base tactics list gmap strings.
From S2P Require Import Prelude Ieee Zend IibinWire IibinSchema IibinEncode IibinDecode IibinRoundtrip IibinMessage IibinSafety IibinDefine IibinProps Heap Signatures.

Local Open Scope Z_scope.
Set Warnings "-clear-no-such-hyp".

(* ------------------------------------------------------------------------ *)
(** ** The class *)

(** A method as the engine registers it: its name in lower case, the C function, and whether
    it may be called without an object. *)
Record method := mkMethod { m_handler : string; m_static : bool }.
Abbreviation class_entry := (gmap string method).

Definition lower (c : Ascii.ascii) : Ascii.ascii :=
  let n := Ascii.nat_of_ascii c in
  if ((65 <=? n) && (n <=? 90))%nat then Ascii.ascii_of_nat (n + 32) else c.
Fixpoint tolower (s : string) : string :=
  match s with EmptyString => EmptyString | String c s' => String (lower c) (tolower s') end.

(** [PHP_ME(QuicproIIBIN, x, ...)] with the public and static flags names a method [x];
    [PHP_FE(x, ...)] has no flags, which the engine takes as public and not static. *)
Definition iibin_class : class_entry :=
  list_to_map (map (fun row => (tolower (String.substring 14 (String.length row.1 - 14) row.1), mkMethod row.1 true))
    quicpro_iibin_methods).
Definition iibin_api_class : class_entry :=
  list_to_map (map (fun row => (tolower row.1, mkMethod row.1 false)) iibin_methods).

(** What the process holds: the engine's classes, [quicpro_ce_iibin] and the registries, with
    the names of their entries that were allocated in a request that has ended. *)
Record iibin_module := mkIibin {
  class_table : gmap string class_entry;
  quicpro_ce_iibin : option class_entry;
  types : registries;
  stale_schemas : gset string;
  stale_enums : gset string;
}.

(** The types that may be looked into. *)
Definition live (w : iibin_module) : registries :=
  mkRegistries (filter (fun kv => kv.1 ∉ stale_schemas w) (quicpro_iibin_schema_registry (types w)))
    (filter (fun kv => kv.1 ∉ stale_enums w) (quicpro_iibin_enum_registry (types w)))
    (quicpro_iibin_registries_initialized (types w)).

(** [zend_register_internal_class] puts the class into the table, over an older one. *)
Definition zend_register_internal_class (name : string) (ce : class_entry) (w : iibin_module) : iibin_module :=
  mkIibin (<[tolower name := ce]> (class_table w)) (Some ce) (types w) (stale_schemas w) (stale_enums w).
Definition with_types (w : iibin_module) (r : registries) : iibin_module :=
  mkIibin (class_table w) (quicpro_ce_iibin w) r (stale_schemas w) (stale_enums w).

Definition class_name : string := "Quicpro\IIBIN".

(** [iibin.c]: the class, then the registries. *)
Definition quicpro_iibin_minit (w : iibin_module) : iibin_module :=
  let w := zend_register_internal_class class_name iibin_class w in
  with_types w (quicpro_iibin_registries_init (types w)).
Definition quicpro_iibin_mshutdown (w : iibin_module) : iibin_module :=
  with_types w (quicpro_iibin_registries_shutdown (types w)).

(** [iibin_api.c]: the registries, which cannot fail, then the class. *)
Definition PHP_MINIT_quicpro_iibin (w : iibin_module) : iibin_module :=
  let w := with_types w (quicpro_iibin_registries_init (types w)) in
  zend_register_internal_class class_name iibin_api_class w.
Definition PHP_MSHUTDOWN_quicpro_iibin (w : iibin_module) : iibin_module :=
  with_types w (quicpro_iibin_registries_shutdown (types w)).

(** The five functions whose bodies in [iibin_schema.c] are empty: they parse nothing and
    leave the null that the engine prepared. *)
Definition quicpro_iibin_is_schema_defined (r : registries) (name : string) : zval := ZNull.
Definition quicpro_iibin_is_enum_defined (r : registries) (name : string) : zval := ZNull.
Definition quicpro_iibin_is_defined (r : registries) (name : string) : zval := ZNull.
Definition quicpro_iibin_get_defined_schemas (r : registries) : zval := ZNull.
Definition quicpro_iibin_get_defined_enums (r : registries) : zval := ZNull.

Definition at_load : iibin_module := mkIibin ∅ None (mkRegistries ∅ ∅ false) ∅ ∅.

(* ------------------------------------------------------------------------ *)
(** ** Calls *)

Inductive iibin_call :=
| Minit | Mshutdown | MinitApi | MshutdownApi
| DefineSchema (name : string) (fields : hashtable)
| DefineEnum (name : string) (vals : hashtable)
| Encode (name : string) (data : zval)
| Decode (name data : string) (as_object : bool)
| IsDefined (name : string) | IsSchemaDefined (name : string) | IsEnumDefined (name : string)
| GetDefinedSchemas | GetDefinedEnums
| RequestEnd.

Section Calls.
Context `{ZendConv}.
(** The decoder's variant, the address of its input, and the fuel of the two directions. *)
Variables (d : decoder) (base : Z) (ef df : nat).

(** The end of a request releases its memory, and the tables keep the pointers into it. *)
Definition end_request (w : iibin_module) : iibin_module :=
  mkIibin (class_table w) (quicpro_ce_iibin w) (types w)
    (dom (quicpro_iibin_schema_registry (types w))) (dom (quicpro_iibin_enum_registry (types w))).

(** A definition that fails leaves the registries as they were; what it adds is memory of
    the running request. *)
Definition defined (w : iibin_module) (o : outcome iibin_error registries) (schemas enums : gset string)
  : outcome (option iibin_error) zval * iibin_module :=
  match o with
  | Done r => (Done ZTrue, mkIibin (class_table w) (quicpro_ce_iibin w) r schemas enums)
  | Failed e => (Failed (Some e), w)
  | Undefined => (Undefined, w)
  | NoFuel => (NoFuel, w)
  end.

(** Defining a schema only asks whether its types exist, except for a default that is given by
    the name of an enum value, which is looked up in the enum. *)
Definition looks_up_default (w : iibin_module) (row : hkey * zval) : bool :=
  match row with
  | (KStr fname, ZArray opts) =>
      match ht_find (KStr "default") opts,
        parse_php_field_options (types w) fname (filter (fun kv => kv.1 <> KStr "default") opts) with
      | Some (ZString _), Done f =>
          match type f, enum_type_name_if_enum f with
          | IIBIN_INTERNAL_TYPE_ENUM, Some en => bool_decide (cstr en ∈ stale_enums w)
          | _, _ => false
          end
      | _, _ => false
      end
  | _ => false
  end.
Definition schema_uses_stale (w : iibin_module) (name : string) (fields : hashtable) : bool :=
  existsb (fun i =>
    is_done (define_schema_fields (types w) (take i fields) (mkSchema name ∅ ∅ [])) &&
    match fields !! i with Some row => looks_up_default w row | None => false end) (seq 0 (length fields)).
Definition name_free (w : iibin_module) (name : string) : bool :=
  quicpro_iibin_registries_initialized (types w) &&
  negb (is_some (get_compiled_iibin_schema_internal (types w) name)) &&
  negb (is_some (get_compiled_iibin_enum_internal (types w) name)).

(** Encoding and decoding look into every type they find: with the live types alone, a type
    that is reported as missing although the registries have it has been looked into. *)
Definition stale_error (w : iibin_module) (e : iibin_error) : bool :=
  match e with
  | ESchemaNotDefined n | ENestedSchemaNotDefined n _ => bool_decide (cstr n ∈ stale_schemas w)
  | EEnumNotDefined n _ => bool_decide (cstr n ∈ stale_enums w)
  | _ => false
  end.
Definition looked_into {A} (w : iibin_module) (o : outcome (option iibin_error) A) : outcome (option iibin_error) A :=
  match o with Failed (Some e) => if stale_error w e then Undefined else o | _ => o end.

(** The shutdown destroys every entry of the registries. *)
Definition shuts_down (w : iibin_module) (f : iibin_module -> iibin_module) : outcome (option iibin_error) zval * iibin_module :=
  if quicpro_iibin_registries_initialized (types w) && negb (bool_decide (stale_schemas w ∪ stale_enums w = ∅))
  then (Undefined, w) else (Done ZNull, f w).

(** An exception that is pending when a function returns is what the script sees. *)
Definition iibin_step (w : iibin_module) (c : iibin_call) : outcome (option iibin_error) zval * iibin_module :=
  match c with
  | Minit => (Done ZNull, quicpro_iibin_minit w)
  | Mshutdown => shuts_down w quicpro_iibin_mshutdown
  | MinitApi => (Done ZNull, PHP_MINIT_quicpro_iibin w)
  | MshutdownApi => shuts_down w PHP_MSHUTDOWN_quicpro_iibin
  | DefineSchema name fields =>
      if name_free w name && schema_uses_stale w name fields then (Undefined, w)
      else defined w (quicpro_iibin_define_schema (types w) name fields) (stale_schemas w ∖ {[name]}) (stale_enums w)
  | DefineEnum name vals =>
      defined w (quicpro_iibin_define_enum (types w) name vals) (stale_schemas w) (stale_enums w ∖ {[name]})
  | Encode name data =>
      (looked_into w
        match quicpro_iibin_encode (live w) ef name data with
        | Done s => Done (ZString s)
        | Failed e => Failed (Some e)
        | Undefined => Undefined
        | NoFuel => NoFuel
        end, w)
  | Decode name data obj =>
      (looked_into w
        (let! '(v, pending) := quicpro_iibin_decode (live w) d base df name data obj in
         if pending : bool then Failed (Some EBytesRemain) else Done v), w)
  | IsDefined name => (Done (quicpro_iibin_is_defined (types w) name), w)
  | IsSchemaDefined name => (Done (quicpro_iibin_is_schema_defined (types w) name), w)
  | IsEnumDefined name => (Done (quicpro_iibin_is_enum_defined (types w) name), w)
  | GetDefinedSchemas => (Done (quicpro_iibin_get_defined_schemas (types w)), w)
  | GetDefinedEnums => (Done (quicpro_iibin_get_defined_enums (types w)), w)
  | RequestEnd => (Done ZNull, end_request w)
  end.

Definition after (w : iibin_module) (calls : list iibin_call) : iibin_module :=
  foldl (fun w c => (iibin_step w c).2) w calls.
End Calls.

(* ------------------------------------------------------------------------ *)
(** ** Types accumulate *)

Definition extends (r r' : registries) : Prop :=
  (forall n s, get_compiled_iibin_schema_internal r n = Some s -> get_compiled_iibin_schema_internal r' n = Some s) /\
  (forall n e, get_compiled_iibin_enum_internal r n = Some e -> get_compiled_iibin_enum_internal r' n = Some e).

#[export] Instance extends_preorder : PreOrder extends.
Proof. split; [by split|]. intros x y z [H1 H2] [H3 H4]. split; auto. Qed.

Lemma define_schema_extends r name fields r' : quicpro_iibin_define_schema r name fields = Done r' -> extends r r'.
Proof.
  unfold quicpro_iibin_define_schema, extends, get_compiled_iibin_schema_internal, get_compiled_iibin_enum_internal.
  destruct (quicpro_iibin_registries_initialized r) eqn:Ei; [|done]. cbn [negb]. intros Hd.
  destruct (quicpro_iibin_schema_registry r !! cstr name); [done|]. destruct (quicpro_iibin_enum_registry r !! cstr name); [done|].
  apply obind_Done in Hd as (s & _ & Hd). destruct (quicpro_iibin_schema_registry r !! name) eqn:En; [done|].
  injection Hd as <-. cbn. split; [|done]. intros n t Hn. rewrite lookup_insert_ne; [done|]. congruence.
Qed.

Lemma define_enum_extends r name vals r' : quicpro_iibin_define_enum r name vals = Done r' -> extends r r'.
Proof.
  unfold quicpro_iibin_define_enum, extends, get_compiled_iibin_schema_internal, get_compiled_iibin_enum_internal.
  destruct (quicpro_iibin_registries_initialized r) eqn:Ei; [|done]. cbn [negb]. intros Hd.
  destruct (quicpro_iibin_schema_registry r !! cstr name); [done|]. destruct (quicpro_iibin_enum_registry r !! cstr name); [done|].
  apply obind_Done in Hd as (s & _ & Hd). destruct (quicpro_iibin_enum_registry r !! name) eqn:En; [done|].
  injection Hd as <-. cbn. split; [done|]. intros n t Hn. rewrite lookup_insert_ne; [done|]. congruence.
Qed.

Definition is_shutdown (c : iibin_call) : bool := match c with Mshutdown | MshutdownApi => true | _ => false end.
Definition ends_request (c : iibin_call) : bool := match c with RequestEnd => true | _ => false end.
(** What a definition needs of its array, as in [define_schema_correct]. *)
Definition call_ok (c : iibin_call) : Prop := match c with DefineSchema _ fields => fields_input_ok fields | _ => True end.

Lemma live_schema w n s : get_compiled_iibin_schema_internal (live w) n = Some s <->
  get_compiled_iibin_schema_internal (types w) n = Some s /\ cstr n ∉ stale_schemas w.
Proof.
  unfold get_compiled_iibin_schema_internal. cbn. destruct (quicpro_iibin_registries_initialized (types w)); cbn; [|naive_solver].
  by rewrite map_lookup_filter_Some.
Qed.
Lemma live_enum w n e : get_compiled_iibin_enum_internal (live w) n = Some e <->
  get_compiled_iibin_enum_internal (types w) n = Some e /\ cstr n ∉ stale_enums w.
Proof.
  unfold get_compiled_iibin_enum_internal. cbn. destruct (quicpro_iibin_registries_initialized (types w)); cbn; [|naive_solver].
  by rewrite map_lookup_filter_Some.
Qed.

(** Entries of the tables, live or not, stay; and fewer or no more of them are stale. *)
Definition grows (w w' : iibin_module) : Prop :=
  extends (types w) (types w') /\ stale_schemas w' ⊆ stale_schemas w /\ stale_enums w' ⊆ stale_enums w.
#[export] Instance grows_preorder : PreOrder grows.
Proof. split; [by repeat split|]. intros x y z (H1 & H2 & H3) (H4 & H5 & H6). split_and!; [by etrans|set_solver..]. Qed.

Lemma grows_live w w' : grows w w' -> extends (live w) (live w').
Proof. intros ([H1 H2] & H3 & H4). split; intros n x; rewrite ?live_schema, ?live_enum; intros [Hx Hn]; (split; [auto|set_solver]). Qed.

Lemma registries_init_grows w : grows w (with_types w (quicpro_iibin_registries_init (types w))).
Proof.
  split; [|done]. unfold quicpro_iibin_registries_init, extends, get_compiled_iibin_schema_internal, get_compiled_iibin_enum_internal.
  cbn. destruct (quicpro_iibin_registries_initialized (types w)) eqn:E; rewrite ?E; cbn; by split.
Qed.

Section Life.
Context `{ZendConv}.
Variables (d : decoder) (base : Z) (ef df : nat).

Lemma defined_grows w o ss se : (forall r, o = Done r -> extends (types w) r) -> ss ⊆ stale_schemas w -> se ⊆ stale_enums w ->
  grows w (defined w o ss se).2.
Proof. intros Ho Hs He. destruct o as [r| | |]; cbn; try done. split; [by apply Ho|done]. Qed.

Lemma step_grows w c : is_shutdown c = false -> ends_request c = false -> grows w (iibin_step d base ef df w c).2.
Proof.
  destruct c; intros Hc Hr; cbn [iibin_step snd]; try done; try apply registries_init_grows.
  - destruct (_ && _); [done|]. apply defined_grows; [intros r Hd; by eapply define_schema_extends|set_solver|done].
  - apply defined_grows; [intros r Hd; by eapply define_enum_extends|done|set_solver].
Qed.

(** The calls of one request, after the start of the module and before its end. *)
Definition in_request (calls : list iibin_call) : bool := forallb (fun c => negb (is_shutdown c) && negb (ends_request c)) calls.

Lemma after_grows calls : forall w, in_request calls = true -> grows w (after d base ef df w calls).
Proof.
  induction calls as [|c calls IH]; intros w; cbn [in_request forallb]; [done|]. intros [[Hc Hr]%andb_true_iff Hcs]%andb_true_iff.
  etrans; [apply step_grows; by apply negb_true_iff|]. by apply IH.
Qed.

Lemma registries_init_inv r : registry_inv r -> registry_inv (quicpro_iibin_registries_init r).
Proof. intros Hr. unfold quicpro_iibin_registries_init. destruct (quicpro_iibin_registries_initialized r); [done|]. intros n s Hn. by cbn in Hn. Qed.
Lemma registries_shutdown_inv r : registry_inv r -> registry_inv (quicpro_iibin_registries_shutdown r).
Proof. intros Hr. unfold quicpro_iibin_registries_shutdown. destruct (quicpro_iibin_registries_initialized r); [|done]. intros n s Hn. by cbn in Hn. Qed.
Lemma define_enum_keeps_inv r name vals r' : registry_inv r -> quicpro_iibin_define_enum r name vals = Done r' -> registry_inv r'.
Proof.
  intros Hr Hd. unfold quicpro_iibin_define_enum in Hd. destruct (negb _); [done|].
  destruct (get_compiled_iibin_schema_internal r name); [done|]. destruct (get_compiled_iibin_enum_internal r name); [done|].
  apply obind_Done in Hd as (e & _ & Hd). destruct (_ !! name); [done|]. by injection Hd as <-.
Qed.
Lemma live_inv w : registry_inv (types w) -> registry_inv (live w).
Proof. intros Hw n s Hn. apply (Hw n s). cbn in Hn. by apply map_lookup_filter_Some in Hn as [? _]. Qed.

Lemma step_inv w c : registry_inv (types w) -> call_ok c -> registry_inv (types (iibin_step d base ef df w c).2).
Proof.
  intros Hw Hc. destruct c; cbn [iibin_step snd types with_types zend_register_internal_class quicpro_iibin_minit
    quicpro_iibin_mshutdown PHP_MINIT_quicpro_iibin PHP_MSHUTDOWN_quicpro_iibin];
    try done; try (by apply registries_init_inv); try (unfold shuts_down; destruct (_ && _); [done|by apply registries_shutdown_inv]).
  - destruct (_ && _); [done|].
    destruct (quicpro_iibin_define_schema (types w) name fields) eqn:E; cbn; try done. by eapply define_schema_inv.
  - destruct (quicpro_iibin_define_enum (types w) name vals) eqn:E; cbn; try done. by eapply define_enum_keeps_inv.
Qed.

Lemma after_inv calls : forall w, registry_inv (types w) -> Forall call_ok calls -> registry_inv (types (after d base ef df w calls)).
Proof.
  induction calls as [|c calls IH]; intros w Hw Hc; [done|]. inversion Hc; subst. apply IH; [|done]. by apply step_inv.
Qed.

(** A schema of a request that has ended: it is found, and no call other than the shutdown
    of the process ends that. *)
Definition stale (name : string) (w : iibin_module) : Prop :=
  cstr name ∈ stale_schemas w /\ exists s, get_compiled_iibin_schema_internal (types w) name = Some s.

Lemma stale_initialized name w : stale name w -> quicpro_iibin_registries_initialized (types w) = true.
Proof. intros [_ [s Hs]]. unfold get_compiled_iibin_schema_internal in Hs. by destruct (quicpro_iibin_registries_initialized _). Qed.

Lemma stale_not_live name w : stale name w -> get_compiled_iibin_schema_internal (live w) name = None.
Proof.
  intros [Hn _]. destruct (get_compiled_iibin_schema_internal (live w) name) eqn:E; [|done]. by apply live_schema in E as [_ ?].
Qed.

Lemma end_request_stale w name s : get_compiled_iibin_schema_internal (types w) name = Some s -> stale name (end_request w).
Proof.
  intros Hs. split; [|by exists s]. cbn. apply elem_of_dom. exists s. unfold get_compiled_iibin_schema_internal in Hs.
  by destruct (quicpro_iibin_registries_initialized (types w)).
Qed.

Lemma shuts_down_stale name w f : stale name w -> shuts_down w f = (Undefined, w).
Proof.
  intros Hn. unfold shuts_down. rewrite (stale_initialized name w Hn). destruct Hn as [Hn _].
  rewrite bool_decide_eq_false_2; [done|]. set_solver.
Qed.

Lemma stale_undefined name w : stale name w ->
  (forall data, (iibin_step d base ef df w (Encode name data)).1 = Undefined) /\
  (forall str obj, (iibin_step d base ef df w (Decode name str obj)).1 = Undefined) /\
  (iibin_step d base ef df w Mshutdown).1 = Undefined /\ (iibin_step d base ef df w MshutdownApi).1 = Undefined.
Proof.
  intros Hn. cbn [iibin_step fst]. rewrite !(shuts_down_stale name w) by done.
  unfold quicpro_iibin_encode, quicpro_iibin_decode. rewrite (stale_not_live name w Hn). cbn [obind looked_into stale_error].
  rewrite bool_decide_eq_true_2 by apply Hn. done.
Qed.

Lemma step_stale name w c : stale name w -> stale name (iibin_step d base ef df w c).2.
Proof.
  intros Hn. pose proof Hn as [Hs [s Hg]].
  destruct c; cbn [iibin_step snd]; try done; try (by rewrite (shuts_down_stale name)).
  - split; [done|]. exists s. by apply registries_init_grows.
  - split; [done|]. exists s. by apply registries_init_grows.
  - destruct (_ && _); [done|]. destruct (quicpro_iibin_define_schema _ _ _) as [r| | |] eqn:E; cbn; try done.
    split; [|exists s; by apply (define_schema_extends _ _ _ _ E)]. cbn. apply elem_of_difference. split; [done|].
    intros Heq%elem_of_singleton. subst name0. unfold quicpro_iibin_define_schema in E. destruct (negb _); [done|].
    destruct (get_compiled_iibin_schema_internal (types w) (cstr name)); [done|].
    destruct (get_compiled_iibin_enum_internal (types w) (cstr name)); [done|]. apply obind_Done in E as (x & _ & E).
    unfold get_compiled_iibin_schema_internal in Hg. rewrite (stale_initialized name w Hn) in Hg. cbn in Hg. by rewrite Hg in E.
  - destruct (quicpro_iibin_define_enum _ _ _) as [r| | |] eqn:E; cbn; try done.
    split; [done|exists s; by apply (define_enum_extends _ _ _ _ E)].
  - by eapply end_request_stale.
Qed.

Lemma after_stale name calls : forall w, stale name w -> stale name (after d base ef df w calls).
Proof. induction calls as [|c calls IH]; intros w Hn; [done|]. by apply IH, step_stale. Qed.
End Life.

(* ------------------------------------------------------------------------ *)
(** ** What could be encoded is encoded the same way *)

(** A step that was done is done the same way. *)
Definition carries {E A} (x y : outcome E A) : Prop := forall a, x = Done a -> y = Done a.

Lemma carries_refl {E A} (x : outcome E A) : carries x x.
Proof. by intros a. Qed.
Lemma carries_bind {E A B} (x y : outcome E A) (f g : A -> outcome E B) :
  carries x y -> (forall a, x = Done a -> carries (f a) (g a)) -> carries (obind x f) (obind y g).
Proof. intros Hx Hf b (a & Ha & Hb)%obind_Done. rewrite (Hx a Ha). cbn. by apply (Hf a Ha). Qed.
#[local] Hint Resolve carries_refl : core.

Section Carry.
Context `{ZendConv}.
Variables r r' : registries.
Hypothesis Hext : extends r r'.

Lemma enum_number_carries f v : carries (enum_number r f v) (enum_number r' f v).
Proof.
  unfold enum_number. destruct v; try done. destruct (enum_type_name_if_enum f) as [en|]; [|done].
  destruct (get_compiled_iibin_enum_internal r en) as [e|] eqn:E; [|by intros a].
  by rewrite (proj2 Hext _ _ E).
Qed.

(** Nested messages, by both registries. *)
Variables rec rec' : schema_def -> zval -> outcome iibin_error (list Byte.byte).
Hypothesis Hrec : forall s v, carries (rec s v) (rec' s v).

Lemma encode_value_carries f v : carries (encode_value r rec f v) (encode_value r' rec' f v).
Proof.
  unfold encode_value. destruct (type f); try done.
  - destruct v; try done; (destruct (message_type_name_if_nested f) as [mn|]; [|done]);
      (destruct (get_compiled_iibin_schema_internal r mn) as [s|] eqn:E; [|by intros a]);
      rewrite (proj1 Hext _ _ E); by apply carries_bind.
  - apply carries_bind; [apply enum_number_carries|done].
Qed.

Lemma encode_single_carries f v : carries (encode_single_field_value r rec f v) (encode_single_field_value r' rec' f v).
Proof. apply carries_bind; [done|]. intros _ _. apply carries_bind; [apply encode_value_carries|done]. Qed.

Lemma encode_repeated_carries f items : carries (encode_repeated r rec f items) (encode_repeated r' rec' f items).
Proof.
  induction items as [|i items IH]; cbn [encode_repeated]; [done|].
  apply carries_bind; [apply encode_single_carries|]. intros b _. by apply carries_bind.
Qed.

Lemma encode_field_carries f v : carries (encode_field_internal r rec f v) (encode_field_internal r' rec' f v).
Proof.
  unfold encode_field_internal. destruct v as [v|]; [|done].
  destruct (has_flag f IIBIN_FIELD_FLAG_REPEATED), v; try done; try apply encode_single_carries.
  destruct (decide _); [done|]. destruct (has_flag f IIBIN_FIELD_FLAG_PACKED); [done|apply encode_repeated_carries].
Qed.

Lemma encode_fields_carries fs data : carries (encode_fields r rec fs data) (encode_fields r' rec' fs data).
Proof.
  induction fs as [|f fs IH]; cbn [encode_fields]; [done|].
  apply carries_bind; [apply encode_field_carries|]. intros b _. by apply carries_bind.
Qed.

(** The value that is read back does not depend on which of the two is asked. *)
Variables norm norm' : schema_def -> zval -> zval.
Hypothesis Hnorm : forall s v bs, rec s v = Done bs -> norm s v = norm' s v.

Lemma norm_value_same f v bs : encode_value r rec f v = Done bs -> norm_value r norm f v = norm_value r' norm' f v.
Proof.
  unfold encode_value, norm_value. destruct (type f); try done.
  - destruct v; try done; (destruct (message_type_name_if_nested f) as [mn|]; [|done]);
      (destruct (get_compiled_iibin_schema_internal r mn) as [s|] eqn:E; [|done]);
      rewrite (proj1 Hext _ _ E); intros (nested & Hn & _)%obind_Done; by eapply Hnorm.
  - intros (n & Hn & _)%obind_Done. by rewrite Hn, (enum_number_carries f v n Hn).
Qed.

Lemma norm_single_same f v bs : encode_single_field_value r rec f v = Done bs -> norm_value r norm f v = norm_value r' norm' f v.
Proof. intros (u & _ & (b & Hb & _)%obind_Done)%obind_Done. by eapply norm_value_same. Qed.

Lemma norm_items_same f items : forall bs, encode_repeated r rec f items = Done bs ->
  map (norm_value r norm f) items = map (norm_value r' norm' f) items.
Proof.
  induction items as [|i items IH]; intros bs; cbn [encode_repeated map]; [done|].
  intros (b & Hb & (bs' & Hbs & _)%obind_Done)%obind_Done. by rewrite (norm_single_same f i b Hb), (IH bs').
Qed.

Lemma norm_field_same f v bs : encode_field_internal r rec f v = Done bs ->
  norm_field r norm f v = norm_field r' norm' f v.
Proof.
  unfold encode_field_internal, norm_field. destruct v as [v|]; [|done].
  destruct (has_flag f IIBIN_FIELD_FLAG_REPEATED), v; try done; try (intros Hs; by rewrite (norm_single_same _ _ _ Hs)).
  destruct (decide _); [done|]. destruct (has_flag f IIBIN_FIELD_FLAG_PACKED); [done|].
  intros Hs. by rewrite (norm_items_same _ _ _ Hs).
Qed.

Lemma norm_fields_same fs data : forall bs, encode_fields r rec fs data = Done bs ->
  norm_fields r norm fs data = norm_fields r' norm' fs data.
Proof.
  induction fs as [|f fs IH]; intros bs; cbn [encode_fields norm_fields]; [done|].
  intros (b & Hb & (bs' & Hbs & _)%obind_Done)%obind_Done. by rewrite (norm_field_same _ _ _ Hb), (IH bs').
Qed.

Lemma field_encoded fs data f : f ∈ fs -> forall bs, encode_fields r rec fs data = Done bs ->
  exists b, encode_field_internal r rec f (read_field data f) = Done b.
Proof.
  induction 1 as [f fs|f g fs _ IH]; intros bs; cbn [encode_fields];
    intros (b & Hb & (bs' & Hbs & _)%obind_Done)%obind_Done; eauto.
Qed.
End Carry.

Lemma encode_message_carries `{ZendConv} r r' : extends r r' -> forall fuel s v,
  carries (encode_message_internal r fuel s v) (encode_message_internal r' fuel s v).
Proof.
  intros Hext. induction fuel as [|fuel IH]; intros s v; cbn [encode_message_internal]; [done|].
  by destruct v; try done; apply encode_fields_carries.
Qed.

Lemma norm_message_same `{ZendConv} r r' : extends r r' -> forall fuel s v bs,
  encode_message_internal r fuel s v = Done bs -> norm_message r fuel s v = norm_message r' fuel s v.
Proof.
  intros Hext. induction fuel as [|fuel IH]; intros s v bs; cbn [encode_message_internal norm_message]; [done|].
  destruct v; try done; intros Hs; f_equal;
    by apply (norm_fields_same r r' Hext (encode_message_internal r fuel) _ _ IH _ _ bs).
Qed.

(* ------------------------------------------------------------------------ *)
(** ** A message and the time *)

(** C2: A message and the types it needs, over the life of the module.  A message of a
    schema of scalar fields that is encoded in a request is decoded by any later call of the
    same request, whatever was defined, encoded, decoded or initialised again in between,
    through either front end: every field has the value it had when it was encoded (in its
    wire normal form), else its default, else no entry.  After the end of the request the type
    is still found in its registry, but was released with the request: encoding or decoding
    with it, and the shutdown of the module, are undefined, in every later request. *)
Theorem iibin_message_survives `{ZendConv} base ef df w calls name s data str :
  registry_inv (types w) -> Forall call_ok calls -> in_request calls = true ->
  get_compiled_iibin_schema_internal (live w) name = Some s -> base_ok base str ->
  Forall (fun f => scalar_field f = true) (ordered_fields s) ->
  (iibin_step as_written base (S ef) df w (Encode name data)).1 = Done (ZString str) -> (String.length str < df)%nat ->
  (forall f, f ∈ ordered_fields s -> has_flag f IIBIN_FIELD_FLAG_REQUIRED = true ->
     has_flag f IIBIN_FIELD_FLAG_REPEATED = true -> read_field data f <> Some (ZArray [])) ->
  let w' := after as_written base (S ef) df w calls in
  (exists ht,
    (iibin_step as_written base (S ef) df w' (Decode name str false)).1 = Done (ZArray ht) /\
    forall f, f ∈ ordered_fields s ->
      ht_find (KStr (name_in_php f)) ht = decoded_field (live w) (norm_message (live w) ef) data f) /\
  forall later, let w2 := after as_written base (S ef) df (end_request w') later in
    (forall v, (iibin_step as_written base (S ef) df w2 (Encode name v)).1 = Undefined) /\
    (forall bytes obj, (iibin_step as_written base (S ef) df w2 (Decode name bytes obj)).1 = Undefined) /\
    (iibin_step as_written base (S ef) df w2 Mshutdown).1 = Undefined /\
    (iibin_step as_written base (S ef) df w2 MshutdownApi).1 = Undefined.
Proof.
  intros Hw Hok Hs Hn Hb Hd He Hdf Hne w'.
  pose proof (after_grows as_written base (S ef) df calls w Hs) as Hg. fold w' in Hg. pose proof (grows_live _ _ Hg) as Hx.
  cbn [iibin_step fst] in He. destruct (quicpro_iibin_encode (live w) (S ef) name data) as [str'|er| |] eqn:Henc;
    cbn [looked_into] in He; [|by destruct (stale_error w er)|done|done].
  injection He as ->. unfold quicpro_iibin_encode in Henc. rewrite Hn in Henc. apply obind_Done in Henc as (bs & Hbs & Hstr).
  assert (Henc' : quicpro_iibin_encode (live w') (S ef) name data = Done str).
  { unfold quicpro_iibin_encode. by rewrite (proj1 Hx _ _ Hn), (encode_message_carries _ _ Hx _ _ _ _ Hbs). }
  assert (Hwf : schema_wf s) by (eapply (registry_inv_wf _ (live_inv w Hw)); exact Hn).
  split.
  - destruct (roundtrip_fields (live w') as_written base ef df name s data str) as (ht & Hdec & Hf); try done.
    + by apply Hx.
    + by apply as_written_sane, mem_of_string_wf.
    + exists ht. cbn [iibin_step fst]. rewrite Hdec. split; [done|]. intros f Hin. rewrite (Hf f Hin). unfold decoded_field.
      assert (encode_fields (live w) (encode_message_internal (live w) ef) (ordered_fields s) data = Done bs) as Hfs
        by (cbn in Hbs; by destruct data).
      destruct (field_encoded _ _ _ _ _ Hin _ Hfs) as [b Hfb].
      by rewrite (norm_field_same _ _ Hx _ _ _ (norm_message_same _ _ Hx ef) _ _ _ Hfb).
  - intros later w2. apply stale_undefined, after_stale, end_request_stale with (s := s).
    apply live_schema, Hx. done.
Qed.

(** Whether the last start or shutdown was a start. *)
Fixpoint running (now : bool) (calls : list iibin_call) : bool :=
  match calls with
  | [] => now
  | (Minit | MinitApi) :: calls' => running true calls'
  | (Mshutdown | MshutdownApi) :: calls' => running false calls'
  | _ :: calls' => running now calls'
  end.

Lemma define_keeps_running r c r' : c = Done r' ->
  (exists n f, c = quicpro_iibin_define_schema r n f) \/ (exists n v, c = quicpro_iibin_define_enum r n v) ->
  quicpro_iibin_registries_initialized r = true /\ quicpro_iibin_registries_initialized r' = true.
Proof.
  intros -> [(n & f & Hd)|(n & v & Hd)]; symmetry in Hd;
    [unfold quicpro_iibin_define_schema in Hd|unfold quicpro_iibin_define_enum in Hd];
    (destruct (quicpro_iibin_registries_initialized r); [|done]); cbn [negb] in Hd;
    (destruct (get_compiled_iibin_schema_internal r n); [done|]); (destruct (get_compiled_iibin_enum_internal r n); [done|]);
    apply obind_Done in Hd as (s & _ & Hd); (destruct (_ !! n); [done|]); by injection Hd as <-.
Qed.

(** As long as no request has ended, nothing is stale. *)
Definition fresh_module (w : iibin_module) : Prop := stale_schemas w = ∅ /\ stale_enums w = ∅.

Lemma shuts_down_fresh w f : fresh_module w -> shuts_down w f = (Done ZNull, f w).
Proof.
  intros [H1 H2]. unfold shuts_down. rewrite H1, H2, bool_decide_eq_true_2 by set_solver. by rewrite andb_false_r.
Qed.

Lemma step_fresh `{ZendConv} d base ef df w c : ends_request c = false -> fresh_module w ->
  fresh_module (iibin_step d base ef df w c).2.
Proof.
  intros Hc Hw. destruct (is_shutdown c) eqn:Es.
  - destruct c; try done; cbn [iibin_step]; by rewrite shuts_down_fresh.
  - destruct (step_grows d base ef df w c Es Hc) as (_ & H1 & H2), Hw as [H3 H4]. split; set_solver.
Qed.

Lemma step_running `{ZendConv} d base ef df w c : fresh_module w ->
  quicpro_iibin_registries_initialized (types (iibin_step d base ef df w c).2) =
  running (quicpro_iibin_registries_initialized (types w)) [c].
Proof.
  intros Hw. destruct c; cbn [iibin_step]; rewrite ?shuts_down_fresh by done;
    cbn [running snd types with_types zend_register_internal_class quicpro_iibin_minit
    quicpro_iibin_mshutdown PHP_MINIT_quicpro_iibin PHP_MSHUTDOWN_quicpro_iibin end_request]; try done;
    try (by unfold quicpro_iibin_registries_init, quicpro_iibin_registries_shutdown;
         destruct (quicpro_iibin_registries_initialized (types w)) eqn:E; rewrite ?E).
  - destruct (_ && _); [done|]. destruct (quicpro_iibin_define_schema _ _ _) as [r'| | |] eqn:E; try done.
    by destruct (define_keeps_running (types w) _ r' E) as [-> Hr]; [left; eauto|].
  - destruct (quicpro_iibin_define_enum _ _ _) as [r'| | |] eqn:E; try done.
    by destruct (define_keeps_running (types w) _ r' E) as [-> Hr]; [right; eauto|].
Qed.

Lemma after_running `{ZendConv} d base ef df calls : forall w, fresh_module w -> forallb (fun c => negb (ends_request c)) calls = true ->
  fresh_module (after d base ef df w calls) /\
  quicpro_iibin_registries_initialized (types (after d base ef df w calls)) =
  running (quicpro_iibin_registries_initialized (types w)) calls.
Proof.
  induction calls as [|c calls IH]; intros w Hw; [done|]. cbn [forallb]. intros [Hc%negb_true_iff Hcs]%andb_true_iff.
  change (after d base ef df w (c :: calls)) with (after d base ef df (iibin_step d base ef df w c).2 calls).
  destruct (IH _ (step_fresh d base ef df w c Hc Hw) Hcs) as [H1 H2]. split; [done|]. rewrite H2, step_running by done.
  by destruct c.
Qed.

(** From the loading of the module to the end of the first request, whatever is called: every
    registered schema is well formed; before the first start and after a shutdown nothing can
    be defined, encoded or decoded, through either front end; and the functions that should
    say what is defined answer null. *)
Theorem iibin_life `{ZendConv} d base ef df calls : Forall call_ok calls -> forallb (fun c => negb (ends_request c)) calls = true ->
  let w := after d base ef df at_load calls in
  registry_inv (types w) /\
  (running false calls = false -> forall name data fields str obj,
     iibin_step d base ef df w (DefineSchema name fields) = (Failed (Some ENotInitialized), w) /\
     iibin_step d base ef df w (DefineEnum name fields) = (Failed (Some ENotInitialized), w) /\
     iibin_step d base ef df w (Encode name data) = (Failed (Some (ESchemaNotDefined name)), w) /\
     iibin_step d base ef df w (Decode name str obj) = (Failed (Some (ESchemaNotDefined name)), w)) /\
  (forall name, map (fun c => (iibin_step d base ef df w c).1)
     [IsDefined name; IsSchemaDefined name; IsEnumDefined name; GetDefinedSchemas; GetDefinedEnums] =
   replicate 5 (Done ZNull)).
Proof.
  intros Hok Hreq w. split; [|split].
  - apply after_inv; [|done]. intros n s Hn. by cbn in Hn.
  - intros Hr name data fields str obj. destruct (after_running d base ef df calls at_load) as [[Hf1 Hf2] Hi]; [done|done|].
    cbn in Hi. rewrite Hr in Hi. fold w in Hi, Hf1, Hf2. cbn [iibin_step]. unfold name_free. rewrite Hi. cbn [andb].
    unfold quicpro_iibin_define_schema, quicpro_iibin_define_enum, quicpro_iibin_encode, quicpro_iibin_decode,
      get_compiled_iibin_schema_internal. cbn [live quicpro_iibin_registries_initialized]. rewrite Hi.
    cbn [negb looked_into obind stale_error defined]. by rewrite Hf1, bool_decide_eq_false_2 by set_solver.
  - done.
Qed.

(** The nine documented methods can be called on the class of [iibin.c]; the class of
    [iibin_api.c], which its comment calls static-only, has none of them, and no static
    method at all. *)
Definition documented : list string :=
  ["defineEnum"; "defineSchema"; "encode"; "decode"; "isDefined"; "isSchemaDefined"; "isEnumDefined";
   "getDefinedSchemas"; "getDefinedEnums"]%string.

Definition static_call (w : iibin_module) (class meth : string) : option string :=
  match class_table w !! tolower class with
  | Some ce => match ce !! tolower meth with Some m => if m_static m then Some (m_handler m) else None | None => None end
  | None => None
  end.

Theorem class_of_front_ends w : 
  map (static_call (quicpro_iibin_minit w) class_name) documented =
    map (fun m => Some ("QuicproIIBIN::" ++ m)%string) documented /\
  map (static_call (PHP_MINIT_quicpro_iibin w) class_name) documented = replicate 9 None /\
  map_Forall (fun _ m => m_static m = false) iibin_api_class.
Proof.
  split; [|split].
  - unfold static_call, quicpro_iibin_minit. cbn [class_table with_types zend_register_internal_class].
    rewrite lookup_insert_eq. vm_compute. reflexivity.
  - unfold static_call, PHP_MINIT_quicpro_iibin. cbn [class_table with_types zend_register_internal_class].
    rewrite lookup_insert_eq. vm_compute. reflexivity.
  - apply (bool_decide_unpack _). vm_compute. reflexivity.
Qed.

(* ------------------------------------------------------------------------ *)
(** ** Witness: more types and a second start between the two *)

Import Demo.

Module LifeDemo.
Definition w0 : iibin_module := with_types (quicpro_iibin_minit at_load) r4.
Definition later : list iibin_call :=
  [DefineEnum "Late" [(KStr "A", ZLong 1)]; MinitApi; DefineSchema "More" point_fields; Encode "Point" (point 1 2);
   DefineSchema "Shape" []].
End LifeDemo.

Lemma iibin_message_survives_witness :
  (exists ht,
    (iibin_step as_written 4096 5 100 (after as_written 4096 5 100 LifeDemo.w0 LifeDemo.later)
       (Decode "Sample" (Demo.bytes_of "Sample" Demo.sample) false)).1 = Done (ZArray ht) /\
    ht_find (KStr "color") ht = Some (ZLong 7)) /\
  (iibin_step as_written 4096 5 100 (after as_written 4096 5 100
     (end_request (after as_written 4096 5 100 LifeDemo.w0 LifeDemo.later)) []) Mshutdown).1 = Undefined.
Proof.
  destruct (iibin_message_survives 4096 4 100 LifeDemo.w0 LifeDemo.later "Sample" (Demo.schema "Sample")
    Demo.sample (Demo.bytes_of "Sample" Demo.sample)) as [(ht & Hd & Hf) Hl].
  - exact Demo.r4_inv.
  - repeat constructor; try (apply Demo.tag_small; [lia|reflexivity]);
      apply (bool_decide_unpack _); vm_compute; reflexivity.
  - reflexivity.
  - vm_compute. reflexivity.
  - in_block.
  - vm_compute. repeat constructor.
  - vm_compute. reflexivity.
  - vm_compute. lia.
  - apply no_required_repeated. vm_compute. reflexivity.
  - destruct (Hl []) as (_ & _ & Hm & _). split; [|exact Hm]. exists ht. split; [exact Hd|].
    specialize (Hf (nth 2 (ordered_fields (Demo.schema "Sample")) (mkFieldDef "" 0 IIBIN_INTERNAL_TYPE_BOOL 0 None false None None ZUndef 0))).
    apply Hf. apply list_elem_of_In, nth_In. vm_compute. lia.
Defined.
